(** * xeogl v0.7: geometry buffer management and compression

    A shallow embedding of [src/geometry/geometry.js]: the quantizer
    ([getBounds], [quantizeVec3], [quantizeVec2]), the normal oct-encoder
    ([octEncode], [octEncodeVec3], [octDecodeVec2]), the geometry record
    ([_init] and the attribute setters), the combined buffer pool
    ([SceneVertexBufs]) and the edge-index builder ([buildEdgesIndices]).

    JavaScript numbers are modelled as rationals extended with the two
    infinities and NaN, with the special values of IEEE arithmetic (division
    by zero, [0 * Infinity], comparisons with NaN, conversions on typed-array
    stores); zero carries no sign. [getBounds] and the quantizers round as
    the code does: every store in their [Float32Array]s to a mantissa of 24
    bits, every difference, product and quotient to one of 53 bits. The rest
    is written with the exact operations. For the pool and the edge builder
    these are operations on lengths, indices and the vertex counts of whole
    triples, which doubles hold exactly; where a statement depends on the
    value of an offset it assumes positions in whole triples. For the
    oct-encoder the statements are about which of its candidates it keeps
    and about the bytes of a zero normal, not about the bytes a rounded
    quotient gives. The [Float32Array]s of a geometry are taken to hold
    float32 values already: a plain array copied to one is not rounded. *)

From Stdlib Require Import String ZArith QArith Qround Qabs Bool Lia Lqa List.
Import ListNotations.

Set Implicit Arguments.

(* ================================================================== *)
(** * JavaScript values the geometry code computes with               *)
(* ================================================================== *)

Module JS.

(** A JavaScript number. *)
Inductive num : Type :=
| Fin (q : Q)
| PInf
| NInf
| NaN.

Definition of_Z (z : Z) : num := Fin (inject_Z z).
Definition of_nat (n : nat) : num := of_Z (Z.of_nat n).

Definition Qltb (a b : Q) : bool := negb (Qle_bool b a).

(** The sign of a number ([Eq] for zero and for NaN). *)
Definition sign (a : num) : comparison :=
  match a with
  | Fin q => q ?= 0
  | PInf => Gt
  | NInf => Lt
  | NaN => Eq
  end.

Definition sign_mul (c d : comparison) : comparison :=
  match c, d with
  | Eq, _ | _, Eq => Eq
  | Gt, Gt | Lt, Lt => Gt
  | _, _ => Lt
  end.

(** The infinity of a sign; no sign ([0 * Infinity], [0 / 0]) gives NaN. *)
Definition inf_of (c : comparison) : num :=
  match c with
  | Gt => PInf
  | Lt => NInf
  | Eq => NaN
  end.

Definition neg (a : num) : num :=
  match a with
  | Fin q => Fin (- q)
  | PInf => NInf
  | NInf => PInf
  | NaN => NaN
  end.

Definition add (a b : num) : num :=
  match a, b with
  | NaN, _ | _, NaN => NaN
  | Fin x, Fin y => Fin (x + y)
  | PInf, NInf | NInf, PInf => NaN
  | PInf, _ | _, PInf => PInf
  | NInf, _ | _, NInf => NInf
  end.

Definition sub (a b : num) : num := add a (neg b).

Definition mul (a b : num) : num :=
  match a, b with
  | NaN, _ | _, NaN => NaN
  | Fin x, Fin y => Fin (x * y)
  | _, _ => inf_of (sign_mul (sign a) (sign b))
  end.

(** [a / b]. A finite dividend over zero gives the infinity of the
    dividend's sign, [0 / 0] gives NaN. *)
Definition div (a b : num) : num :=
  match a, b with
  | NaN, _ | _, NaN => NaN
  | Fin x, Fin y => if Qeq_bool y 0 then inf_of (x ?= 0) else Fin (x / y)
  | Fin _, _ => Fin 0
  | _, Fin y => inf_of (sign_mul (sign a) (if Qeq_bool y 0 then Gt else y ?= 0))
  | _, _ => NaN
  end.

(** [a < b]; false as soon as one side is NaN. *)
Definition lt (a b : num) : bool :=
  match a, b with
  | NaN, _ | _, NaN => false
  | Fin x, Fin y => Qltb x y
  | NInf, NInf => false
  | NInf, _ => true
  | _, PInf => match a with PInf => false | _ => true end
  | _, _ => false
  end.

Definition gt (a b : num) : bool := lt b a.

(** [a == b] on numbers; NaN equals nothing. *)
Definition eqb (a b : num) : bool :=
  match a, b with
  | Fin x, Fin y => Qeq_bool x y
  | PInf, PInf | NInf, NInf => true
  | _, _ => false
  end.

(** [a >= b]; false as soon as one side is NaN. *)
Definition ge (a b : num) : bool :=
  match a, b with
  | NaN, _ | _, NaN => false
  | _, _ => negb (lt a b)
  end.

(** [Math.min] and [Math.max]: NaN as soon as one argument is NaN. *)
Definition min (a b : num) : num :=
  match a, b with
  | NaN, _ | _, NaN => NaN
  | _, _ => if lt b a then b else a
  end.

Definition max (a b : num) : num :=
  match a, b with
  | NaN, _ | _, NaN => NaN
  | _, _ => if lt a b then b else a
  end.

Definition abs (a : num) : num :=
  match a with
  | Fin q => Fin (Qabs q)
  | PInf | NInf => PInf
  | NaN => NaN
  end.

Definition floor (a : num) : num :=
  match a with
  | Fin q => of_Z (Qfloor q)
  | _ => a
  end.

Definition ceil (a : num) : num :=
  match a with
  | Fin q => of_Z (Qceiling q)
  | _ => a
  end.

(** Truthiness of a number: every number but zero and NaN. *)
Definition truthy (a : num) : bool :=
  match a with
  | Fin q => negb (Qeq_bool q 0)
  | PInf | NInf => true
  | NaN => false
  end.

(** ** Rounding

    A number the code computes is a double: the exact result of an
    arithmetic operation rounded to the nearest number with a mantissa of 53
    bits, to the one with the even mantissa of two equally near, and to an
    infinity from half a unit beyond the largest double on. A
    [Float32Array] rounds what is stored in it the same way to a mantissa of
    24 bits. *)

(** [2^k]. *)
Definition pow2 (k : Z) : Q := Qpower 2 k.

(** The exponent [e] of a number [a > 0]: [2^e <= a < 2^(e+1)]. The
    difference of the binary lengths of numerator and denominator is [e] or
    [e + 1]. *)
Definition exponent (a : Q) : Z :=
  let k := (Z.log2 (Qnum a) - Z.log2 (Zpos (Qden a)))%Z in
  if Qle_bool (pow2 k) a then k else (k - 1)%Z.

(** The integer nearest to [x >= 0], the even one of two equally near. *)
Definition nearest_even (x : Q) : Z :=
  let f := Qfloor x in
  match Qcompare (x - inject_Z f) (1 # 2) with
  | Lt => f
  | Gt => (f + 1)%Z
  | Eq => if Z.even f then f else (f + 1)%Z
  end.

(** [q] rounded to the binary format with [prec] bits of mantissa and
    exponents below [emax]; the numbers below [2^(2 - emax)] are spaced
    [2^(3 - emax - prec)] apart. The result is a reduced fraction. *)
Definition round_to (prec emax : Z) (q : Q) : num :=
  let q := Qred q in
  if Qeq_bool q 0 then Fin 0
  else
    let a := Qabs q in
    let ulp := pow2 (Z.max (exponent a - prec + 1) (3 - emax - prec)) in
    let r := inject_Z (nearest_even (a / ulp)) * ulp in
    if Qle_bool (pow2 emax) r
    then (if Qle_bool 0 q then PInf else NInf)
    else Fin (Qred (if Qle_bool 0 q then r else - r)).

(** The double nearest to the exact result of an operation. *)
Definition double (a : num) : num :=
  match a with
  | Fin q => round_to 53 1024 q
  | _ => a
  end.

(** [Math.fround], and what a [Float32Array] holds of a number stored in
    it. *)
Definition fround (a : num) : num :=
  match a with
  | Fin q => round_to 24 128 q
  | _ => a
  end.

(** ** Typed-array stores

    Storing a number in an integer typed array truncates it towards zero
    and wraps it modulo the element width; NaN and the infinities are
    stored as 0. *)

Definition trunc (q : Q) : Z :=
  if Qle_bool 0 q then Qfloor q else Qceiling q.

Definition toUint16 (a : num) : Z :=
  match a with
  | Fin q => (trunc q) mod 65536
  | _ => 0
  end.

Definition toUint32 (a : num) : Z :=
  match a with
  | Fin q => (trunc q) mod 4294967296
  | _ => 0
  end.

Definition toInt8 (a : num) : Z :=
  match a with
  | Fin q => let m := ((trunc q) mod 256)%Z in
             if (128 <=? m)%Z then (m - 256)%Z else m
  | _ => 0
  end.

(** Reading [array[i]]: an index out of range reads [undefined], which every
    arithmetic operation and [Math.min]/[Math.max] convert to NaN. *)
Definition get (array : list num) (i : nat) : num := nth i array NaN.

(** Reading [array[ix]] with a computed number as the key: only a
    non-negative integer names an element. *)
Definition getAt (array : list num) (ix : num) : num :=
  match ix with
  | Fin q =>
      if Qle_bool 0 q && Qeq_bool (inject_Z (Qfloor q)) q
      then get array (Z.to_nat (Qfloor q))
      else NaN
  | _ => NaN
  end.

(** Reading an integer typed array as numbers. *)
Definition getZ (array : list Z) (i : nat) : num :=
  match nth_error array i with
  | Some z => of_Z z
  | None => NaN
  end.

(** Writing [array[i] = x] on a typed array: the length is fixed, a write out
    of range is ignored. *)
Fixpoint set (A : Type) (array : list A) (i : nat) (x : A) : list A :=
  match array, i with
  | [], _ => []
  | _ :: t, O => x :: t
  | h :: t, S i' => h :: set t i' x
  end.

(** [for (i = start; i < stop; i += step) s = body(i, s)]. The fuel bounds
    the number of iterations; [stop] iterations are enough from 0 with a
    positive step. *)
Fixpoint for_loop (S : Type) (fuel i stop step : nat)
                  (body : nat -> S -> S) (s : S) : S :=
  match fuel with
  | O => s
  | Datatypes.S fuel' =>
      if (i <? stop)%nat
      then for_loop fuel' (i + step) stop step body (body i s)
      else s
  end.

(** ** Objects used as maps

    A property key is either a canonical array index (["0"], ["17"]; a
    number used as a key is one) or any other string. An object keeps its own
    properties in creation order; [for (k in o)] (every property here is an
    own one, so the [hasOwnProperty] test always passes) enumerates the array
    indices first, in ascending order, then the other strings in creation
    order. *)

Inductive key : Type :=
| Idx (n : N)
| Str (s : string).

Definition key_eqb (a b : key) : bool :=
  match a, b with
  | Idx n, Idx m => N.eqb n m
  | Str s, Str t => String.eqb s t
  | _, _ => false
  end.

(** The number a string of decimal digits stands for. *)
Fixpoint digits (s : string) (acc : N) : option N :=
  match s with
  | EmptyString => Some acc
  | String c rest =>
      let n := Ascii.N_of_ascii c in
      if ((48 <=? n) && (n <=? 57))%N
      then digits rest (10 * acc + (n - 48))%N
      else None
  end.

(** The string is the numeral of an array index: decimal digits without a
    leading zero, for a number below [2^32 - 1]. *)
Definition isArrayIndex (s : string) : bool :=
  match s with
  | EmptyString => false
  | String c rest =>
      match digits s 0 with
      | Some n =>
          (n <? 4294967295)%N
          && (negb (Ascii.N_of_ascii c =? 48)%N || String.eqb rest EmptyString)
      | None => false
      end
  end.

(** A key as an object has it: an array index is below [2^32 - 1], and a
    string is not the numeral of one. *)
Definition canonical (k : key) : bool :=
  match k with
  | Idx n => (n <? 4294967295)%N
  | Str s => negb (isArrayIndex s)
  end.

Definition obj (V : Type) : Type := list (key * V).

(** [o[k]]; [None] is [undefined]. *)
Fixpoint lookup (V : Type) (o : obj V) (k : key) : option V :=
  match o with
  | [] => None
  | (k', v) :: rest => if key_eqb k' k then Some v else lookup rest k
  end.

Definition has (V : Type) (o : obj V) (k : key) : bool :=
  match lookup o k with
  | Some _ => true
  | None => false
  end.

(** [o[k] = v]: an existing property keeps its place, a new one is created
    last. *)
Fixpoint assign (V : Type) (o : obj V) (k : key) (v : V) : obj V :=
  match o with
  | [] => [(k, v)]
  | (k', v') :: rest =>
      if key_eqb k' k then (k', v) :: rest else (k', v') :: assign rest k v
  end.

(** [delete o[k]]. *)
Definition delete (V : Type) (o : obj V) (k : key) : obj V :=
  filter (fun p => negb (key_eqb (fst p) k)) o.

Fixpoint insert_index (n : N) (l : list N) : list N :=
  match l with
  | [] => [n]
  | m :: rest => if (n <=? m)%N then n :: l else m :: insert_index n rest
  end.

Definition index_keys (V : Type) (o : obj V) : list N :=
  fold_right (fun p acc => match fst p with Idx n => insert_index n acc | Str _ => acc end)
             [] o.

Definition string_keys (V : Type) (o : obj V) : list key :=
  filter (fun k => match k with Str _ => true | Idx _ => false end) (map fst o).

(** The keys in the order [for (k in o)] visits them. *)
Definition keys (V : Type) (o : obj V) : list key :=
  map Idx (index_keys o) ++ string_keys o.

(** [!!x] for a value that is an object or [null]/[undefined]. *)
Definition is_some (A : Type) (o : option A) : bool :=
  match o with
  | Some _ => true
  | None => false
  end.

(** A value a configuration may hold where the code only tests it or
    defaults it with [||]: [undefined], [null], a boolean or a number. *)
Inductive value : Type :=
| VUndefined
| VNull
| VBool (b : bool)
| VNum (n : num).

Definition truthy_value (v : value) : bool :=
  match v with
  | VUndefined | VNull => false
  | VBool b => b
  | VNum n => truthy n
  end.

(** The number a value stands for in arithmetic. *)
Definition toNumber (v : value) : num :=
  match v with
  | VUndefined => NaN
  | VNull => Fin 0
  | VBool b => if b then Fin 1 else Fin 0
  | VNum n => n
  end.

(** [a || b]. *)
Definition or_else (a b : value) : value := if truthy_value a then a else b.

(** The outcome of a call: a value, or an exception thrown. *)
Inductive completion (A : Type) : Type :=
| Normal (a : A)
| Throw (e : string).

Arguments Throw {A} e.

Definition bind (A B : Type) (c : completion A) (f : A -> completion B) : completion B :=
  match c with
  | Normal a => f a
  | Throw e => Throw e
  end.

End JS.

(* ================================================================== *)
(** * Matrix helpers of xeogl.math                                     *)
(* ================================================================== *)

Module XMath.

(** Modelled from the spec: [xeogl.math] (identityMat4, translationMat4v,
    scalingMat4v, mulMat4, their 3x3 counterparts and decompressPosition) is
    not among the sources. The spec gives the decode transform as
    [translate(min) . scale((max - min) / 65535)] and decoding as the product
    of that matrix with the quantized vector; matrices are flat, column
    after column, as WebGL takes them. *)
Definition identityMat (n : nat) : list JS.num :=
  map (fun k => if (k / n =? k mod n)%nat then JS.Fin 1 else JS.Fin 0)
      (seq 0 (n * n)).

Definition identityMat4 : list JS.num := identityMat 4.
Definition identityMat3 : list JS.num := identityMat 3.

(** Modelled from the spec: the translation is written into the last column
    of [dest]. *)
Definition translationMat4v (v dest : list JS.num) : list JS.num :=
  JS.set (JS.set (JS.set dest 12 (JS.get v 0)) 13 (JS.get v 1)) 14 (JS.get v 2).

Definition translationMat3v (v dest : list JS.num) : list JS.num :=
  JS.set (JS.set dest 6 (JS.get v 0)) 7 (JS.get v 1).

(** Modelled from the spec: the scale is written on the diagonal of [dest]. *)
Definition scalingMat4v (v dest : list JS.num) : list JS.num :=
  JS.set (JS.set (JS.set dest 0 (JS.get v 0)) 5 (JS.get v 1)) 10 (JS.get v 2).

Definition scalingMat3v (v dest : list JS.num) : list JS.num :=
  JS.set (JS.set dest 0 (JS.get v 0)) 4 (JS.get v 1).

(** Modelled from the spec: the matrix product [a . b] of two [n] by [n]
    matrices. *)
Definition mulMat (n : nat) (a b : list JS.num) : list JS.num :=
  map (fun k =>
         let c := (k / n)%nat in
         let r := (k mod n)%nat in
         fold_left (fun acc j => JS.add acc (JS.mul (JS.get a (j * n + r)) (JS.get b (c * n + j))))
                   (seq 1 (n - 1))
                   (JS.mul (JS.get a r) (JS.get b (c * n))))
      (seq 0 (n * n)).

Definition mulMat4 (a b : list JS.num) : list JS.num := mulMat 4 a b.
Definition mulMat3 (a b : list JS.num) : list JS.num := mulMat 3 a b.

(** Modelled from the spec: decoding one quantized position is the product of
    the decode matrix with the position extended by 1. *)
Definition decompressPosition (position : list Z) (decodeMatrix : list JS.num)
  : list JS.num :=
  map (fun r =>
         JS.add (JS.add (JS.add (JS.mul (JS.getZ position 0) (JS.get decodeMatrix r))
                                (JS.mul (JS.getZ position 1) (JS.get decodeMatrix (4 + r))))
                        (JS.mul (JS.getZ position 2) (JS.get decodeMatrix (8 + r))))
                (JS.get decodeMatrix (12 + r)))
      (seq 0 3).

(** Modelled from the spec: decoding one quantized UV pair with the 3x3
    decode matrix. *)
Definition decompressUV (uv : list Z) (decodeMatrix : list JS.num)
  : list JS.num :=
  map (fun r =>
         JS.add (JS.add (JS.mul (JS.getZ uv 0) (JS.get decodeMatrix r))
                        (JS.mul (JS.getZ uv 1) (JS.get decodeMatrix (3 + r))))
                (JS.get decodeMatrix (6 + r)))
      (seq 0 2).

(** Modelled from the spec: decoding a whole array, one tuple after the
    other ([decompressPositions], [decompressUVs]). *)
Fixpoint decompressPositions (positions : list Z) (decodeMatrix : list JS.num)
  : list JS.num :=
  match positions with
  | x :: y :: z :: rest =>
      decompressPosition [x; y; z] decodeMatrix ++ decompressPositions rest decodeMatrix
  | _ => []
  end.

Fixpoint decompressUVs (uv : list Z) (decodeMatrix : list JS.num)
  : list JS.num :=
  match uv with
  | u :: v :: rest => decompressUV [u; v] decodeMatrix ++ decompressUVs rest decodeMatrix
  | _ => []
  end.

(** Modelled from the spec: the vector helpers the edge builder calls,
    [subVec3], [cross3Vec3], [dotVec3] and [normalizeVec3] (a vector scaled
    by the inverse of its length; [sqrt] is [Math.sqrt]). *)
Definition subVec3 (u v : list JS.num) : list JS.num :=
  [ JS.sub (JS.get u 0) (JS.get v 0);
    JS.sub (JS.get u 1) (JS.get v 1);
    JS.sub (JS.get u 2) (JS.get v 2) ].

Definition cross3Vec3 (u v : list JS.num) : list JS.num :=
  [ JS.sub (JS.mul (JS.get u 1) (JS.get v 2)) (JS.mul (JS.get u 2) (JS.get v 1));
    JS.sub (JS.mul (JS.get u 2) (JS.get v 0)) (JS.mul (JS.get u 0) (JS.get v 2));
    JS.sub (JS.mul (JS.get u 0) (JS.get v 1)) (JS.mul (JS.get u 1) (JS.get v 0)) ].

Definition dotVec3 (u v : list JS.num) : JS.num :=
  JS.add (JS.add (JS.mul (JS.get u 0) (JS.get v 0)) (JS.mul (JS.get u 1) (JS.get v 1)))
         (JS.mul (JS.get u 2) (JS.get v 2)).

Definition lenVec3 (sqrt : JS.num -> JS.num) (v : list JS.num) : JS.num :=
  sqrt (dotVec3 v v).

Definition normalizeVec3 (sqrt : JS.num -> JS.num) (v : list JS.num) : list JS.num :=
  let f := JS.div (JS.Fin 1) (lenVec3 sqrt v) in
  [ JS.mul (JS.get v 0) f; JS.mul (JS.get v 1) f; JS.mul (JS.get v 2) f ].

End XMath.

(* ================================================================== *)
(** * Quantizer                                                        *)
(* ================================================================== *)

Record Bounds : Type := mkBounds { bmin : list JS.num; bmax : list JS.num }.

(** [min[i] = Number.MAX_VALUE] on a [Float32Array]: the value is beyond the
    float32 range, the array holds +Infinity (and -Infinity for its
    opposite). *)
Definition MAX_VALUE_f32 : JS.num := JS.PInf.

(** The first loop of [getBounds]: every component starts at the extreme
    value. *)
Definition getBounds_init (stride : nat) : Bounds :=
  JS.for_loop stride 0 stride 1
    (fun i b => mkBounds (JS.set (bmin b) i MAX_VALUE_f32)
                         (JS.set (bmax b) i (JS.neg MAX_VALUE_f32)))
    (mkBounds (repeat (JS.Fin 0) stride) (repeat (JS.Fin 0) stride)).

(** The body of the inner loop: component [j] of the tuple that starts at
    [i]. [min] and [max] are [Float32Array]s: they round what [Math.min] and
    [Math.max] return. *)
Definition getBounds_component (array : list JS.num) (i j : nat) (b : Bounds)
  : Bounds :=
  mkBounds (JS.set (bmin b) j
                   (JS.fround (JS.min (JS.get (bmin b) j) (JS.get array (i + j)))))
           (JS.set (bmax b) j
                   (JS.fround (JS.max (JS.get (bmax b) j) (JS.get array (i + j))))).

(** [getBounds(array, stride)]. *)
Definition getBounds (array : list JS.num) (stride : nat) : Bounds :=
  JS.for_loop (length array) 0 (length array) stride
    (fun i b => JS.for_loop stride 0 stride 1 (getBounds_component array i) b)
    (getBounds_init stride).

Record Quantized : Type := mkQuantized { quantized : list Z; decode : list JS.num }.

Definition Q65535 : JS.num := JS.Fin 65535.

(** [(a - b) * m], a difference and a product of doubles. *)
Definition scaled (a b m : JS.num) : JS.num :=
  JS.double (JS.mul (JS.double (JS.sub a b)) m).

(** One component of the quantization loop:
    [Math.floor((array[i + k] - min[k]) * multiplier[k])] stored in a
    [Uint16Array]. *)
Definition quantizeComponent (array min multiplier : list JS.num) (i k : nat) : Z :=
  JS.toUint16 (JS.floor (scaled (JS.get array (i + k)) (JS.get min k)
                                (JS.get multiplier k))).

(** The extent [max[k] - min[k]] of an axis, the multiplier
    [65535 / (max[k] - min[k])] as the [Float32Array] of the multipliers
    holds it, and the scale [(max[k] - min[k]) / 65535]. *)
Definition extentOf (min max : list JS.num) (k : nat) : JS.num :=
  JS.double (JS.sub (JS.get max k) (JS.get min k)).

Definition multiplierOf (min max : list JS.num) (k : nat) : JS.num :=
  JS.fround (JS.double (JS.div Q65535 (extentOf min max k))).

Definition scaleOf (min max : list JS.num) (k : nat) : JS.num :=
  JS.double (JS.div (extentOf min max k) Q65535).

(** The quantization loop of [quantizeVec3]. *)
Definition quantizeVec3_loop (array min multiplier : list JS.num) : list Z :=
  JS.for_loop (length array) 0 (length array) 3
    (fun i q =>
       JS.set (JS.set (JS.set q (i + 0) (quantizeComponent array min multiplier i 0))
                      (i + 1) (quantizeComponent array min multiplier i 1))
              (i + 2) (quantizeComponent array min multiplier i 2))
    (repeat 0%Z (length array)).

(** [quantizeVec3(array, min, max)]. *)
Definition quantizeVec3 (array min max : list JS.num) : Quantized :=
  let multiplier :=
    [ multiplierOf min max 0; multiplierOf min max 1; multiplierOf min max 2 ] in
  let quantized := quantizeVec3_loop array min multiplier in
  let translate := XMath.translationMat4v min XMath.identityMat4 in
  let scale :=
    XMath.scalingMat4v [ scaleOf min max 0; scaleOf min max 1; scaleOf min max 2 ]
                       XMath.identityMat4 in
  mkQuantized quantized (XMath.mulMat4 translate scale).

(** The quantization loop of [quantizeVec2]. *)
Definition quantizeVec2_loop (array min multiplier : list JS.num) : list Z :=
  JS.for_loop (length array) 0 (length array) 2
    (fun i q =>
       JS.set (JS.set q (i + 0) (quantizeComponent array min multiplier i 0))
              (i + 1) (quantizeComponent array min multiplier i 1))
    (repeat 0%Z (length array)).

(** [quantizeVec2(array, min, max)]. *)
Definition quantizeVec2 (array min max : list JS.num) : Quantized :=
  let multiplier := [ multiplierOf min max 0; multiplierOf min max 1 ] in
  let quantized := quantizeVec2_loop array min multiplier in
  let translate := XMath.translationMat3v min XMath.identityMat3 in
  let scale :=
    XMath.scalingMat3v [ scaleOf min max 0; scaleOf min max 1 ] XMath.identityMat3 in
  mkQuantized quantized (XMath.mulMat3 translate scale).

(* ================================================================== *)
(** * Normal oct-encoder                                               *)
(* ================================================================== *)

(** The rounding function [octEncodeVec3] is called with: ["floor"] or
    ["ceil"], looked up on [Math]. *)
Inductive rounding : Type := Floor | Ceil.

Definition Math_round (f : rounding) (a : JS.num) : JS.num :=
  match f with
  | Floor => JS.floor a
  | Ceil => JS.ceil a
  end.

(** [new Int8Array([a, b, ...])]. *)
Definition Int8Array_of (l : list JS.num) : list Z := map JS.toInt8 l.

(** [c ? 1 : -1] and [c ? -1 : 0]. *)
Definition one_or_minus_one (c : bool) : JS.num := if c then JS.Fin 1 else JS.Fin (- (1)).
Definition minus_one_or_zero (c : bool) : JS.num := if c then JS.Fin (- (1)) else JS.Fin 0.

(** [octEncodeVec3(array, i, xfunc, yfunc)]: oct-encode the normal at [i] in
    two signed bytes. *)
Definition octEncodeVec3 (array : list JS.num) (i : nat) (xfunc yfunc : rounding)
  : list Z :=
  let sum := JS.add (JS.add (JS.abs (JS.get array i)) (JS.abs (JS.get array (i + 1))))
                    (JS.abs (JS.get array (i + 2))) in
  let x := JS.div (JS.get array i) sum in
  let y := JS.div (JS.get array (i + 1)) sum in
  let '(x, y) :=
    if JS.lt (JS.get array (i + 2)) (JS.Fin 0)
    then
      let tempx := JS.mul (JS.sub (JS.Fin 1) (JS.abs y))
                          (one_or_minus_one (JS.ge x (JS.Fin 0))) in
      let tempy := JS.mul (JS.sub (JS.Fin 1) (JS.abs x))
                          (one_or_minus_one (JS.ge y (JS.Fin 0))) in
      (tempx, tempy)
    else (x, y) in
  Int8Array_of
    [ Math_round xfunc (JS.add (JS.mul x (JS.Fin (255 # 2)))
                               (minus_one_or_zero (JS.lt x (JS.Fin 0))));
      Math_round yfunc (JS.add (JS.mul y (JS.Fin (255 # 2)))
                               (minus_one_or_zero (JS.lt y (JS.Fin 0)))) ].

(** [dot(array, i, vec3)]: the normal at [i] against a candidate decoding. *)
Definition dot (array : list JS.num) (i : nat) (vec3 : list JS.num) : JS.num :=
  JS.add (JS.add (JS.mul (JS.get array i) (JS.get vec3 0))
                 (JS.mul (JS.get array (i + 1)) (JS.get vec3 1)))
         (JS.mul (JS.get array (i + 2)) (JS.get vec3 2)).

Section OctEncoder.

(** [Math.sqrt], a primitive of the platform. *)
Variable sqrt : JS.num -> JS.num.

(** [octDecodeVec2(oct)]: decode an oct-encoded normal. In the fold-back
    branch [y] is computed from the [x] just assigned. *)
Definition octDecodeVec2 (oct : list Z) : list JS.num :=
  let x := JS.getZ oct 0 in
  let y := JS.getZ oct 1 in
  let x := JS.div x (if JS.lt x (JS.Fin 0) then JS.Fin 127 else JS.Fin 128) in
  let y := JS.div y (if JS.lt y (JS.Fin 0) then JS.Fin 127 else JS.Fin 128) in
  let z := JS.sub (JS.sub (JS.Fin 1) (JS.abs x)) (JS.abs y) in
  let '(x, y) :=
    if JS.lt z (JS.Fin 0)
    then
      let x' := JS.mul (JS.sub (JS.Fin 1) (JS.abs y))
                       (one_or_minus_one (JS.ge x (JS.Fin 0))) in
      let y' := JS.mul (JS.sub (JS.Fin 1) (JS.abs x'))
                       (one_or_minus_one (JS.ge y (JS.Fin 0))) in
      (x', y')
    else (x, y) in
  let length := sqrt (JS.add (JS.add (JS.mul x x) (JS.mul y y)) (JS.mul z z)) in
  [ JS.div x length; JS.div y length; JS.div z length ].

(** The selection state of one normal: the best candidate so far and its
    dot product. *)
Record Best : Type := mkBest { best : list Z; bestCos : JS.num }.

(** One more candidate: it replaces the best one when its dot product is
    strictly greater. *)
Definition tryCandidate (array : list JS.num) (i : nat) (xfunc yfunc : rounding)
           (s : Best) : Best :=
  let oct := octEncodeVec3 array i xfunc yfunc in
  let dec := octDecodeVec2 oct in
  let currentCos := dot array i dec in
  if JS.gt currentCos (bestCos s) then mkBest oct currentCos else s.

(** The body of the loop of [octEncode] for the normal at [i]: the four
    combinations of floor and ceil, in the order of the source. *)
Definition octEncodeBest (array : list JS.num) (i : nat) : Best :=
  let oct := octEncodeVec3 array i Floor Floor in
  let dec := octDecodeVec2 oct in
  let s := mkBest oct (dot array i dec) in
  let s := tryCandidate array i Ceil Floor s in
  let s := tryCandidate array i Floor Ceil s in
  tryCandidate array i Ceil Ceil s.

(** [octEncode(array)]. The loop runs on [i] and carries [ei] with the
    encoded array. *)
Definition octEncode (array : list JS.num) : list Z :=
  let encoded := repeat 0%Z (length array * 2 / 3) in
  snd (JS.for_loop (length array) 0 (length array) 3
         (fun i '(ei, encoded) =>
            let b := best (octEncodeBest array i) in
            (ei + 2, JS.set (JS.set encoded ei (nth 0 b 0%Z)) (ei + 1) (nth 1 b 0%Z))%nat)
         (0%nat, encoded)).

End OctEncoder.

(** A rational stand-in for [Math.sqrt] to evaluate the decoder on examples:
    four Newton steps from [(q + 1) / 2]. *)
Definition newton_sqrt (a : JS.num) : JS.num :=
  match a with
  | JS.Fin q =>
      if Qle_bool q 0
      then (if Qeq_bool q 0 then JS.Fin 0 else JS.NaN)
      else JS.Fin (Nat.iter 4 (fun x => (x + q / x) / 2) ((q + 1) / 2))
  | JS.PInf => JS.PInf
  | _ => JS.NaN
  end.

(** Example normals: a unit vector with rational components, one of the
    lower hemisphere and an axis. *)
Definition sample_normals : list Q := [3 # 5; 4 # 5; 0; 2 # 7; - (3 # 7); - (6 # 7); 0; 0; 1].

(** Every axis of the bounds has a maximum strictly above its minimum. *)
Definition axes_nondegenerate (b : Bounds) (stride : nat) : bool :=
  forallb (fun j => JS.lt (JS.get (bmin b) j) (JS.get (bmax b) j)) (seq 0 stride).

(** The example arrays the statements below are evaluated on: three
    position triples with every axis of positive extent, and two triples
    whose second axis is constant. *)
Definition sample_positions : list Q := [0; 0; 0; 1; 2; 4; 1 # 2; 1; 3].
Definition flat_positions : list Q := [0; 5; 0; 1; 5; 4].
Definition flat_uv : list Q := [0; 5; 1; 5].

(** The number literal [0.1], the double nearest to one tenth; two position
    triples whose least first coordinate it is, and two whose first
    coordinate it is throughout. *)
Definition tenth : JS.num := JS.double (JS.Fin (1 # 10)).
Definition tenth_positions : list JS.num :=
  [tenth; JS.Fin 0; JS.Fin 0; JS.Fin 1; JS.Fin 1; JS.Fin 1].
Definition tenth_flat_positions : list JS.num :=
  [tenth; JS.Fin 0; JS.Fin 0; tenth; JS.Fin 1; JS.Fin 1].

(* ================================================================== *)
(** * Renderer objects                                                 *)
(* ================================================================== *)

Module Renderer.

Inductive TypedArray : Type :=
| Float32Array (items : list JS.num)
| Uint16Array (items : list Z)
| Uint32Array (items : list Z)
| Int8Array (items : list Z).

Definition length (a : TypedArray) : nat :=
  match a with
  | Float32Array l => List.length l
  | Uint16Array l | Uint32Array l | Int8Array l => List.length l
  end.

(** The elements read as numbers. *)
Definition numbers (a : TypedArray) : list JS.num :=
  match a with
  | Float32Array l => l
  | Uint16Array l | Uint32Array l | Int8Array l => map JS.of_Z l
  end.

(** The elements of an index array. [_init] stores indices in a
    [Uint16Array] or a [Uint32Array]; the other cases are there for
    totality. *)
Definition integers (a : TypedArray) : list Z :=
  match a with
  | Float32Array l => map JS.toUint32 l
  | Uint16Array l | Uint32Array l | Int8Array l => l
  end.

(** [a.set(source)] for a source as long as [a]. *)
Definition typedSet (a : TypedArray) (source : list JS.num) : TypedArray :=
  match a with
  | Float32Array _ => Float32Array source
  | Uint16Array _ => Uint16Array (map JS.toUint16 source)
  | Uint32Array _ => Uint32Array (map JS.toUint32 source)
  | Int8Array _ => Int8Array (map JS.toInt8 source)
  end.

Inductive Target : Type := ARRAY_BUFFER | ELEMENT_ARRAY_BUFFER.

(** Modelled from the spec: [xeogl.renderer.ArrayBuffer], the GPU buffer
    handle the core allocates, is not among the sources. It is modelled as
    what it was given: [new ArrayBuffer(gl, target, data, numItems, itemSize,
    usage)], and [setData(data)] replacing the data. *)
Record ArrayBuffer : Type := mkArrayBuffer {
  target : Target;
  data : TypedArray;
  numItems : nat;
  itemSize : nat
}.

Definition setData (buf : ArrayBuffer) (d : TypedArray) : ArrayBuffer :=
  mkArrayBuffer (target buf) d (numItems buf) (itemSize buf).

(** Modelled from the spec: [setData(data, offset)] overwrites the elements
    from [offset] on. *)
Definition overwrite (A : Type) (l d : list A) (offset : nat) : list A :=
  firstn offset l ++ firstn (List.length l - offset) d ++ skipn (offset + List.length d) l.

Definition setDataAt (buf : ArrayBuffer) (d : TypedArray) (offset : nat) : ArrayBuffer :=
  let d' :=
    match data buf, d with
    | Float32Array l, _ => Float32Array (overwrite l (numbers d) offset)
    | Uint16Array l, _ => Uint16Array (overwrite l (map JS.toUint16 (numbers d)) offset)
    | Uint32Array l, _ => Uint32Array (overwrite l (map JS.toUint32 (numbers d)) offset)
    | Int8Array l, _ => Int8Array (overwrite l (map JS.toInt8 (numbers d)) offset)
    end in
  mkArrayBuffer (target buf) d' (numItems buf) (itemSize buf).

(** [xeogl.renderer.VertexBufs]: the buffer set of one chunk. A field left
    out of the constructor's argument is [undefined]. *)
Record VertexBufs : Type := mkVertexBufs {
  vb_positionsBuf : option ArrayBuffer;
  vb_normalsBuf : option ArrayBuffer;
  vb_uvBuf : option ArrayBuffer;
  vb_colorsBuf : option ArrayBuffer;
  vb_quantized : option bool
}.

(** A reference to a [VertexBufs] object: the module's [nullVertexBufs], or
    the [n]-th buffer set a pool created. *)
Inductive VertexBufsRef : Type :=
| nullVertexBufs
| Chunk (n : nat).

Inductive Primitive : Type :=
| POINTS | LINES | LINE_LOOP | LINE_STRIP | TRIANGLES | TRIANGLE_STRIP | TRIANGLE_FAN.

(** [xeogl.renderer.Geometry]: the state object of a geometry, which the
    pool, the renderer and the component share. *)
Record Geometry : Type := mkGeometry {
  id : JS.key;
  combined : bool;
  quantized : bool;
  autoVertexNormals : bool;
  primitive : option Primitive;
  primitiveName : option string;
  positions : option TypedArray;
  normals : option TypedArray;
  colors : option TypedArray;
  uv : option TypedArray;
  indices : option TypedArray;
  positionsDecodeMatrix : option (list JS.num);
  uvDecodeMatrix : option (list JS.num);
  positionsBuf : option ArrayBuffer;
  normalsBuf : option ArrayBuffer;
  colorsBuf : option ArrayBuffer;
  uvBuf : option ArrayBuffer;
  indicesBuf : option ArrayBuffer;
  indicesBufCombined : option ArrayBuffer;
  hash : string
}.

Definition set_primitive (g : Geometry) (v : option Primitive) : Geometry :=
  mkGeometry (id g) (combined g) (quantized g) (autoVertexNormals g) v (primitiveName g) (positions g) (normals g) (colors g) (uv g) (indices g) (positionsDecodeMatrix g) (uvDecodeMatrix g) (positionsBuf g) (normalsBuf g) (colorsBuf g) (uvBuf g) (indicesBuf g) (indicesBufCombined g) (hash g).

Definition set_primitiveName (g : Geometry) (v : option string) : Geometry :=
  mkGeometry (id g) (combined g) (quantized g) (autoVertexNormals g) (primitive g) v (positions g) (normals g) (colors g) (uv g) (indices g) (positionsDecodeMatrix g) (uvDecodeMatrix g) (positionsBuf g) (normalsBuf g) (colorsBuf g) (uvBuf g) (indicesBuf g) (indicesBufCombined g) (hash g).

Definition set_positions (g : Geometry) (v : option TypedArray) : Geometry :=
  mkGeometry (id g) (combined g) (quantized g) (autoVertexNormals g) (primitive g) (primitiveName g) v (normals g) (colors g) (uv g) (indices g) (positionsDecodeMatrix g) (uvDecodeMatrix g) (positionsBuf g) (normalsBuf g) (colorsBuf g) (uvBuf g) (indicesBuf g) (indicesBufCombined g) (hash g).

Definition set_normals (g : Geometry) (v : option TypedArray) : Geometry :=
  mkGeometry (id g) (combined g) (quantized g) (autoVertexNormals g) (primitive g) (primitiveName g) (positions g) v (colors g) (uv g) (indices g) (positionsDecodeMatrix g) (uvDecodeMatrix g) (positionsBuf g) (normalsBuf g) (colorsBuf g) (uvBuf g) (indicesBuf g) (indicesBufCombined g) (hash g).

Definition set_colors (g : Geometry) (v : option TypedArray) : Geometry :=
  mkGeometry (id g) (combined g) (quantized g) (autoVertexNormals g) (primitive g) (primitiveName g) (positions g) (normals g) v (uv g) (indices g) (positionsDecodeMatrix g) (uvDecodeMatrix g) (positionsBuf g) (normalsBuf g) (colorsBuf g) (uvBuf g) (indicesBuf g) (indicesBufCombined g) (hash g).

Definition set_uv (g : Geometry) (v : option TypedArray) : Geometry :=
  mkGeometry (id g) (combined g) (quantized g) (autoVertexNormals g) (primitive g) (primitiveName g) (positions g) (normals g) (colors g) v (indices g) (positionsDecodeMatrix g) (uvDecodeMatrix g) (positionsBuf g) (normalsBuf g) (colorsBuf g) (uvBuf g) (indicesBuf g) (indicesBufCombined g) (hash g).

Definition set_indices (g : Geometry) (v : option TypedArray) : Geometry :=
  mkGeometry (id g) (combined g) (quantized g) (autoVertexNormals g) (primitive g) (primitiveName g) (positions g) (normals g) (colors g) (uv g) v (positionsDecodeMatrix g) (uvDecodeMatrix g) (positionsBuf g) (normalsBuf g) (colorsBuf g) (uvBuf g) (indicesBuf g) (indicesBufCombined g) (hash g).

Definition set_positionsDecodeMatrix (g : Geometry) (v : option (list JS.num)) : Geometry :=
  mkGeometry (id g) (combined g) (quantized g) (autoVertexNormals g) (primitive g) (primitiveName g) (positions g) (normals g) (colors g) (uv g) (indices g) v (uvDecodeMatrix g) (positionsBuf g) (normalsBuf g) (colorsBuf g) (uvBuf g) (indicesBuf g) (indicesBufCombined g) (hash g).

Definition set_uvDecodeMatrix (g : Geometry) (v : option (list JS.num)) : Geometry :=
  mkGeometry (id g) (combined g) (quantized g) (autoVertexNormals g) (primitive g) (primitiveName g) (positions g) (normals g) (colors g) (uv g) (indices g) (positionsDecodeMatrix g) v (positionsBuf g) (normalsBuf g) (colorsBuf g) (uvBuf g) (indicesBuf g) (indicesBufCombined g) (hash g).

Definition set_positionsBuf (g : Geometry) (v : option ArrayBuffer) : Geometry :=
  mkGeometry (id g) (combined g) (quantized g) (autoVertexNormals g) (primitive g) (primitiveName g) (positions g) (normals g) (colors g) (uv g) (indices g) (positionsDecodeMatrix g) (uvDecodeMatrix g) v (normalsBuf g) (colorsBuf g) (uvBuf g) (indicesBuf g) (indicesBufCombined g) (hash g).

Definition set_normalsBuf (g : Geometry) (v : option ArrayBuffer) : Geometry :=
  mkGeometry (id g) (combined g) (quantized g) (autoVertexNormals g) (primitive g) (primitiveName g) (positions g) (normals g) (colors g) (uv g) (indices g) (positionsDecodeMatrix g) (uvDecodeMatrix g) (positionsBuf g) v (colorsBuf g) (uvBuf g) (indicesBuf g) (indicesBufCombined g) (hash g).

Definition set_colorsBuf (g : Geometry) (v : option ArrayBuffer) : Geometry :=
  mkGeometry (id g) (combined g) (quantized g) (autoVertexNormals g) (primitive g) (primitiveName g) (positions g) (normals g) (colors g) (uv g) (indices g) (positionsDecodeMatrix g) (uvDecodeMatrix g) (positionsBuf g) (normalsBuf g) v (uvBuf g) (indicesBuf g) (indicesBufCombined g) (hash g).

Definition set_uvBuf (g : Geometry) (v : option ArrayBuffer) : Geometry :=
  mkGeometry (id g) (combined g) (quantized g) (autoVertexNormals g) (primitive g) (primitiveName g) (positions g) (normals g) (colors g) (uv g) (indices g) (positionsDecodeMatrix g) (uvDecodeMatrix g) (positionsBuf g) (normalsBuf g) (colorsBuf g) v (indicesBuf g) (indicesBufCombined g) (hash g).

Definition set_indicesBuf (g : Geometry) (v : option ArrayBuffer) : Geometry :=
  mkGeometry (id g) (combined g) (quantized g) (autoVertexNormals g) (primitive g) (primitiveName g) (positions g) (normals g) (colors g) (uv g) (indices g) (positionsDecodeMatrix g) (uvDecodeMatrix g) (positionsBuf g) (normalsBuf g) (colorsBuf g) (uvBuf g) v (indicesBufCombined g) (hash g).

Definition set_hash (g : Geometry) (v : string) : Geometry :=
  mkGeometry (id g) (combined g) (quantized g) (autoVertexNormals g) (primitive g) (primitiveName g) (positions g) (normals g) (colors g) (uv g) (indices g) (positionsDecodeMatrix g) (uvDecodeMatrix g) (positionsBuf g) (normalsBuf g) (colorsBuf g) (uvBuf g) (indicesBuf g) (indicesBufCombined g) v.

Definition set_indicesBufCombined (g : Geometry) (b : option ArrayBuffer) : Geometry :=
  mkGeometry (id g) (combined g) (quantized g) (autoVertexNormals g) (primitive g)
             (primitiveName g) (positions g) (normals g) (colors g) (uv g) (indices g)
             (positionsDecodeMatrix g) (uvDecodeMatrix g) (positionsBuf g) (normalsBuf g)
             (colorsBuf g) (uvBuf g) (indicesBuf g) b (hash g).

(** [xeogl.stats.memory]. *)
Record MemoryStats : Type := mkMemoryStats {
  meshes : Z;
  ms_positions : nat;
  ms_colors : nat;
  ms_normals : nat;
  ms_uvs : nat;
  ms_indices : nat
}.

(** The diagnostics the geometry code reports: [scene.warn], the component's
    [this.error] and [console.error]. *)
Inductive Message : Type :=
| Warn_ignoring_geometry (id : JS.key)
| Console_out_of_range (index : Z)
| Error_unsupported_primitive (name : string)
| Error_no_Uint32Array
| Error_quantized_immutable (attribute : string)
| Error_no_attribute (attribute : string)
| Error_wrong_length (attribute : string)
| Error_no_kdtree.

(** The WebGL constant of a primitive, as the hash prints it. *)
Definition glEnum (p : Primitive) : string :=
  match p with
  | POINTS => "0" | LINES => "1" | LINE_LOOP => "2" | LINE_STRIP => "3"
  | TRIANGLES => "4" | TRIANGLE_STRIP => "5" | TRIANGLE_FAN => "6"
  end.

(** What the geometry code shares with the rest of the engine: the memory
    statistics and the diagnostic channel. *)
Record Env : Type := mkEnv {
  memoryStats : MemoryStats;
  messages : list Message
}.

Definition report (e : Env) (m : Message) : Env :=
  mkEnv (memoryStats e) (messages e ++ [m]).

Definition add_indices (e : Env) (n : nat) : Env :=
  let m := memoryStats e in
  mkEnv (mkMemoryStats (meshes m) (ms_positions m) (ms_colors m) (ms_normals m) (ms_uvs m)
                       (ms_indices m + n))
        (messages e).

Definition add_mesh (e : Env) : Env :=
  let m := memoryStats e in
  mkEnv (mkMemoryStats (meshes m + 1) (ms_positions m) (ms_colors m) (ms_normals m)
                       (ms_uvs m) (ms_indices m))
        (messages e).

End Renderer.

(* ================================================================== *)
(** * CombinedBufferPool: [SceneVertexBufs]                            *)
(* ================================================================== *)

Module SceneVertexBufs.

(** The variables of the closure [SceneVertexBufs] creates: its arguments,
    its local variables, and [chunks], the [VertexBufs] objects it created
    so far, which [geometryVertexBufs] and [vertexBufs] refer to by
    position (several geometries share one object). The values of
    [geometries] are the state objects of the geometries, which [build]
    updates ([indicesBufCombined]). *)
Record Pool : Type := mkPool {
  hasPositions : bool;
  hasNormals : bool;
  hasColors : bool;
  hasUVs : bool;
  quantized : bool;
  geometries : JS.obj Renderer.Geometry;
  geometryIndicesOffsets : JS.obj JS.num;
  newGeometries : list Renderer.Geometry;
  geometryVertexBufs : JS.obj Renderer.VertexBufsRef;
  needRebuild : bool;
  needAppend : bool;
  positions : list JS.num;
  normals : list JS.num;
  colors : list JS.num;
  uv : list JS.num;
  vertexBufs : option nat;
  chunks : list Renderer.VertexBufs
}.

Definition set_geometries (p : Pool) (v : JS.obj Renderer.Geometry) : Pool :=
  mkPool (hasPositions p) (hasNormals p) (hasColors p) (hasUVs p) (quantized p) v (geometryIndicesOffsets p) (newGeometries p) (geometryVertexBufs p) (needRebuild p) (needAppend p) (positions p) (normals p) (colors p) (uv p) (vertexBufs p) (chunks p).

Definition set_geometryIndicesOffsets (p : Pool) (v : JS.obj JS.num) : Pool :=
  mkPool (hasPositions p) (hasNormals p) (hasColors p) (hasUVs p) (quantized p) (geometries p) v (newGeometries p) (geometryVertexBufs p) (needRebuild p) (needAppend p) (positions p) (normals p) (colors p) (uv p) (vertexBufs p) (chunks p).

Definition set_newGeometries (p : Pool) (v : list Renderer.Geometry) : Pool :=
  mkPool (hasPositions p) (hasNormals p) (hasColors p) (hasUVs p) (quantized p) (geometries p) (geometryIndicesOffsets p) v (geometryVertexBufs p) (needRebuild p) (needAppend p) (positions p) (normals p) (colors p) (uv p) (vertexBufs p) (chunks p).

Definition set_geometryVertexBufs (p : Pool) (v : JS.obj Renderer.VertexBufsRef) : Pool :=
  mkPool (hasPositions p) (hasNormals p) (hasColors p) (hasUVs p) (quantized p) (geometries p) (geometryIndicesOffsets p) (newGeometries p) v (needRebuild p) (needAppend p) (positions p) (normals p) (colors p) (uv p) (vertexBufs p) (chunks p).

Definition set_needRebuild (p : Pool) (v : bool) : Pool :=
  mkPool (hasPositions p) (hasNormals p) (hasColors p) (hasUVs p) (quantized p) (geometries p) (geometryIndicesOffsets p) (newGeometries p) (geometryVertexBufs p) v (needAppend p) (positions p) (normals p) (colors p) (uv p) (vertexBufs p) (chunks p).

Definition set_needAppend (p : Pool) (v : bool) : Pool :=
  mkPool (hasPositions p) (hasNormals p) (hasColors p) (hasUVs p) (quantized p) (geometries p) (geometryIndicesOffsets p) (newGeometries p) (geometryVertexBufs p) (needRebuild p) v (positions p) (normals p) (colors p) (uv p) (vertexBufs p) (chunks p).

Definition set_positions (p : Pool) (v : list JS.num) : Pool :=
  mkPool (hasPositions p) (hasNormals p) (hasColors p) (hasUVs p) (quantized p) (geometries p) (geometryIndicesOffsets p) (newGeometries p) (geometryVertexBufs p) (needRebuild p) (needAppend p) v (normals p) (colors p) (uv p) (vertexBufs p) (chunks p).

Definition set_normals (p : Pool) (v : list JS.num) : Pool :=
  mkPool (hasPositions p) (hasNormals p) (hasColors p) (hasUVs p) (quantized p) (geometries p) (geometryIndicesOffsets p) (newGeometries p) (geometryVertexBufs p) (needRebuild p) (needAppend p) (positions p) v (colors p) (uv p) (vertexBufs p) (chunks p).

Definition set_colors (p : Pool) (v : list JS.num) : Pool :=
  mkPool (hasPositions p) (hasNormals p) (hasColors p) (hasUVs p) (quantized p) (geometries p) (geometryIndicesOffsets p) (newGeometries p) (geometryVertexBufs p) (needRebuild p) (needAppend p) (positions p) (normals p) v (uv p) (vertexBufs p) (chunks p).

Definition set_uv (p : Pool) (v : list JS.num) : Pool :=
  mkPool (hasPositions p) (hasNormals p) (hasColors p) (hasUVs p) (quantized p) (geometries p) (geometryIndicesOffsets p) (newGeometries p) (geometryVertexBufs p) (needRebuild p) (needAppend p) (positions p) (normals p) (colors p) v (vertexBufs p) (chunks p).

Definition set_vertexBufs (p : Pool) (v : option nat) : Pool :=
  mkPool (hasPositions p) (hasNormals p) (hasColors p) (hasUVs p) (quantized p) (geometries p) (geometryIndicesOffsets p) (newGeometries p) (geometryVertexBufs p) (needRebuild p) (needAppend p) (positions p) (normals p) (colors p) (uv p) v (chunks p).

Definition set_chunks (p : Pool) (v : list Renderer.VertexBufs) : Pool :=
  mkPool (hasPositions p) (hasNormals p) (hasColors p) (hasUVs p) (quantized p) (geometries p) (geometryIndicesOffsets p) (newGeometries p) (geometryVertexBufs p) (needRebuild p) (needAppend p) (positions p) (normals p) (colors p) (uv p) (vertexBufs p) v.

(** [new SceneVertexBufs(scene, hasPositions, hasNormals, hasColors, hasUVs,
    quantized)]. *)
Definition create (hasPositions hasNormals hasColors hasUVs quantized : bool) : Pool :=
  mkPool hasPositions hasNormals hasColors hasUVs quantized
         [] [] [] [] false false [] [] [] [] None [].

Section Platform.

(** [xeogl.WEBGL_INFO.SUPPORTED_EXTENSIONS["OES_element_index_uint"]]. *)
Variable bigIndicesSupported : bool.

Definition MAX_SAFE_INTEGER : JS.num := JS.Fin 9007199254740991.

Definition CHUNK_LEN : JS.num :=
  if bigIndicesSupported
  then JS.div MAX_SAFE_INTEGER (JS.Fin 6)
  else JS.mul (JS.Fin 64000) (JS.Fin 4).

(** [new (bigIndicesSupported ? Uint32Array : Uint16Array)(a)] and the store
    of a number in such an array. *)
Definition toIndex (a : JS.num) : Z :=
  if bigIndicesSupported then JS.toUint32 a else JS.toUint16 a.

Definition IndexArray (items : list Z) : Renderer.TypedArray :=
  if bigIndicesSupported then Renderer.Uint32Array items else Renderer.Uint16Array items.

(** [addGeometry(geometry)]. *)
Definition addGeometry (e : Renderer.Env) (p : Pool) (geometry : Renderer.Geometry)
  : Renderer.Env * Pool :=
  match Renderer.positions geometry, Renderer.indices geometry with
  | Some _, Some _ =>
      let p := set_geometries p (JS.assign (geometries p) (Renderer.id geometry) geometry) in
      let p := set_geometryIndicesOffsets p
                 (JS.assign (geometryIndicesOffsets p) (Renderer.id geometry) (JS.Fin 0)) in
      let p := set_newGeometries p (newGeometries p ++ [geometry]) in
      (e, set_needAppend p true)
  | _, _ =>
      (Renderer.report e (Renderer.Warn_ignoring_geometry (Renderer.id geometry)), p)
  end.

(** [removeGeometry(geometry)]. *)
Definition removeGeometry (p : Pool) (geometry : Renderer.Geometry) : Pool :=
  let id := Renderer.id geometry in
  if JS.has (geometries p) id
  then
    let p := set_geometries p (JS.delete (geometries p) id) in
    let p := set_geometryIndicesOffsets p (JS.delete (geometryIndicesOffsets p) id) in
    set_needRebuild p true
  else p.

Definition add_stats (e : Renderer.Env) (dp dn dc du : nat) : Renderer.Env :=
  let m := Renderer.memoryStats e in
  Renderer.mkEnv
    (Renderer.mkMemoryStats (Renderer.meshes m)
       (Renderer.ms_positions m + dp) (Renderer.ms_colors m + dc)
       (Renderer.ms_normals m + dn) (Renderer.ms_uvs m + du) (Renderer.ms_indices m))
    (Renderer.messages e).

Definition emptyVertexBufs : Renderer.VertexBufs :=
  Renderer.mkVertexBufs None None None None None.

(** [createBufs(vertexBufs)]: flush the accumulated arrays into the buffers
    of the chunk [n]. *)
Definition createBufs (e : Renderer.Env) (p : Pool) (n : nat) : Renderer.Env * Pool :=
  let vb := nth n (chunks p) emptyVertexBufs in
  let '(e, p, vb) :=
    if hasPositions p
    then
      let array := if quantized p
                   then Renderer.Uint16Array (map JS.toUint16 (positions p))
                   else Renderer.Float32Array (positions p) in
      let buf := Renderer.mkArrayBuffer Renderer.ARRAY_BUFFER array (Renderer.length array) 3 in
      (add_stats e (Renderer.numItems buf) 0 0 0,
       set_positions p [],
       Renderer.mkVertexBufs (Some buf) (Renderer.vb_normalsBuf vb) (Renderer.vb_uvBuf vb)
                             (Renderer.vb_colorsBuf vb) (Renderer.vb_quantized vb))
    else (e, p, vb) in
  let '(e, p, vb) :=
    if hasNormals p
    then
      let array := if quantized p
                   then Renderer.Int8Array (map JS.toInt8 (normals p))
                   else Renderer.Float32Array (normals p) in
      let buf := Renderer.mkArrayBuffer Renderer.ARRAY_BUFFER array (Renderer.length array) 3 in
      (add_stats e 0 (Renderer.numItems buf) 0 0,
       set_normals p [],
       Renderer.mkVertexBufs (Renderer.vb_positionsBuf vb) (Some buf) (Renderer.vb_uvBuf vb)
                             (Renderer.vb_colorsBuf vb) (Renderer.vb_quantized vb))
    else (e, p, vb) in
  let '(e, p, vb) :=
    if hasColors p
    then
      let array := Renderer.Float32Array (colors p) in
      let buf := Renderer.mkArrayBuffer Renderer.ARRAY_BUFFER array (Renderer.length array) 4 in
      (add_stats e 0 0 (Renderer.numItems buf) 0,
       set_colors p [],
       Renderer.mkVertexBufs (Renderer.vb_positionsBuf vb) (Renderer.vb_normalsBuf vb)
                             (Renderer.vb_uvBuf vb) (Some buf) (Renderer.vb_quantized vb))
    else (e, p, vb) in
  let '(e, p, vb) :=
    if hasUVs p
    then
      let array := if quantized p
                   then Renderer.Uint16Array (map JS.toUint16 (uv p))
                   else Renderer.Float32Array (uv p) in
      let buf := Renderer.mkArrayBuffer Renderer.ARRAY_BUFFER array (Renderer.length array) 2 in
      (add_stats e 0 0 0 (Renderer.numItems buf),
       set_uv p [],
       Renderer.mkVertexBufs (Renderer.vb_positionsBuf vb) (Renderer.vb_normalsBuf vb)
                             (Some buf) (Renderer.vb_colorsBuf vb) (Renderer.vb_quantized vb))
    else (e, p, vb) in
  (e, set_chunks p (JS.set (chunks p) n vb)).

(** [needNew]: no chunk is open, or the positions accumulated so far and
    those of the geometry together are longer than [CHUNK_LEN]. *)
Definition needNew (p : Pool) (gpositions : Renderer.TypedArray) : bool :=
  match vertexBufs p with
  | None => true
  | Some _ =>
      JS.gt (JS.add (JS.of_nat (List.length (positions p)))
                    (JS.of_nat (Renderer.length gpositions)))
            CHUNK_LEN
  end.

(** [indices[i] += indicesOffset] on the copy of the indices. *)
Definition adjustIndex (indicesOffset : JS.num) (x : Z) : Z :=
  toIndex (JS.add (JS.of_Z x) indicesOffset).

(** The indices of a geometry in its chunk: with an offset, a copy in the
    platform's index type with the offset added to every element, and one
    [console.error] for each element read back above [CHUNK_LEN / 3];
    without, the geometry's own array. *)
Definition adjustIndices (indicesOffset : JS.num) (gindices : option Renderer.TypedArray)
  : JS.completion (Renderer.TypedArray * list Renderer.Message) :=
  if JS.truthy indicesOffset
  then
    let copied := match gindices with
                  | Some a => map toIndex (Renderer.numbers a)
                  | None => []
                  end in
    let adjusted := map (adjustIndex indicesOffset) copied in
    let errors :=
      map Renderer.Console_out_of_range
          (filter (fun v => JS.gt (JS.of_Z v) (JS.div CHUNK_LEN (JS.Fin 3))) adjusted) in
    JS.Normal (IndexArray adjusted, errors)
  else
    match gindices with
    | Some a => JS.Normal (a, [])
    | None => JS.Throw "TypeError"
    end.

(** The copy loops [for (i ...) array.push(geometry.attribute[i])] of an
    attribute the pool's signature has; reading the length of an attribute
    the geometry does not have throws. *)
Definition pushAll (has : bool) (array : list JS.num) (attribute : option Renderer.TypedArray)
  : JS.completion (list JS.num) :=
  if has
  then match attribute with
       | Some a => JS.Normal (array ++ Renderer.numbers a)
       | None => JS.Throw "TypeError"
       end
  else JS.Normal array.

(** The body of the loop of [build] for the geometry registered under
    [id]; [indicesOffset] is the local variable of [build]. *)
Definition build_step (st : Renderer.Env * Pool * JS.num) (id : JS.key)
  : JS.completion (Renderer.Env * Pool * JS.num) :=
  let '(e, p, indicesOffset) := st in
  match JS.lookup (geometries p) id with
  | None => JS.Throw "TypeError"
  | Some geometry =>
      match Renderer.positions geometry with
      | None => JS.Throw "TypeError"
      | Some gpositions =>
          let '(e, p, indicesOffset) :=
            if needNew p gpositions
            then
              let '(e, p) := match vertexBufs p with
                             | Some n => createBufs e p n
                             | None => (e, p)
                             end in
              let n := List.length (chunks p) in
              let p := set_chunks p
                         (chunks p ++ [Renderer.mkVertexBufs None None None None
                                                             (Some (quantized p))]) in
              (e, set_vertexBufs p (Some n), JS.Fin 0)
            else (e, p, indicesOffset) in
          let p := match vertexBufs p with
                   | Some n => set_geometryVertexBufs p
                                 (JS.assign (geometryVertexBufs p) id (Renderer.Chunk n))
                   | None => p
                   end in
          JS.bind (pushAll (hasPositions p) (positions p) (Some gpositions)) (fun ps =>
          JS.bind (pushAll (hasNormals p) (normals p) (Renderer.normals geometry)) (fun ns =>
          JS.bind (pushAll (hasColors p) (colors p) (Renderer.colors geometry)) (fun cs =>
          JS.bind (pushAll (hasUVs p) (uv p) (Renderer.uv geometry)) (fun us =>
          let p := set_uv (set_colors (set_normals (set_positions p ps) ns) cs) us in
          let p := set_geometryIndicesOffsets p
                     (JS.assign (geometryIndicesOffsets p) id indicesOffset) in
          JS.bind (adjustIndices indicesOffset (Renderer.indices geometry)) (fun r =>
          let '(indices, errors) := r in
          let e := fold_left Renderer.report errors e in
          let buf :=
            match Renderer.indicesBufCombined geometry with
            | None => Renderer.mkArrayBuffer Renderer.ELEMENT_ARRAY_BUFFER indices
                                             (Renderer.length indices) 1
            | Some b => Renderer.setData b indices
            end in
          let p := set_geometries p
                     (JS.assign (geometries p) id
                                (Renderer.set_indicesBufCombined geometry (Some buf))) in
          JS.Normal (e, p,
                     JS.add indicesOffset
                            (JS.div (JS.of_nat (Renderer.length gpositions)) (JS.Fin 3))))))))
      end
  end.

Fixpoint build_loop (ids : list JS.key) (st : Renderer.Env * Pool * JS.num)
  : JS.completion (Renderer.Env * Pool * JS.num) :=
  match ids with
  | [] => JS.Normal st
  | id :: rest => JS.bind (build_step st id) (build_loop rest)
  end.

(** [build()]. *)
Definition build (e : Renderer.Env) (p : Pool) : JS.completion (Renderer.Env * Pool) :=
  let p := set_geometryVertexBufs p [] in
  let p := set_vertexBufs p None in
  JS.bind (build_loop (JS.keys (geometries p)) (e, p, JS.Fin 0)) (fun st =>
  let '(e, p, _) := st in
  let '(e, p) := match vertexBufs p with
                 | Some n => createBufs e p n
                 | None => (e, p)
                 end in
  JS.Normal (e, set_needAppend (set_needRebuild p false) false)).

Definition rebuildIfNeeded (e : Renderer.Env) (p : Pool)
  : JS.completion (Renderer.Env * Pool) :=
  if needRebuild p || needAppend p then build e p else JS.Normal (e, p).

(** [getIndicesOffset(geometry)]; the value [None] is [undefined]. *)
Definition getIndicesOffset (e : Renderer.Env) (p : Pool) (geometry : Renderer.Geometry)
  : JS.completion (Renderer.Env * Pool * option JS.num) :=
  JS.bind (rebuildIfNeeded e p) (fun st =>
  let '(e, p) := st in
  JS.Normal (e, p, JS.lookup (geometryIndicesOffsets p) (Renderer.id geometry))).

(** [getVertexBufs(geometry)]; the value [None] is [undefined]. *)
Definition getVertexBufs (e : Renderer.Env) (p : Pool) (geometry : Renderer.Geometry)
  : JS.completion (Renderer.Env * Pool * option Renderer.VertexBufsRef) :=
  if negb (JS.has (geometries p) (Renderer.id geometry))
  then JS.Normal (e, p, Some Renderer.nullVertexBufs)
  else
    JS.bind (rebuildIfNeeded e p) (fun st =>
    let '(e, p) := st in
    JS.Normal (e, p, JS.lookup (geometryVertexBufs p) (Renderer.id geometry))).

(** The pool holds the state objects themselves: a state the component
    updated in place is the one the pool reads at the next rebuild. *)
Definition aliased (p : Pool) (geometry : Renderer.Geometry) : Pool :=
  if JS.has (geometries p) (Renderer.id geometry)
  then set_geometries p (JS.assign (geometries p) (Renderer.id geometry) geometry)
  else p.

(** The element offset [geometryIndicesOffsets[geometry.id] * itemSize]
    handed to [setData]. *)
Definition elementOffset (p : Pool) (id : JS.key) (itemSize : Q) : nat :=
  match JS.lookup (geometryIndicesOffsets p) id with
  | Some (JS.Fin q) => Z.to_nat (Qfloor (q * itemSize))
  | _ => 0
  end.

Definition chunkOf (p : Pool) (id : JS.key) : option (nat * Renderer.VertexBufs) :=
  match JS.lookup (geometryVertexBufs p) id with
  | Some (Renderer.Chunk n) =>
      match nth_error (chunks p) n with
      | Some vb => Some (n, vb)
      | None => None
      end
  | _ => None
  end.

(** [setPositions(geometry)]. *)
Definition setPositions (p : Pool) (geometry : Renderer.Geometry) : Pool :=
  match chunkOf p (Renderer.id geometry), Renderer.positions geometry with
  | Some (n, vb), Some gpositions =>
      match Renderer.vb_positionsBuf vb with
      | Some positionsBuf =>
          let buf := Renderer.setDataAt positionsBuf gpositions
                       (elementOffset p (Renderer.id geometry) 3) in
          set_chunks p
            (JS.set (chunks p) n
               (Renderer.mkVertexBufs (Some buf) (Renderer.vb_normalsBuf vb)
                  (Renderer.vb_uvBuf vb) (Renderer.vb_colorsBuf vb) (Renderer.vb_quantized vb)))
      | None => p
      end
  | _, _ => p
  end.

(** [setNormals(geometry)]. *)
Definition setNormals (p : Pool) (geometry : Renderer.Geometry) : Pool :=
  match chunkOf p (Renderer.id geometry), Renderer.normals geometry with
  | Some (n, vb), Some gnormals =>
      match Renderer.vb_normalsBuf vb with
      | Some normalsBuf =>
          let buf := Renderer.setDataAt normalsBuf gnormals
                       (elementOffset p (Renderer.id geometry) 3) in
          set_chunks p
            (JS.set (chunks p) n
               (Renderer.mkVertexBufs (Renderer.vb_positionsBuf vb) (Some buf)
                  (Renderer.vb_uvBuf vb) (Renderer.vb_colorsBuf vb) (Renderer.vb_quantized vb)))
      | None => p
      end
  | _, _ => p
  end.

(** [setUVs(geometry)]. *)
Definition setUVs (p : Pool) (geometry : Renderer.Geometry) : Pool :=
  match chunkOf p (Renderer.id geometry), Renderer.uv geometry with
  | Some (n, vb), Some guv =>
      match Renderer.vb_uvBuf vb with
      | Some uvBuf =>
          let buf := Renderer.setDataAt uvBuf guv
                       (elementOffset p (Renderer.id geometry) 2) in
          set_chunks p
            (JS.set (chunks p) n
               (Renderer.mkVertexBufs (Renderer.vb_positionsBuf vb) (Renderer.vb_normalsBuf vb)
                  (Some buf) (Renderer.vb_colorsBuf vb) (Renderer.vb_quantized vb)))
      | None => p
      end
  | _, _ => p
  end.

(** [setColors(geometry)]: the guard reads [geometry.color], a property the
    state object does not have, so the function always returns there. *)
Definition setColors (p : Pool) (geometry : Renderer.Geometry) : Pool := p.

End Platform.

End SceneVertexBufs.

(* ================================================================== *)
(** * EdgeIndexBuilder: [buildEdgesIndices]                            *)
(* ================================================================== *)

(** An end of an edge: an index, or NaN when the index array ends before
    it ([Math.min] and [Math.max] of [undefined]). *)
Definition minIndex (a b : option Z) : option Z :=
  match a, b with
  | Some x, Some y => Some (Z.min x y)
  | _, _ => None
  end.

Definition maxIndex (a b : option Z) : option Z :=
  match a, b with
  | Some x, Some y => Some (Z.max x y)
  | _, _ => None
  end.

Definition indexNumber (a : option Z) : JS.num :=
  match a with
  | Some x => JS.of_Z x
  | None => JS.NaN
  end.

(** The key [index1 + "," + index2] of the object [edges]; it names the
    pair, and it is no array index, so [edges] is enumerated in creation
    order. *)
Definition EdgeKey : Type := (option Z * option Z)%type.

Definition index_eqb (a b : option Z) : bool :=
  match a, b with
  | Some x, Some y => Z.eqb x y
  | None, None => true
  | _, _ => false
  end.

Definition edgeKey_eqb (a b : EdgeKey) : bool :=
  index_eqb (fst a) (fst b) && index_eqb (snd a) (snd b).

Record Edge : Type := mkEdge {
  index1 : option Z;
  index2 : option Z;
  face1 : nat;
  face2 : option nat
}.

Fixpoint findEdge (edges : list (EdgeKey * Edge)) (key : EdgeKey) : option Edge :=
  match edges with
  | [] => None
  | (k, e) :: rest => if edgeKey_eqb k key then Some e else findEdge rest key
  end.

(** [edges[key].face2 = faceIndex]. *)
Fixpoint setFace2 (edges : list (EdgeKey * Edge)) (key : EdgeKey) (faceIndex : nat)
  : list (EdgeKey * Edge) :=
  match edges with
  | [] => []
  | (k, e) :: rest =>
      if edgeKey_eqb k key
      then (k, mkEdge (index1 e) (index2 e) (face1 e) (Some faceIndex)) :: rest
      else (k, e) :: setFace2 rest key faceIndex
  end.

(** The body of the inner loop: the edge from vertex [j] to vertex
    [(j + 1) % 3] of the face that starts at [i]. *)
Definition addEdge (indices : list Z) (i j : nat) (edges : list (EdgeKey * Edge))
  : list (EdgeKey * Edge) :=
  let faceIndex := (i / 3)%nat in
  let edge1 := nth_error indices (i + j) in
  let edge2 := nth_error indices (i + ((j + 1) mod 3)) in
  let index1 := minIndex edge1 edge2 in
  let index2 := maxIndex edge1 edge2 in
  let key := (index1, index2) in
  match findEdge edges key with
  | None => edges ++ [(key, mkEdge index1 index2 faceIndex None)]
  | Some _ => setFace2 edges key faceIndex
  end.

(** The first loop of [buildEdgesIndices]. *)
Definition collectEdges (indices : list Z) : list (EdgeKey * Edge) :=
  JS.for_loop (length indices) 0 (length indices) 3
    (fun i edges => JS.for_loop 3 0 3 1 (addEdge indices i) edges)
    [].

Section EdgeIndexBuilder.

(** [Math.sqrt], [Math.cos] and [xeogl.math.DEGTORAD]. *)
Variables sqrt cos : JS.num -> JS.num.
Variable DEGTORAD : JS.num.

(** One vertex of a face in [buildFaces]: read at [ia], [ia + 1], [ia + 2],
    through a [Uint16Array] and the decode matrix when there is one. *)
Definition faceVertex (positions : list JS.num) (positionsDecodeMatrix : option (list JS.num))
           (ia : JS.num) : list JS.num :=
  let x := JS.getAt positions ia in
  let y := JS.getAt positions (JS.add ia (JS.Fin 1)) in
  let z := JS.getAt positions (JS.add ia (JS.Fin 2)) in
  match positionsDecodeMatrix with
  | Some m => XMath.decompressPosition [JS.toUint16 x; JS.toUint16 y; JS.toUint16 z] m
  | None => [x; y; z]
  end.

(** [buildFaces(positions, indices, positionsDecodeMatrix)]: the normal of
    every face. *)
Definition buildFaces (positions : Renderer.TypedArray) (indices : list Z)
           (positionsDecodeMatrix : option (list JS.num)) : list (list JS.num) :=
  JS.for_loop (length indices) 0 (length indices) 3
    (fun i faces =>
       let ia := JS.mul (JS.getZ indices (i + 0)) (JS.Fin 3) in
       let ib := JS.mul (JS.getZ indices (i + 1)) (JS.Fin 3) in
       let ic := JS.mul (JS.getZ indices (i + 2)) (JS.Fin 3) in
       let a := faceVertex (Renderer.numbers positions) positionsDecodeMatrix ia in
       let b := faceVertex (Renderer.numbers positions) positionsDecodeMatrix ib in
       let c := faceVertex (Renderer.numbers positions) positionsDecodeMatrix ic in
       let cb := XMath.subVec3 c b in
       let ab := XMath.subVec3 a b in
       let cross := XMath.cross3Vec3 cb ab in
       faces ++ [XMath.normalizeVec3 sqrt cross])
    [].

Definition faceNormal (faces : list (list JS.num)) (f : nat) : list JS.num :=
  nth f faces [].

(** The test of the second loop: the edge has two faces and the dot product
    of their normals is above the threshold. *)
Definition skipped (faces : list (list JS.num)) (thresholdDot : JS.num) (e : Edge) : bool :=
  match face2 e with
  | Some f2 => JS.gt (XMath.dotVec3 (faceNormal faces (face1 e)) (faceNormal faces f2))
                     thresholdDot
  | None => false
  end.

(** The second loop: the kept edges, as the numbers pushed, and
    [largeIndex]. *)
Definition keptEdges (faces : list (list JS.num)) (thresholdDot indicesOffset : JS.num)
           (edges : list (EdgeKey * Edge)) : list JS.num * bool :=
  fold_left
    (fun (acc : list JS.num * bool) (ke : EdgeKey * Edge) =>
       let '(edgeIndices, largeIndex) := acc in
       let e := snd ke in
       if skipped faces thresholdDot e
       then acc
       else
         let ia := JS.add (indexNumber (index1 e)) indicesOffset in
         let ib := JS.add (indexNumber (index2 e)) indicesOffset in
         let largeIndex :=
           if (negb largeIndex && JS.gt ia (JS.Fin 65535)) || JS.gt ib (JS.Fin 65535)
           then true else largeIndex in
         (edgeIndices ++ [ia; ib], largeIndex))
    edges ([], false).

(** [buildEdgesIndices(positions, indices, positionsDecodeMatrix,
    indicesOffset, ghostEdgeThreshold)]. *)
Definition buildEdgesIndices (positions : Renderer.TypedArray) (indices : list Z)
           (positionsDecodeMatrix : option (list JS.num))
           (indicesOffset ghostEdgeThreshold : JS.num) : Renderer.TypedArray :=
  let faces := buildFaces positions indices positionsDecodeMatrix in
  let thresholdDot := cos (JS.mul DEGTORAD ghostEdgeThreshold) in
  let edges := collectEdges indices in
  let '(edgeIndices, largeIndex) := keptEdges faces thresholdDot indicesOffset edges in
  if largeIndex
  then Renderer.Uint32Array (map JS.toUint32 edgeIndices)
  else Renderer.Uint16Array (map JS.toUint16 edgeIndices).

End EdgeIndexBuilder.

(* ================================================================== *)
(** * GeometryRecord: [xeogl.Geometry]                                 *)
(* ================================================================== *)

Module Geometry.

(** An array a configuration or a setter is given: a plain array of numbers
    or a typed array. *)
Inductive ArrayLike : Type :=
| Plain (items : list JS.num)
| Typed (a : Renderer.TypedArray).

Definition items (a : ArrayLike) : list JS.num :=
  match a with
  | Plain l => l
  | Typed t => Renderer.numbers t
  end.

(** [a.constructor === Float32Array ? a : new Float32Array(a)]. *)
Definition asFloat32Array (a : ArrayLike) : Renderer.TypedArray :=
  Renderer.Float32Array (items a).

(** The construction configuration. *)
Record Config : Type := mkConfig {
  cfg_primitive : option string;
  cfg_positions : option ArrayLike;
  cfg_normals : option ArrayLike;
  cfg_uv : option ArrayLike;
  cfg_colors : option ArrayLike;
  cfg_indices : option ArrayLike;
  cfg_autoVertexNormals : JS.value;
  cfg_quantized : JS.value;
  cfg_combined : JS.value;
  cfg_ghostEdgeThreshold : JS.value
}.

(** The scene as the geometry code uses it: the diagnostics and statistics,
    the pools [scene._sceneVertexBufs] keyed by signature, and whether the
    renderer was told to redraw. *)
Record Scene : Type := mkScene {
  env : Renderer.Env;
  sceneVertexBufs : list (string * SceneVertexBufs.Pool);
  imageDirty : bool
}.

(** The component. [sceneVertexBufsOf] is the signature of the pool
    [this._sceneVertexBufs] refers to. *)
Record Component : Type := mkComponent {
  state : Renderer.Geometry;
  ghostEdgeThreshold : JS.value;
  edgesIndicesBuf : option Renderer.ArrayBuffer;
  pickTrianglePositionsBuf : option Renderer.ArrayBuffer;
  pickTriangleColorsBuf : option Renderer.ArrayBuffer;
  boundaryDirty : bool;
  aabbDirty : bool;
  obbDirty : bool;
  sceneVertexBufsOf : option string;
  boundaryEvents : nat;
  created : bool
}.

Definition set_state (c : Component) (st : Renderer.Geometry) : Component :=
  mkComponent st (ghostEdgeThreshold c) (edgesIndicesBuf c) (pickTrianglePositionsBuf c)
              (pickTriangleColorsBuf c) (boundaryDirty c) (aabbDirty c) (obbDirty c)
              (sceneVertexBufsOf c) (boundaryEvents c) (created c).

Definition report (s : Scene) (m : Renderer.Message) : Scene :=
  mkScene (Renderer.report (env s) m) (sceneVertexBufs s) (imageDirty s).

Fixpoint findPool (pools : list (string * SceneVertexBufs.Pool)) (hash : string)
  : option SceneVertexBufs.Pool :=
  match pools with
  | [] => None
  | (h, p) :: rest => if String.eqb h hash then Some p else findPool rest hash
  end.

Fixpoint storePool (pools : list (string * SceneVertexBufs.Pool)) (hash : string)
         (p : SceneVertexBufs.Pool) : list (string * SceneVertexBufs.Pool) :=
  match pools with
  | [] => [(hash, p)]
  | (h, p') :: rest =>
      if String.eqb h hash then (h, p) :: rest else (h, p') :: storePool rest hash p
  end.

(** The signature [getSceneVertexBufs] joins with [";"]. *)
Definition signature (geometry : Renderer.Geometry) : string :=
  let flag (b : bool) (s : string) : string := if b then s else ""%string in
  (flag (JS.is_some (Renderer.positions geometry)) "p" ++ ";" ++
   flag (Renderer.quantized geometry) "c" ++ ";" ++
   flag (JS.is_some (Renderer.normals geometry)) "n" ++ ";" ++
   flag (JS.is_some (Renderer.colors geometry)) "c" ++ ";" ++
   flag (JS.is_some (Renderer.uv geometry)) "u")%string.

(** [getSceneVertexBufs(scene, geometry)]: the pool of the geometry's
    signature, created on first use. *)
Definition getSceneVertexBufs (s : Scene) (geometry : Renderer.Geometry)
  : Scene * string * SceneVertexBufs.Pool :=
  let hash := signature geometry in
  match findPool (sceneVertexBufs s) hash with
  | Some p => (s, hash, p)
  | None =>
      let p := SceneVertexBufs.create (JS.is_some (Renderer.positions geometry))
                                      (JS.is_some (Renderer.normals geometry))
                                      (JS.is_some (Renderer.colors geometry))
                                      (JS.is_some (Renderer.uv geometry))
                                      (Renderer.quantized geometry) in
      (mkScene (env s) (storePool (sceneVertexBufs s) hash p) (imageDirty s), hash, p)
  end.

Section Platform.

(** [OES_element_index_uint] is supported; [Math.sqrt], [Math.cos] and
    [xeogl.math.DEGTORAD]. *)
Variable bigIndicesSupported : bool.
Variables sqrt cos : JS.num -> JS.num.
Variable DEGTORAD : JS.num.

(** The [switch] on [cfg.primitive || "triangles"]. *)
Definition primitiveOf (name : string) : option Renderer.Primitive :=
  if String.eqb name "points" then Some Renderer.POINTS
  else if String.eqb name "lines" then Some Renderer.LINES
  else if String.eqb name "line-loop" then Some Renderer.LINE_LOOP
  else if String.eqb name "line-strip" then Some Renderer.LINE_STRIP
  else if String.eqb name "triangles" then Some Renderer.TRIANGLES
  else if String.eqb name "triangle-strip" then Some Renderer.TRIANGLE_STRIP
  else if String.eqb name "triangle-fan" then Some Renderer.TRIANGLE_FAN
  else None.

Definition newBuffer (target : Renderer.Target) (data : Renderer.TypedArray) (itemSize : nat)
  : Renderer.ArrayBuffer :=
  Renderer.mkArrayBuffer target data (Renderer.length data) itemSize.

(** [_buildVBOs()]. *)
Definition _buildVBOs (e : Renderer.Env) (st : Renderer.Geometry)
  : Renderer.Env * Renderer.Geometry :=
  let '(e, st) :=
    match Renderer.indices st with
    | Some ix =>
        let buf := newBuffer Renderer.ELEMENT_ARRAY_BUFFER ix 1 in
        (Renderer.add_indices e (Renderer.numItems buf), Renderer.set_indicesBuf st (Some buf))
    | None => (e, st)
    end in
  if Renderer.combined st
  then (e, st)
  else
    let '(e, st) :=
      match Renderer.positions st with
      | Some a =>
          let buf := newBuffer Renderer.ARRAY_BUFFER a 3 in
          (SceneVertexBufs.add_stats e (Renderer.numItems buf) 0 0 0,
           Renderer.set_positionsBuf st (Some buf))
      | None => (e, st)
      end in
    let '(e, st) :=
      match Renderer.normals st with
      | Some a =>
          let buf := newBuffer Renderer.ARRAY_BUFFER a 3 in
          (SceneVertexBufs.add_stats e 0 (Renderer.numItems buf) 0 0,
           Renderer.set_normalsBuf st (Some buf))
      | None => (e, st)
      end in
    let '(e, st) :=
      match Renderer.colors st with
      | Some a =>
          let buf := newBuffer Renderer.ARRAY_BUFFER a 4 in
          (SceneVertexBufs.add_stats e 0 0 (Renderer.numItems buf) 0,
           Renderer.set_colorsBuf st (Some buf))
      | None => (e, st)
      end in
    match Renderer.uv st with
    | Some a =>
        let buf := newBuffer Renderer.ARRAY_BUFFER a 2 in
        (SceneVertexBufs.add_stats e 0 0 0 (Renderer.numItems buf),
         Renderer.set_uvBuf st (Some buf))
    | None => (e, st)
    end.

(** [_buildHash()]. *)
Definition _buildHash (st : Renderer.Geometry) : Renderer.Geometry :=
  let flag (b : bool) (s : string) : string := if b then s else ""%string in
  Renderer.set_hash st
    ("/g" ++ "/" ++ match Renderer.primitive st with
                    | Some p => Renderer.glEnum p
                    | None => "null"
                    end ++ ";"
     ++ flag (JS.is_some (Renderer.positions st)) "p"
     ++ flag (JS.is_some (Renderer.colors st)) "c"
     ++ flag (JS.is_some (Renderer.normals st) || Renderer.autoVertexNormals st) "n"
     ++ flag (JS.is_some (Renderer.uv st)) "u"
     ++ flag (Renderer.quantized st) "cp"
     ++ ";")%string.

(** [cfg.indices.constructor === Uint32Array]. *)
Definition isUint32Array (a : ArrayLike) : bool :=
  match a with
  | Typed (Renderer.Uint32Array _) => true
  | _ => false
  end.

(** The indices as [_init] stores them: a [Uint16Array] or [Uint32Array] as
    it is, anything else copied into the platform's index type. *)
Definition asIndexArray (a : ArrayLike) : Renderer.TypedArray :=
  match a with
  | Typed (Renderer.Uint32Array l) => Renderer.Uint32Array l
  | Typed (Renderer.Uint16Array l) => Renderer.Uint16Array l
  | _ => SceneVertexBufs.IndexArray bigIndicesSupported
           (map (SceneVertexBufs.toIndex bigIndicesSupported) (items a))
  end.

(** The attributes of [_init], from the primitive type to the normals. *)
Definition initAttributes (s : Scene) (st : Renderer.Geometry) (cfg : Config)
  : Scene * Renderer.Geometry :=
  let name := match cfg_primitive cfg with
              | Some n => if String.eqb n "" then "triangles"%string else n
              | None => "triangles"%string
              end in
  let '(s, st) :=
    match primitiveOf name with
    | Some p => (s, Renderer.set_primitiveName (Renderer.set_primitive st (Some p)) (Some name))
    | None =>
        (report s (Renderer.Error_unsupported_primitive name),
         Renderer.set_primitiveName (Renderer.set_primitive st (Some Renderer.TRIANGLES))
                                    (Some name))
    end in
  let st :=
    match cfg_positions cfg with
    | Some a =>
        if Renderer.quantized st
        then
          let bounds := getBounds (items a) 3 in
          let q := quantizeVec3 (items a) (bmin bounds) (bmax bounds) in
          Renderer.set_positionsDecodeMatrix
            (Renderer.set_positions st (Some (Renderer.Uint16Array (quantized q))))
            (Some (decode q))
        else Renderer.set_positions st (Some (asFloat32Array a))
    | None => st
    end in
  let st :=
    match cfg_colors cfg with
    | Some a => Renderer.set_colors st (Some (asFloat32Array a))
    | None => st
    end in
  let st :=
    match cfg_uv cfg with
    | Some a =>
        if Renderer.quantized st
        then
          let bounds := getBounds (items a) 2 in
          let q := quantizeVec2 (items a) (bmin bounds) (bmax bounds) in
          Renderer.set_uvDecodeMatrix
            (Renderer.set_uv st (Some (Renderer.Uint16Array (quantized q))))
            (Some (decode q))
        else Renderer.set_uv st (Some (asFloat32Array a))
    | None => st
    end in
  let st :=
    match cfg_normals cfg with
    | Some a =>
        if Renderer.quantized st
        then Renderer.set_normals st (Some (Renderer.Int8Array (octEncode sqrt (items a))))
        else Renderer.set_normals st (Some (asFloat32Array a))
    | None => st
    end in
  (s, st).

(** The rest of [_init] once the indices are accepted: the index buffer, the
    other buffers, the hash, the registration with the pool of the
    signature when combined, and the [created] event. *)
Definition initBuffers (s : Scene) (c : Component) (st : Renderer.Geometry)
  : Scene * Component :=
  let e := env s in
  let '(e, st) :=
    match Renderer.indices st with
    | Some ix =>
        let buf := newBuffer Renderer.ELEMENT_ARRAY_BUFFER ix 1 in
        (Renderer.add_indices e (Renderer.numItems buf), Renderer.set_indicesBuf st (Some buf))
    | None => (e, st)
    end in
  let '(e, st) := _buildVBOs e st in
  let st := _buildHash st in
  let e := Renderer.add_mesh e in
  let s := mkScene e (sceneVertexBufs s) (imageDirty s) in
  let '(s, pool) :=
    if Renderer.combined st
    then
      let '(s, hash, p) := getSceneVertexBufs s st in
      let '(e, p) := SceneVertexBufs.addGeometry (env s) p st in
      (mkScene e (storePool (sceneVertexBufs s) hash p) (imageDirty s), Some hash)
    else (s, None) in
  (s, mkComponent st (ghostEdgeThreshold c) (edgesIndicesBuf c) (pickTrianglePositionsBuf c)
                  (pickTriangleColorsBuf c) (boundaryDirty c) (aabbDirty c) (obbDirty c)
                  pool (boundaryEvents c) true).

(** [_init(cfg)]; [id] is the id the state object was created with. *)
Definition _init (s : Scene) (id : JS.key) (cfg : Config) : Scene * Component :=
  let st :=
    Renderer.mkGeometry id
      (JS.truthy_value (cfg_combined cfg)) (JS.truthy_value (cfg_quantized cfg))
      (JS.truthy_value (cfg_autoVertexNormals cfg))
      None None None None None None None None None None None None None None None
      ""%string in
  let c :=
    mkComponent st (JS.or_else (cfg_ghostEdgeThreshold cfg) (JS.VNum (JS.Fin 2)))
                None None None true true true None 0 false in
  let '(s, st) := initAttributes s st cfg in
  match cfg_indices cfg with
  | Some a =>
      if negb bigIndicesSupported && isUint32Array a
      then (report s Renderer.Error_no_Uint32Array, set_state c st)
      else initBuffers s c (Renderer.set_indices st (Some (asIndexArray a)))
  | None => initBuffers s c st
  end.

(** [_setBoundaryDirty()]. *)
Definition _setBoundaryDirty (c : Component) : Component :=
  if boundaryDirty c
  then c
  else mkComponent (state c) (ghostEdgeThreshold c) (edgesIndicesBuf c)
                   (pickTrianglePositionsBuf c) (pickTriangleColorsBuf c)
                   true true true (sceneVertexBufsOf c) (boundaryEvents c + 1) (created c).

(** The pool [this._sceneVertexBufs]; reading a method of it when it is
    [undefined] throws. *)
Definition poolOf (s : Scene) (c : Component) : JS.completion (string * SceneVertexBufs.Pool) :=
  match sceneVertexBufsOf c with
  | Some hash =>
      match findPool (sceneVertexBufs s) hash with
      | Some p => JS.Normal (hash, p)
      | None => JS.Throw "TypeError"
      end
  | None => JS.Throw "TypeError"
  end.

(** The setter of [positions]. *)
Definition set_positions (s : Scene) (c : Component) (newPositions : ArrayLike)
  : JS.completion (Scene * Component) :=
  if Renderer.quantized (state c)
  then JS.Normal (report s (Renderer.Error_quantized_immutable "positions"), c)
  else
    match Renderer.positions (state c) with
    | None => JS.Normal (report s (Renderer.Error_no_attribute "positions"), c)
    | Some positions =>
        if negb (Renderer.length positions =? length (items newPositions))%nat
        then JS.Normal (report s (Renderer.Error_wrong_length "positions"), c)
        else
          let positions := Renderer.typedSet positions (items newPositions) in
          let st := Renderer.set_positions (state c) (Some positions) in
          let st := match Renderer.positionsBuf st with
                    | Some buf =>
                        Renderer.set_positionsBuf st (Some (Renderer.setData buf positions))
                    | None => st
                    end in
          JS.bind
            (if Renderer.combined st
             then JS.bind (poolOf s c) (fun hp =>
                    let '(hash, p) := hp in
                    let p := SceneVertexBufs.setPositions (SceneVertexBufs.aliased p st) st in
                    JS.Normal (storePool (sceneVertexBufs s) hash p))
             else JS.Normal (sceneVertexBufs s))
            (fun pools =>
               JS.Normal (mkScene (env s) pools true, _setBoundaryDirty (set_state c st)))
    end.

(** [_getVertexBufs()]. *)
Definition _getVertexBufs (s : Scene) (c : Component)
  : JS.completion (Scene * option Renderer.VertexBufsRef) :=
  if Renderer.combined (state c)
  then JS.bind (poolOf s c) (fun hp =>
         let '(hash, p) := hp in
         JS.bind (SceneVertexBufs.getVertexBufs bigIndicesSupported (env s) p (state c))
                 (fun r =>
                    let '(e, p, v) := r in
                    JS.Normal (mkScene e (storePool (sceneVertexBufs s) hash p) (imageDirty s),
                               v)))
  else JS.Normal (s, Some Renderer.nullVertexBufs).

(** [_buildGhostEdgesIndices()]. An offset that is [undefined] is NaN in the
    sums of the edge builder. *)
Definition _buildGhostEdgesIndices (s : Scene) (c : Component)
  : JS.completion (Scene * Component) :=
  match Renderer.positions (state c), Renderer.indices (state c) with
  | Some positions, Some indices =>
      JS.bind
        (if Renderer.combined (state c)
         then JS.bind (poolOf s c) (fun hp =>
                let '(hash, p) := hp in
                JS.bind (SceneVertexBufs.getIndicesOffset bigIndicesSupported (env s) p (state c))
                        (fun r =>
                           let '(e, p, v) := r in
                           JS.Normal (mkScene e (storePool (sceneVertexBufs s) hash p)
                                              (imageDirty s),
                                      match v with Some n => n | None => JS.NaN end)))
         else JS.Normal (s, JS.Fin 0))
        (fun r =>
           let '(s, indicesOffset) := r in
           let edgesIndices :=
             buildEdgesIndices sqrt cos DEGTORAD positions (Renderer.integers indices)
                               (Renderer.positionsDecodeMatrix (state c)) indicesOffset
                               (JS.toNumber (ghostEdgeThreshold c)) in
           let buf := newBuffer Renderer.ELEMENT_ARRAY_BUFFER edgesIndices 1 in
           JS.Normal
             (mkScene (Renderer.add_indices (env s) (Renderer.numItems buf))
                      (sceneVertexBufs s) (imageDirty s),
              mkComponent (state c) (ghostEdgeThreshold c) (Some buf)
                          (pickTrianglePositionsBuf c) (pickTriangleColorsBuf c)
                          (boundaryDirty c) (aabbDirty c) (obbDirty c)
                          (sceneVertexBufsOf c) (boundaryEvents c) (created c)))
  | _, _ => JS.Normal (s, c)
  end.

(** The pool update of a setter: [this._sceneVertexBufs.setX(state)] when
    the geometry is combined; the pool sees the state object the setter has
    just written to. *)
Definition updatePool (s : Scene) (c : Component) (st : Renderer.Geometry)
           (setX : SceneVertexBufs.Pool -> Renderer.Geometry -> SceneVertexBufs.Pool)
  : JS.completion (list (string * SceneVertexBufs.Pool)) :=
  if Renderer.combined st
  then JS.bind (poolOf s c) (fun hp =>
         let '(hash, p) := hp in
         let p := setX (SceneVertexBufs.aliased p st) st in
         JS.Normal (storePool (sceneVertexBufs s) hash p))
  else JS.Normal (sceneVertexBufs s).

(** The setter of [normals]. *)
Definition set_normals (s : Scene) (c : Component) (newNormals : ArrayLike)
  : JS.completion (Scene * Component) :=
  if Renderer.quantized (state c)
  then JS.Normal (report s (Renderer.Error_quantized_immutable "normals"), c)
  else
    match Renderer.normals (state c) with
    | None => JS.Normal (report s (Renderer.Error_no_attribute "normals"), c)
    | Some normals =>
        if negb (Renderer.length normals =? length (items newNormals))%nat
        then JS.Normal (report s (Renderer.Error_wrong_length "normals"), c)
        else
          let normals := Renderer.typedSet normals (items newNormals) in
          let st := Renderer.set_normals (state c) (Some normals) in
          let st := match Renderer.normalsBuf st with
                    | Some buf =>
                        Renderer.set_normalsBuf st (Some (Renderer.setData buf normals))
                    | None => st
                    end in
          JS.bind (updatePool s c st SceneVertexBufs.setNormals)
            (fun pools => JS.Normal (mkScene (env s) pools true, set_state c st))
    end.

(** The setter of [uv]. *)
Definition set_uv (s : Scene) (c : Component) (newUV : ArrayLike)
  : JS.completion (Scene * Component) :=
  if Renderer.quantized (state c)
  then JS.Normal (report s (Renderer.Error_quantized_immutable "UVs"), c)
  else
    match Renderer.uv (state c) with
    | None => JS.Normal (report s (Renderer.Error_no_attribute "UVs"), c)
    | Some uv =>
        if negb (Renderer.length uv =? length (items newUV))%nat
        then JS.Normal (report s (Renderer.Error_wrong_length "UVs"), c)
        else
          let uv := Renderer.typedSet uv (items newUV) in
          let st := Renderer.set_uv (state c) (Some uv) in
          let st := match Renderer.uvBuf st with
                    | Some buf => Renderer.set_uvBuf st (Some (Renderer.setData buf uv))
                    | None => st
                    end in
          JS.bind (updatePool s c st SceneVertexBufs.setUVs)
            (fun pools => JS.Normal (mkScene (env s) pools true, set_state c st))
    end.

(** The setter of [colors]. *)
Definition set_colors (s : Scene) (c : Component) (newColors : ArrayLike)
  : JS.completion (Scene * Component) :=
  if Renderer.quantized (state c)
  then JS.Normal (report s (Renderer.Error_quantized_immutable "colors"), c)
  else
    match Renderer.colors (state c) with
    | None => JS.Normal (report s (Renderer.Error_no_attribute "colors"), c)
    | Some colors =>
        if negb (Renderer.length colors =? length (items newColors))%nat
        then JS.Normal (report s (Renderer.Error_wrong_length "colors"), c)
        else
          let colors := Renderer.typedSet colors (items newColors) in
          let st := Renderer.set_colors (state c) (Some colors) in
          let st := match Renderer.colorsBuf st with
                    | Some buf =>
                        Renderer.set_colorsBuf st (Some (Renderer.setData buf colors))
                    | None => st
                    end in
          JS.bind (updatePool s c st SceneVertexBufs.setColors)
            (fun pools => JS.Normal (mkScene (env s) pools true, set_state c st))
    end.

(** The getter of [primitive]. *)
Definition get_primitive (c : Component) : option string :=
  Renderer.primitiveName (state c).

(** [xeogl.math.AABB3()] and [xeogl.math.positions3ToAABB3(positions, aabb,
    positionsDecodeMatrix)], which are not among the sources: whatever box
    the first makes and the second fills in. *)
Variable AABB3 : list JS.num.
Variable positions3ToAABB3 :
  option Renderer.TypedArray -> list JS.num -> option (list JS.num) -> list JS.num.

(** The component together with the box [this._aabb] it caches. *)
Record Boxed : Type := mkBoxed {
  component : Component;
  _aabb : option (list JS.num)
}.

(** The getter of [aabb]: the box it returns, and the component after the
    call. *)
Definition get_aabb (b : Boxed) : Boxed * option (list JS.num) :=
  let c := component b in
  if aabbDirty c
  then
    let aabb := match _aabb b with
                | Some a => a
                | None => AABB3
                end in
    let aabb := positions3ToAABB3 (Renderer.positions (state c)) aabb
                                  (Renderer.positionsDecodeMatrix (state c)) in
    (mkBoxed (mkComponent (state c) (ghostEdgeThreshold c) (edgesIndicesBuf c)
                          (pickTrianglePositionsBuf c) (pickTriangleColorsBuf c)
                          (boundaryDirty c) false (obbDirty c)
                          (sceneVertexBufsOf c) (boundaryEvents c) (created c))
             (Some aabb),
     Some aabb)
  else (b, _aabb b).

End Platform.

End Geometry.

(* ================================================================== *)
(** * Example data                                                     *)
(* ================================================================== *)

(** A combined, unquantized state object with positions and 16-bit indices
    only, as [_init] leaves it before the pool sees it. *)
Definition plainGeometry (id : string) (positions : list JS.num) (indices : list Z)
  : Renderer.Geometry :=
  Renderer.mkGeometry (JS.Str id) true false false
    (Some Renderer.TRIANGLES) (Some "triangles"%string)
    (Some (Renderer.Float32Array positions)) None None None
    (Some (Renderer.Uint16Array indices))
    None None None None None None None None ""%string.

(** The same with a number for its id. *)
Definition numberedGeometry (id : N) (positions : list JS.num) (indices : list Z)
  : Renderer.Geometry :=
  Renderer.mkGeometry (JS.Idx id) true false false
    (Some Renderer.TRIANGLES) (Some "triangles"%string)
    (Some (Renderer.Float32Array positions)) None None None
    (Some (Renderer.Uint16Array indices))
    None None None None None None None None ""%string.

(** The positions of [n] vertices at the origin. *)
Definition manyVertices (n : Z) : list JS.num := repeat (JS.Fin 0) (Z.to_nat (3 * n)).

Definition noMessages : Renderer.Env :=
  Renderer.mkEnv (Renderer.mkMemoryStats 0 0 0 0 0 0) [].

(** The pool of the geometries that have positions only and are not
    quantized. *)
Definition positionsPool : SceneVertexBufs.Pool :=
  SceneVertexBufs.create true false false false false.

(** The pool after [addGeometry(a)] and [addGeometry(b)]. *)
Definition poolOfTwo (a b : Renderer.Geometry) : SceneVertexBufs.Pool :=
  snd (SceneVertexBufs.addGeometry noMessages
         (snd (SceneVertexBufs.addGeometry noMessages positionsPool a)) b).

(** Example configurations: the single triangle of the spec's scenario,
    quantized or not, combined or not, and the same without positions. *)
Definition trianglePositions : list JS.num := map JS.Fin [0; 0; 0; 1; 0; 0; 0; 1; 0].

Definition triangleConfig (quantized combined : bool) (ghostEdgeThreshold : JS.value)
  : Geometry.Config :=
  Geometry.mkConfig None (Some (Geometry.Plain trianglePositions)) None None None
                    (Some (Geometry.Plain (map JS.Fin [0; 1; 2])))
                    JS.VUndefined (JS.VBool quantized) (JS.VBool combined) ghostEdgeThreshold.

Definition noPositionsConfig (combined : bool) : Geometry.Config :=
  Geometry.mkConfig None None None None None
                    (Some (Geometry.Plain (map JS.Fin [0; 1; 2])))
                    JS.VUndefined (JS.VBool false) (JS.VBool combined) JS.VUndefined.

Definition emptyScene : Geometry.Scene := Geometry.mkScene noMessages [] false.

(** A rational stand-in for [Math.cos] near zero, the Taylor polynomial of
    degree 4, and [xeogl.math.DEGTORAD] to ten decimals. *)
Definition taylor_cos (a : JS.num) : JS.num :=
  match a with
  | JS.Fin x => JS.Fin (1 - x * x / 2 + x * x * x * x / 24)
  | _ => JS.NaN
  end.

Definition DEGTORAD_approx : JS.num := JS.Fin (174532925 # 10000000000).

(** A unit square in the plane [z = 0] cut into two triangles along the
    diagonal from vertex 1 to vertex 2. *)
Definition squarePositions : list JS.num :=
  map JS.Fin [0; 0; 0; 1; 0; 0; 0; 1; 0; 1; 1; 0].

Definition squareIndices : list Z := [0; 1; 2; 2; 1; 3]%Z.

(* ================================================================== *)
(** * Predicates of the statements                                     *)
(* ================================================================== *)

(** A bound of [getBounds] under (above) a value. *)
Definition is_lower (x : JS.num) (v : Q) : Prop := exists mn, x = JS.Fin mn /\ mn <= v.
Definition is_upper (x : JS.num) (v : Q) : Prop := exists mx, x = JS.Fin mx /\ v <= mx.

(** The number is one a [Float32Array] holds as it is:
    [Math.fround(a) === a]. *)
Definition isFloat32 (a : JS.num) : bool := JS.eqb (JS.fround a) a.

(** The bounds of axis [j] are finite and [max[j] == min[j]]. *)
Definition degenerateAxis (b : Bounds) (j : nat) : bool :=
  match JS.get (bmin b) j, JS.get (bmax b) j with
  | JS.Fin mn, JS.Fin mx => Qeq_bool mx mn
  | _, _ => false
  end.

(** What the quantization loops store at index [k]. *)
Definition quantizedAt (array min multiplier : list JS.num) (stride k : nat) : Z :=
  JS.toUint16 (JS.floor (scaled (JS.get array k) (JS.get min (k mod stride))
                                (JS.get multiplier (k mod stride)))).

(** What holds of the selection state of the normal at [i] once the
    candidates [tried] were tried: it holds one of them with its dot product,
    and none of them has a dot product above it. *)
Definition selected (sqrt : JS.num -> JS.num) (array : list JS.num) (i : nat)
           (tried : list (rounding * rounding)) (s : Best) : Prop :=
  bestCos s = dot array i (octDecodeVec2 sqrt (best s)) /\
  (exists f, In f tried /\ best s = octEncodeVec3 array i (fst f) (snd f)) /\
  forall f, In f tried ->
            JS.gt (dot array i (octDecodeVec2 sqrt (octEncodeVec3 array i (fst f) (snd f))))
                  (bestCos s) = false.

(** The key is no array index. *)
Definition is_Str (k : JS.key) : bool :=
  match k with JS.Str _ => true | JS.Idx _ => false end.

(** What one iteration of the loop of [build] decides for a geometry with
    positions [gp] and indices [gi]: its offset, the chunk it joins, the
    indices it is given and the diagnostics printed. *)
Definition stepOffset (big : bool) (p : SceneVertexBufs.Pool) (off : JS.num)
           (gp : Renderer.TypedArray) : JS.num :=
  if SceneVertexBufs.needNew big p gp then JS.Fin 0 else off.

Definition stepChunk (big : bool) (p : SceneVertexBufs.Pool) (gp : Renderer.TypedArray) : nat :=
  match SceneVertexBufs.vertexBufs p with
  | Some n => if SceneVertexBufs.needNew big p gp
              then length (SceneVertexBufs.chunks p) else n
  | None => length (SceneVertexBufs.chunks p)
  end.

Definition stepAdjusted (big : bool) (off1 : JS.num) (gi : Renderer.TypedArray) : list Z :=
  map (SceneVertexBufs.adjustIndex big off1)
      (map (SceneVertexBufs.toIndex big) (Renderer.numbers gi)).

Definition stepIndices (big : bool) (off1 : JS.num) (gi : Renderer.TypedArray)
  : Renderer.TypedArray :=
  if JS.truthy off1 then SceneVertexBufs.IndexArray big (stepAdjusted big off1 gi) else gi.

Definition stepErrors (big : bool) (off1 : JS.num) (gi : Renderer.TypedArray)
  : list Renderer.Message :=
  if JS.truthy off1
  then map Renderer.Console_out_of_range
           (filter (fun v => JS.gt (JS.of_Z v)
                                   (JS.div (SceneVertexBufs.CHUNK_LEN big) (JS.Fin 3)))
                   (stepAdjusted big off1 gi))
  else [].

Definition stepPositions (big : bool) (p : SceneVertexBufs.Pool) (gp : Renderer.TypedArray)
  : list JS.num :=
  if SceneVertexBufs.hasPositions p
  then (match SceneVertexBufs.vertexBufs p with
        | Some _ => if SceneVertexBufs.needNew big p gp then [] else SceneVertexBufs.positions p
        | None => SceneVertexBufs.positions p
        end) ++ Renderer.numbers gp
  else SceneVertexBufs.positions p.

(** The attributes the pool's signature has are attributes of the
    geometry. *)
Definition matchesSignature (p : SceneVertexBufs.Pool) (g : Renderer.Geometry) : Prop :=
  (SceneVertexBufs.hasNormals p = true -> Renderer.normals g <> None) /\
  (SceneVertexBufs.hasColors p = true -> Renderer.colors g <> None) /\
  (SceneVertexBufs.hasUVs p = true -> Renderer.uv g <> None).

(** The number of position components of the geometry registered under
    [id], and of the geometries registered under [ids]. *)
Definition positionsLength (o : JS.obj Renderer.Geometry) (id : JS.key) : nat :=
  match JS.lookup o id with
  | Some g => match Renderer.positions g with
              | Some gp => Renderer.length gp
              | None => 0
              end
  | None => 0
  end.

(** The offsets a rebuild is meant to assign, following the spec: the
    geometries are taken in order; a geometry whose positions, added to the
    [acc] components accumulated in the open chunk, would exceed [CHUNK_LEN]
    starts a new chunk (as does the first geometry, when no chunk is
    [opened]); the offset of a geometry is the running vertex count of its
    chunk, [positions.length / 3] per geometry. *)
Fixpoint chunkOffsets (big opened : bool) (acc : nat) (running : JS.num) (lens : list nat)
  : list JS.num :=
  match lens with
  | [] => []
  | n :: rest =>
      let new := negb opened
                 || JS.gt (JS.add (JS.of_nat acc) (JS.of_nat n)) (SceneVertexBufs.CHUNK_LEN big) in
      let offset := if new then JS.Fin 0 else running in
      offset :: chunkOffsets big true ((if new && opened then 0 else acc) + n)
                             (JS.add offset (JS.div (JS.of_nat n) (JS.Fin 3))) rest
  end.

(** The geometry registered under [id] has positions, indices and the
    attributes of the pool's signature. *)
Definition wellRegistered (p : SceneVertexBufs.Pool) (id : JS.key) : Prop :=
  exists g gp gi,
    JS.lookup (SceneVertexBufs.geometries p) id = Some g /\
    Renderer.positions g = Some gp /\
    Renderer.indices g = Some gi /\
    matchesSignature p g.

(** The fields of the state object that the buffer builders leave as they
    are. *)
Definition sameAttributes (a b : Renderer.Geometry) : Prop :=
  Renderer.id a = Renderer.id b /\
  Renderer.combined a = Renderer.combined b /\
  Renderer.quantized a = Renderer.quantized b /\
  Renderer.positions a = Renderer.positions b /\
  Renderer.normals a = Renderer.normals b /\
  Renderer.colors a = Renderer.colors b /\
  Renderer.uv a = Renderer.uv b /\
  Renderer.indices a = Renderer.indices b.

(** The edge builder's output read as index pairs. *)
Fixpoint pairs (A : Type) (l : list A) : list (A * A) :=
  match l with
  | a :: b :: rest => (a, b) :: pairs rest
  | _ => []
  end.

(** The key of side [j] of face [f]: the two ends of the side, the smaller
    first. *)
Definition sideKey (indices : list Z) (f j : nat) : EdgeKey :=
  let edge1 := nth_error indices (f * 3 + j) in
  let edge2 := nth_error indices (f * 3 + (j + 1) mod 3) in
  (minIndex edge1 edge2, maxIndex edge1 edge2).

(** The sides of the faces of a mesh of whole triangles, face after face,
    each with its face. *)
Definition sides (indices : list Z) : list (EdgeKey * nat) :=
  flat_map (fun f => [(sideKey indices f 0, f); (sideKey indices f 1, f);
                      (sideKey indices f 2, f)])
           (seq 0 (length indices / 3)).

(** The faces of the sides [occ] that join the two ends of an edge, and the
    faces adjacent to an edge of a mesh: one for every side that joins its
    two ends, in the order of the faces. *)
Definition facesIn (occ : list (EdgeKey * nat)) (key : EdgeKey) : list nat :=
  map snd (filter (fun side => edgeKey_eqb (fst side) key) occ).

Definition adjacentFaces (indices : list Z) (key : EdgeKey) : list nat :=
  facesIn (sides indices) key.

(** What the first loop of the edge builder does with one side. *)
Definition recordSide (edges : list (EdgeKey * Edge)) (side : EdgeKey * nat)
  : list (EdgeKey * Edge) :=
  match findEdge edges (fst side) with
  | None => edges ++ [(fst side, mkEdge (fst (fst side)) (snd (fst side)) (snd side) None)]
  | Some _ => setFace2 edges (fst side) (snd side)
  end.

(** The record the first loop holds for an edge with the adjacent faces
    [faces]: the first face, and the last of the others if any. *)
Definition edgeRecord (key : EdgeKey) (faces : list nat) : option Edge :=
  match faces with
  | [] => None
  | f :: [] => Some (mkEdge (fst key) (snd key) f None)
  | f :: rest => Some (mkEdge (fst key) (snd key) f (Some (last rest 0%nat)))
  end.

(** What the second loop pushes for one edge record, and whether it makes
    the index large. *)
Definition pushed (faces : list (list JS.num)) (thresholdDot indicesOffset : JS.num)
           (e : Edge) : list JS.num :=
  if skipped faces thresholdDot e
  then []
  else [JS.add (indexNumber (index1 e)) indicesOffset;
        JS.add (indexNumber (index2 e)) indicesOffset].

Definition large (faces : list (list JS.num)) (thresholdDot indicesOffset : JS.num)
           (e : Edge) : bool :=
  negb (skipped faces thresholdDot e)
  && (JS.gt (JS.add (indexNumber (index1 e)) indicesOffset) (JS.Fin 65535)
      || JS.gt (JS.add (indexNumber (index2 e)) indicesOffset) (JS.Fin 65535)).

(** The offsets the spec gives geometries that share one chunk: each one
    the running vertex count, [positions.length / 3] per geometry. *)
Fixpoint runningCounts (running : JS.num) (lens : list nat) : list JS.num :=
  match lens with
  | [] => []
  | n :: rest =>
      running :: runningCounts (JS.add running (JS.div (JS.of_nat n) (JS.Fin 3))) rest
  end.

(** The vertex count [positions.length / 3] of a positions array. *)
Definition vertexCount (positions : Renderer.TypedArray) : Q :=
  inject_Z (Z.of_nat (Renderer.length positions)) / 3.

(** The number of vertices of a positions array of whole triples. *)
Definition vertices (positions : Renderer.TypedArray) : nat :=
  (Renderer.length positions / 3)%nat.

(** A geometry the pool [p] accepts and can rebuild: its id is the key
    [id], a number or a string as an object has them for keys, it has the
    positions [gp], which are whole triples and not empty, indices, and the
    attributes of the pool's signature. *)
Definition accepted (p : SceneVertexBufs.Pool) (g : Renderer.Geometry) (id : JS.key)
           (gp : Renderer.TypedArray) : Prop :=
  Renderer.id g = id /\
  JS.canonical id = true /\
  Renderer.positions g = Some gp /\
  Renderer.indices g <> None /\
  matchesSignature p g /\
  (0 < Renderer.length gp)%nat /\
  (Renderer.length gp mod 3 = 0)%nat.

(** [for ... in] visits the keys of an object that was given them in the
    order of [ids] in that order: the array indices among them are
    ascending and come before the other strings. *)
Definition forInOrder (ids : list JS.key) : Prop :=
  JS.keys (map (fun id => (id, tt)) ids) = ids.

(** [addGeometry] for every geometry of a list, in order. *)
Definition addGeometries (e : Renderer.Env) (p : SceneVertexBufs.Pool)
           (gs : list Renderer.Geometry) : Renderer.Env * SceneVertexBufs.Pool :=
  fold_left (fun ep g => SceneVertexBufs.addGeometry (fst ep) (snd ep) g) gs (e, p).

(** [removeGeometry(g); addGeometry(g)]. *)
Definition removeThenAdd (e : Renderer.Env) (p : SceneVertexBufs.Pool) (g : Renderer.Geometry)
  : Renderer.Env * SceneVertexBufs.Pool :=
  SceneVertexBufs.addGeometry e (SceneVertexBufs.removeGeometry p g) g.

(** What [_init] reports about the primitive type of a configuration:
    nothing, or that the type is not supported. *)
Definition primitiveDiagnostics (cfg : Geometry.Config) : list Renderer.Message :=
  let name := match Geometry.cfg_primitive cfg with
              | Some n => if String.eqb n "" then "triangles"%string else n
              | None => "triangles"%string
              end in
  match Geometry.primitiveOf name with
  | Some _ => []
  | None => [Renderer.Error_unsupported_primitive name]
  end.

(** [_init] returns early on these indices: a [Uint32Array] on a platform
    without 32-bit indices. *)
Definition indicesRefused (big : bool) (cfg : Geometry.Config) : bool :=
  match Geometry.cfg_indices cfg with
  | Some a => negb big && Geometry.isUint32Array a
  | None => false
  end.

(** The two ends of an edge moved by an offset, as the edge builder emits
    them. *)
Definition movedEnds (offset : Z) (key : EdgeKey) : list Z :=
  [match fst key with Some x => x + offset | None => 0 end;
   match snd key with Some y => y + offset | None => 0 end]%Z.

(** The numbers in the positions buffer of the [n]-th buffer set the pool
    created. *)
Definition chunkPositions (p : SceneVertexBufs.Pool) (n : nat) : option (list JS.num) :=
  match nth_error (SceneVertexBufs.chunks p) n with
  | Some vb =>
      match Renderer.vb_positionsBuf vb with
      | Some buf => Some (Renderer.numbers (Renderer.data buf))
      | None => None
      end
  | None => None
  end.

(** What a buffer of the pool holds of the numbers pushed for it: the
    numbers themselves, or what [new Uint16Array] makes of them in a
    quantized pool. *)
Definition stored (quantized : bool) (l : list JS.num) : list JS.num :=
  if quantized then map (fun x => JS.of_Z (JS.toUint16 x)) l else l.

(** The [len] elements of [l] from [start] on. *)
Definition window (A : Type) (l : list A) (start len : nat) : list A :=
  firstn len (skipn start l).

(** The positions of the [m]-th buffer set during a rebuild: those pushed
    so far when it is the open one, those of its buffer otherwise. *)
Definition view (p : SceneVertexBufs.Pool) (m : nat) : option (list JS.num) :=
  match SceneVertexBufs.vertexBufs p with
  | Some n => if Nat.eqb n m
              then Some (stored (SceneVertexBufs.quantized p) (SceneVertexBufs.positions p))
              else chunkPositions p m
  | None => chunkPositions p m
  end.

(** The geometry registered under [id] has its positions in the buffer set
    it was given, from element [3 * offset] on. *)
Definition laidOutIn (p : SceneVertexBufs.Pool) (content : nat -> option (list JS.num))
           (id : JS.key) : Prop :=
  exists g gp n l,
    JS.lookup (SceneVertexBufs.geometries p) id = Some g /\
    Renderer.positions g = Some gp /\
    JS.lookup (SceneVertexBufs.geometryVertexBufs p) id = Some (Renderer.Chunk n) /\
    content n = Some l /\
    (SceneVertexBufs.elementOffset p id 3 + Renderer.length gp <= length l)%nat /\
    window l (SceneVertexBufs.elementOffset p id 3) (Renderer.length gp)
    = stored (SceneVertexBufs.quantized p) (Renderer.numbers gp).

Definition laidOut (p : SceneVertexBufs.Pool) (id : JS.key) : Prop :=
  laidOutIn p (chunkPositions p) id.

(** The state of the loop of [build] between two geometries: the open
    buffer set is one of the pool's and [indicesOffset] counts the vertices
    pushed for it; before the first geometry nothing is pushed. *)
Definition betweenSteps (p : SceneVertexBufs.Pool) (indicesOffset : JS.num) : Prop :=
  match SceneVertexBufs.vertexBufs p with
  | Some n =>
      (n < length (SceneVertexBufs.chunks p))%nat /\
      exists q, indicesOffset = JS.Fin q /\
                q * 3 == inject_Z (Z.of_nat (length (SceneVertexBufs.positions p)))
  | None => SceneVertexBufs.positions p = []
  end.

(** What the pool's own operations keep true of it: positions are part of
    its signature, no id is registered twice, every registered geometry has
    positions, indices and the attributes of the signature, nothing is left
    pushed between two rebuilds, and, when no rebuild is pending, every
    registered geometry has a buffer set, a numeric offset and its positions
    in the buffer set at that offset. *)
Definition consistent (p : SceneVertexBufs.Pool) : Prop :=
  SceneVertexBufs.hasPositions p = true /\
  NoDup (map fst (SceneVertexBufs.geometries p)) /\
  (forall id g, JS.lookup (SceneVertexBufs.geometries p) id = Some g ->
                Renderer.positions g <> None /\ Renderer.indices g <> None /\
                matchesSignature p g) /\
  SceneVertexBufs.positions p = [] /\
  (SceneVertexBufs.needRebuild p || SceneVertexBufs.needAppend p = false ->
   forall id, In id (map fst (SceneVertexBufs.geometries p)) ->
              (exists n, JS.lookup (SceneVertexBufs.geometryVertexBufs p) id
                         = Some (Renderer.Chunk n)) /\
              (exists o, JS.lookup (SceneVertexBufs.geometryIndicesOffsets p) id
                         = Some (JS.Fin o)) /\
              laidOut p id).

(** The calls a client makes on a pool, and a history of such calls run
    from a state of the pool. *)
Inductive PoolCall : Type :=
| AddGeometry (geometry : Renderer.Geometry)
| RemoveGeometry (geometry : Renderer.Geometry)
| GetVertexBufs (geometry : Renderer.Geometry)
| GetIndicesOffset (geometry : Renderer.Geometry).

Definition call (big : bool) (st : Renderer.Env * SceneVertexBufs.Pool) (c : PoolCall)
  : JS.completion (Renderer.Env * SceneVertexBufs.Pool) :=
  let '(e, p) := st in
  match c with
  | AddGeometry g => JS.Normal (SceneVertexBufs.addGeometry e p g)
  | RemoveGeometry g => JS.Normal (e, SceneVertexBufs.removeGeometry p g)
  | GetVertexBufs g =>
      JS.bind (SceneVertexBufs.getVertexBufs big e p g) (fun r => JS.Normal (fst r))
  | GetIndicesOffset g =>
      JS.bind (SceneVertexBufs.getIndicesOffset big e p g) (fun r => JS.Normal (fst r))
  end.

Fixpoint calls (big : bool) (history : list PoolCall)
         (st : Renderer.Env * SceneVertexBufs.Pool)
  : JS.completion (Renderer.Env * SceneVertexBufs.Pool) :=
  match history with
  | [] => JS.Normal st
  | c :: rest => JS.bind (call big st c) (calls big rest)
  end.

(** The geometries a history registers have the attributes of the pool's
    signature. *)
Definition fitsSignature (p : SceneVertexBufs.Pool) (c : PoolCall) : Prop :=
  match c with
  | AddGeometry g => matchesSignature p g
  | _ => True
  end.

(** A history on the pool of the geometries that have positions only: a
    triangle and a square are registered, the triangle is removed again,
    with queries in between. *)
Definition sampleHistory : list PoolCall :=
  let A := plainGeometry "A" trianglePositions [0; 1; 2]%Z in
  let B := plainGeometry "B" squarePositions squareIndices in
  [AddGeometry A; AddGeometry B; GetVertexBufs A; RemoveGeometry A; GetIndicesOffset B].

Definition afterSampleHistory : Renderer.Env * SceneVertexBufs.Pool :=
  match calls false sampleHistory (noMessages, positionsPool) with
  | JS.Normal st => st
  | JS.Throw _ => (noMessages, positionsPool)
  end.

(** The triangle and the square registered, and no query yet. *)
Definition twoRegistrations : list PoolCall :=
  [AddGeometry (plainGeometry "A" trianglePositions [0; 1; 2]%Z);
   AddGeometry (plainGeometry "B" squarePositions squareIndices)].

Definition afterTwoRegistrations : Renderer.Env * SceneVertexBufs.Pool :=
  match calls false twoRegistrations (noMessages, positionsPool) with
  | JS.Normal st => st
  | JS.Throw _ => (noMessages, positionsPool)
  end.

(** A stand-in for [positions3ToAABB3]: the least and the greatest
    coordinates of the positions, as [getBounds] finds them. *)
Definition boundsBox (positions : option Renderer.TypedArray) (aabb : list JS.num)
           (positionsDecodeMatrix : option (list JS.num)) : list JS.num :=
  match positions with
  | Some a => let b := getBounds (Renderer.numbers a) 3 in bmin b ++ bmax b
  | None => aabb
  end.

(** The triangle of [trianglePositions] made twice as large. *)
Definition largerTriangle : Geometry.ArrayLike :=
  Geometry.Plain (map JS.Fin [0; 0; 0; 2; 0; 0; 0; 2; 0]).

(** The triangle as a geometry of its own, once its box has been read. *)
Definition triangleCreated : Geometry.Scene * Geometry.Component :=
  Geometry._init false newton_sqrt emptyScene (JS.Str "g")
                 (triangleConfig false false JS.VUndefined).

Definition triangleBoxRead : Geometry.Boxed * option (list JS.num) :=
  Geometry.get_aabb (repeat (JS.Fin 0) 6) boundsBox
                    (Geometry.mkBoxed (snd triangleCreated) None).

Definition triangleUpdated : Geometry.Scene * Geometry.Component :=
  match Geometry.set_positions (fst triangleCreated)
                               (Geometry.component (fst triangleBoxRead)) largerTriangle with
  | JS.Normal r => r
  | JS.Throw _ => triangleCreated
  end.

(** The triangle with its indices in a [Uint32Array], combined. *)
Definition refusedConfig : Geometry.Config :=
  Geometry.mkConfig None (Some (Geometry.Plain trianglePositions)) None None None
                    (Some (Geometry.Typed (Renderer.Uint32Array [0; 1; 2]%Z)))
                    JS.VUndefined (JS.VBool false) (JS.VBool true) JS.VUndefined.

(** The triangle asked for as a primitive the engine does not know. *)
Definition quadsConfig : Geometry.Config :=
  Geometry.mkConfig (Some "quads"%string) (Some (Geometry.Plain trianglePositions))
                    None None None (Some (Geometry.Plain (map JS.Fin [0; 1; 2])))
                    JS.VUndefined (JS.VBool false) (JS.VBool false) JS.VUndefined.

(** The updates a client makes through the setters of a geometry, and a
    sequence of them run on a component. *)
Inductive AttributeUpdate : Type :=
| SetPositions (newPositions : Geometry.ArrayLike)
| SetNormals (newNormals : Geometry.ArrayLike)
| SetUV (newUV : Geometry.ArrayLike)
| SetColors (newColors : Geometry.ArrayLike).

Definition update (s : Geometry.Scene) (c : Geometry.Component) (u : AttributeUpdate)
  : JS.completion (Geometry.Scene * Geometry.Component) :=
  match u with
  | SetPositions a => Geometry.set_positions s c a
  | SetNormals a => Geometry.set_normals s c a
  | SetUV a => Geometry.set_uv s c a
  | SetColors a => Geometry.set_colors s c a
  end.

Fixpoint updates (s : Geometry.Scene) (c : Geometry.Component) (us : list AttributeUpdate)
  : JS.completion (Geometry.Scene * Geometry.Component) :=
  match us with
  | [] => JS.Normal (s, c)
  | u :: rest => JS.bind (update s c u) (fun r => updates (fst r) (snd r) rest)
  end.

(** The number of elements of an attribute, when the geometry has it. *)
Definition elements (a : option Renderer.TypedArray) : option nat :=
  option_map Renderer.length a.

(** What no setter changes: which attributes the geometry has and how long
    they are, its indices, id and flags. *)
Definition sameShape (a b : Renderer.Geometry) : Prop :=
  elements (Renderer.positions a) = elements (Renderer.positions b) /\
  elements (Renderer.normals a) = elements (Renderer.normals b) /\
  elements (Renderer.uv a) = elements (Renderer.uv b) /\
  elements (Renderer.colors a) = elements (Renderer.colors b) /\
  Renderer.indices a = Renderer.indices b /\
  Renderer.id a = Renderer.id b /\
  Renderer.quantized a = Renderer.quantized b /\
  Renderer.combined a = Renderer.combined b.

(** A combined component refers to a pool of the scene. *)
Definition attached (s : Geometry.Scene) (c : Geometry.Component) : Prop :=
  Renderer.combined (Geometry.state c) = true ->
  exists hash p,
    Geometry.sceneVertexBufsOf c = Some hash /\
    Geometry.findPool (Geometry.sceneVertexBufs s) hash = Some p.

(** The triangle with a colour for each vertex, combined; and other colours
    for it. *)
Definition coloredConfig : Geometry.Config :=
  Geometry.mkConfig None (Some (Geometry.Plain trianglePositions)) None None
                    (Some (Geometry.Plain (map JS.Fin [1; 0; 0; 1; 0; 1; 0; 1; 0; 0; 1; 1])))
                    (Some (Geometry.Plain (map JS.Fin [0; 1; 2])))
                    JS.VUndefined (JS.VBool false) (JS.VBool true) JS.VUndefined.

Definition otherColors : Geometry.ArrayLike :=
  Geometry.Plain (map JS.Fin [0; 0; 0; 1; 0; 0; 0; 1; 0; 0; 0; 1]).

Definition coloredCreated : Geometry.Scene * Geometry.Component :=
  Geometry._init false newton_sqrt emptyScene (JS.Str "g") coloredConfig.

Definition coloredUpdated : Geometry.Scene * Geometry.Component :=
  match Geometry.set_colors (fst coloredCreated) (snd coloredCreated) otherColors with
  | JS.Normal r => r
  | JS.Throw _ => coloredCreated
  end.

(** The signature of the geometries a pool takes, written as
    [getSceneVertexBufs] writes the signature of a geometry. *)
Definition poolSignature (p : SceneVertexBufs.Pool) : string :=
  let flag (b : bool) (s : string) : string := if b then s else ""%string in
  (flag (SceneVertexBufs.hasPositions p) "p" ++ ";" ++
   flag (SceneVertexBufs.quantized p) "c" ++ ";" ++
   flag (SceneVertexBufs.hasNormals p) "n" ++ ";" ++
   flag (SceneVertexBufs.hasColors p) "c" ++ ";" ++
   flag (SceneVertexBufs.hasUVs p) "u")%string.

(** What [_init] keeps true of the pools of a scene: each is filed under
    its own signature, and is consistent or, when positions are not part of
    the signature, empty. *)
Definition poolsConsistent (s : Geometry.Scene) : Prop :=
  forall hash p,
    Geometry.findPool (Geometry.sceneVertexBufs s) hash = Some p ->
    poolSignature p = hash /\
    (consistent p \/
     (SceneVertexBufs.hasPositions p = false /\ SceneVertexBufs.geometries p = [])).

(** A combined component with positions and indices is registered with the
    pool it refers to. *)
Definition registered (s : Geometry.Scene) (c : Geometry.Component) : Prop :=
  Renderer.combined (Geometry.state c) = true ->
  Renderer.positions (Geometry.state c) <> None ->
  Renderer.indices (Geometry.state c) <> None ->
  exists hash p,
    Geometry.sceneVertexBufsOf c = Some hash /\
    Geometry.findPool (Geometry.sceneVertexBufs s) hash = Some p /\
    JS.has (SceneVertexBufs.geometries p) (Renderer.id (Geometry.state c)) = true.

(** The geometries of a list of configurations made one after the other in
    a scene. *)
Fixpoint inits (big : bool) (sqrt : JS.num -> JS.num) (s : Geometry.Scene)
         (cfgs : list (JS.key * Geometry.Config))
  : Geometry.Scene * list Geometry.Component :=
  match cfgs with
  | [] => (s, [])
  | (id, cfg) :: rest =>
      let '(s1, c) := Geometry._init big sqrt s id cfg in
      let '(s2, cs) := inits big sqrt s1 rest in
      (s2, c :: cs)
  end.

(** The triangle, the square and the coloured triangle, all combined. *)
Definition squareConfig : Geometry.Config :=
  Geometry.mkConfig None (Some (Geometry.Plain squarePositions)) None None None
                    (Some (Geometry.Plain (map JS.of_Z squareIndices)))
                    JS.VUndefined (JS.VBool false) (JS.VBool true) JS.VUndefined.

Definition threeCombined : list (JS.key * Geometry.Config) :=
  [(JS.Str "a", triangleConfig false true JS.VUndefined);
   (JS.Str "b", squareConfig);
   (JS.Str "c", coloredConfig)].

(** Two numbers of the same value, whatever fractions stand for them. *)
Definition same (a b : JS.num) : Prop :=
  match a, b with
  | JS.Fin x, JS.Fin y => x == y
  | JS.PInf, JS.PInf | JS.NInf, JS.NInf | JS.NaN, JS.NaN => True
  | _, _ => False
  end.

(** Every positions buffer of the pool is a [Float32Array]. *)
Definition floatBuffers (p : SceneVertexBufs.Pool) : Prop :=
  forall n vb buf,
    nth_error (SceneVertexBufs.chunks p) n = Some vb ->
    Renderer.vb_positionsBuf vb = Some buf ->
    exists l, Renderer.data buf = Renderer.Float32Array l.

(** The square of [squarePositions] moved one unit up the z axis. *)
Definition raisedSquare : Renderer.Geometry :=
  plainGeometry "B" (map JS.Fin [0; 0; 1; 1; 0; 1; 0; 1; 1; 1; 1; 1]) squareIndices.

(** A number of position elements that [build] does not find above
    [CHUNK_LEN]. *)
Definition fitsChunk (big : bool) (n : nat) : Prop :=
  JS.gt (JS.of_nat n) (SceneVertexBufs.CHUNK_LEN big) = false.

(** The geometries a history registers have no more positions than a buffer
    set takes. *)
Definition smallEnough (big : bool) (c : PoolCall) : Prop :=
  match c with
  | AddGeometry g =>
      forall gp, Renderer.positions g = Some gp -> fitsChunk big (Renderer.length gp)
  | _ => True
  end.

Definition smallRegistry (big : bool) (p : SceneVertexBufs.Pool) : Prop :=
  forall id g gp,
    JS.lookup (SceneVertexBufs.geometries p) id = Some g ->
    Renderer.positions g = Some gp ->
    fitsChunk big (Renderer.length gp).

(** No positions buffer of the pool, and during a rebuild no list of
    positions pushed, is longer than [CHUNK_LEN]. *)
Definition chunksWithin (big : bool) (p : SceneVertexBufs.Pool) : Prop :=
  forall n l, chunkPositions p n = Some l -> fitsChunk big (length l).

Definition viewsWithin (big : bool) (p : SceneVertexBufs.Pool) : Prop :=
  forall n l, view p n = Some l -> fitsChunk big (length l).

(** The positions a history registers are whole triples. *)
Definition wholeTriples (c : PoolCall) : Prop :=
  match c with
  | AddGeometry g =>
      forall gp, Renderer.positions g = Some gp -> (Renderer.length gp mod 3 = 0)%nat
  | _ => True
  end.

Definition wholeRegistry (p : SceneVertexBufs.Pool) : Prop :=
  forall id g gp,
    JS.lookup (SceneVertexBufs.geometries p) id = Some g ->
    Renderer.positions g = Some gp ->
    (Renderer.length gp mod 3 = 0)%nat.

(** A whole number of vertices. *)
Definition wholeNumber (a : JS.num) : Prop :=
  exists (q : Q) (v : nat), a = JS.Fin q /\ q == inject_Z (Z.of_nat v).

(** The indices offsets of the pool that are numbers are whole numbers. *)
Definition wholeOffsets (p : SceneVertexBufs.Pool) : Prop :=
  forall id q,
    JS.lookup (SceneVertexBufs.geometryIndicesOffsets p) id = Some (JS.Fin q) ->
    exists v : nat, q == inject_Z (Z.of_nat v).

(* ================================================================== *)
(** * Properties                                                       *)
(* ================================================================== *)

(** ** Loops and array updates *)

Section Loops.

Variable S : Type.
Variable Inv : nat -> S -> Prop.
Variables (stop step : nat) (body : nat -> S -> S).
Hypothesis step_pos : (0 < step)%nat.
Hypothesis body_inv :
  forall i s, (i < stop)%nat -> Inv i s -> Inv (i + step) (body i s).

(** A loop invariant holds at the index the loop leaves with. *)
Lemma for_loop_inv :
  forall fuel i s,
    (stop <= i + fuel * step)%nat ->
    Inv i s ->
    exists i', (stop <= i')%nat /\ Inv i' (JS.for_loop fuel i stop step body s).
Proof.
  induction fuel as [|fuel IH]; intros i s Hfuel Hinv; simpl.
  - exists i. split; [lia | assumption].
  - destruct (Nat.ltb_spec i stop) as [Hlt|Hge].
    + apply IH; [lia | auto].
    + exists i. split; [lia | assumption].
Qed.

End Loops.

Lemma set_length (A : Type) (l : list A) i x : length (JS.set l i x) = length l.
Proof.
  revert i; induction l as [|h t IH]; intros [|i]; simpl; auto.
Qed.

Lemma nth_set_same (A : Type) (l : list A) i x d :
  (i < length l)%nat -> nth i (JS.set l i x) d = x.
Proof.
  revert i; induction l as [|h t IH]; intros [|i] H; simpl in *; try lia; auto.
  apply IH; lia.
Qed.

Lemma nth_set_other (A : Type) (l : list A) i j x d :
  i <> j -> nth j (JS.set l i x) d = nth j l d.
Proof.
  revert i j; induction l as [|h t IH]; intros [|i] [|j] H; simpl; auto; try congruence.
Qed.

Lemma nth_set (A : Type) (l : list A) i j x d :
  nth j (JS.set l i x) d = if ((i =? j) && (i <? length l))%nat then x else nth j l d.
Proof.
  destruct (Nat.eqb_spec i j) as [->|Hne]; simpl.
  - destruct (Nat.ltb_spec j (length l)).
    + apply nth_set_same; assumption.
    + rewrite !nth_overflow; auto. rewrite set_length; assumption.
  - apply nth_set_other; assumption.
Qed.

(** ** Bounds *)

Lemma Qltb_true a b : JS.Qltb a b = true <-> a < b.
Proof.
  unfold JS.Qltb. rewrite negb_true_iff.
  destruct (Qle_bool b a) eqn:E.
  - apply Qle_bool_iff in E. split; [discriminate | intro; lra].
  - split; auto. intros _. apply Qnot_le_lt. intro H.
    apply Qle_bool_iff in H. congruence.
Qed.

Lemma Qltb_false a b : JS.Qltb a b = false <-> b <= a.
Proof.
  unfold JS.Qltb. rewrite negb_false_iff. apply Qle_bool_iff.
Qed.

(** The first loop leaves +Infinity in every minimum and -Infinity in every
    maximum. *)
Lemma getBounds_init_spec stride :
  let b := getBounds_init stride in
  length (bmin b) = stride /\ length (bmax b) = stride /\
  forall j, (j < stride)%nat ->
            JS.get (bmin b) j = JS.PInf /\ JS.get (bmax b) j = JS.NInf.
Proof.
  destruct stride as [|n].
  { simpl. repeat split; intros; lia. }
  unfold getBounds_init.
  set (body := fun (i : nat) (b : Bounds) => _).
  set (b0 := mkBounds _ _).
  destruct (@for_loop_inv Bounds
              (fun i b => length (bmin b) = S n /\ length (bmax b) = S n /\
                          forall j, (j < i)%nat -> (j < S n)%nat ->
                                    JS.get (bmin b) j = JS.PInf /\ JS.get (bmax b) j = JS.NInf)
              (S n) 1 body ltac:(lia)) with (fuel := S n) (i := 0%nat) (s := b0)
    as (i' & Hi' & Hl1 & Hl2 & H).
  - intros i s Hi (Hl1 & Hl2 & H). unfold body; simpl.
    rewrite !set_length. repeat split; auto.
    + unfold JS.get. rewrite nth_set. rewrite Hl1.
      destruct (Nat.eqb_spec i j) as [->|Hne]; simpl.
      * destruct (Nat.ltb_spec j (S n)); [reflexivity | lia].
      * apply H; lia.
    + unfold JS.get. rewrite nth_set. rewrite Hl2.
      destruct (Nat.eqb_spec i j) as [->|Hne]; simpl.
      * destruct (Nat.ltb_spec j (S n)); [reflexivity | lia].
      * apply H; lia.
  - lia.
  - unfold b0; simpl. rewrite !repeat_length. repeat split; intros; lia.
  - cbv zeta. repeat split; auto; apply H; lia.
Qed.

(** The inner loop folds the tuple at [i] into the bounds, component by
    component. *)
Lemma getBounds_tuple_spec array stride i b0 :
  length (bmin b0) = stride -> length (bmax b0) = stride ->
  let b := JS.for_loop stride 0 stride 1 (getBounds_component array i) b0 in
  length (bmin b) = stride /\ length (bmax b) = stride /\
  forall j, (j < stride)%nat ->
            JS.get (bmin b) j = JS.fround (JS.min (JS.get (bmin b0) j) (JS.get array (i + j))) /\
            JS.get (bmax b) j = JS.fround (JS.max (JS.get (bmax b0) j) (JS.get array (i + j))).
Proof.
  intros Hl1 Hl2.
  destruct (@for_loop_inv Bounds
              (fun j b => length (bmin b) = stride /\ length (bmax b) = stride /\
                          forall j', (j' < stride)%nat ->
                            JS.get (bmin b) j' =
                              (if (j' <? j)%nat
                               then JS.fround (JS.min (JS.get (bmin b0) j') (JS.get array (i + j')))
                               else JS.get (bmin b0) j') /\
                            JS.get (bmax b) j' =
                              (if (j' <? j)%nat
                               then JS.fround (JS.max (JS.get (bmax b0) j') (JS.get array (i + j')))
                               else JS.get (bmax b0) j'))
              stride 1 (getBounds_component array i) ltac:(lia))
    with (fuel := stride) (i := 0%nat) (s := b0)
    as (j' & Hj' & Hl1' & Hl2' & H).
  - intros j s Hj (Hs1 & Hs2 & H). unfold getBounds_component; simpl.
    rewrite !set_length. split; [assumption | split; [assumption |]].
    intros j0 Hj0. destruct (H j0 Hj0) as [E1 E2]. unfold JS.get in E1 at 1, E2 at 1.
    split.
    + unfold JS.get at 1. rewrite nth_set, Hs1.
      destruct (Nat.eqb_spec j j0) as [->|Hne]; simpl.
      * destruct (Nat.ltb_spec j0 stride); [|lia].
        destruct (Nat.ltb_spec j0 (j0 + 1)); [|lia].
        unfold JS.get at 1. rewrite E1.
        destruct (Nat.ltb_spec j0 j0); [lia | reflexivity].
      * rewrite E1.
        destruct (Nat.ltb_spec j0 j), (Nat.ltb_spec j0 (j + 1)); try lia; reflexivity.
    + unfold JS.get at 1. rewrite nth_set, Hs2.
      destruct (Nat.eqb_spec j j0) as [->|Hne]; simpl.
      * destruct (Nat.ltb_spec j0 stride); [|lia].
        destruct (Nat.ltb_spec j0 (j0 + 1)); [|lia].
        unfold JS.get at 1. rewrite E2.
        destruct (Nat.ltb_spec j0 j0); [lia | reflexivity].
      * rewrite E2.
        destruct (Nat.ltb_spec j0 j), (Nat.ltb_spec j0 (j + 1)); try lia; reflexivity.
  - lia.
  - split; [assumption | split; [assumption |]]. intros j0 Hj0.
    destruct (Nat.ltb_spec j0 0); [lia | split; reflexivity].
  - cbv zeta. split; [assumption | split; [assumption |]]. intros j Hj.
    destruct (H j Hj) as [E1 E2]. rewrite E1, E2.
    destruct (Nat.ltb_spec j j'); [split; reflexivity | lia].
Qed.

Lemma get_map_Fin (l : list Q) k :
  (k < length l)%nat -> JS.get (map JS.Fin l) k = JS.Fin (nth k l 0).
Proof.
  intro H. unfold JS.get.
  rewrite (nth_indep _ JS.NaN (JS.Fin 0)) by (rewrite length_map; assumption).
  apply (map_nth JS.Fin).
Qed.

Lemma mod_offset i r stride :
  (i mod stride = 0)%nat -> (r < stride)%nat -> ((i + r) mod stride = r)%nat.
Proof.
  intros Hi Hr.
  rewrite Nat.Div0.add_mod, Hi by lia. simpl.
  rewrite Nat.Div0.mod_mod by lia. apply Nat.mod_small; assumption.
Qed.

Lemma multiple_next i len stride :
  (0 < stride)%nat -> (i mod stride = 0)%nat -> (len mod stride = 0)%nat ->
  (i < len)%nat -> (i + stride <= len)%nat.
Proof.
  intros Hs Hi Hl Hlt.
  apply Nat.Div0.div_exact in Hi, Hl.
  assert (i / stride < len / stride)%nat by nia.
  nia.
Qed.

Lemma quantizeVec3_loop_spec array min multiplier :
  (length array mod 3 = 0)%nat ->
  let q := quantizeVec3_loop array min multiplier in
  length q = length array /\
  forall k, (k < length array)%nat -> nth k q 0%Z = quantizedAt array min multiplier 3 k.
Proof.
  intros Hlen. unfold quantizeVec3_loop.
  set (body := fun (i : nat) (q : list Z) => _).
  destruct (@for_loop_inv (list Z)
              (fun i q => (i mod 3 = 0)%nat /\ length q = length array /\
                          forall k, (k < i)%nat -> (k < length array)%nat ->
                                    nth k q 0%Z = quantizedAt array min multiplier 3 k)
              (length array) 3 body ltac:(lia))
    with (fuel := length array) (i := 0%nat) (s := repeat 0%Z (length array))
    as (i' & Hi' & _ & Hl & H).
  - intros i q Hi (Hmod & Hl & H).
    assert (Hnext : (i + 3 <= length array)%nat) by (apply multiple_next; auto; lia).
    unfold body. rewrite !set_length.
    split; [|split; [assumption|]].
    + rewrite Nat.Div0.add_mod, Hmod by lia. reflexivity.
    + intros k Hk Hkl. rewrite !nth_set, !set_length, Hl.
      unfold quantizedAt, quantizeComponent.
      destruct (Nat.eqb_spec (i + 2) k) as [<-|N2]; cbn [andb].
      { destruct (Nat.ltb_spec (i + 2) (length array)); [|lia].
        rewrite (@mod_offset i _ _ Hmod) by lia. reflexivity. }
      destruct (Nat.eqb_spec (i + 1) k) as [<-|N1]; cbn [andb].
      { destruct (Nat.ltb_spec (i + 1) (length array)); [|lia].
        rewrite (@mod_offset i _ _ Hmod) by lia. reflexivity. }
      destruct (Nat.eqb_spec (i + 0) k) as [<-|N0]; cbn [andb].
      { destruct (Nat.ltb_spec (i + 0) (length array)); [|lia].
        rewrite (@mod_offset i _ _ Hmod) by lia. reflexivity. }
      apply H; lia.
  - lia.
  - split; [reflexivity | split; [apply repeat_length | intros; lia]].
  - cbv zeta. split; [assumption | intros k Hk; apply H; lia].
Qed.

Lemma quantizeVec2_loop_spec array min multiplier :
  (length array mod 2 = 0)%nat ->
  let q := quantizeVec2_loop array min multiplier in
  length q = length array /\
  forall k, (k < length array)%nat -> nth k q 0%Z = quantizedAt array min multiplier 2 k.
Proof.
  intros Hlen. unfold quantizeVec2_loop.
  set (body := fun (i : nat) (q : list Z) => _).
  destruct (@for_loop_inv (list Z)
              (fun i q => (i mod 2 = 0)%nat /\ length q = length array /\
                          forall k, (k < i)%nat -> (k < length array)%nat ->
                                    nth k q 0%Z = quantizedAt array min multiplier 2 k)
              (length array) 2 body ltac:(lia))
    with (fuel := length array) (i := 0%nat) (s := repeat 0%Z (length array))
    as (i' & Hi' & _ & Hl & H).
  - intros i q Hi (Hmod & Hl & H).
    assert (Hnext : (i + 2 <= length array)%nat) by (apply multiple_next; auto; lia).
    unfold body. rewrite !set_length.
    split; [|split; [assumption|]].
    + rewrite Nat.Div0.add_mod, Hmod by lia. reflexivity.
    + intros k Hk Hkl. rewrite !nth_set, !set_length, Hl.
      unfold quantizedAt, quantizeComponent.
      destruct (Nat.eqb_spec (i + 1) k) as [<-|N1]; cbn [andb].
      { destruct (Nat.ltb_spec (i + 1) (length array)); [|lia].
        rewrite (@mod_offset i _ _ Hmod) by lia. reflexivity. }
      destruct (Nat.eqb_spec (i + 0) k) as [<-|N0]; cbn [andb].
      { destruct (Nat.ltb_spec (i + 0) (length array)); [|lia].
        rewrite (@mod_offset i _ _ Hmod) by lia. reflexivity. }
      apply H; lia.
  - lia.
  - split; [reflexivity | split; [apply repeat_length | intros; lia]].
  - cbv zeta. split; [assumption | intros k Hk; apply H; lia].
Qed.

Lemma trunc_inject_Z z : JS.trunc (inject_Z z) = z.
Proof.
  unfold JS.trunc. destruct (Qle_bool 0 (inject_Z z)).
  - apply Qfloor_Z.
  - apply Qceiling_Z.
Qed.

Lemma Qeq_bool_false_of_pos q : 0 < q -> Qeq_bool q 0 = false.
Proof.
  intro H. destruct (Qeq_bool q 0) eqn:E; [|reflexivity].
  apply Qeq_bool_iff in E. lra.
Qed.

(** ** Rounding *)

(** Rounding looks at the value of a fraction only. *)
Lemma round_to_comp prec emax (q q' : Q) :
  q == q' -> JS.round_to prec emax q = JS.round_to prec emax q'.
Proof.
  intros H. unfold JS.round_to. rewrite (Qred_complete q q' H). reflexivity.
Qed.

Lemma round_to_zero prec emax (q : Q) : q == 0 -> JS.round_to prec emax q = JS.Fin 0.
Proof.
  intros H. rewrite (round_to_comp prec emax H). reflexivity.
Qed.

(** ** Quantization *)

(** C2, at the failing input. The positions [0.1, 0, 0, 1, 1, 1] have the
    bounds 0.1 and 1 on the first axis, but [getBounds] keeps them in a
    [Float32Array]: the minimum it returns is the float nearest to 0.1,
    which is above 0.1. For the component 0.1, [quantizeVec3] then takes the
    floor of a negative product, -1, which the [Uint16Array] holds as
    65535, the code of the maximum: decoding gives about 1 where the
    position was 0.1, 0.9 away and not within one quantization step
    [(max - min) / 65535]. The multipliers are kept in a [Float32Array]
    too: for the positions [0, 0, 0, 7, 7, 7] the multiplier is the float
    nearest to [65535 / 7], which is below it, and 7 is stored as 65534
    where the formula [floor((v - min) * 65535 / (max - min))] gives
    65535. *)
Theorem quantize_wraps_the_minimum_to_the_maximum :
  let b := getBounds tenth_positions 3 in
  let r := quantizeVec3 tenth_positions (bmin b) (bmax b) in
  let sevens := map JS.Fin [0; 0; 0; 7; 7; 7] in
  let b7 := getBounds sevens 3 in
  axes_nondegenerate b 3 = true /\
  JS.lt tenth (JS.get (bmin b) 0) = true /\
  JS.floor (scaled tenth (JS.get (bmin b) 0) (multiplierOf (bmin b) (bmax b) 0))
  = JS.Fin (- (1)) /\
  nth_error (quantized r) 0 = Some 65535%Z /\
  exists v mn mx d,
    tenth = JS.Fin v /\
    JS.get (bmin b) 0 = JS.Fin mn /\
    JS.get (bmax b) 0 = JS.Fin mx /\
    JS.get (XMath.decompressPositions (quantized r) (decode r)) 0 = JS.Fin d /\
    (mx - mn) / 65535 < Qabs (v - d) /\
    (mx - mn) / 65535 < 1 # 10000 /\
    8 # 10 < Qabs (v - d) /\
    JS.get (bmin b7) 0 = JS.Fin 0 /\
    JS.get (bmax b7) 0 = JS.Fin 7 /\
    nth_error (quantized (quantizeVec3 sevens (bmin b7) (bmax b7))) 3 = Some 65534%Z /\
    Qfloor ((7 - 0) * 65535 / (7 - 0)) = 65535%Z.
Proof.
  cbv zeta.
  split; [vm_compute; reflexivity|].
  split; [vm_compute; reflexivity|].
  split; [vm_compute; reflexivity|].
  split; [vm_compute; reflexivity|].
  do 4 eexists.
  split; [vm_compute; reflexivity|].
  split; [vm_compute; reflexivity|].
  split; [vm_compute; reflexivity|].
  split; [vm_compute; reflexivity|].
  split; [vm_compute; reflexivity|].
  repeat split; vm_compute; reflexivity.
Qed.

(** ** Degenerate axes *)

(** On an axis whose bounds are finite and equal the extent is 0, the
    multiplier is [65535 / 0], that is +Infinity, and the scale is 0. *)
Lemma degenerateAxis_bounds b j :
  degenerateAxis b j = true ->
  exists mn mx, JS.get (bmin b) j = JS.Fin mn /\ JS.get (bmax b) j = JS.Fin mx /\ mx == mn.
Proof.
  unfold degenerateAxis. intros H.
  destruct (JS.get (bmin b) j) as [mn| | |]; try discriminate H.
  destruct (JS.get (bmax b) j) as [mx| | |]; try discriminate H.
  exists mn, mx. repeat split. apply Qeq_bool_iff. exact H.
Qed.

Lemma extentOf_degenerate min max j mn mx :
  JS.get min j = JS.Fin mn -> JS.get max j = JS.Fin mx -> mx == mn ->
  extentOf min max j = JS.Fin 0.
Proof.
  intros E1 E2 E. unfold extentOf. rewrite E1, E2. cbn [JS.sub JS.neg JS.add JS.double].
  apply round_to_zero. lra.
Qed.

Lemma multiplierOf_degenerate min max j mn mx :
  JS.get min j = JS.Fin mn -> JS.get max j = JS.Fin mx -> mx == mn ->
  multiplierOf min max j = JS.PInf.
Proof.
  intros E1 E2 E. unfold multiplierOf. rewrite (extentOf_degenerate _ _ _ E1 E2 E).
  reflexivity.
Qed.

Lemma scaleOf_degenerate min max j mn mx :
  JS.get min j = JS.Fin mn -> JS.get max j = JS.Fin mx -> mx == mn ->
  scaleOf min max j = JS.Fin 0.
Proof.
  intros E1 E2 E. unfold scaleOf. rewrite (extentOf_degenerate _ _ _ E1 E2 E).
  reflexivity.
Qed.

(** A product with +Infinity is NaN or an infinity, and a [Uint16Array]
    holds each of them as 0. *)
Lemma scaled_by_infinity a b :
  scaled a b JS.PInf = JS.NaN \/ scaled a b JS.PInf = JS.PInf \/ scaled a b JS.PInf = JS.NInf.
Proof.
  unfold scaled. destruct (JS.double (JS.sub a b)) as [x| | |]; cbn; auto.
  destruct (x ?= 0); cbn; auto.
Qed.

Lemma quantizedAt_degenerate array min multiplier stride k :
  JS.get multiplier (k mod stride) = JS.PInf ->
  quantizedAt array min multiplier stride k = 0%Z.
Proof.
  intros E. unfold quantizedAt. rewrite E.
  destruct (scaled_by_infinity (JS.get array k) (JS.get min (k mod stride)))
    as [-> | [-> | ->]]; reflexivity.
Qed.

(** The entries of the decode matrices for an axis whose minimum and scale
    are finite: the scale on the diagonal and the minimum in the last
    column, whatever the other axes hold. *)
Lemma decode4_axis (v sc : list JS.num) j t s :
  (j < 3)%nat -> JS.get v j = JS.Fin t -> JS.get sc j = JS.Fin s ->
  let m := XMath.mulMat4 (XMath.translationMat4v v XMath.identityMat4)
                         (XMath.scalingMat4v sc XMath.identityMat4) in
  exists s' t',
    JS.get m (5 * j) = JS.Fin s' /\ s' == s /\
    JS.get m (12 + j) = JS.Fin t' /\ t' == t.
Proof.
  intros Hj Et Es m. unfold m, XMath.mulMat4, XMath.translationMat4v, XMath.scalingMat4v.
  destruct j as [|[|[|?]]]; try lia;
    revert Et Es; generalize (JS.get v 0) (JS.get v 1) (JS.get v 2)
                             (JS.get sc 0) (JS.get sc 1) (JS.get sc 2);
    intros v0 v1 v2 s0 s1 s2 Et Es; subst;
    cbv -[Qmult Qplus Qeq]; do 2 eexists;
    (split; [reflexivity|]); (split; [ring|]); (split; [reflexivity|]); ring.
Qed.

Lemma decode3_axis (v sc : list JS.num) j t s :
  (j < 2)%nat -> JS.get v j = JS.Fin t -> JS.get sc j = JS.Fin s ->
  let m := XMath.mulMat3 (XMath.translationMat3v v XMath.identityMat3)
                         (XMath.scalingMat3v sc XMath.identityMat3) in
  exists s' t',
    JS.get m (4 * j) = JS.Fin s' /\ s' == s /\
    JS.get m (6 + j) = JS.Fin t' /\ t' == t.
Proof.
  intros Hj Et Es m. unfold m, XMath.mulMat3, XMath.translationMat3v, XMath.scalingMat3v.
  destruct j as [|[|?]]; try lia;
    revert Et Es; generalize (JS.get v 0) (JS.get v 1) (JS.get sc 0) (JS.get sc 1);
    intros v0 v1 s0 s1 Et Es; subst;
    cbv -[Qmult Qplus Qeq]; do 2 eexists;
    (split; [reflexivity|]); (split; [ring|]); (split; [reflexivity|]); ring.
Qed.

Section DegenerateVec3.

Variables (positions : list JS.num) (k : nat).
Hypothesis Hlen : (length positions mod 3 = 0)%nat.
Hypothesis Hk : (k < length positions)%nat.

Let b := getBounds positions 3.
Let r := quantizeVec3 positions (bmin b) (bmax b).

Hypothesis Hdeg : degenerateAxis b (k mod 3) = true.

Lemma quantizeVec3_degenerate :
  multiplierOf (bmin b) (bmax b) (k mod 3) = JS.PInf /\
  (let p := scaled (JS.get positions k) (JS.get (bmin b) (k mod 3))
                   (multiplierOf (bmin b) (bmax b) (k mod 3)) in
   p = JS.NaN \/ p = JS.PInf \/ p = JS.NInf) /\
  nth_error (quantized r) k = Some 0%Z /\
  exists mn s t,
    JS.get (bmin b) (k mod 3) = JS.Fin mn /\
    JS.get (decode r) (5 * (k mod 3)) = JS.Fin s /\ s == 0 /\
    JS.get (decode r) (12 + k mod 3) = JS.Fin t /\ t == mn.
Proof.
  destruct (degenerateAxis_bounds _ _ Hdeg) as (mn & mx & Emn & Emx & E).
  assert (Hkm : (k mod 3 < 3)%nat) by (apply Nat.mod_upper_bound; lia).
  pose proof (multiplierOf_degenerate _ _ _ Emn Emx E) as Hmul.
  pose proof (scaleOf_degenerate _ _ _ Emn Emx E) as Hsc.
  destruct (@quantizeVec3_loop_spec positions (bmin b)
              [multiplierOf (bmin b) (bmax b) 0; multiplierOf (bmin b) (bmax b) 1;
               multiplierOf (bmin b) (bmax b) 2] Hlen)
    as [Hql Hq].
  specialize (Hq k Hk).
  split; [exact Hmul|].
  split; [rewrite Hmul; apply scaled_by_infinity|]. split.
  - unfold r, quantizeVec3, quantized.
    rewrite <- (quantizedAt_degenerate positions (bmin b)
                  [multiplierOf (bmin b) (bmax b) 0; multiplierOf (bmin b) (bmax b) 1;
                   multiplierOf (bmin b) (bmax b) 2] 3 k).
    + rewrite <- Hq. apply nth_error_nth'. rewrite Hql. exact Hk.
    + rewrite <- Hmul. destruct (k mod 3) as [|[|[|?]]]; try lia; reflexivity.
  - destruct (@decode4_axis (bmin b)
                [scaleOf (bmin b) (bmax b) 0; scaleOf (bmin b) (bmax b) 1;
                 scaleOf (bmin b) (bmax b) 2] (k mod 3) mn 0 Hkm Emn)
      as (s' & t' & Hs & Es & Ht & Et).
    { rewrite <- Hsc. destruct (k mod 3) as [|[|[|?]]]; try lia; reflexivity. }
    exists mn, s', t'. split; [exact Emn|].
    split; [exact Hs|]. split; [exact Es|]. split; [exact Ht | exact Et].
Qed.

End DegenerateVec3.

Section DegenerateVec2.

Variables (uv : list JS.num) (k : nat).
Hypothesis Hlen : (length uv mod 2 = 0)%nat.
Hypothesis Hk : (k < length uv)%nat.

Let b := getBounds uv 2.
Let r := quantizeVec2 uv (bmin b) (bmax b).

Hypothesis Hdeg : degenerateAxis b (k mod 2) = true.

Lemma quantizeVec2_degenerate :
  multiplierOf (bmin b) (bmax b) (k mod 2) = JS.PInf /\
  (let p := scaled (JS.get uv k) (JS.get (bmin b) (k mod 2))
                   (multiplierOf (bmin b) (bmax b) (k mod 2)) in
   p = JS.NaN \/ p = JS.PInf \/ p = JS.NInf) /\
  nth_error (quantized r) k = Some 0%Z /\
  exists mn s t,
    JS.get (bmin b) (k mod 2) = JS.Fin mn /\
    JS.get (decode r) (4 * (k mod 2)) = JS.Fin s /\ s == 0 /\
    JS.get (decode r) (6 + k mod 2) = JS.Fin t /\ t == mn.
Proof.
  destruct (degenerateAxis_bounds _ _ Hdeg) as (mn & mx & Emn & Emx & E).
  assert (Hkm : (k mod 2 < 2)%nat) by (apply Nat.mod_upper_bound; lia).
  pose proof (multiplierOf_degenerate _ _ _ Emn Emx E) as Hmul.
  pose proof (scaleOf_degenerate _ _ _ Emn Emx E) as Hsc.
  destruct (@quantizeVec2_loop_spec uv (bmin b)
              [multiplierOf (bmin b) (bmax b) 0; multiplierOf (bmin b) (bmax b) 1] Hlen)
    as [Hql Hq].
  specialize (Hq k Hk).
  split; [exact Hmul|].
  split; [rewrite Hmul; apply scaled_by_infinity|]. split.
  - unfold r, quantizeVec2, quantized.
    rewrite <- (quantizedAt_degenerate uv (bmin b)
                  [multiplierOf (bmin b) (bmax b) 0; multiplierOf (bmin b) (bmax b) 1] 2 k).
    + rewrite <- Hq. apply nth_error_nth'. rewrite Hql. exact Hk.
    + rewrite <- Hmul. destruct (k mod 2) as [|[|?]]; try lia; reflexivity.
  - destruct (@decode3_axis (bmin b)
                [scaleOf (bmin b) (bmax b) 0; scaleOf (bmin b) (bmax b) 1]
                (k mod 2) mn 0 Hkm Emn)
      as (s' & t' & Hs & Es & Ht & Et).
    { rewrite <- Hsc. destruct (k mod 2) as [|[|?]]; try lia; reflexivity. }
    exists mn, s', t'. split; [exact Emn|].
    split; [exact Hs|]. split; [exact Es|]. split; [exact Ht | exact Et].
Qed.

End DegenerateVec2.

(** C6, as the code behaves. On an axis whose bounds, as [getBounds]
    returns them, are finite and equal, the quantizers do divide by zero:
    the multiplier [65535 / (max - min)] is +Infinity, every product with it
    is NaN or an infinity, and the [Uint16Array] holds 0 for every value of
    that axis. The scale entry of the decode matrix for that axis is
    [(max - min) / 65535 = 0] (not 1) and its translation entry is the
    minimum: the stored values and the matrix entries of the axis are
    finite. This holds for [quantizeVec3] with its 4x4 matrix and for
    [quantizeVec2] with its 3x3 matrix, for arrays of whole tuples. *)
Theorem degenerate_axis_quantizes_to_zero :
  (forall (positions : list JS.num) (k : nat),
      (length positions mod 3 = 0)%nat ->
      (k < length positions)%nat ->
      let b := getBounds positions 3 in
      let r := quantizeVec3 positions (bmin b) (bmax b) in
      degenerateAxis b (k mod 3) = true ->
      multiplierOf (bmin b) (bmax b) (k mod 3) = JS.PInf /\
      (let p := scaled (JS.get positions k) (JS.get (bmin b) (k mod 3))
                       (multiplierOf (bmin b) (bmax b) (k mod 3)) in
       p = JS.NaN \/ p = JS.PInf \/ p = JS.NInf) /\
      nth_error (quantized r) k = Some 0%Z /\
      exists mn s t,
        JS.get (bmin b) (k mod 3) = JS.Fin mn /\
        JS.get (decode r) (5 * (k mod 3)) = JS.Fin s /\ s == 0 /\
        JS.get (decode r) (12 + k mod 3) = JS.Fin t /\ t == mn) /\
  (forall (uv : list JS.num) (k : nat),
      (length uv mod 2 = 0)%nat ->
      (k < length uv)%nat ->
      let b := getBounds uv 2 in
      let r := quantizeVec2 uv (bmin b) (bmax b) in
      degenerateAxis b (k mod 2) = true ->
      multiplierOf (bmin b) (bmax b) (k mod 2) = JS.PInf /\
      (let p := scaled (JS.get uv k) (JS.get (bmin b) (k mod 2))
                       (multiplierOf (bmin b) (bmax b) (k mod 2)) in
       p = JS.NaN \/ p = JS.PInf \/ p = JS.NInf) /\
      nth_error (quantized r) k = Some 0%Z /\
      exists mn s t,
        JS.get (bmin b) (k mod 2) = JS.Fin mn /\
        JS.get (decode r) (4 * (k mod 2)) = JS.Fin s /\ s == 0 /\
        JS.get (decode r) (6 + k mod 2) = JS.Fin t /\ t == mn).
Proof.
  split.
  - intros positions k Hlen Hk b r Hdeg.
    exact (@quantizeVec3_degenerate positions k Hlen Hk Hdeg).
  - intros uv k Hlen Hk b r Hdeg.
    exact (@quantizeVec2_degenerate uv k Hlen Hk Hdeg).
Qed.

Lemma degenerate_axis_flat_sample :
  (let b := getBounds tenth_flat_positions 3 in
   let r := quantizeVec3 tenth_flat_positions (bmin b) (bmax b) in
   multiplierOf (bmin b) (bmax b) (3 mod 3) = JS.PInf /\
   (let p := scaled (JS.get tenth_flat_positions 3) (JS.get (bmin b) (3 mod 3))
                    (multiplierOf (bmin b) (bmax b) (3 mod 3)) in
    p = JS.NaN \/ p = JS.PInf \/ p = JS.NInf) /\
   nth_error (quantized r) 3 = Some 0%Z /\
   exists mn s t,
     JS.get (bmin b) (3 mod 3) = JS.Fin mn /\
     JS.get (decode r) (5 * (3 mod 3)) = JS.Fin s /\ s == 0 /\
     JS.get (decode r) (12 + 3 mod 3) = JS.Fin t /\ t == mn) /\
  (let b := getBounds (map JS.Fin flat_uv) 2 in
   let r := quantizeVec2 (map JS.Fin flat_uv) (bmin b) (bmax b) in
   multiplierOf (bmin b) (bmax b) (3 mod 2) = JS.PInf /\
   (let p := scaled (JS.get (map JS.Fin flat_uv) 3) (JS.get (bmin b) (3 mod 2))
                    (multiplierOf (bmin b) (bmax b) (3 mod 2)) in
    p = JS.NaN \/ p = JS.PInf \/ p = JS.NInf) /\
   nth_error (quantized r) 3 = Some 0%Z /\
   exists mn s t,
     JS.get (bmin b) (3 mod 2) = JS.Fin mn /\
     JS.get (decode r) (4 * (3 mod 2)) = JS.Fin s /\ s == 0 /\
     JS.get (decode r) (6 + 3 mod 2) = JS.Fin t /\ t == mn).
Proof.
  split.
  - apply (proj1 degenerate_axis_quantizes_to_zero tenth_flat_positions 3%nat);
      [reflexivity | cbn; lia | vm_compute; reflexivity].
  - apply (proj2 degenerate_axis_quantizes_to_zero (map JS.Fin flat_uv) 3%nat);
      [reflexivity | cbn; lia | vm_compute; reflexivity].
Defined.

(** C6, as the claim states it, fails: on the constant second axis of
    [flat_positions] the multiplier is the result of a division by zero and
    the scale the decode matrix carries for that axis is 0, not 1. *)
Lemma degenerate_axis_scale_is_not_one :
  let array := map JS.Fin flat_positions in
  let b := getBounds array 3 in
  let r := quantizeVec3 array (bmin b) (bmax b) in
  JS.sub (JS.get (bmax b) 1) (JS.get (bmin b) 1) = JS.Fin (5 + - 5) /\
  multiplierOf (bmin b) (bmax b) 1 = JS.PInf /\
  ~ (exists s, JS.get (decode r) 5 = JS.Fin s /\ s == 1).
Proof.
  split; [vm_compute; reflexivity | split; [vm_compute; reflexivity |]].
  intros (s & E & Hs). vm_compute in E. injection E as <-.
  revert Hs. vm_compute. discriminate.
Qed.

(** ** Oct-encoding *)

Lemma lt_irrefl a : JS.lt a a = false.
Proof.
  destruct a; simpl; auto. apply Qltb_false. lra.
Qed.

(** A value that is not above [b] is not above anything above [b]. *)
Lemma gt_false_trans a b c :
  JS.gt a b = false -> JS.gt c b = true -> JS.gt a c = false.
Proof.
  unfold JS.gt. destruct a as [x| | |], b as [y| | |], c as [z| | |]; simpl;
    try discriminate; try reflexivity.
  intros H1 H2. apply Qltb_false in H1. apply Qltb_true in H2.
  apply Qltb_false. lra.
Qed.

Lemma ge_of_not_gt x y : JS.gt (JS.Fin y) (JS.Fin x) = false -> JS.ge (JS.Fin x) (JS.Fin y) = true.
Proof.
  unfold JS.gt. simpl. intros ->. reflexivity.
Qed.

Section OctSelection.

Variable sqrt : JS.num -> JS.num.
Variables (array : list JS.num) (i : nat).

Lemma tryCandidate_selected tried xf yf s :
  selected sqrt array i tried s ->
  selected sqrt array i ((xf, yf) :: tried) (tryCandidate sqrt array i xf yf s).
Proof.
  intros (Hcos & (f0 & Hin0 & Hf0) & Hall). unfold tryCandidate.
  destruct (JS.gt (dot array i (octDecodeVec2 sqrt (octEncodeVec3 array i xf yf)))
                  (bestCos s)) eqn:E.
  - split; [reflexivity | split].
    + exists (xf, yf). split; [left; reflexivity | reflexivity].
    + intros f [<-|Hin]; simpl.
      * apply lt_irrefl.
      * apply gt_false_trans with (b := bestCos s); auto.
  - split; [assumption | split].
    + exists f0. split; [right; assumption | assumption].
    + intros f [<-|Hin]; simpl; auto.
Qed.

(** After the four candidates the state holds one of them, and none of the
    four has a dot product above the one kept. *)
Lemma octEncodeBest_selected :
  selected sqrt array i [(Ceil, Ceil); (Floor, Ceil); (Ceil, Floor); (Floor, Floor)]
           (octEncodeBest sqrt array i).
Proof.
  unfold octEncodeBest.
  do 3 apply tryCandidate_selected.
  split; [reflexivity | split].
  - exists (Floor, Floor). split; [left; reflexivity | reflexivity].
  - intros f [<-|[]]. simpl. apply lt_irrefl.
Qed.

End OctSelection.

Lemma Qeq_bool_false_of_neq q : ~ q == 0 -> Qeq_bool q 0 = false.
Proof.
  intro H. destruct (Qeq_bool q 0) eqn:E; [|reflexivity].
  apply Qeq_bool_iff in E. contradiction.
Qed.

Lemma Qsquare_nonneg (a : Q) : 0 <= a * a.
Proof.
  destruct (Qlt_le_dec a 0) as [H|H].
  - setoid_replace (a * a) with ((- a) * (- a)) by ring.
    apply Qmult_le_0_compat; lra.
  - apply Qmult_le_0_compat; assumption.
Qed.

Lemma Qsquare_pos (a : Q) : ~ a == 0 -> 0 < a * a.
Proof.
  intro H. destruct (Qlt_le_dec a 0) as [Hn|Hp].
  - setoid_replace (a * a) with ((- a) * (- a)) by ring.
    apply Qmult_lt_0_compat; lra.
  - assert (0 < a).
    { apply Qle_lteq in Hp. destruct Hp as [Hp|Hp]; [assumption|].
      exfalso. apply H. symmetry. assumption. }
    apply Qmult_lt_0_compat; assumption.
Qed.

Lemma sum_squares_pos (x y z : Q) : ~ (x == 0 /\ y == 0 /\ z == 0) -> 0 < x * x + y * y + z * z.
Proof.
  intro H.
  pose proof (Qsquare_nonneg x). pose proof (Qsquare_nonneg y). pose proof (Qsquare_nonneg z).
  destruct (Qeq_dec x 0) as [Hx|Hx]; [|pose proof (Qsquare_pos Hx); lra].
  destruct (Qeq_dec y 0) as [Hy|Hy]; [|pose proof (Qsquare_pos Hy); lra].
  destruct (Qeq_dec z 0) as [Hz|Hz]; [|pose proof (Qsquare_pos Hz); lra].
  exfalso. apply H. auto.
Qed.

Section OctDecodeFinite.

Variable sqrt : JS.num -> JS.num.
Hypothesis sqrt_pos : forall q, 0 < q -> exists r, sqrt (JS.Fin q) = JS.Fin r /\ 0 < r.

Lemma normalize_finite (x y z : Q) :
  ~ (x == 0 /\ y == 0 /\ z == 0) ->
  let length := sqrt (JS.add (JS.add (JS.mul (JS.Fin x) (JS.Fin x)) (JS.mul (JS.Fin y) (JS.Fin y)))
                             (JS.mul (JS.Fin z) (JS.Fin z))) in
  exists d0 d1 d2,
    [JS.div (JS.Fin x) length; JS.div (JS.Fin y) length; JS.div (JS.Fin z) length]
    = [JS.Fin d0; JS.Fin d1; JS.Fin d2].
Proof.
  intros H. simpl.
  destruct (sqrt_pos (sum_squares_pos H)) as (r & -> & Hr).
  simpl. rewrite Qeq_bool_false_of_pos by assumption.
  eauto.
Qed.

(** Every pair of bytes decodes to three finite numbers. *)
Lemma octDecodeVec2_finite (o0 o1 : Z) :
  exists d0 d1 d2, octDecodeVec2 sqrt [o0; o1] = [JS.Fin d0; JS.Fin d1; JS.Fin d2].
Proof.
  unfold octDecodeVec2.
  cbn [JS.getZ nth_error]. unfold JS.of_Z.
  set (x := JS.div (JS.Fin (inject_Z o0)) _).
  set (y := JS.div (JS.Fin (inject_Z o1)) _).
  assert (Hx : exists xq, x = JS.Fin xq).
  { unfold x. destruct (JS.lt (JS.Fin (inject_Z o0)) (JS.Fin 0)); simpl; eauto. }
  assert (Hy : exists yq, y = JS.Fin yq).
  { unfold y. destruct (JS.lt (JS.Fin (inject_Z o1)) (JS.Fin 0)); simpl; eauto. }
  destruct Hx as (xq & ->). destruct Hy as (yq & ->).
  cbn [JS.abs JS.sub JS.neg JS.add].
  set (zq := 1 + - Qabs xq + - Qabs yq).
  destruct (JS.lt (JS.Fin zq) (JS.Fin 0)) eqn:Ez.
  - simpl in Ez. apply Qltb_true in Ez.
    destruct (JS.ge (JS.Fin xq) (JS.Fin 0)), (JS.ge (JS.Fin yq) (JS.Fin 0));
      cbn [one_or_minus_one JS.mul JS.abs JS.sub JS.neg JS.add];
      apply normalize_finite; intros (_ & _ & Hz); lra.
  - simpl in Ez. apply Qltb_false in Ez.
    apply normalize_finite. intros (Hx & Hy & Hz).
    unfold zq in Hz. rewrite Hx, Hy in Hz. revert Hz. vm_compute. discriminate.
Qed.

Lemma octEncodeVec3_pair array i xf yf :
  exists o0 o1, octEncodeVec3 array i xf yf = [o0; o1].
Proof.
  unfold octEncodeVec3.
  destruct (JS.lt (JS.get array (i + 2)) (JS.Fin 0)); simpl; eauto.
Qed.

(** The dot product of a finite normal with a decoded candidate is finite. *)
Lemma dot_candidate_finite (normals : list Q) i (o0 o1 : Z) :
  (i + 2 < length normals)%nat ->
  exists c, dot (map JS.Fin normals) i (octDecodeVec2 sqrt [o0; o1]) = JS.Fin c.
Proof.
  intro Hi. destruct (octDecodeVec2_finite o0 o1) as (d0 & d1 & d2 & ->).
  unfold dot. rewrite !get_map_Fin by lia. simpl. eauto.
Qed.

End OctDecodeFinite.

(** The encoded array holds, for the normal at [3 * n], the two bytes the
    selection kept. *)
Lemma octEncode_spec sqrt (array : list JS.num) :
  (length array mod 3 = 0)%nat ->
  forall n, (3 * n < length array)%nat ->
    nth (2 * n) (octEncode sqrt array) 0%Z = nth 0 (best (octEncodeBest sqrt array (3 * n))) 0%Z /\
    nth (2 * n + 1) (octEncode sqrt array) 0%Z = nth 1 (best (octEncodeBest sqrt array (3 * n))) 0%Z.
Proof.
  intros Hlen. unfold octEncode.
  set (body := fun (i : nat) (s : nat * list Z) => _).
  pose proof (proj2 (Nat.Div0.div_exact (length array) 3) Hlen) as Hex.
  assert (Hel : (length array * 2 / 3 = 2 * (length array / 3))%nat).
  { rewrite Hex at 1.
    replace (3 * (length array / 3) * 2)%nat with ((2 * (length array / 3)) * 3)%nat by lia.
    apply Nat.div_mul. lia. }
  destruct (@for_loop_inv (nat * list Z)
              (fun i s =>
                 (i mod 3 = 0)%nat /\ fst s = (2 * (i / 3))%nat /\
                 length (snd s) = (2 * (length array / 3))%nat /\
                 forall n, (3 * n < i)%nat -> (3 * n < length array)%nat ->
                   nth (2 * n) (snd s) 0%Z
                   = nth 0 (best (octEncodeBest sqrt array (3 * n))) 0%Z /\
                   nth (2 * n + 1) (snd s) 0%Z
                   = nth 1 (best (octEncodeBest sqrt array (3 * n))) 0%Z)
              (length array) 3 body ltac:(lia))
    with (fuel := length array) (i := 0%nat)
         (s := (0%nat, repeat 0%Z (length array * 2 / 3)))
    as (i' & Hi' & _ & _ & _ & H).
  - intros i [ei encoded] Hi (Hmod & Hei & Hl & H). cbn [fst snd] in Hei, Hl, H.
    assert (Hnext : (i + 3 <= length array)%nat) by (apply multiple_next; auto; lia).
    pose proof (proj2 (Nat.Div0.div_exact i 3) Hmod) as Hiex.
    assert (Hdiv : ((i + 3) / 3 = i / 3 + 1)%nat).
    { replace (i + 3)%nat with (i + 1 * 3)%nat by lia. apply Nat.div_add. lia. }
    unfold body. cbn [fst snd].
    split; [|split; [|split]].
    + rewrite Nat.Div0.add_mod, Hmod by lia. reflexivity.
    + rewrite Hdiv. lia.
    + rewrite !set_length. assumption.
    + intros n Hn Hnl. rewrite !nth_set, !set_length, Hl.
      destruct (Nat.eq_dec (3 * n) i) as [En|Nn].
      * assert (Een : ei = (2 * n)%nat) by lia. rewrite Een, <- En.
        destruct (Nat.eqb_spec (2 * n + 1) (2 * n)); [lia|].
        rewrite Nat.eqb_refl. cbn [andb].
        destruct (Nat.ltb_spec (2 * n) (2 * (length array / 3))); [|lia].
        destruct (Nat.eqb_spec (2 * n + 1) (2 * n + 1)); [|lia].
        cbn [andb].
        destruct (Nat.ltb_spec (2 * n + 1) (2 * (length array / 3))); [|lia].
        split; reflexivity.
      * assert (Hlt : (3 * n < i)%nat) by lia.
        destruct (Nat.eqb_spec (ei + 1) (2 * n)); [lia|].
        destruct (Nat.eqb_spec ei (2 * n)); [lia|].
        destruct (Nat.eqb_spec (ei + 1) (2 * n + 1)); [lia|].
        destruct (Nat.eqb_spec ei (2 * n + 1)); [lia|].
        cbn [andb]. apply H; assumption.
  - lia.
  - cbn [fst snd]. split; [reflexivity | split; [reflexivity | split]].
    + rewrite repeat_length. assumption.
    + intros; lia.
  - intros n Hn. apply H; lia.
Qed.

(** C3. For every normal of the array (unit length or not), the two bytes
    [octEncode] returns are one of the four floor/ceil candidates of
    [octEncodeVec3], and the dot product of the normal with their decoding is
    greater than or equal to the dot product with the decoding of each of
    the four candidates. [Math.sqrt] is any function that takes positive
    numbers to positive numbers. *)
Theorem octEncode_returns_best_candidate :
  forall (sqrt : JS.num -> JS.num),
    (forall q, 0 < q -> exists r, sqrt (JS.Fin q) = JS.Fin r /\ 0 < r) ->
    forall (normals : list Q) (n : nat),
      (length normals mod 3 = 0)%nat ->
      (3 * n < length normals)%nat ->
      let array := map JS.Fin normals in
      let encoded := octEncode sqrt array in
      let returned := [nth (2 * n) encoded 0%Z; nth (2 * n + 1) encoded 0%Z] in
      (exists xfunc yfunc, returned = octEncodeVec3 array (3 * n) xfunc yfunc) /\
      forall xfunc yfunc,
        JS.ge (dot array (3 * n) (octDecodeVec2 sqrt returned))
              (dot array (3 * n)
                   (octDecodeVec2 sqrt (octEncodeVec3 array (3 * n) xfunc yfunc))) = true.
Proof.
  intros sqrt sqrt_pos normals n Hlen Hn array encoded returned.
  assert (Hal : length array = length normals) by apply length_map.
  destruct (@octEncode_spec sqrt array ltac:(rewrite Hal; assumption) n ltac:(lia))
    as [E0 E1].
  destruct (octEncodeBest_selected sqrt array (3 * n)) as (Hcos & (f0 & Hin0 & Hf0) & Hall).
  assert (Hret : returned = best (octEncodeBest sqrt array (3 * n))).
  { unfold returned, encoded. rewrite E0, E1, Hf0.
    destruct (octEncodeVec3_pair array (3 * n) (fst f0) (snd f0)) as (o0 & o1 & ->).
    reflexivity. }
  assert (Hnext : (3 * n + 3 <= length normals)%nat).
  { apply multiple_next; auto; try lia.
    rewrite Nat.mul_comm. apply Nat.Div0.mod_mul. }
  split.
  - exists (fst f0), (snd f0). rewrite Hret. assumption.
  - intros xfunc yfunc. rewrite Hret.
    assert (Hin : In (xfunc, yfunc) [(Ceil, Ceil); (Floor, Ceil); (Ceil, Floor); (Floor, Floor)]).
    { destruct xfunc, yfunc; simpl; auto. }
    specialize (Hall _ Hin). cbn [fst snd] in Hall. rewrite Hcos in Hall.
    rewrite Hf0 in *.
    destruct (octEncodeVec3_pair array (3 * n) (fst f0) (snd f0)) as (b0 & b1 & Eb).
    destruct (octEncodeVec3_pair array (3 * n) xfunc yfunc) as (o0 & o1 & Eo).
    rewrite Eb, Eo in *.
    destruct (@dot_candidate_finite sqrt sqrt_pos normals (3 * n) b0 b1 ltac:(lia)) as (cb & Ecb).
    destruct (@dot_candidate_finite sqrt sqrt_pos normals (3 * n) o0 o1 ltac:(lia)) as (co & Eco).
    fold array in Ecb, Eco. rewrite Ecb, Eco in *.
    apply ge_of_not_gt. assumption.
Qed.

Lemma newton_step_pos (q x : Q) : 0 < q -> 0 < x -> 0 < (x + q / x) / 2.
Proof.
  intros Hq Hx.
  assert (0 < q / x) by (apply Qlt_shift_div_l; lra).
  apply Qlt_shift_div_l; lra.
Qed.

Lemma newton_sqrt_pos :
  forall q, 0 < q -> exists r, newton_sqrt (JS.Fin q) = JS.Fin r /\ 0 < r.
Proof.
  intros q Hq. unfold newton_sqrt.
  assert (E : Qle_bool q 0 = false).
  { destruct (Qle_bool q 0) eqn:E; [|reflexivity]. apply Qle_bool_iff in E. lra. }
  rewrite E. eexists. split; [reflexivity|].
  assert (H0 : 0 < (q + 1) / 2) by (apply Qlt_shift_div_l; lra).
  simpl. repeat apply newton_step_pos; assumption.
Qed.

Lemma octEncode_best_candidate_sample :
  (length sample_normals mod 3 = 0)%nat /\
  (3 * 1 < length sample_normals)%nat /\
  let array := map JS.Fin sample_normals in
  let encoded := octEncode newton_sqrt array in
  let returned := [nth (2 * 1) encoded 0%Z; nth (2 * 1 + 1) encoded 0%Z] in
  (exists xfunc yfunc, returned = octEncodeVec3 array (3 * 1) xfunc yfunc) /\
  forall xfunc yfunc,
    JS.ge (dot array (3 * 1) (octDecodeVec2 newton_sqrt returned))
          (dot array (3 * 1)
               (octDecodeVec2 newton_sqrt (octEncodeVec3 array (3 * 1) xfunc yfunc))) = true.
Proof.
  split; [reflexivity | split; [simpl; lia |]].
  apply (@octEncode_returns_best_candidate newton_sqrt newton_sqrt_pos sample_normals 1).
  - reflexivity.
  - simpl; lia.
Defined.

(** ** Objects *)

Lemma key_eqb_eq a b : JS.key_eqb a b = true <-> a = b.
Proof.
  destruct a as [n|s], b as [m|t]; simpl; split; intro H; try discriminate.
  - apply N.eqb_eq in H. congruence.
  - injection H as ->. apply N.eqb_refl.
  - apply String.eqb_eq in H. congruence.
  - injection H as ->. apply String.eqb_refl.
Qed.

Lemma key_eqb_refl a : JS.key_eqb a a = true.
Proof. apply key_eqb_eq. reflexivity. Qed.

Lemma key_eqb_neq a b : a <> b -> JS.key_eqb a b = false.
Proof.
  intro H. destruct (JS.key_eqb a b) eqn:E; [|reflexivity].
  apply key_eqb_eq in E. contradiction.
Qed.

Lemma lookup_assign_same (V : Type) (o : JS.obj V) k v :
  JS.lookup (JS.assign o k v) k = Some v.
Proof.
  induction o as [|[k' v'] o IH]; simpl.
  - rewrite key_eqb_refl. reflexivity.
  - destruct (JS.key_eqb k' k) eqn:E; simpl; rewrite E; auto.
Qed.

Lemma lookup_assign_other (V : Type) (o : JS.obj V) k k' v :
  k <> k' -> JS.lookup (JS.assign o k v) k' = JS.lookup o k'.
Proof.
  intro H. induction o as [|[k0 v0] o IH]; simpl.
  - rewrite key_eqb_neq by assumption. reflexivity.
  - destruct (JS.key_eqb k0 k) eqn:E; simpl.
    + apply key_eqb_eq in E. subst k0. rewrite key_eqb_neq by assumption. reflexivity.
    + rewrite IH. reflexivity.
Qed.

Lemma assign_fst_has (V : Type) (o : JS.obj V) k v :
  JS.has o k = true -> map fst (JS.assign o k v) = map fst o.
Proof.
  unfold JS.has. induction o as [|[k0 v0] o IH]; simpl; [discriminate|].
  destruct (JS.key_eqb k0 k) eqn:E; simpl; intro H; [reflexivity|].
  rewrite IH by assumption. reflexivity.
Qed.

Lemma assign_fst_new (V : Type) (o : JS.obj V) k v :
  JS.has o k = false -> map fst (JS.assign o k v) = map fst o ++ [k].
Proof.
  unfold JS.has. induction o as [|[k0 v0] o IH]; simpl; [reflexivity|].
  destruct (JS.key_eqb k0 k) eqn:E; simpl; intro H; [discriminate|].
  rewrite IH by assumption. reflexivity.
Qed.

Lemma index_keys_fst (V W : Type) (o : JS.obj V) (o' : JS.obj W) :
  map fst o = map fst o' -> JS.index_keys o = JS.index_keys o'.
Proof.
  revert o'. induction o as [|[k v] o IH]; intros [|[k' v'] o'] H; simpl in *;
    try discriminate; [reflexivity|].
  injection H as -> H. rewrite (IH o' H). reflexivity.
Qed.

(** The enumeration order depends on the keys and their creation order
    only. *)
Lemma keys_fst (V W : Type) (o : JS.obj V) (o' : JS.obj W) :
  map fst o = map fst o' -> JS.keys o = JS.keys o'.
Proof.
  intro H. unfold JS.keys, JS.string_keys. rewrite H, (index_keys_fst o o' H). reflexivity.
Qed.

(** ** The combined buffer pool *)

Lemma fold_report_messages errs e :
  Renderer.messages (fold_left Renderer.report errs e) = Renderer.messages e ++ errs.
Proof.
  revert e. induction errs as [|m errs IH]; intro e; simpl.
  - rewrite app_nil_r. reflexivity.
  - rewrite IH. simpl. rewrite <- app_assoc. reflexivity.
Qed.

Section PoolStep.

Import SceneVertexBufs.

Variable big : bool.

(** [createBufs] empties the accumulation arrays of the signature and
    leaves the registry of the pool as it is. *)
Lemma createBufs_spec e p n :
  let '(e', p') := createBufs e p n in
  Renderer.messages e' = Renderer.messages e /\
  positions p' = (if hasPositions p then [] else positions p) /\
  geometries p' = geometries p /\
  geometryIndicesOffsets p' = geometryIndicesOffsets p /\
  geometryVertexBufs p' = geometryVertexBufs p /\
  vertexBufs p' = vertexBufs p /\
  length (chunks p') = length (chunks p) /\
  (hasPositions p' = hasPositions p /\ hasNormals p' = hasNormals p /\
   hasColors p' = hasColors p /\ hasUVs p' = hasUVs p /\ quantized p' = quantized p) /\
  (needRebuild p' = needRebuild p /\ needAppend p' = needAppend p).
Proof.
  unfold createBufs.
  destruct (hasPositions p) eqn:Fp, (hasNormals p) eqn:Fn, (hasColors p) eqn:Fc,
    (hasUVs p) eqn:Fu; cbn; rewrite ?Fp, ?Fn, ?Fc, ?Fu; cbn; rewrite ?Fp, ?Fn, ?Fc, ?Fu; cbn;
    rewrite ?Fp, ?Fn, ?Fc, ?Fu; cbn; rewrite ?set_length; repeat split;
    first [reflexivity | assumption].
Qed.

Lemma pushAll_ok has array (attribute : option Renderer.TypedArray) :
  (has = true -> attribute <> None) ->
  exists pushed, pushAll has array attribute = JS.Normal pushed.
Proof.
  intro H. unfold pushAll. destruct has; [|eauto].
  destruct attribute; [eauto | exfalso; apply H; reflexivity].
Qed.

(** One iteration of the loop of [build], for a geometry that has positions
    and indices and the attributes of the pool's signature. *)
Lemma build_step_spec e p off id g gp gi :
  JS.lookup (geometries p) id = Some g ->
  Renderer.positions g = Some gp ->
  Renderer.indices g = Some gi ->
  matchesSignature p g ->
  let off1 := stepOffset big p off gp in
  exists e' p' buf,
    build_step big (e, p, off) id
    = JS.Normal (e', p', JS.add off1 (JS.div (JS.of_nat (Renderer.length gp)) (JS.Fin 3))) /\
    geometryIndicesOffsets p' = JS.assign (geometryIndicesOffsets p) id off1 /\
    geometryVertexBufs p' = JS.assign (geometryVertexBufs p) id
                                      (Renderer.Chunk (stepChunk big p gp)) /\
    vertexBufs p' = Some (stepChunk big p gp) /\
    geometries p' = JS.assign (geometries p) id
                              (Renderer.set_indicesBufCombined g (Some buf)) /\
    Renderer.data buf = stepIndices big off1 gi /\
    Renderer.messages e' = Renderer.messages e ++ stepErrors big off1 gi /\
    positions p' = stepPositions big p gp /\
    (hasPositions p' = hasPositions p /\ hasNormals p' = hasNormals p /\
     hasColors p' = hasColors p /\ hasUVs p' = hasUVs p /\ quantized p' = quantized p) /\
    (needRebuild p' = needRebuild p /\ needAppend p' = needAppend p).
Proof.
  intros Hg Hp Hi (Hn & Hc & Hu) off1.
  unfold build_step. rewrite Hg, Hp.
  (* the chunk the geometry joins *)
  set (opened := if needNew big p gp then _ else _).
  assert (Hopen : exists e1 p1,
             opened = (e1, p1, off1) /\
             Renderer.messages e1 = Renderer.messages e /\
             positions p1 = (match vertexBufs p with
                             | Some _ => if needNew big p gp
                                         then (if hasPositions p then [] else positions p)
                                         else positions p
                             | None => positions p
                             end) /\
             geometries p1 = geometries p /\
             geometryIndicesOffsets p1 = geometryIndicesOffsets p /\
             geometryVertexBufs p1 = geometryVertexBufs p /\
             vertexBufs p1 = Some (stepChunk big p gp) /\
             (hasPositions p1 = hasPositions p /\ hasNormals p1 = hasNormals p /\
              hasColors p1 = hasColors p /\ hasUVs p1 = hasUVs p /\
              quantized p1 = quantized p) /\
             (needRebuild p1 = needRebuild p /\ needAppend p1 = needAppend p)).
  { unfold opened, off1, stepOffset, stepChunk.
    destruct (needNew big p gp) eqn:Enew.
    - destruct (vertexBufs p) as [n|] eqn:Evb.
      + pose proof (createBufs_spec e p n) as Hcb.
        destruct (createBufs e p n) as [e1 p1].
        destruct Hcb as (M & P & G & O & V & B & L & F & R).
        do 2 eexists. split; [reflexivity|]. cbn.
        rewrite L. repeat split; try tauto; try apply F; try apply R.
      + do 2 eexists. split; [reflexivity|]. cbn. repeat split; reflexivity.
    - unfold needNew in Enew. destruct (vertexBufs p) as [n|] eqn:Evb; [|discriminate].
      do 2 eexists. split; [reflexivity|]. rewrite Evb. repeat split; reflexivity. }
  destruct Hopen as (e1 & p1 & -> & M1 & P1 & G1 & O1 & V1 & B1 & F1 & R1).
  destruct F1 as (Fp & Fn & Fc & Fu & Fq).
  cbn iota beta. rewrite B1. cbn.
  rewrite Fp, Fn, Fc, Fu.
  destruct (@pushAll_ok (hasNormals p) (normals p1) (Renderer.normals g) Hn) as (ns & ->).
  destruct (@pushAll_ok (hasColors p) (colors p1) (Renderer.colors g) Hc) as (cs & ->).
  destruct (@pushAll_ok (hasUVs p) (uv p1) (Renderer.uv g) Hu) as (us & ->).
  unfold pushAll at 1. rewrite Hi.
  unfold adjustIndices, stepIndices, stepErrors, stepAdjusted, stepPositions.
  destruct (hasPositions p) eqn:Ehp; cbn;
    destruct (JS.truthy off1) eqn:Et; cbn;
    do 3 eexists;
    (split; [reflexivity|]); cbn;
    rewrite ?O1, ?G1, ?V1, ?P1, ?fold_report_messages, ?M1, ?app_nil_r;
    repeat split; try reflexivity; try assumption; try apply R1;
    try (destruct (Renderer.indicesBufCombined g); reflexivity);
    try (destruct (vertexBufs p); [destruct (needNew big p gp)|]; reflexivity).
Qed.

End PoolStep.

Lemma numbers_length a : length (Renderer.numbers a) = Renderer.length a.
Proof. destruct a; simpl; auto; apply length_map. Qed.

Section PoolLoop.

Import SceneVertexBufs.

Variable big : bool.

Lemma needNew_spec p gp :
  needNew big p gp
  = negb (JS.is_some (vertexBufs p))
    || JS.gt (JS.add (JS.of_nat (length (positions p))) (JS.of_nat (Renderer.length gp)))
             (CHUNK_LEN big).
Proof.
  unfold needNew. destruct (vertexBufs p); reflexivity.
Qed.

Lemma positionsLength_assign o id id' g g' :
  JS.lookup o id = Some g -> Renderer.positions g' = Renderer.positions g ->
  positionsLength (JS.assign o id g') id' = positionsLength o id'.
Proof.
  intros Hg Hp. unfold positionsLength.
  destruct (key_eqb_eq id id') as [_ Hd].
  destruct (JS.key_eqb id id') eqn:E.
  - apply key_eqb_eq in E. subst id'. rewrite lookup_assign_same, Hg, Hp. reflexivity.
  - rewrite lookup_assign_other; [reflexivity|].
    intro Heq. specialize (Hd Heq). discriminate.
Qed.

(** The loop of [build] refines [chunkOffsets]: it gives the geometries
    registered under [ids] the offsets of the spec, in the order of [ids],
    and each of them an index buffer holding its indices moved by its
    offset. *)
Lemma build_loop_spec :
  forall ids e p off,
    NoDup ids ->
    hasPositions p = true ->
    Forall (wellRegistered p) ids ->
    exists e' p' off',
      build_loop big ids (e, p, off) = JS.Normal (e', p', off') /\
      map (JS.lookup (geometryIndicesOffsets p')) ids
      = map Some (chunkOffsets big (JS.is_some (vertexBufs p)) (length (positions p)) off
                               (map (positionsLength (geometries p)) ids)) /\
      (forall id, ~ In id ids ->
                  JS.lookup (geometryIndicesOffsets p') id
                  = JS.lookup (geometryIndicesOffsets p) id /\
                  JS.lookup (geometries p') id = JS.lookup (geometries p) id) /\
      map fst (geometries p') = map fst (geometries p) /\
      (forall k id, nth_error ids k = Some id ->
         exists g gi buf offset,
           JS.lookup (geometries p) id = Some g /\
           Renderer.indices g = Some gi /\
           JS.lookup (geometryIndicesOffsets p') id = Some offset /\
           JS.lookup (geometries p') id
           = Some (Renderer.set_indicesBufCombined g (Some buf)) /\
           Renderer.data buf = stepIndices big offset gi) /\
      (hasPositions p' = hasPositions p /\ hasNormals p' = hasNormals p /\
       hasColors p' = hasColors p /\ hasUVs p' = hasUVs p /\ quantized p' = quantized p) /\
      (needRebuild p' = needRebuild p /\ needAppend p' = needAppend p) /\
      (ids <> [] \/ JS.is_some (vertexBufs p) = true -> JS.is_some (vertexBufs p') = true).
Proof.
  induction ids as [|id rest IH]; intros e p off Hnd Hhp Hall.
  - exists e, p, off. simpl. repeat split; auto.
    + intros k id H. destruct k; discriminate.
    + intros [H|H]; [congruence | assumption].
  - inversion Hnd as [|? ? Hnotin Hnd']; subst.
    inversion Hall as [|? ? Hid Hrest]; subst.
    destruct Hid as (g & gp & gi & Hg & Hp & Hi & Hsig).
    destruct (@build_step_spec big e p off id g gp gi Hg Hp Hi Hsig)
      as (e1 & p1 & buf & Hstep & O1 & V1 & B1 & G1 & D1 & M1 & P1 & F1 & R1).
    destruct F1 as (Fp1 & Fn1 & Fc1 & Fu1 & Fq1). destruct R1 as (Rr1 & Ra1).
    assert (Hlook : forall id', id' <> id ->
               JS.lookup (geometries p1) id' = JS.lookup (geometries p) id').
    { intros id' Hne. rewrite G1. apply lookup_assign_other. congruence. }
    assert (Hrest1 : Forall (wellRegistered p1) rest).
    { rewrite Forall_forall in *. intros id' Hin.
      destruct (Hrest id' Hin) as (g' & gp' & gi' & Hg' & Hp' & Hi' & Hs').
      exists g', gp', gi'. rewrite Hlook by (intros ->; contradiction).
      destruct Hs' as (Hn' & Hc' & Hu').
      split; [assumption | split; [assumption | split; [assumption|]]].
      unfold matchesSignature. rewrite Fn1, Fc1, Fu1. auto. }
    assert (Hhp1 : hasPositions p1 = true) by (rewrite Fp1; assumption).
    destruct (IH e1 p1 (JS.add (stepOffset big p off gp)
                               (JS.div (JS.of_nat (Renderer.length gp)) (JS.Fin 3)))
                 Hnd' Hhp1 Hrest1)
      as (e' & p' & off' & Hloop & Hoff & Hother & Hkeys & Hbufs & F' & R' & Hvb').
    exists e', p', off'.
    assert (Hlens : map (positionsLength (geometries p1)) rest
                    = map (positionsLength (geometries p)) rest).
    { apply map_ext_in. intros id' Hin. rewrite G1.
      apply positionsLength_assign with (g := g); auto. }
    assert (Hacc : length (positions p1)
                   = ((if needNew big p gp && JS.is_some (vertexBufs p) then 0
                       else length (positions p)) + Renderer.length gp)%nat).
    { rewrite P1. unfold stepPositions. rewrite Hhp, length_app, numbers_length.
      destruct (vertexBufs p); simpl; [destruct (needNew big p gp)|rewrite andb_false_r];
        reflexivity. }
    split; [cbn [build_loop]; rewrite Hstep; cbn [JS.bind]; exact Hloop|].
    split.
    { assert (Hpl : positionsLength (geometries p) id = Renderer.length gp).
      { unfold positionsLength. rewrite Hg, Hp. reflexivity. }
      cbn [map chunkOffsets]. rewrite Hpl. f_equal.
      - destruct (Hother id Hnotin) as [-> _]. rewrite O1, lookup_assign_same.
        unfold stepOffset. rewrite needNew_spec. reflexivity.
      - rewrite Hoff, Hlens, B1, Hacc. cbn [JS.is_some].
        unfold stepOffset. rewrite needNew_spec. reflexivity. }
    split.
    { intros id' Hnin. simpl in Hnin.
      destruct (Hother id' ltac:(tauto)) as [-> ->].
      rewrite O1, G1, !lookup_assign_other by tauto. split; reflexivity. }
    split.
    { rewrite Hkeys, G1. apply assign_fst_has. unfold JS.has. rewrite Hg. reflexivity. }
    split.
    { intros [|k] id' Hk; simpl in Hk.
      - injection Hk as <-. exists g, gi, buf, (stepOffset big p off gp).
        destruct (Hother id Hnotin) as [-> ->].
        rewrite O1, G1, !lookup_assign_same. repeat split; auto.
      - destruct (Hbufs k id' Hk) as (g' & gi' & buf' & o' & Hg' & Hi' & Ho' & Hg'' & Hd').
        exists g', gi', buf', o'.
        rewrite Hlook in Hg' by (intros ->; apply Hnotin; eapply nth_error_In; eauto).
        repeat split; auto. }
    rewrite Fp1, Fn1, Fc1, Fu1, Fq1 in F'. rewrite Rr1, Ra1 in R'.
    split; [assumption | split; [assumption|]].
    intros _. apply Hvb'. right. rewrite B1. reflexivity.
Qed.

End PoolLoop.

Section PoolBuild.

Import SceneVertexBufs.

Variable big : bool.

(** [build] refines the spec's rebuild. When every registered geometry has
    positions, indices and the attributes of the signature, it returns
    normally; the geometries, taken in the order [for ... in] enumerates
    them, get the offsets of [chunkOffsets] and index buffers holding their
    indices moved by their offset; nothing is left pending. *)
Lemma build_spec e p :
  let ids := JS.keys (geometries p) in
  NoDup ids ->
  hasPositions p = true ->
  Forall (wellRegistered p) ids ->
  exists e' p',
    build big e p = JS.Normal (e', p') /\
    map (JS.lookup (geometryIndicesOffsets p')) ids
    = map Some (chunkOffsets big false (length (positions p)) (JS.Fin 0)
                             (map (positionsLength (geometries p)) ids)) /\
    (forall id, ~ In id ids ->
                JS.lookup (geometryIndicesOffsets p') id
                = JS.lookup (geometryIndicesOffsets p) id) /\
    map fst (geometries p') = map fst (geometries p) /\
    (forall id, In id ids ->
       exists g gi buf offset,
         JS.lookup (geometries p) id = Some g /\
         Renderer.indices g = Some gi /\
         JS.lookup (geometryIndicesOffsets p') id = Some offset /\
         JS.lookup (geometries p') id
         = Some (Renderer.set_indicesBufCombined g (Some buf)) /\
         Renderer.data buf = stepIndices big offset gi) /\
    (hasPositions p' = hasPositions p /\ hasNormals p' = hasNormals p /\
     hasColors p' = hasColors p /\ hasUVs p' = hasUVs p /\ quantized p' = quantized p) /\
    needRebuild p' = false /\ needAppend p' = false /\
    (ids <> [] -> positions p' = []).
Proof.
  intros ids Hnd Hhp Hall. unfold build.
  set (p0 := set_vertexBufs (set_geometryVertexBufs p []) None).
  assert (Hall0 : Forall (wellRegistered p0) ids).
  { rewrite Forall_forall in *. intros id Hin. exact (Hall id Hin). }
  destruct (@build_loop_spec big (JS.keys (geometries p0)) e p0 (JS.Fin 0) Hnd Hhp Hall0)
    as (e1 & p1 & off1 & Hloop & Hoff & Hother & Hkeys & Hbufs & F1 & R1 & Hvb).
  rewrite Hloop. cbn [JS.bind].
  destruct F1 as (Fp1 & Fn1 & Fc1 & Fu1 & Fq1). destruct R1 as (Rr1 & Ra1).
  assert (Hfin : exists e' p',
             (match vertexBufs p1 with
              | Some n => createBufs e1 p1 n
              | None => (e1, p1)
              end) = (e', p') /\
             geometries p' = geometries p1 /\
             geometryIndicesOffsets p' = geometryIndicesOffsets p1 /\
             (hasPositions p' = hasPositions p1 /\ hasNormals p' = hasNormals p1 /\
              hasColors p' = hasColors p1 /\ hasUVs p' = hasUVs p1 /\
              quantized p' = quantized p1) /\
             (ids <> [] -> positions p' = [])).
  { destruct (vertexBufs p1) as [n|] eqn:Evb.
    - pose proof (createBufs_spec e1 p1 n) as Hcb.
      destruct (createBufs e1 p1 n) as [e' p'].
      destruct Hcb as (_ & P & G & O & _ & _ & _ & F & _).
      exists e', p'. repeat split; auto; try apply F.
      intros _. rewrite P, Fp1. cbn. rewrite Hhp. reflexivity.
    - exists e1, p1. repeat split; auto.
      intro Hne. specialize (Hvb (or_introl Hne)). discriminate. }
  destruct Hfin as (e' & p' & -> & G' & O' & (Fp' & Fn' & Fc' & Fu' & Fq') & P').
  exists e', (set_needAppend (set_needRebuild p' false) false).
  split; [reflexivity|]. cbn.
  rewrite O', G'.
  split; [exact Hoff|].
  split; [intros id Hnin; apply (Hother id Hnin)|].
  split; [exact Hkeys|].
  split.
  { intros id Hin. destruct (In_nth_error _ _ Hin) as (k & Hk).
    exact (Hbufs k id Hk). }
  split.
  { rewrite Fp', Fn', Fc', Fu', Fq', Fp1, Fn1, Fc1, Fu1, Fq1. repeat split; reflexivity. }
  split; [reflexivity | split; [reflexivity | exact P']].
Qed.

End PoolBuild.

(** C9, on the code. For a geometry that was never registered,
    [getVertexBufs] returns [nullVertexBufs], but [getIndicesOffset], which
    has no such guard, returns [undefined]: on the empty pool it answers
    [geometryIndicesOffsets[geometry.id]], a property that does not exist. *)
Theorem getIndicesOffset_unregistered_is_undefined :
  forall (bigIndicesSupported : bool) (positions : list JS.num) (indices : list Z),
    let geometry := plainGeometry "g" positions indices in
    SceneVertexBufs.getVertexBufs bigIndicesSupported noMessages positionsPool geometry
    = JS.Normal (noMessages, positionsPool, Some Renderer.nullVertexBufs) /\
    SceneVertexBufs.getIndicesOffset bigIndicesSupported noMessages positionsPool geometry
    = JS.Normal (noMessages, positionsPool, None).
Proof.
  intros. split; reflexivity.
Qed.

(** [getVertexBufs] answers [nullVertexBufs] for every geometry the pool
    does not hold, whatever the state of the pool. *)
Lemma getVertexBufs_unregistered big e p geometry :
  JS.has (SceneVertexBufs.geometries p) (Renderer.id geometry) = false ->
  SceneVertexBufs.getVertexBufs big e p geometry
  = JS.Normal (e, p, Some Renderer.nullVertexBufs).
Proof.
  intro H. unfold SceneVertexBufs.getVertexBufs. rewrite H. reflexivity.
Qed.

Lemma of_nat_Fin n : JS.of_nat n = JS.Fin (inject_Z (Z.of_nat n)).
Proof. reflexivity. Qed.

Lemma manyVertices_length n : (0 <= n)%Z -> Z.of_nat (length (manyVertices n)) = (3 * n)%Z.
Proof.
  intro H. unfold manyVertices. rewrite repeat_length. apply Z2Nat.id. lia.
Qed.

Section TwoGeometries.

Import SceneVertexBufs.

Variable big : bool.
Variables (pa pb : list JS.num) (ia ib : list Z).

Let A := plainGeometry "A" pa ia.
Let B := plainGeometry "B" pb ib.

(** A rebuild of the pool that holds the geometries "A" and "B": the first
    one opens a chunk at offset 0; the second one joins it at offset
    [A.positions.length / 3] unless the positions of both are longer than
    [CHUNK_LEN], and its index buffer holds its indices moved by that
    offset, as the platform's index type stores them. *)
Lemma build_two_geometries :
  exists e' p' buf,
    build big noMessages (poolOfTwo A B) = JS.Normal (e', p') /\
    JS.lookup (geometryIndicesOffsets p') (JS.Str "A") = Some (JS.Fin 0) /\
    let offset :=
      if JS.gt (JS.add (JS.of_nat (length pa)) (JS.of_nat (length pb))) (CHUNK_LEN big)
      then JS.Fin 0
      else JS.add (JS.Fin 0) (JS.div (JS.of_nat (length pa)) (JS.Fin 3)) in
    JS.lookup (geometryIndicesOffsets p') (JS.Str "B") = Some offset /\
    JS.lookup (geometries p') (JS.Str "B")
    = Some (Renderer.set_indicesBufCombined B (Some buf)) /\
    Renderer.data buf = stepIndices big offset (Renderer.Uint16Array ib).
Proof.
  set (p := poolOfTwo A B).
  assert (Hkeys : JS.keys (geometries p) = [JS.Str "A"; JS.Str "B"]) by reflexivity.
  assert (HA : JS.lookup (geometries p) (JS.Str "A") = Some A) by reflexivity.
  assert (HB : JS.lookup (geometries p) (JS.Str "B") = Some B) by reflexivity.
  destruct (@build_spec big noMessages p) as (e' & p' & Hb & Hoff & _ & _ & Hbufs & _).
  - rewrite Hkeys. repeat constructor; simpl; intuition discriminate.
  - reflexivity.
  - rewrite Hkeys. repeat constructor.
    + exists A, (Renderer.Float32Array pa), (Renderer.Uint16Array ia).
      repeat split; auto; discriminate.
    + exists B, (Renderer.Float32Array pb), (Renderer.Uint16Array ib).
      repeat split; auto; discriminate.
  - rewrite Hkeys in Hoff, Hbufs.
    assert (HlA : positionsLength (geometries p) (JS.Str "A") = length pa) by reflexivity.
    assert (HlB : positionsLength (geometries p) (JS.Str "B") = length pb) by reflexivity.
    cbn [map] in Hoff. rewrite HlA, HlB in Hoff.
    change (length (positions p)) with 0%nat in Hoff.
    cbn [chunkOffsets negb orb andb Nat.add] in Hoff.
    injection Hoff as HoA HoB.
    destruct (Hbufs (JS.Str "B") ltac:(simpl; auto))
      as (g & gi & buf & offset & Hg & Hi & Ho & Hg' & Hd).
    rewrite HB in Hg. injection Hg as <-. cbn in Hi. injection Hi as <-.
    rewrite HoB in Ho. injection Ho as <-.
    exists e', p', buf. repeat split; assumption.
Qed.

End TwoGeometries.

(** C1, on the code. On a platform with 16-bit indices only, [CHUNK_LEN] is
    [64000 * 4] and is compared with the length of the accumulated positions,
    three per vertex, so a chunk takes up to 85333 vertices. With a geometry
    "A" of 64000 vertices and a geometry "B" of 2000 vertices, "B" joins the
    chunk of "A" at offset 64000; its index 1999 becomes 65999, above 65535,
    and the [Uint16Array] holds 463 instead. The value read back is never
    above [CHUNK_LEN / 3], so nothing is reported. *)
Theorem combined_index_wraps_on_16bit_platform :
  let A := plainGeometry "A" (manyVertices 64000) [0; 1; 2]%Z in
  let B := plainGeometry "B" (manyVertices 2000) [0; 1; 1999]%Z in
  exists e' p' buf offset,
    SceneVertexBufs.build false noMessages (poolOfTwo A B) = JS.Normal (e', p') /\
    JS.lookup (SceneVertexBufs.geometryIndicesOffsets p') (JS.Str "A") = Some (JS.Fin 0) /\
    JS.lookup (SceneVertexBufs.geometryIndicesOffsets p') (JS.Str "B")
    = Some (JS.Fin offset) /\
    offset == 64000 /\
    JS.lookup (SceneVertexBufs.geometries p') (JS.Str "B")
    = Some (Renderer.set_indicesBufCombined B (Some buf)) /\
    Renderer.data buf = Renderer.Uint16Array [64000; 64001; 463]%Z /\
    (65535 < 1999 + 64000)%Z /\
    stepErrors false (JS.Fin offset) (Renderer.Uint16Array [0; 1; 1999]%Z) = [].
Proof.
  intros A B.
  destruct (build_two_geometries false (manyVertices 64000) (manyVertices 2000)
                                 [0; 1; 2]%Z [0; 1; 1999]%Z)
    as (e' & p' & buf & Hb & HoA & HoB & Hg & Hd).
  rewrite !of_nat_Fin, !manyVertices_length in HoB, Hd by lia.
  set (offset := if JS.gt _ _ then _ else _) in HoB, Hd.
  assert (Eo : offset = JS.Fin (0 + inject_Z (3 * 64000) / 3)) by (vm_compute; reflexivity).
  rewrite Eo in HoB, Hd. clear Eo offset.
  exists e', p', buf, (0 + inject_Z (3 * 64000) / 3).
  split; [exact Hb|]. split; [exact HoA|]. split; [exact HoB|].
  split; [vm_compute; reflexivity|]. split; [exact Hg|].
  split; [rewrite Hd; vm_compute; reflexivity|].
  split; [lia | vm_compute; reflexivity].
Qed.

(** ** The geometry record *)

Section GeometryRecord.

Variable big : bool.
Variable sqrt : JS.num -> JS.num.

Lemma buildVBOs_frame e st :
  let r := Geometry._buildVBOs e st in
  Renderer.messages (fst r) = Renderer.messages e /\ sameAttributes (snd r) st.
Proof.
  unfold Geometry._buildVBOs, sameAttributes.
  destruct (Renderer.indices st) eqn:Ei; cbn;
    destruct (Renderer.combined st) eqn:Ec; cbn; rewrite ?Ei, ?Ec;
    try (repeat split; reflexivity);
    destruct (Renderer.positions st) eqn:Ep; cbn;
    destruct (Renderer.normals st) eqn:En; cbn;
    destruct (Renderer.colors st) eqn:Eco; cbn;
    destruct (Renderer.uv st) eqn:Eu; cbn;
    rewrite ?Ei, ?Ec, ?Ep, ?En, ?Eco, ?Eu; repeat split; reflexivity.
Qed.

Lemma findPool_storePool pools hash p :
  Geometry.findPool (Geometry.storePool pools hash p) hash = Some p.
Proof.
  induction pools as [|[h q] pools IH]; simpl.
  - rewrite String.eqb_refl. reflexivity.
  - destruct (String.eqb h hash) eqn:E; simpl; rewrite E; auto.
Qed.

(** The rest of [_init] for a state object [st]: the component is created
    with the attributes of [st]. When [st] is not combined nothing is
    reported and no pool is touched. When it is combined and lacks positions
    or indices, the pool of its signature reports that it ignores the
    geometry and keeps the registry it had (an empty one when the pool is
    new). *)
Lemma initBuffers_spec s c st :
  let r := Geometry.initBuffers s c st in
  Geometry.ghostEdgeThreshold (snd r) = Geometry.ghostEdgeThreshold c /\
  Geometry.created (snd r) = true /\
  sameAttributes (Geometry.state (snd r)) st /\
  (Renderer.combined st = false ->
   Renderer.messages (Geometry.env (fst r)) = Renderer.messages (Geometry.env s) /\
   Geometry.sceneVertexBufs (fst r) = Geometry.sceneVertexBufs s /\
   Geometry.sceneVertexBufsOf (snd r) = None) /\
  (Renderer.combined st = true ->
   Renderer.positions st = None \/ Renderer.indices st = None ->
   exists hash p,
     Geometry.sceneVertexBufsOf (snd r) = Some hash /\
     Geometry.findPool (Geometry.sceneVertexBufs (fst r)) hash = Some p /\
     SceneVertexBufs.geometries p
     = match Geometry.findPool (Geometry.sceneVertexBufs s) hash with
       | Some p0 => SceneVertexBufs.geometries p0
       | None => []
       end /\
     Renderer.messages (Geometry.env (fst r))
     = Renderer.messages (Geometry.env s) ++ [Renderer.Warn_ignoring_geometry (Renderer.id st)]).
Proof.
  unfold Geometry.initBuffers.
  set (e0st0 := match Renderer.indices st with Some ix => _ | None => _ end).
  assert (H0 : Renderer.messages (fst e0st0) = Renderer.messages (Geometry.env s) /\
               sameAttributes (snd e0st0) st).
  { unfold e0st0, sameAttributes. destruct (Renderer.indices st) eqn:Ei; cbn;
      rewrite ?Ei; repeat split; reflexivity. }
  destruct e0st0 as [e0 st0]. cbn [fst snd] in H0. destruct H0 as (M0 & S0).
  pose proof (buildVBOs_frame e0 st0) as H1.
  destruct (Geometry._buildVBOs e0 st0) as [e1 st1]. cbn [fst snd] in H1.
  destruct H1 as (M1 & S1).
  assert (S : sameAttributes (Geometry._buildHash st1) st).
  { unfold sameAttributes in *. cbn.
    destruct S0 as (A0 & B0 & C0 & D0 & E0 & F0 & G0 & I0).
    destruct S1 as (A1 & B1 & C1 & D1 & E1 & F1 & G1 & I1).
    repeat split; congruence. }
  set (st2 := Geometry._buildHash st1) in *.
  assert (Hc : Renderer.combined st2 = Renderer.combined st) by apply S.
  rewrite Hc.
  destruct (Renderer.combined st) eqn:Ec.
  - assert (Hadd : forall e p,
               Renderer.positions st = None \/ Renderer.indices st = None ->
               SceneVertexBufs.addGeometry e p st2
               = (Renderer.report e (Renderer.Warn_ignoring_geometry (Renderer.id st)), p)).
    { intros e p Hmiss. unfold SceneVertexBufs.addGeometry.
      destruct S as (-> & _ & _ & -> & _ & _ & _ & ->).
      destruct Hmiss as [->| ->]; [|destruct (Renderer.positions st)]; reflexivity. }
    unfold Geometry.getSceneVertexBufs. cbn [Geometry.sceneVertexBufs Geometry.env].
    destruct (Geometry.findPool (Geometry.sceneVertexBufs s) (Geometry.signature st2))
      as [p0|] eqn:Ef; cbn [Geometry.sceneVertexBufs Geometry.env Geometry.imageDirty].
    + match goal with |- context [SceneVertexBufs.addGeometry ?e ?p st2] =>
        destruct (SceneVertexBufs.addGeometry e p st2) as [e3 p3] eqn:Ea
      end. cbn.
      split; [reflexivity | split; [reflexivity | split; [exact S | split; [discriminate|]]]].
      intros _ Hmiss. rewrite (Hadd _ _ Hmiss) in Ea. injection Ea as <- <-.
      exists (Geometry.signature st2), p0. rewrite findPool_storePool, Ef.
      cbn -[Geometry.signature]. rewrite M1, M0. repeat split; reflexivity.
    + match goal with |- context [SceneVertexBufs.addGeometry ?e ?p st2] =>
        destruct (SceneVertexBufs.addGeometry e p st2) as [e3 p3] eqn:Ea
      end. cbn.
      split; [reflexivity | split; [reflexivity | split; [exact S | split; [discriminate|]]]].
      intros _ Hmiss. rewrite (Hadd _ _ Hmiss) in Ea. injection Ea as <- <-.
      eexists (Geometry.signature st2), _. rewrite findPool_storePool, Ef.
      cbn -[Geometry.signature]. rewrite M1, M0. repeat split; reflexivity.
  - cbn. split; [reflexivity | split; [reflexivity | split; [exact S | split]]].
    + intros _. rewrite M1, M0. repeat split; reflexivity.
    + discriminate.
Qed.

Lemma initAttributes_state s st cfg :
  let r := Geometry.initAttributes sqrt s st cfg in
  Renderer.quantized (snd r) = Renderer.quantized st /\
  Renderer.id (snd r) = Renderer.id st /\
  Renderer.combined (snd r) = Renderer.combined st.
Proof.
  unfold Geometry.initAttributes.
  destruct (Geometry.primitiveOf _);
    destruct (Geometry.cfg_positions cfg), (Geometry.cfg_colors cfg), (Geometry.cfg_uv cfg),
      (Geometry.cfg_normals cfg), (Renderer.quantized st) eqn:Eq;
    repeat (cbn [fst snd Renderer.quantized Renderer.id Renderer.combined
                 Renderer.set_primitive Renderer.set_primitiveName Renderer.set_positions
                 Renderer.set_positionsDecodeMatrix Renderer.set_colors Renderer.set_uv
                 Renderer.set_uvDecodeMatrix Renderer.set_normals];
            rewrite ?Eq);
    repeat split; reflexivity.
Qed.

(** What [_init] leaves in the component whatever the configuration: the
    threshold [cfg.ghostEdgeThreshold || 2.0] and the flag
    [!!cfg.quantized]. *)
Lemma init_component s id cfg :
  let c := snd (Geometry._init big sqrt s id cfg) in
  Geometry.ghostEdgeThreshold c
  = JS.or_else (Geometry.cfg_ghostEdgeThreshold cfg) (JS.VNum (JS.Fin 2)) /\
  Renderer.quantized (Geometry.state c) = JS.truthy_value (Geometry.cfg_quantized cfg).
Proof.
  unfold Geometry._init.
  match goal with |- context [Geometry.initAttributes sqrt ?a ?b ?c] =>
    pose proof (initAttributes_state a b c) as H;
    destruct (Geometry.initAttributes sqrt a b c) as [s1 st1]
  end.
  cbn in H. destruct H as (Hq & _).
  destruct (Geometry.cfg_indices cfg) as [a|].
  - destruct (negb big && Geometry.isUint32Array a).
    + cbn. split; [reflexivity | assumption].
    + match goal with |- context [Geometry.initBuffers ?a ?b ?c] =>
        destruct (initBuffers_spec a b c) as (Ht & _ & (_ & _ & Hq' & _) & _)
      end.
      cbv zeta. rewrite Ht, Hq'. cbn. split; [reflexivity | assumption].
  - match goal with |- context [Geometry.initBuffers ?a ?b ?c] =>
      destruct (initBuffers_spec a b c) as (Ht & _ & (_ & _ & Hq' & _) & _)
    end.
    cbv zeta. rewrite Ht, Hq'. cbn. split; [reflexivity | assumption].
Qed.

Lemma initAttributes_frame s st cfg :
  let r := Geometry.initAttributes sqrt s st cfg in
  Renderer.messages (Geometry.env (fst r))
  = Renderer.messages (Geometry.env s) ++ primitiveDiagnostics cfg /\
  Geometry.sceneVertexBufs (fst r) = Geometry.sceneVertexBufs s /\
  Renderer.indices (snd r) = Renderer.indices st /\
  (Geometry.cfg_positions cfg = None -> Renderer.positions (snd r) = Renderer.positions st).
Proof.
  unfold Geometry.initAttributes, primitiveDiagnostics.
  destruct (Geometry.primitiveOf _);
    destruct (Geometry.cfg_positions cfg), (Geometry.cfg_colors cfg), (Geometry.cfg_uv cfg),
      (Geometry.cfg_normals cfg), (Renderer.quantized st) eqn:Eq;
    repeat (cbn [fst snd Renderer.quantized Renderer.indices Renderer.positions
                 Renderer.set_primitive Renderer.set_primitiveName Renderer.set_positions
                 Renderer.set_positionsDecodeMatrix Renderer.set_colors Renderer.set_uv
                 Renderer.set_uvDecodeMatrix Renderer.set_normals
                 Geometry.report Geometry.env Geometry.sceneVertexBufs
                 Renderer.report Renderer.messages];
            rewrite ?Eq);
    rewrite ?app_nil_r;
    (split; [reflexivity | split; [reflexivity | split; [reflexivity |]]]);
    intros H; try discriminate H; reflexivity.
Qed.

(** [_init] on a configuration that lacks positions or indices (and whose
    indices it does not refuse): the component is created with the
    attribute absent; when the configuration is not combined nothing more is
    reported and no pool is touched; when it is combined the pool of the
    signature reports that it ignores the geometry and registers nothing. *)
Lemma init_missing_attribute s id cfg :
  Geometry.cfg_positions cfg = None \/ Geometry.cfg_indices cfg = None ->
  indicesRefused big cfg = false ->
  let r := Geometry._init big sqrt s id cfg in
  let c := snd r in
  Geometry.created c = true /\
  (Renderer.positions (Geometry.state c) = None \/ Renderer.indices (Geometry.state c) = None) /\
  (JS.truthy_value (Geometry.cfg_combined cfg) = false ->
   Renderer.messages (Geometry.env (fst r))
   = Renderer.messages (Geometry.env s) ++ primitiveDiagnostics cfg /\
   Geometry.sceneVertexBufs (fst r) = Geometry.sceneVertexBufs s /\
   Geometry.sceneVertexBufsOf c = None) /\
  (JS.truthy_value (Geometry.cfg_combined cfg) = true ->
   exists hash p,
     Geometry.sceneVertexBufsOf c = Some hash /\
     Geometry.findPool (Geometry.sceneVertexBufs (fst r)) hash = Some p /\
     SceneVertexBufs.geometries p
     = match Geometry.findPool (Geometry.sceneVertexBufs s) hash with
       | Some p0 => SceneVertexBufs.geometries p0
       | None => []
       end /\
     Renderer.messages (Geometry.env (fst r))
     = Renderer.messages (Geometry.env s) ++ primitiveDiagnostics cfg
       ++ [Renderer.Warn_ignoring_geometry id]).
Proof.
  intros Hmiss Href. unfold Geometry._init, indicesRefused in *.
  match goal with |- context [Geometry.initAttributes sqrt ?a ?b ?c] =>
    pose proof (initAttributes_state a b c) as Hs;
    pose proof (initAttributes_frame a b c) as Hf;
    destruct (Geometry.initAttributes sqrt a b c) as [s1 st1]
  end.
  cbn [fst snd Renderer.quantized Renderer.id Renderer.combined Renderer.indices
       Renderer.positions] in Hs, Hf.
  destruct Hs as (_ & Hid & Hcomb). destruct Hf as (Hm & Hp & Hi & Hpos).
  assert (Hgoal : forall st,
             Renderer.id st = id ->
             Renderer.combined st = JS.truthy_value (Geometry.cfg_combined cfg) ->
             Renderer.positions st = None \/ Renderer.indices st = None ->
             forall c0,
               let r := Geometry.initBuffers s1 c0 st in
               Geometry.created (snd r) = true /\
               (Renderer.positions (Geometry.state (snd r)) = None \/
                Renderer.indices (Geometry.state (snd r)) = None) /\
               (JS.truthy_value (Geometry.cfg_combined cfg) = false ->
                Renderer.messages (Geometry.env (fst r))
                = Renderer.messages (Geometry.env s) ++ primitiveDiagnostics cfg /\
                Geometry.sceneVertexBufs (fst r) = Geometry.sceneVertexBufs s /\
                Geometry.sceneVertexBufsOf (snd r) = None) /\
               (JS.truthy_value (Geometry.cfg_combined cfg) = true ->
                exists hash p,
                  Geometry.sceneVertexBufsOf (snd r) = Some hash /\
                  Geometry.findPool (Geometry.sceneVertexBufs (fst r)) hash = Some p /\
                  SceneVertexBufs.geometries p
                  = match Geometry.findPool (Geometry.sceneVertexBufs s) hash with
                    | Some p0 => SceneVertexBufs.geometries p0
                    | None => []
                    end /\
                  Renderer.messages (Geometry.env (fst r))
                  = Renderer.messages (Geometry.env s) ++ primitiveDiagnostics cfg
                    ++ [Renderer.Warn_ignoring_geometry id])).
  { intros st Eid Ecomb Hst c0 r.
    destruct (initBuffers_spec s1 c0 st) as (_ & Hcr & Hsame & Hnc & Hco).
    fold r in Hcr, Hsame, Hnc, Hco.
    destruct Hsame as (_ & _ & _ & Ep & _ & _ & _ & Ei).
    split; [exact Hcr|]. split; [rewrite Ep, Ei; exact Hst|]. split.
    - intros Hc. rewrite <- Ecomb in Hc. destruct (Hnc Hc) as (M & P & O).
      rewrite M, Hm, P, Hp. repeat split; assumption.
    - intros Hc. rewrite <- Ecomb in Hc.
      destruct (Hco Hc Hst) as (hash & p & O & F & G & M).
      exists hash, p. rewrite M, Hm, Eid, <- app_assoc, <- Hp.
      repeat split; assumption. }
  destruct (Geometry.cfg_indices cfg) as [a|] eqn:Ea.
  - rewrite Href. apply Hgoal.
    + exact Hid.
    + exact Hcomb.
    + left. destruct Hmiss as [Hn|Hn]; [|discriminate Hn].
      cbn. rewrite (Hpos Hn). reflexivity.
  - apply Hgoal.
    + exact Hid.
    + exact Hcomb.
    + right. exact Hi.
Qed.

End GeometryRecord.

(** C10. [_init] stores [cfg.ghostEdgeThreshold || 2.0]: whatever the rest
    of the configuration, a threshold that is falsy (0, NaN, [undefined],
    [null], [false]) is stored as the default 2, so a threshold of 0 degrees
    cannot be configured; a truthy threshold is stored as given, and so is
    every non-zero number, the negative ones included. *)
Theorem ghostEdgeThreshold_falsy_defaults_to_two :
  forall (big : bool) (sqrt : JS.num -> JS.num) (s : Geometry.Scene) (id : JS.key)
         (cfg : Geometry.Config),
    let stored := Geometry.ghostEdgeThreshold (snd (Geometry._init big sqrt s id cfg)) in
    (Geometry.cfg_ghostEdgeThreshold cfg = JS.VNum (JS.Fin 0) ->
     stored = JS.VNum (JS.Fin 2)) /\
    (JS.truthy_value (Geometry.cfg_ghostEdgeThreshold cfg) = false ->
     stored = JS.VNum (JS.Fin 2)) /\
    (JS.truthy_value (Geometry.cfg_ghostEdgeThreshold cfg) = true ->
     stored = Geometry.cfg_ghostEdgeThreshold cfg) /\
    (forall q : Q, ~ q == 0 ->
                   Geometry.cfg_ghostEdgeThreshold cfg = JS.VNum (JS.Fin q) ->
                   stored = JS.VNum (JS.Fin q)).
Proof.
  intros big sqrt s id cfg stored.
  assert (E : stored = JS.or_else (Geometry.cfg_ghostEdgeThreshold cfg) (JS.VNum (JS.Fin 2)))
    by apply (init_component big sqrt s id cfg).
  rewrite E. unfold JS.or_else.
  split; [|split; [|split]].
  - intros ->. reflexivity.
  - intros ->. reflexivity.
  - intros ->. reflexivity.
  - intros q Hq ->. cbn. rewrite (Qeq_bool_false_of_neq Hq). reflexivity.
Qed.

Lemma ghostEdgeThreshold_zero_and_negative_sample :
  Geometry.ghostEdgeThreshold
    (snd (Geometry._init true newton_sqrt emptyScene (JS.Str "g")
                         (triangleConfig false false (JS.VNum (JS.Fin 0)))))
  = JS.VNum (JS.Fin 2) /\
  Geometry.ghostEdgeThreshold
    (snd (Geometry._init true newton_sqrt emptyScene (JS.Str "g")
                         (triangleConfig false false (JS.VNum JS.NaN))))
  = JS.VNum (JS.Fin 2) /\
  Geometry.ghostEdgeThreshold
    (snd (Geometry._init true newton_sqrt emptyScene (JS.Str "g")
                         (triangleConfig false false (JS.VNum (JS.Fin (- (5)))))))
  = JS.VNum (JS.Fin (- (5))).
Proof.
  split; [|split].
  - apply (proj1
             (ghostEdgeThreshold_falsy_defaults_to_two true newton_sqrt emptyScene (JS.Str "g")
                (triangleConfig false false (JS.VNum (JS.Fin 0))))).
    reflexivity.
  - apply (proj1 (proj2
             (ghostEdgeThreshold_falsy_defaults_to_two true newton_sqrt emptyScene (JS.Str "g")
                (triangleConfig false false (JS.VNum JS.NaN))))).
    reflexivity.
  - apply (proj2 (proj2 (proj2
             (ghostEdgeThreshold_falsy_defaults_to_two true newton_sqrt emptyScene (JS.Str "g")
                (triangleConfig false false (JS.VNum (JS.Fin (- (5)))))))) (- (5))).
    + discriminate.
    + reflexivity.
Defined.

(** C4. A component that [_init] built from a configuration whose
    [quantized] is truthy rejects every assignment to [positions], whatever
    the new array and its length: the setter reports the error and returns,
    leaving the component (its state object with the quantized positions and
    the decode matrix, its lazily built buffers, its dirty flags) as it was;
    of the scene only the diagnostics grow, by that one error. *)
Theorem quantized_positions_setter_is_rejected :
  forall (big : bool) (sqrt : JS.num -> JS.num) (s : Geometry.Scene) (id : JS.key)
         (cfg : Geometry.Config) (newPositions : Geometry.ArrayLike),
    JS.truthy_value (Geometry.cfg_quantized cfg) = true ->
    let r := Geometry._init big sqrt s id cfg in
    exists s',
      Geometry.set_positions (fst r) (snd r) newPositions = JS.Normal (s', snd r) /\
      Renderer.messages (Geometry.env s')
      = Renderer.messages (Geometry.env (fst r))
        ++ [Renderer.Error_quantized_immutable "positions"] /\
      Renderer.memoryStats (Geometry.env s') = Renderer.memoryStats (Geometry.env (fst r)) /\
      Geometry.sceneVertexBufs s' = Geometry.sceneVertexBufs (fst r) /\
      Geometry.imageDirty s' = Geometry.imageDirty (fst r).
Proof.
  intros big sqrt s id cfg newPositions Hq r.
  assert (E : Renderer.quantized (Geometry.state (snd r)) = true).
  { rewrite <- Hq. apply (init_component big sqrt s id cfg). }
  exists (Geometry.report (fst r) (Renderer.Error_quantized_immutable "positions")).
  unfold Geometry.set_positions. rewrite E.
  repeat split; reflexivity.
Qed.

Lemma quantized_triangle_rejects_same_length_positions :
  let r := Geometry._init true newton_sqrt emptyScene (JS.Str "g")
                          (triangleConfig true false JS.VUndefined) in
  exists s',
    Geometry.set_positions (fst r) (snd r) (Geometry.Plain trianglePositions)
    = JS.Normal (s', snd r) /\
    Renderer.messages (Geometry.env s')
    = Renderer.messages (Geometry.env (fst r))
      ++ [Renderer.Error_quantized_immutable "positions"] /\
    Renderer.memoryStats (Geometry.env s') = Renderer.memoryStats (Geometry.env (fst r)) /\
    Geometry.sceneVertexBufs s' = Geometry.sceneVertexBufs (fst r) /\
    Geometry.imageDirty s' = Geometry.imageDirty (fst r).
Proof.
  apply (quantized_positions_setter_is_rejected true newton_sqrt emptyScene (JS.Str "g")
           (triangleConfig true false JS.VUndefined) (Geometry.Plain trianglePositions)).
  reflexivity.
Defined.

(** C5, amended. A configuration that lacks positions or indices is not
    rejected by [_init]: unless its indices are a [Uint32Array] on a platform
    without 32-bit indices, the component is created, with the attribute
    absent from its state object. When the configuration is not combined,
    nothing is reported beyond the diagnostics of the primitive type and no
    pool is touched. When it is combined, the pool of the geometry's
    signature reports that it ignores a geometry with no positions or
    indices, and its registry stays as it was (empty when the pool is new):
    the geometry is not registered. *)
Theorem missing_attribute_is_ignored_only_by_the_pool :
  forall (big : bool) (sqrt : JS.num -> JS.num) (s : Geometry.Scene) (id : JS.key)
         (cfg : Geometry.Config),
    Geometry.cfg_positions cfg = None \/ Geometry.cfg_indices cfg = None ->
    indicesRefused big cfg = false ->
    let r := Geometry._init big sqrt s id cfg in
    let c := snd r in
    Geometry.created c = true /\
    (Renderer.positions (Geometry.state c) = None \/ Renderer.indices (Geometry.state c) = None) /\
    (JS.truthy_value (Geometry.cfg_combined cfg) = false ->
     Renderer.messages (Geometry.env (fst r))
     = Renderer.messages (Geometry.env s) ++ primitiveDiagnostics cfg /\
     Geometry.sceneVertexBufs (fst r) = Geometry.sceneVertexBufs s /\
     Geometry.sceneVertexBufsOf c = None) /\
    (JS.truthy_value (Geometry.cfg_combined cfg) = true ->
     exists hash p,
       Geometry.sceneVertexBufsOf c = Some hash /\
       Geometry.findPool (Geometry.sceneVertexBufs (fst r)) hash = Some p /\
       SceneVertexBufs.geometries p
       = match Geometry.findPool (Geometry.sceneVertexBufs s) hash with
         | Some p0 => SceneVertexBufs.geometries p0
         | None => []
         end /\
       Renderer.messages (Geometry.env (fst r))
       = Renderer.messages (Geometry.env s) ++ primitiveDiagnostics cfg
         ++ [Renderer.Warn_ignoring_geometry id]).
Proof.
  intros big sqrt s id cfg Hmiss Href.
  exact (init_missing_attribute big sqrt s id cfg Hmiss Href).
Qed.

Lemma combined_without_positions_is_ignored_by_the_pool :
  let r := Geometry._init true newton_sqrt emptyScene (JS.Str "g") (noPositionsConfig true) in
  let c := snd r in
  Geometry.created c = true /\
  (Renderer.positions (Geometry.state c) = None \/ Renderer.indices (Geometry.state c) = None) /\
  (JS.truthy_value (Geometry.cfg_combined (noPositionsConfig true)) = false ->
   Renderer.messages (Geometry.env (fst r))
   = Renderer.messages (Geometry.env emptyScene) ++ primitiveDiagnostics (noPositionsConfig true) /\
   Geometry.sceneVertexBufs (fst r) = Geometry.sceneVertexBufs emptyScene /\
   Geometry.sceneVertexBufsOf c = None) /\
  (JS.truthy_value (Geometry.cfg_combined (noPositionsConfig true)) = true ->
   exists hash p,
     Geometry.sceneVertexBufsOf c = Some hash /\
     Geometry.findPool (Geometry.sceneVertexBufs (fst r)) hash = Some p /\
     SceneVertexBufs.geometries p
     = match Geometry.findPool (Geometry.sceneVertexBufs emptyScene) hash with
       | Some p0 => SceneVertexBufs.geometries p0
       | None => []
       end /\
     Renderer.messages (Geometry.env (fst r))
     = Renderer.messages (Geometry.env emptyScene) ++ primitiveDiagnostics (noPositionsConfig true)
       ++ [Renderer.Warn_ignoring_geometry (JS.Str "g")]).
Proof.
  apply (missing_attribute_is_ignored_only_by_the_pool true newton_sqrt emptyScene (JS.Str "g")
           (noPositionsConfig true)).
  - left. reflexivity.
  - reflexivity.
Defined.

(** C5, as the claim states it, fails: from a configuration with indices
    and no positions that is not combined, [_init] builds the component
    ([created] is true and the mesh is counted) with no positions, and
    reports nothing. *)
Lemma missing_positions_silently_constructed :
  let r := Geometry._init true newton_sqrt emptyScene (JS.Str "g") (noPositionsConfig false) in
  Geometry.cfg_positions (noPositionsConfig false) = None /\
  Geometry.created (snd r) = true /\
  Renderer.positions (Geometry.state (snd r)) = None /\
  Renderer.indices (Geometry.state (snd r)) = Some (Renderer.Uint32Array [0; 1; 2]%Z) /\
  Renderer.messages (Geometry.env (fst r)) = [] /\
  Renderer.meshes (Renderer.memoryStats (Geometry.env (fst r))) = 1%Z.
Proof.
  vm_compute. repeat split; reflexivity.
Qed.

(** ** The edge builder *)

Lemma for_loop_fold (St : Type) (body : nat -> St -> St) (step : nat) :
  (0 < step)%nat ->
  forall count fuel k s,
    (count <= fuel)%nat ->
    JS.for_loop fuel (k * step) ((k + count) * step) step body s
    = fold_left (fun s f => body (f * step)%nat s) (seq k count) s.
Proof.
  intros Hstep count. induction count as [|count IH]; intros fuel k s Hfuel.
  - rewrite Nat.add_0_r. destruct fuel; cbn [JS.for_loop seq fold_left]; [reflexivity|].
    rewrite Nat.ltb_irrefl. reflexivity.
  - destruct fuel as [|fuel]; [lia|]. cbn [JS.for_loop seq fold_left].
    assert (Hlt : (k * step <? (k + S count) * step)%nat = true) by (apply Nat.ltb_lt; nia).
    rewrite Hlt.
    replace (k * step + step)%nat with (S k * step)%nat by lia.
    replace ((k + S count) * step)%nat with ((S k + count) * step)%nat by lia.
    apply IH. lia.
Qed.

Lemma addEdge_recordSide indices f j edges :
  addEdge indices (f * 3) j edges = recordSide edges (sideKey indices f j, f).
Proof.
  unfold addEdge, recordSide, sideKey. cbn [fst snd].
  rewrite Nat.div_mul by discriminate. reflexivity.
Qed.

Lemma collectEdges_fold indices :
  (length indices mod 3 = 0)%nat ->
  collectEdges indices = fold_left recordSide (sides indices) [].
Proof.
  intros Hmod. unfold collectEdges, sides.
  assert (Hlen : length indices = ((0 + length indices / 3) * 3)%nat).
  { pose proof (Nat.div_mod_eq (length indices) 3). lia. }
  rewrite Hlen at 2.
  change 0%nat with (0 * 3)%nat at 1.
  rewrite for_loop_fold by lia.
  generalize (seq 0 (length indices / 3)) (@nil (EdgeKey * Edge)).
  intros l. induction l as [|f l IH]; intros edges; [reflexivity|].
  cbn [fold_left flat_map app]. cbn [JS.for_loop Nat.ltb Nat.leb Nat.add].
  rewrite !addEdge_recordSide. apply IH.
Qed.

Lemma index_eqb_eq a b : index_eqb a b = true <-> a = b.
Proof.
  destruct a as [x|], b as [y|]; cbn; split; intros H; try discriminate H; try reflexivity.
  - apply Z.eqb_eq in H. congruence.
  - injection H as ->. apply Z.eqb_refl.
Qed.

Lemma edgeKey_eqb_eq a b : edgeKey_eqb a b = true <-> a = b.
Proof.
  destruct a as [a1 a2], b as [b1 b2]. unfold edgeKey_eqb. cbn [fst snd].
  rewrite andb_true_iff, !index_eqb_eq. split.
  - intros [-> ->]. reflexivity.
  - intros H. injection H as -> ->. split; reflexivity.
Qed.

Lemma edgeKey_eqb_refl a : edgeKey_eqb a a = true.
Proof. apply edgeKey_eqb_eq. reflexivity. Qed.

Lemma edgeKey_eqb_neq a b : a <> b -> edgeKey_eqb a b = false.
Proof.
  intros H. destruct (edgeKey_eqb a b) eqn:E; [|reflexivity].
  apply edgeKey_eqb_eq in E. contradiction.
Qed.

Lemma findEdge_app edges k e key :
  findEdge (edges ++ [(k, e)]) key
  = match findEdge edges key with
    | Some x => Some x
    | None => if edgeKey_eqb k key then Some e else None
    end.
Proof.
  induction edges as [|[k0 e0] edges IH]; cbn [findEdge app]; [reflexivity|].
  destruct (edgeKey_eqb k0 key); [reflexivity | exact IH].
Qed.

Lemma findEdge_setFace2 edges k f key :
  findEdge (setFace2 edges k f) key
  = if edgeKey_eqb k key
    then option_map (fun e => mkEdge (index1 e) (index2 e) (face1 e) (Some f))
                    (findEdge edges key)
    else findEdge edges key.
Proof.
  induction edges as [|[k0 e0] edges IH]; cbn [findEdge setFace2].
  - destruct (edgeKey_eqb k key); reflexivity.
  - destruct (edgeKey_eqb k0 k) eqn:E0; cbn [findEdge].
    + apply edgeKey_eqb_eq in E0. subst k0.
      destruct (edgeKey_eqb k key); reflexivity.
    + destruct (edgeKey_eqb k0 key) eqn:E1; [|exact IH].
      apply edgeKey_eqb_eq in E1. subst k0.
      destruct (edgeKey_eqb k key) eqn:E2; [|reflexivity].
      apply edgeKey_eqb_eq in E2. subst k. rewrite edgeKey_eqb_refl in E0. discriminate E0.
Qed.

Lemma setFace2_keys edges k f : map fst (setFace2 edges k f) = map fst edges.
Proof.
  induction edges as [|[k0 e0] edges IH]; cbn [setFace2 map]; [reflexivity|].
  destruct (edgeKey_eqb k0 k); cbn [map fst]; [reflexivity | rewrite IH; reflexivity].
Qed.

Lemma findEdge_None edges key : findEdge edges key = None -> ~ In key (map fst edges).
Proof.
  induction edges as [|[k0 e0] edges IH]; cbn [findEdge map fst In]; [tauto|].
  destruct (edgeKey_eqb k0 key) eqn:E; [discriminate|].
  intros H [->|Hin]; [rewrite edgeKey_eqb_refl in E; discriminate E | exact (IH H Hin)].
Qed.

Lemma findEdge_In edges key e :
  NoDup (map fst edges) -> (In (key, e) edges <-> findEdge edges key = Some e).
Proof.
  induction edges as [|[k0 e0] edges IH]; cbn [findEdge map fst In]; intros Hnd.
  - split; [tauto | discriminate].
  - inversion Hnd as [|? ? Hnotin Hnd']. subst.
    destruct (edgeKey_eqb k0 key) eqn:E.
    + apply edgeKey_eqb_eq in E. subst k0. split.
      * intros [H|H]; [congruence|]. exfalso. apply Hnotin.
        change key with (fst (key, e)). apply in_map. exact H.
      * intros H. left. congruence.
    + rewrite <- (IH Hnd'). split.
      * intros [H|H]; [|exact H]. injection H as -> _.
        rewrite edgeKey_eqb_refl in E. discriminate E.
      * intros H. right. exact H.
Qed.

Lemma edgeRecord_snoc key faces f e :
  edgeRecord key faces = Some e ->
  edgeRecord key (faces ++ [f]) = Some (mkEdge (index1 e) (index2 e) (face1 e) (Some f)).
Proof.
  destruct faces as [|f0 rest]; [discriminate|].
  assert (E : edgeRecord key ((f0 :: rest) ++ [f])
              = Some (mkEdge (fst key) (snd key) f0 (Some f))).
  { cbn [app]. destruct rest as [|f1 rest]; [reflexivity|].
    cbn [edgeRecord app]. change (f1 :: rest ++ [f]) with ((f1 :: rest) ++ [f]).
    rewrite last_last. reflexivity. }
  rewrite E. destruct rest; cbn [edgeRecord]; intros H; injection H as <-; reflexivity.
Qed.

Lemma recordSides_spec occ :
  let edges := fold_left recordSide occ [] in
  NoDup (map fst edges) /\
  forall key, findEdge edges key = edgeRecord key (facesIn occ key).
Proof.
  induction occ as [|[k f] occ IH] using rev_ind.
  - split; [constructor | reflexivity].
  - cbv zeta in *. rewrite fold_left_app. cbn [fold_left].
    destruct IH as (Hnd & Hfind). set (edges := fold_left recordSide occ []) in *.
    assert (Hfaces : forall key, facesIn (occ ++ [(k, f)]) key
                                 = facesIn occ key ++ (if edgeKey_eqb k key then [f] else [])).
    { intros key. unfold facesIn. rewrite filter_app, map_app. cbn [filter fst].
      destruct (edgeKey_eqb k key); reflexivity. }
    unfold recordSide. cbn [fst snd].
    destruct (findEdge edges k) as [e|] eqn:Ek.
    + split; [rewrite setFace2_keys; exact Hnd|].
      intros key. rewrite findEdge_setFace2, Hfaces.
      destruct (edgeKey_eqb k key) eqn:E.
      * apply edgeKey_eqb_eq in E. subst key. rewrite Ek. cbn [option_map].
        symmetry. apply edgeRecord_snoc. rewrite <- Hfind. exact Ek.
      * rewrite app_nil_r. apply Hfind.
    + split.
      * rewrite map_app. cbn [map fst]. apply NoDup_app; [exact Hnd | repeat constructor; cbn; tauto |].
        intros x Hx [<-|[]]. exact (@findEdge_None _ _ Ek Hx).
      * intros key. rewrite findEdge_app, Hfaces.
        destruct (edgeKey_eqb k key) eqn:E.
        -- apply edgeKey_eqb_eq in E. subst key. rewrite Ek.
           rewrite Hfind in Ek. destruct (facesIn occ k) as [|f0 [|f1 rest]]; try discriminate Ek.
           reflexivity.
        -- rewrite app_nil_r, <- Hfind. destruct (findEdge edges key); reflexivity.
Qed.

Lemma keptEdges_spec faces thr off edges :
  keptEdges faces thr off edges
  = (flat_map (fun ke => pushed faces thr off (snd ke)) edges,
     existsb (fun ke => large faces thr off (snd ke)) edges).
Proof.
  unfold keptEdges.
  assert (H : forall acc lg,
             fold_left
               (fun (acc : list JS.num * bool) (ke : EdgeKey * Edge) =>
                  let '(edgeIndices, largeIndex) := acc in
                  let e := snd ke in
                  if skipped faces thr e
                  then acc
                  else
                    let ia := JS.add (indexNumber (index1 e)) off in
                    let ib := JS.add (indexNumber (index2 e)) off in
                    let largeIndex :=
                      if (negb largeIndex && JS.gt ia (JS.Fin 65535)) || JS.gt ib (JS.Fin 65535)
                      then true else largeIndex in
                    (edgeIndices ++ [ia; ib], largeIndex))
               edges (acc, lg)
             = (acc ++ flat_map (fun ke => pushed faces thr off (snd ke)) edges,
                lg || existsb (fun ke => large faces thr off (snd ke)) edges)).
  { induction edges as [|[k e] edges IH]; intros acc lg; cbn [fold_left flat_map existsb].
    - rewrite app_nil_r, orb_false_r. reflexivity.
    - cbn [snd]. unfold pushed at 1, large at 1.
      destruct (skipped faces thr e); cbn [negb andb app].
      + apply IH.
      + rewrite IH, <- app_assoc. cbn [app]. f_equal.
        destruct lg, (JS.gt (JS.add (indexNumber (index1 e)) off) (JS.Fin 65535)),
          (JS.gt (JS.add (indexNumber (index2 e)) off) (JS.Fin 65535)); reflexivity. }
  rewrite H. reflexivity.
Qed.


Lemma sides_keys indices k f :
  (length indices mod 3 = 0)%nat ->
  In (k, f) (sides indices) ->
  exists x y, k = (Some x, Some y) /\ In x indices /\ In y indices.
Proof.
  intros Hmod Hin. unfold sides in Hin. apply in_flat_map in Hin.
  destruct Hin as (f0 & Hf0 & Hside). apply in_seq in Hf0.
  assert (Hlen : (f0 * 3 + 2 < length indices)%nat).
  { pose proof (Nat.div_mod_eq (length indices) 3). lia. }
  assert (Hkey : forall j, (j < 3)%nat ->
                           exists x y, sideKey indices f0 j = (Some x, Some y) /\
                                       In x indices /\ In y indices).
  { intros j Hj. unfold sideKey.
    assert (Hj' : ((j + 1) mod 3 < 3)%nat) by (apply Nat.mod_upper_bound; discriminate).
    destruct (nth_error indices (f0 * 3 + j)) as [x|] eqn:Ex;
      [|apply nth_error_None in Ex; lia].
    destruct (nth_error indices (f0 * 3 + (j + 1) mod 3)) as [y|] eqn:Ey;
      [|apply nth_error_None in Ey; lia].
    apply nth_error_In in Ex, Ey. cbn [minIndex maxIndex].
    exists (Z.min x y), (Z.max x y). split; [reflexivity|]. split.
    - destruct (Z.min_spec x y) as [[_ ->]|[_ ->]]; assumption.
    - destruct (Z.max_spec x y) as [[_ ->]|[_ ->]]; assumption. }
  destruct Hside as [H|[H|[H|[]]]]; injection H as <- _; apply Hkey; lia.
Qed.

Lemma facesIn_nonempty occ key :
  facesIn occ key <> [] -> exists f, In (key, f) occ.
Proof.
  unfold facesIn. intros H.
  destruct (filter (fun side => edgeKey_eqb (fst side) key) occ) as [|[k f] l] eqn:E;
    [contradiction H; reflexivity|].
  assert (Hin : In (k, f) (filter (fun side => edgeKey_eqb (fst side) key) occ))
    by (rewrite E; left; reflexivity).
  apply filter_In in Hin. destruct Hin as (Hin & Hk). cbn [fst] in Hk.
  apply edgeKey_eqb_eq in Hk. subst k. exists f. exact Hin.
Qed.

Lemma edgeRecord_indices key faces e :
  edgeRecord key faces = Some e ->
  index1 e = fst key /\ index2 e = snd key /\ faces <> [].
Proof.
  destruct faces as [|f [|f1 rest]]; cbn [edgeRecord]; intros H; try discriminate H;
    injection H as <-; repeat split; discriminate.
Qed.

(** The records of [collectEdges]: one for every edge with an adjacent
    face, holding the two ends, the first adjacent face and the last of the
    others. *)
Lemma collectEdges_spec indices :
  (length indices mod 3 = 0)%nat ->
  NoDup (map fst (collectEdges indices)) /\
  forall key e,
    In (key, e) (collectEdges indices)
    <-> edgeRecord key (adjacentFaces indices key) = Some e.
Proof.
  intros Hmod. rewrite (@collectEdges_fold indices Hmod).
  destruct (recordSides_spec (sides indices)) as (Hnd & Hfind).
  split; [exact Hnd|]. intros key e.
  rewrite (@findEdge_In _ key e Hnd), Hfind. reflexivity.
Qed.

Lemma collectEdges_entry indices key e :
  (length indices mod 3 = 0)%nat ->
  In (key, e) (collectEdges indices) ->
  exists x y, key = (Some x, Some y) /\ In x indices /\ In y indices /\
              index1 e = Some x /\ index2 e = Some y.
Proof.
  intros Hmod Hin. apply (@collectEdges_spec indices Hmod) in Hin.
  apply edgeRecord_indices in Hin. destruct Hin as (H1 & H2 & Hne).
  apply facesIn_nonempty in Hne. destruct Hne as (f & Hf).
  destruct (@sides_keys indices _ _ Hmod Hf) as (x & y & -> & Hx & Hy).
  exists x, y. repeat split; assumption.
Qed.

Lemma trunc_comp (a b : Q) : a == b -> JS.trunc a = JS.trunc b.
Proof.
  intros H. unfold JS.trunc.
  rewrite (Qfloor_comp _ _ H), (Qceiling_comp _ _ H).
  assert (E : Qle_bool 0 a = Qle_bool 0 b).
  { destruct (Qle_bool 0 a) eqn:Ea, (Qle_bool 0 b) eqn:Eb; try reflexivity.
    - apply Qle_bool_iff in Ea. rewrite H in Ea. apply Qle_bool_iff in Ea. congruence.
    - apply Qle_bool_iff in Eb. rewrite <- H in Eb. apply Qle_bool_iff in Eb. congruence. }
  rewrite E. reflexivity.
Qed.

Lemma trunc_offset (x o : Z) (q : Q) :
  q == inject_Z o -> JS.trunc (inject_Z x + q) = (x + o)%Z.
Proof.
  intros H. rewrite <- (trunc_inject_Z (x + o)). apply trunc_comp.
  rewrite H, inject_Z_plus. reflexivity.
Qed.

Lemma gt_offset (x o : Z) (q : Q) :
  q == inject_Z o ->
  JS.gt (JS.Fin (inject_Z x + q)) (JS.Fin 65535) = (65535 <? x + o)%Z.
Proof.
  intros H. unfold JS.gt, JS.lt, JS.Qltb.
  assert (E : Qle_bool (inject_Z x + q) 65535 = (x + o <=? 65535)%Z).
  { destruct (x + o <=? 65535)%Z eqn:Ez.
    - apply Z.leb_le in Ez. apply Qle_bool_iff. rewrite H, <- inject_Z_plus.
      change 65535 with (inject_Z 65535). rewrite <- Zle_Qle. exact Ez.
    - apply Z.leb_gt in Ez. destruct (Qle_bool (inject_Z x + q) 65535) eqn:Eq; [|reflexivity].
      apply Qle_bool_iff in Eq. rewrite H, <- inject_Z_plus in Eq.
      change 65535 with (inject_Z 65535) in Eq. rewrite <- Zle_Qle in Eq. lia. }
  rewrite E. rewrite Z.ltb_antisym. reflexivity.
Qed.

Section EdgeOutput.

Variables sqrt cos : JS.num -> JS.num.
Variable DEGTORAD : JS.num.
Variable positions : Renderer.TypedArray.
Variable indices : list Z.
Variable positionsDecodeMatrix : option (list JS.num).
Variable q : Q.
Variable offset : Z.
Variable ghostEdgeThreshold : JS.num.

Hypothesis whole : (length indices mod 3 = 0)%nat.
Hypothesis integral : q == inject_Z offset.
Hypothesis inRange : Forall (fun x => (0 <= x /\ x + offset < 4294967296)%Z) indices.
Hypothesis nonNegative : (0 <= offset)%Z.

Let faces := buildFaces sqrt positions indices positionsDecodeMatrix.
Let thresholdDot := cos (JS.mul DEGTORAD ghostEdgeThreshold).
Let edgesIndices :=
  buildEdgesIndices sqrt cos DEGTORAD positions indices positionsDecodeMatrix (JS.Fin q)
                    ghostEdgeThreshold.



End EdgeOutput.



(** ** Offsets within one chunk *)

Lemma CHUNK_LEN_finite big : exists c, SceneVertexBufs.CHUNK_LEN big = JS.Fin c.
Proof.
  destruct big; [exists (9007199254740991 / 6) | exists (64000 * 4)]; reflexivity.
Qed.

Lemma gt_of_nat_mono big x y t :
  (x + y <= t)%nat ->
  JS.gt (JS.of_nat t) (SceneVertexBufs.CHUNK_LEN big) = false ->
  JS.gt (JS.add (JS.of_nat x) (JS.of_nat y)) (SceneVertexBufs.CHUNK_LEN big) = false.
Proof.
  intros Hle. destruct (CHUNK_LEN_finite big) as (c & ->).
  unfold JS.gt, JS.lt, JS.of_nat, JS.of_Z, JS.add.
  rewrite !Qltb_false. intros H.
  rewrite <- inject_Z_plus. eapply Qle_trans; [|exact H].
  rewrite <- Zle_Qle. lia.
Qed.

(** As long as the positions fit one chunk, the offsets of [chunkOffsets]
    are the running vertex counts. *)
Lemma chunkOffsets_one_chunk big :
  forall lens opened acc running,
    (opened = false -> running = JS.Fin 0) ->
    JS.gt (JS.of_nat (acc + list_sum lens)) (SceneVertexBufs.CHUNK_LEN big) = false ->
    chunkOffsets big opened acc running lens = runningCounts running lens.
Proof.
  induction lens as [|n rest IH]; intros opened acc running Hrun Hfit; [reflexivity|].
  cbn [chunkOffsets runningCounts list_sum] in *.
  rewrite (@gt_of_nat_mono big acc n (acc + (n + list_sum rest)) ltac:(lia) Hfit).
  rewrite orb_false_r.
  assert (Eoff : (if negb opened then JS.Fin 0 else running) = running).
  { destruct opened; [reflexivity|]. symmetry. apply Hrun. reflexivity. }
  rewrite Eoff. f_equal.
  replace (negb opened && opened) with false by (destruct opened; reflexivity).
  apply IH; [discriminate|].
  replace (acc + n + list_sum rest)%nat with (acc + (n + list_sum rest))%nat by lia.
  exact Hfit.
Qed.

(** The vertex count of positions in whole triples is a whole number. *)
Lemma vertexCount_whole gp :
  (Renderer.length gp mod 3 = 0)%nat ->
  vertexCount gp == inject_Z (Z.of_nat (vertices gp)).
Proof.
  intros H. unfold vertexCount, vertices.
  apply Nat.Div0.div_exact in H. rewrite H at 1.
  rewrite Nat2Z.inj_mul, inject_Z_mult. cbn [Z.of_nat Pos.of_succ_nat Pos.succ]. field.
Qed.

Lemma vertices_pos gp :
  (0 < Renderer.length gp)%nat -> (Renderer.length gp mod 3 = 0)%nat ->
  0 < inject_Z (Z.of_nat (vertices gp)).
Proof.
  intros Hpos H. unfold vertices. apply Nat.Div0.div_exact in H.
  change 0 with (inject_Z 0). rewrite <- Zlt_Qlt.
  destruct (Renderer.length gp / 3)%nat; lia.
Qed.

(** Three distinct keys that [for ... in] visits in the order they were
    created in: when the second one is deleted and created again it is
    visited last if it is a string, and keeps its place if it is an array
    index. *)
Lemma forInOrder_created_again a b c :
  forInOrder [a; b; c] -> a <> b -> a <> c -> b <> c ->
  JS.keys [(a, tt); (c, tt); (b, tt)] = if is_Str b then [a; c; b] else [a; b; c].
Proof.
  unfold forInOrder, JS.keys, JS.index_keys, JS.string_keys.
  destruct a as [x|x], b as [y|y], c as [z|z]; cbn; intros H Hab Hac Hbc;
    repeat match goal with
           | H : context [(?u <=? ?v)%N] |- _ => destruct (N.leb_spec u v); cbn in H
           | |- context [(?u <=? ?v)%N] => destruct (N.leb_spec u v); cbn
           end;
    try reflexivity; try discriminate H;
    try (injection H as; subst; try lia; congruence);
    try solve [exfalso; (apply Hab + apply Hac + apply Hbc); f_equal; lia];
    try solve [injection H as; exfalso; (apply Hab + apply Hac + apply Hbc); f_equal; lia].
Qed.

Section Registry.

Import SceneVertexBufs.

Lemma addGeometry_spec e p g gp :
  Renderer.positions g = Some gp ->
  Renderer.indices g <> None ->
  exists p',
    addGeometry e p g = (e, p') /\
    geometries p' = JS.assign (geometries p) (Renderer.id g) g /\
    positions p' = positions p /\
    (hasPositions p' = hasPositions p /\ hasNormals p' = hasNormals p /\
     hasColors p' = hasColors p /\ hasUVs p' = hasUVs p /\ quantized p' = quantized p).
Proof.
  intros Hp Hi. unfold addGeometry. rewrite Hp.
  destruct (Renderer.indices g); [|contradiction].
  eexists. split; [reflexivity|]. cbn. repeat split; reflexivity.
Qed.

Lemma removeGeometry_spec p g :
  JS.has (geometries p) (Renderer.id g) = true ->
  geometries (removeGeometry p g) = JS.delete (geometries p) (Renderer.id g) /\
  positions (removeGeometry p g) = positions p /\
  (hasPositions (removeGeometry p g) = hasPositions p /\
   hasNormals (removeGeometry p g) = hasNormals p /\
   hasColors (removeGeometry p g) = hasColors p /\
   hasUVs (removeGeometry p g) = hasUVs p /\
   quantized (removeGeometry p g) = quantized p).
Proof.
  intros H. unfold removeGeometry. rewrite H. cbn. repeat split; reflexivity.
Qed.

Lemma accepted_rebuilt p p' g id gp buf :
  hasNormals p' = hasNormals p -> hasColors p' = hasColors p -> hasUVs p' = hasUVs p ->
  accepted p g id gp ->
  accepted p' (Renderer.set_indicesBufCombined g buf) id gp.
Proof.
  intros Fn Fc Fu (Hid & Hcan & Hp & Hi & Hs & Hlen & Hwhole).
  unfold accepted, matchesSignature in *.
  rewrite Fn, Fc, Fu. cbn. repeat split; try assumption; apply Hs.
Qed.

Lemma accepted_pool p p' g id gp :
  hasNormals p' = hasNormals p -> hasColors p' = hasColors p -> hasUVs p' = hasUVs p ->
  accepted p g id gp ->
  accepted p' g id gp.
Proof.
  intros Fn Fc Fu (Hid & Hcan & Hp & Hi & Hs & Hlen & Hwhole).
  unfold accepted, matchesSignature in *.
  rewrite Fn, Fc, Fu. repeat split; try assumption; apply Hs.
Qed.

Variable big : bool.

(** A rebuild of a pool that holds three geometries whose positions fit one
    chunk: they get the running vertex counts as offsets, in the order
    [for ... in] visits their ids in, and stay registered as they were. *)
Lemma build_three e p k1 k2 k3 g1 g2 g3 gp1 gp2 gp3 :
  JS.keys (geometries p) = [k1; k2; k3] ->
  k1 <> k2 -> k1 <> k3 -> k2 <> k3 ->
  JS.lookup (geometries p) k1 = Some g1 ->
  JS.lookup (geometries p) k2 = Some g2 ->
  JS.lookup (geometries p) k3 = Some g3 ->
  hasPositions p = true ->
  positions p = [] ->
  accepted p g1 k1 gp1 -> accepted p g2 k2 gp2 -> accepted p g3 k3 gp3 ->
  JS.gt (JS.of_nat (Renderer.length gp1 + Renderer.length gp2 + Renderer.length gp3))
        (CHUNK_LEN big) = false ->
  exists e' p' b1 b2 b3,
    build big e p = JS.Normal (e', p') /\
    map fst (geometries p') = map fst (geometries p) /\
    JS.lookup (geometries p') k1 = Some (Renderer.set_indicesBufCombined g1 (Some b1)) /\
    JS.lookup (geometries p') k2 = Some (Renderer.set_indicesBufCombined g2 (Some b2)) /\
    JS.lookup (geometries p') k3 = Some (Renderer.set_indicesBufCombined g3 (Some b3)) /\
    JS.lookup (geometryIndicesOffsets p') k1 = Some (JS.Fin 0) /\
    JS.lookup (geometryIndicesOffsets p') k2 = Some (JS.Fin (0 + vertexCount gp1)) /\
    JS.lookup (geometryIndicesOffsets p') k3
    = Some (JS.Fin (0 + vertexCount gp1 + vertexCount gp2)) /\
    positions p' = [] /\
    (hasPositions p' = hasPositions p /\ hasNormals p' = hasNormals p /\
     hasColors p' = hasColors p /\ hasUVs p' = hasUVs p /\ quantized p' = quantized p).
Proof.
  intros Hk H12 H13 H23 L1 L2 L3 Hhp Hpos H1 H2 H3 Hfit.
  assert (Hwell : forall k g gp, JS.lookup (geometries p) k = Some g ->
                                 accepted p g k gp -> wellRegistered p k).
  { intros k g gp Hl (_ & _ & Hp & Hi & Hs & _).
    destruct (Renderer.indices g) as [gi|] eqn:Egi; [|contradiction].
    exists g, gp, gi. repeat split; try assumption; apply Hs. }
  assert (Hlen : forall k g gp, JS.lookup (geometries p) k = Some g ->
                                accepted p g k gp ->
                                positionsLength (geometries p) k = Renderer.length gp).
  { intros k g gp Hl (_ & _ & Hp & _). unfold positionsLength. rewrite Hl, Hp. reflexivity. }
  destruct (@build_spec big e p) as (e' & p' & Hb & Hoff & _ & Hkeys & Hbufs & F & _ & _ & P).
  - rewrite Hk. repeat constructor; cbn [In]; intros H;
      repeat (destruct H as [H|H]; [congruence|]); exact H.
  - exact Hhp.
  - rewrite Hk. repeat constructor; eauto.
  - rewrite Hk in Hoff, Hbufs, P. cbn [map] in Hoff.
    rewrite (Hlen _ _ _ L1 H1), (Hlen _ _ _ L2 H2), (Hlen _ _ _ L3 H3), Hpos in Hoff.
    cbn [length] in Hoff.
    rewrite chunkOffsets_one_chunk in Hoff;
      [|reflexivity
       |unfold list_sum; cbn [fold_right];
        match goal with
        | |- JS.gt (JS.of_nat ?n) _ = false =>
            replace n with (Renderer.length gp1 + Renderer.length gp2 + Renderer.length gp3)%nat
              by lia
        end; exact Hfit].
    cbn [runningCounts map] in Hoff. injection Hoff as O1 O2 O3.
    destruct (Hbufs k1 ltac:(cbn; auto)) as (x1 & _ & b1 & _ & X1 & _ & _ & G1 & _).
    destruct (Hbufs k2 ltac:(cbn; auto)) as (x2 & _ & b2 & _ & X2 & _ & _ & G2 & _).
    destruct (Hbufs k3 ltac:(cbn; auto)) as (x3 & _ & b3 & _ & X3 & _ & _ & G3 & _).
    rewrite L1 in X1. rewrite L2 in X2. rewrite L3 in X3.
    injection X1 as <-. injection X2 as <-. injection X3 as <-.
    exists e', p', b1, b2, b3.
    split; [exact Hb|]. split; [exact Hkeys|].
    split; [exact G1|]. split; [exact G2|]. split; [exact G3|].
    split; [exact O1|]. split; [exact O2|]. split; [exact O3|].
    split; [apply P; discriminate | exact F].
Qed.

End Registry.

(** An object whose keys and values are known. *)
Lemma obj_of_three (V : Type) (o : JS.obj V) k1 k2 k3 v1 v2 v3 :
  map fst o = [k1; k2; k3] ->
  k1 <> k2 -> k1 <> k3 -> k2 <> k3 ->
  JS.lookup o k1 = Some v1 -> JS.lookup o k2 = Some v2 -> JS.lookup o k3 = Some v3 ->
  o = [(k1, v1); (k2, v2); (k3, v3)].
Proof.
  intros Hk H12 H13 H23 L1 L2 L3.
  destruct o as [|[x1 y1] [|[x2 y2] [|[x3 y3] [|? ?]]]]; cbn [map fst] in Hk;
    try discriminate Hk.
  injection Hk as -> -> ->.
  cbn [JS.lookup] in L1, L2, L3.
  rewrite key_eqb_refl in L1.
  rewrite (key_eqb_neq H12), key_eqb_refl in L2.
  rewrite (key_eqb_neq H13), (key_eqb_neq H23), key_eqb_refl in L3.
  congruence.
Qed.

(** C8, amended. Three geometries A, B and C with distinct ids, each with
    positions in whole triples that are not empty, indices and the
    attributes of the signature, whose positions fit one chunk together, are
    registered in that order with a new pool, and [for ... in] visits their
    ids in that order (ids that are numbers ascending, before ids that are
    other strings). The rebuild gives each the running vertex count: A 0, B
    the vertex count of A, C that plus the vertex count of B, a strictly
    increasing sequence of whole numbers. After [removeGeometry(B)],
    [addGeometry(B)] and another rebuild A keeps the offset 0; B keeps its
    place and every offset stays when the id of B is a number, and B is
    visited last when its id is another string: C gets the vertex count of
    A and B that plus the vertex count of C. *)
Theorem offsets_follow_registration_order_within_a_chunk :
  forall (big hasNormals hasColors hasUVs quantized : bool)
         (A B C : Renderer.Geometry) (a b c : JS.key) (pA pB pC : Renderer.TypedArray),
    let pool := SceneVertexBufs.create true hasNormals hasColors hasUVs quantized in
    accepted pool A a pA -> accepted pool B b pB -> accepted pool C c pC ->
    a <> b -> a <> c -> b <> c ->
    forInOrder [a; b; c] ->
    JS.gt (JS.of_nat (Renderer.length pA + Renderer.length pB + Renderer.length pC))
          (SceneVertexBufs.CHUNK_LEN big) = false ->
    let registered := addGeometries noMessages pool [A; B; C] in
    let nA := inject_Z (Z.of_nat (vertices pA)) in
    let nB := inject_Z (Z.of_nat (vertices pB)) in
    let nC := inject_Z (Z.of_nat (vertices pC)) in
    exists e1 p1 B1 e2 p2 oB oC oB' oC',
      SceneVertexBufs.build big (fst registered) (snd registered) = JS.Normal (e1, p1) /\
      JS.keys (SceneVertexBufs.geometries p1) = [a; b; c] /\
      JS.lookup (SceneVertexBufs.geometryIndicesOffsets p1) a = Some (JS.Fin 0) /\
      JS.lookup (SceneVertexBufs.geometryIndicesOffsets p1) b = Some (JS.Fin oB) /\
      JS.lookup (SceneVertexBufs.geometryIndicesOffsets p1) c = Some (JS.Fin oC) /\
      oB == nA /\ oC == nA + nB /\ 0 < oB /\ oB < oC /\
      JS.lookup (SceneVertexBufs.geometries p1) b = Some B1 /\
      SceneVertexBufs.build big (fst (removeThenAdd e1 p1 B1)) (snd (removeThenAdd e1 p1 B1))
      = JS.Normal (e2, p2) /\
      JS.keys (SceneVertexBufs.geometries p2) = (if is_Str b then [a; c; b] else [a; b; c]) /\
      JS.lookup (SceneVertexBufs.geometryIndicesOffsets p2) a = Some (JS.Fin 0) /\
      JS.lookup (SceneVertexBufs.geometryIndicesOffsets p2) b = Some (JS.Fin oB') /\
      JS.lookup (SceneVertexBufs.geometryIndicesOffsets p2) c = Some (JS.Fin oC') /\
      (if is_Str b
       then oC' == nA /\ oB' == nA + nC
       else oB' == nA /\ oC' == nA + nB).
Proof.
  intros big hn hc hu q A B C a b c pA pB pC pool HA HB HC Hab Hac Hbc Horder Hfit
         registered nA nB nC.
  assert (Eab : JS.key_eqb a b = false) by (apply key_eqb_neq; exact Hab).
  assert (Eac : JS.key_eqb a c = false) by (apply key_eqb_neq; exact Hac).
  assert (Ebc : JS.key_eqb b c = false) by (apply key_eqb_neq; exact Hbc).
  assert (Ecb : JS.key_eqb c b = false) by (apply key_eqb_neq; congruence).
  pose proof HA as (IdA & _ & PA & IA & _ & LA & WA).
  pose proof HB as (IdB & _ & PB & IB & _ & LB & WB).
  pose proof HC as (IdC & _ & PC & IC & _ & LC & WC).
  (* the three registrations *)
  destruct (@addGeometry_spec noMessages pool A pA PA IA) as (q1 & E1 & G1 & P1 & F1).
  destruct (@addGeometry_spec noMessages q1 B pB PB IB) as (q2 & E2 & G2 & P2 & F2).
  destruct (@addGeometry_spec noMessages q2 C pC PC IC) as (q3 & E3 & G3 & P3 & F3).
  assert (Ereg : registered = (noMessages, q3)).
  { unfold registered, addGeometries. cbn [fold_left fst snd].
    rewrite E1. cbn [fst snd]. rewrite E2. cbn [fst snd]. exact E3. }
  rewrite Ereg. cbn [fst snd].
  assert (Hg3 : SceneVertexBufs.geometries q3 = [(a, A); (b, B); (c, C)]).
  { rewrite G3, G2, G1, IdA, IdB, IdC. unfold pool. cbn [SceneVertexBufs.geometries
      SceneVertexBufs.create JS.assign].
    rewrite Eab. cbn [JS.assign]. rewrite Eac, Ebc. reflexivity. }
  destruct F1 as (Fp1 & Fn1 & Fc1 & Fu1 & Fq1).
  destruct F2 as (Fp2 & Fn2 & Fc2 & Fu2 & Fq2).
  destruct F3 as (Fp3 & Fn3 & Fc3 & Fu3 & Fq3).
  assert (Hacc : forall g n gp, accepted pool g n gp -> accepted q3 g n gp).
  { intros g n gp. apply accepted_pool.
    - rewrite Fn3, Fn2, Fn1. reflexivity.
    - rewrite Fc3, Fc2, Fc1. reflexivity.
    - rewrite Fu3, Fu2, Fu1. reflexivity. }
  assert (Hhp3 : SceneVertexBufs.hasPositions q3 = true).
  { rewrite Fp3, Fp2, Fp1. reflexivity. }
  assert (Hpos3 : SceneVertexBufs.positions q3 = []).
  { rewrite P3, P2, P1. reflexivity. }
  assert (Hk3 : JS.keys (SceneVertexBufs.geometries q3) = [a; b; c]).
  { transitivity (JS.keys (map (fun id => (id, tt)) [a; b; c])); [|exact Horder].
    apply keys_fst. rewrite Hg3. reflexivity. }
  assert (L3a : JS.lookup (SceneVertexBufs.geometries q3) a = Some A).
  { rewrite Hg3. cbn [JS.lookup]. rewrite key_eqb_refl. reflexivity. }
  assert (L3b : JS.lookup (SceneVertexBufs.geometries q3) b = Some B).
  { rewrite Hg3. cbn [JS.lookup]. rewrite Eab, key_eqb_refl. reflexivity. }
  assert (L3c : JS.lookup (SceneVertexBufs.geometries q3) c = Some C).
  { rewrite Hg3. cbn [JS.lookup]. rewrite Eac, Ebc, key_eqb_refl. reflexivity. }
  destruct (@build_three big noMessages q3 a b c A B C pA pB pC Hk3 Hab Hac Hbc
              L3a L3b L3c Hhp3 Hpos3
              (Hacc A a pA HA) (Hacc B b pB HB) (Hacc C c pC HC) Hfit)
    as (e1 & p1 & bA & bB & bC & Hb1 & Hf1 & La & Lb & Lc & Oa & Ob & Oc & Pos1 & R1).
  destruct R1 as (Rp & Rn & Rc & Ru & Rq).
  set (A1 := Renderer.set_indicesBufCombined A (Some bA)) in *.
  set (B1 := Renderer.set_indicesBufCombined B (Some bB)) in *.
  set (C1 := Renderer.set_indicesBufCombined C (Some bC)) in *.
  assert (Hg1 : SceneVertexBufs.geometries p1 = [(a, A1); (b, B1); (c, C1)]).
  { apply obj_of_three; try assumption. rewrite Hf1, Hg3. reflexivity. }
  (* removing and adding B again *)
  assert (Hhas : JS.has (SceneVertexBufs.geometries p1) (Renderer.id B1) = true).
  { unfold JS.has. change (Renderer.id B1) with (Renderer.id B). rewrite IdB, Lb.
    reflexivity. }
  destruct (@removeGeometry_spec p1 B1 Hhas) as (Gr & Pr & Fr).
  destruct Fr as (Frp & Frn & Frc & Fru & Frq).
  destruct (@addGeometry_spec e1 (SceneVertexBufs.removeGeometry p1 B1) B1 pB PB IB)
    as (r & Er & Gr' & Pr' & Fr').
  destruct Fr' as (Fp' & Fn' & Fc' & Fu' & Fq').
  assert (Hgr : SceneVertexBufs.geometries r = [(a, A1); (c, C1); (b, B1)]).
  { rewrite Gr', Gr, Hg1. change (Renderer.id B1) with (Renderer.id B). rewrite IdB.
    cbn [JS.delete filter fst]. rewrite Eab, Ecb, key_eqb_refl.
    cbn [negb JS.assign]. rewrite Eab, Ecb. reflexivity. }
  assert (Hacc' : forall g n gp buf,
             accepted pool g n gp ->
             accepted r (Renderer.set_indicesBufCombined g buf) n gp).
  { intros g n gp buf. apply accepted_rebuilt.
    - rewrite Fn', Frn, Rn, Fn3, Fn2, Fn1. reflexivity.
    - rewrite Fc', Frc, Rc, Fc3, Fc2, Fc1. reflexivity.
    - rewrite Fu', Fru, Ru, Fu3, Fu2, Fu1. reflexivity. }
  assert (Hcb : c <> b) by congruence.
  assert (Hhpr : SceneVertexBufs.hasPositions r = true).
  { rewrite Fp', Frp, Rp, Fp3, Fp2, Fp1. reflexivity. }
  assert (Hposr : SceneVertexBufs.positions r = []).
  { rewrite Pr', Pr. exact Pos1. }
  assert (Hkr : JS.keys (SceneVertexBufs.geometries r)
                = if is_Str b then [a; c; b] else [a; b; c]).
  { rewrite <- (forInOrder_created_again Horder Hab Hac Hbc).
    apply keys_fst. rewrite Hgr. reflexivity. }
  assert (Lra : JS.lookup (SceneVertexBufs.geometries r) a = Some A1).
  { rewrite Hgr. cbn [JS.lookup]. rewrite key_eqb_refl. reflexivity. }
  assert (Lrc : JS.lookup (SceneVertexBufs.geometries r) c = Some C1).
  { rewrite Hgr. cbn [JS.lookup]. rewrite Eac, key_eqb_refl. reflexivity. }
  assert (Lrb : JS.lookup (SceneVertexBufs.geometries r) b = Some B1).
  { rewrite Hgr. cbn [JS.lookup]. rewrite Eab, Ecb, key_eqb_refl. reflexivity. }
  pose proof (vertexCount_whole pA WA) as VA.
  pose proof (vertexCount_whole pB WB) as VB.
  pose proof (vertexCount_whole pC WC) as VC.
  pose proof (vertices_pos pA LA WA) as NA.
  pose proof (vertices_pos pB LB WB) as NB.
  fold nA in VA, NA. fold nB in VB, NB. fold nC in VC.
  assert (Hkeys2 : forall e2 p2,
             SceneVertexBufs.build big e1 r = JS.Normal (e2, p2) ->
             map fst (SceneVertexBufs.geometries p2) = map fst (SceneVertexBufs.geometries r) ->
             JS.keys (SceneVertexBufs.geometries p2)
             = if is_Str b then [a; c; b] else [a; b; c]).
  { intros e2 p2 _ Hf. rewrite <- Hkr. apply keys_fst. exact Hf. }
  destruct (is_Str b) eqn:Sb.
  - assert (Hfit' : JS.gt (JS.of_nat (Renderer.length pA + Renderer.length pC
                                      + Renderer.length pB))
                          (SceneVertexBufs.CHUNK_LEN big) = false).
    { replace (Renderer.length pA + Renderer.length pC + Renderer.length pB)%nat
        with (Renderer.length pA + Renderer.length pB + Renderer.length pC)%nat by lia.
      exact Hfit. }
    destruct (@build_three big e1 r a c b A1 C1 B1 pA pC pB Hkr Hac Hab Hcb
                Lra Lrc Lrb Hhpr Hposr
                (Hacc' A a pA (Some bA) HA) (Hacc' C c pC (Some bC) HC)
                (Hacc' B b pB (Some bB) HB) Hfit')
      as (e2 & p2 & bA' & bC' & bB' & Hb2 & Hf2 & _ & _ & _ & Oa' & Oc' & Ob' & _).
    exists e1, p1, B1, e2, p2, (0 + vertexCount pA), (0 + vertexCount pA + vertexCount pB),
      (0 + vertexCount pA + vertexCount pC), (0 + vertexCount pA).
    split; [exact Hb1|].
    split; [rewrite <- Hk3; apply keys_fst; exact Hf1|].
    split; [exact Oa|]. split; [exact Ob|]. split; [exact Oc|].
    split; [lra|]. split; [lra|]. split; [lra|]. split; [lra|].
    split; [exact Lb|].
    split; [unfold removeThenAdd; rewrite Er; exact Hb2|].
    split; [exact (Hkeys2 e2 p2 Hb2 Hf2)|].
    split; [exact Oa'|]. split; [exact Ob'|]. split; [exact Oc'|].
    split; lra.
  - destruct (@build_three big e1 r a b c A1 B1 C1 pA pB pC Hkr Hab Hac Hbc
                Lra Lrb Lrc Hhpr Hposr
                (Hacc' A a pA (Some bA) HA) (Hacc' B b pB (Some bB) HB)
                (Hacc' C c pC (Some bC) HC) Hfit)
      as (e2 & p2 & bA' & bB' & bC' & Hb2 & Hf2 & _ & _ & _ & Oa' & Ob' & Oc' & _).
    exists e1, p1, B1, e2, p2, (0 + vertexCount pA), (0 + vertexCount pA + vertexCount pB),
      (0 + vertexCount pA), (0 + vertexCount pA + vertexCount pB).
    split; [exact Hb1|].
    split; [rewrite <- Hk3; apply keys_fst; exact Hf1|].
    split; [exact Oa|]. split; [exact Ob|]. split; [exact Oc|].
    split; [lra|]. split; [lra|]. split; [lra|]. split; [lra|].
    split; [exact Lb|].
    split; [unfold removeThenAdd; rewrite Er; exact Hb2|].
    split; [exact (Hkeys2 e2 p2 Hb2 Hf2)|].
    split; [exact Oa'|]. split; [exact Ob'|]. split; [exact Oc'|].
    split; lra.
Qed.

Lemma three_small_geometries_keep_their_order :
  (let A := plainGeometry "A" trianglePositions [0; 1; 2]%Z in
   let B := plainGeometry "B" squarePositions squareIndices in
   let C := plainGeometry "C" trianglePositions [0; 2; 1]%Z in
   let registered := addGeometries noMessages positionsPool [A; B; C] in
   exists e1 p1 B1 e2 p2 oB oC oB' oC',
     SceneVertexBufs.build false (fst registered) (snd registered) = JS.Normal (e1, p1) /\
     JS.keys (SceneVertexBufs.geometries p1) = [JS.Str "A"; JS.Str "B"; JS.Str "C"] /\
     JS.lookup (SceneVertexBufs.geometryIndicesOffsets p1) (JS.Str "A") = Some (JS.Fin 0) /\
     JS.lookup (SceneVertexBufs.geometryIndicesOffsets p1) (JS.Str "B") = Some (JS.Fin oB) /\
     JS.lookup (SceneVertexBufs.geometryIndicesOffsets p1) (JS.Str "C") = Some (JS.Fin oC) /\
     oB == 3 /\ oC == 3 + 4 /\ 0 < oB /\ oB < oC /\
     JS.lookup (SceneVertexBufs.geometries p1) (JS.Str "B") = Some B1 /\
     SceneVertexBufs.build false (fst (removeThenAdd e1 p1 B1)) (snd (removeThenAdd e1 p1 B1))
     = JS.Normal (e2, p2) /\
     JS.keys (SceneVertexBufs.geometries p2) = [JS.Str "A"; JS.Str "C"; JS.Str "B"] /\
     JS.lookup (SceneVertexBufs.geometryIndicesOffsets p2) (JS.Str "A") = Some (JS.Fin 0) /\
     JS.lookup (SceneVertexBufs.geometryIndicesOffsets p2) (JS.Str "B") = Some (JS.Fin oB') /\
     JS.lookup (SceneVertexBufs.geometryIndicesOffsets p2) (JS.Str "C") = Some (JS.Fin oC') /\
     oC' == 3 /\ oB' == 3 + 3) /\
  (let A := numberedGeometry 1 trianglePositions [0; 1; 2]%Z in
   let B := numberedGeometry 2 squarePositions squareIndices in
   let C := numberedGeometry 3 trianglePositions [0; 2; 1]%Z in
   let registered := addGeometries noMessages positionsPool [A; B; C] in
   exists e1 p1 B1 e2 p2 oB oC oB' oC',
     SceneVertexBufs.build false (fst registered) (snd registered) = JS.Normal (e1, p1) /\
     JS.keys (SceneVertexBufs.geometries p1) = [JS.Idx 1; JS.Idx 2; JS.Idx 3] /\
     JS.lookup (SceneVertexBufs.geometryIndicesOffsets p1) (JS.Idx 1) = Some (JS.Fin 0) /\
     JS.lookup (SceneVertexBufs.geometryIndicesOffsets p1) (JS.Idx 2) = Some (JS.Fin oB) /\
     JS.lookup (SceneVertexBufs.geometryIndicesOffsets p1) (JS.Idx 3) = Some (JS.Fin oC) /\
     oB == 3 /\ oC == 3 + 4 /\ 0 < oB /\ oB < oC /\
     JS.lookup (SceneVertexBufs.geometries p1) (JS.Idx 2) = Some B1 /\
     SceneVertexBufs.build false (fst (removeThenAdd e1 p1 B1)) (snd (removeThenAdd e1 p1 B1))
     = JS.Normal (e2, p2) /\
     JS.keys (SceneVertexBufs.geometries p2) = [JS.Idx 1; JS.Idx 2; JS.Idx 3] /\
     JS.lookup (SceneVertexBufs.geometryIndicesOffsets p2) (JS.Idx 1) = Some (JS.Fin 0) /\
     JS.lookup (SceneVertexBufs.geometryIndicesOffsets p2) (JS.Idx 2) = Some (JS.Fin oB') /\
     JS.lookup (SceneVertexBufs.geometryIndicesOffsets p2) (JS.Idx 3) = Some (JS.Fin oC') /\
     oB' == 3 /\ oC' == 3 + 4).
Proof.
  split.
  - apply (@offsets_follow_registration_order_within_a_chunk false false false false false
             (plainGeometry "A" trianglePositions [0; 1; 2]%Z)
             (plainGeometry "B" squarePositions squareIndices)
             (plainGeometry "C" trianglePositions [0; 2; 1]%Z)
             (JS.Str "A") (JS.Str "B") (JS.Str "C")
             (Renderer.Float32Array trianglePositions)
             (Renderer.Float32Array squarePositions)
             (Renderer.Float32Array trianglePositions)).
    + repeat split; try reflexivity; try discriminate. cbn. lia.
    + repeat split; try reflexivity; try discriminate. cbn. lia.
    + repeat split; try reflexivity; try discriminate. cbn. lia.
    + discriminate.
    + discriminate.
    + discriminate.
    + reflexivity.
    + reflexivity.
  - apply (@offsets_follow_registration_order_within_a_chunk false false false false false
             (numberedGeometry 1 trianglePositions [0; 1; 2]%Z)
             (numberedGeometry 2 squarePositions squareIndices)
             (numberedGeometry 3 trianglePositions [0; 2; 1]%Z)
             (JS.Idx 1) (JS.Idx 2) (JS.Idx 3)
             (Renderer.Float32Array trianglePositions)
             (Renderer.Float32Array squarePositions)
             (Renderer.Float32Array trianglePositions)).
    + repeat split; try reflexivity; try discriminate. cbn. lia.
    + repeat split; try reflexivity; try discriminate. cbn. lia.
    + repeat split; try reflexivity; try discriminate. cbn. lia.
    + discriminate.
    + discriminate.
    + discriminate.
    + reflexivity.
    + reflexivity.
Defined.

(** C8, as the claim states it, fails in four ways. On a platform with
    16-bit indices only, a geometry "A" of 60000 vertices and a geometry
    "B" of 30000 vertices do not fit one chunk (270000 position components,
    above [CHUNK_LEN = 256000]), so the rebuild opens a second chunk for
    "B" and restarts the offset: "B", registered after "A", gets the offset
    0 that "A" has, not the running vertex count 60000. A triangle with the
    id 2 registered before a square with the id 1 is visited after it: the
    square gets the offset 0 and the triangle, registered first, the offset
    4. A geometry registered after one whose positions are empty gets the
    offset of that one. And a geometry registered after one whose positions
    are four numbers, not whole triples, gets an offset that is no whole
    number of vertices. *)
Lemma offsets_do_not_follow_registration_order :
  (let A := plainGeometry "A" (manyVertices 60000) [0; 1; 2]%Z in
   let B := plainGeometry "B" (manyVertices 30000) [0; 1; 2]%Z in
   exists e' p',
     SceneVertexBufs.build false noMessages (poolOfTwo A B) = JS.Normal (e', p') /\
     JS.lookup (SceneVertexBufs.geometryIndicesOffsets p') (JS.Str "A") = Some (JS.Fin 0) /\
     JS.lookup (SceneVertexBufs.geometryIndicesOffsets p') (JS.Str "B") = Some (JS.Fin 0) /\
     JS.gt (JS.add (JS.of_Z (3 * 60000)) (JS.of_Z (3 * 30000)))
           (SceneVertexBufs.CHUNK_LEN false) = true /\
     ~ (exists oA oB,
           JS.lookup (SceneVertexBufs.geometryIndicesOffsets p') (JS.Str "A")
           = Some (JS.Fin oA) /\
           JS.lookup (SceneVertexBufs.geometryIndicesOffsets p') (JS.Str "B")
           = Some (JS.Fin oB) /\
           oA < oB)) /\
  (let A := numberedGeometry 2 trianglePositions [0; 1; 2]%Z in
   let B := numberedGeometry 1 squarePositions squareIndices in
   exists e' p' oA,
     SceneVertexBufs.build false noMessages (poolOfTwo A B) = JS.Normal (e', p') /\
     map fst (SceneVertexBufs.geometries p') = [JS.Idx 2; JS.Idx 1] /\
     JS.lookup (SceneVertexBufs.geometryIndicesOffsets p') (JS.Idx 1) = Some (JS.Fin 0) /\
     JS.lookup (SceneVertexBufs.geometryIndicesOffsets p') (JS.Idx 2) = Some (JS.Fin oA) /\
     oA == 4) /\
  (let A := plainGeometry "A" [] [] in
   let B := plainGeometry "B" trianglePositions [0; 1; 2]%Z in
   exists e' p' oB,
     SceneVertexBufs.build false noMessages (poolOfTwo A B) = JS.Normal (e', p') /\
     JS.lookup (SceneVertexBufs.geometryIndicesOffsets p') (JS.Str "A") = Some (JS.Fin 0) /\
     JS.lookup (SceneVertexBufs.geometryIndicesOffsets p') (JS.Str "B") = Some (JS.Fin oB) /\
     oB == 0) /\
  (let A := plainGeometry "A" (map JS.Fin [0; 0; 0; 1]) [0; 0; 0]%Z in
   let B := plainGeometry "B" trianglePositions [0; 1; 2]%Z in
   exists e' p' oB,
     SceneVertexBufs.build false noMessages (poolOfTwo A B) = JS.Normal (e', p') /\
     JS.lookup (SceneVertexBufs.geometryIndicesOffsets p') (JS.Str "B") = Some (JS.Fin oB) /\
     1 < oB /\ oB < 2).
Proof.
  split; [|split; [|split]].
  - intros A B.
    destruct (build_two_geometries false (manyVertices 60000) (manyVertices 30000)
                                   [0; 1; 2]%Z [0; 1; 2]%Z)
      as (e' & p' & buf & Hb & HoA & HoB & _).
    rewrite !of_nat_Fin, !manyVertices_length in HoB by lia.
    set (offset := if JS.gt _ _ then _ else _) in HoB.
    assert (Eo : offset = JS.Fin 0) by (vm_compute; reflexivity).
    rewrite Eo in HoB.
    exists e', p'. split; [exact Hb|]. split; [exact HoA|]. split; [exact HoB|].
    split; [vm_compute; reflexivity|].
    intros (oA & oB & EA & EB & Hlt). rewrite HoA in EA. rewrite HoB in EB.
    injection EA as <-. injection EB as <-. exact (Qlt_irrefl 0 Hlt).
  - cbv zeta. do 3 eexists.
    split; [vm_compute; reflexivity|].
    split; [vm_compute; reflexivity|].
    split; [vm_compute; reflexivity|].
    split; [vm_compute; reflexivity|].
    vm_compute. reflexivity.
  - cbv zeta. do 3 eexists.
    split; [vm_compute; reflexivity|].
    split; [vm_compute; reflexivity|].
    split; [vm_compute; reflexivity|].
    vm_compute. reflexivity.
  - cbv zeta. do 3 eexists.
    split; [vm_compute; reflexivity|].
    split; [vm_compute; reflexivity|].
    split; vm_compute; reflexivity.
Qed.

(** ** More on the bounds *)

(** A [Float32Array] holds a float32 value as it is. *)
Lemma fround_float32 v :
  isFloat32 (JS.Fin v) = true -> exists v', JS.fround (JS.Fin v) = JS.Fin v' /\ v' == v.
Proof.
  unfold isFloat32. intros H.
  destruct (JS.fround (JS.Fin v)) as [v'| | |]; try discriminate H.
  exists v'. split; [reflexivity | apply Qeq_bool_iff; exact H].
Qed.

Lemma fround_float32_eq v q :
  isFloat32 (JS.Fin v) = true -> q == v ->
  exists q', JS.fround (JS.Fin q) = JS.Fin q' /\ q' == v.
Proof.
  intros Hv E. destruct (@fround_float32 v Hv) as (v' & E1 & E2).
  exists v'. split; [|exact E2].
  cbn [JS.fround] in *. rewrite (round_to_comp 24 128 E). exact E1.
Qed.

(** One step of the running minimum on float32 values: the new minimum is
    the value folded in or the old minimum, and it is below both. *)
Lemma min_float32_step x v :
  isFloat32 (JS.Fin v) = true ->
  (x = JS.PInf \/ exists w q, isFloat32 (JS.Fin w) = true /\ x = JS.Fin q /\ q == w) ->
  exists q', JS.fround (JS.min x (JS.Fin v)) = JS.Fin q' /\
             q' <= v /\
             (q' == v \/ exists q, x = JS.Fin q /\ q' == q) /\
             (forall w, is_lower x w -> q' <= w).
Proof.
  intros Hv [->|(w & q & Hw & -> & E)].
  - destruct (@fround_float32 v Hv) as (v' & E1 & E2).
    exists v'. cbn [JS.min JS.lt]. split; [exact E1|]. split; [lra|].
    split; [left; exact E2|]. intros w0 (mn & H & _). discriminate H.
  - cbn [JS.min JS.lt]. destruct (JS.Qltb v q) eqn:Elt.
    + apply Qltb_true in Elt. destruct (@fround_float32 v Hv) as (v' & E1 & E2).
      exists v'. split; [exact E1|]. split; [lra|]. split; [left; exact E2|].
      intros w0 (mn & H & Hle). injection H as <-. lra.
    + apply Qltb_false in Elt. destruct (@fround_float32_eq w q Hw E) as (q' & E1 & E2).
      exists q'. split; [exact E1|]. split; [lra|].
      split; [right; exists q; split; [reflexivity | lra]|].
      intros w0 (mn & H & Hle). injection H as <-. lra.
Qed.

Lemma max_float32_step x v :
  isFloat32 (JS.Fin v) = true ->
  (x = JS.NInf \/ exists w q, isFloat32 (JS.Fin w) = true /\ x = JS.Fin q /\ q == w) ->
  exists q', JS.fround (JS.max x (JS.Fin v)) = JS.Fin q' /\
             v <= q' /\
             (q' == v \/ exists q, x = JS.Fin q /\ q' == q) /\
             (forall w, is_upper x w -> w <= q').
Proof.
  intros Hv [->|(w & q & Hw & -> & E)].
  - destruct (@fround_float32 v Hv) as (v' & E1 & E2).
    exists v'. cbn [JS.max JS.lt]. split; [exact E1|]. split; [lra|].
    split; [left; exact E2|]. intros w0 (mn & H & _). discriminate H.
  - cbn [JS.max JS.lt]. destruct (JS.Qltb q v) eqn:Elt.
    + apply Qltb_true in Elt. destruct (@fround_float32 v Hv) as (v' & E1 & E2).
      exists v'. split; [exact E1|]. split; [lra|]. split; [left; exact E2|].
      intros w0 (mn & H & Hle). injection H as <-. lra.
    + apply Qltb_false in Elt. destruct (@fround_float32_eq w q Hw E) as (q' & E1 & E2).
      exists q'. split; [exact E1|]. split; [lra|].
      split; [right; exists q; split; [reflexivity | lra]|].
      intros w0 (mn & H & Hle). injection H as <-. lra.
Qed.

(** What the running bounds of component [j] are once the tuples before
    index [i] are folded in: still the extreme values, or values of the
    component that are below (above) every value folded in. *)
Lemma getBounds_float32 (l : list Q) stride :
  (0 < stride)%nat -> (length l mod stride = 0)%nat ->
  Forall (fun v => isFloat32 (JS.Fin v) = true) l ->
  let b := getBounds (map JS.Fin l) stride in
  forall j, (j < stride)%nat ->
    (JS.get (bmin b) j = JS.PInf \/
     exists k q, (k < length l)%nat /\ (k mod stride = j)%nat /\
                 JS.get (bmin b) j = JS.Fin q /\ q == nth k l 0) /\
    (JS.get (bmax b) j = JS.NInf \/
     exists k q, (k < length l)%nat /\ (k mod stride = j)%nat /\
                 JS.get (bmax b) j = JS.Fin q /\ q == nth k l 0) /\
    (forall k, (k < length l)%nat -> (k mod stride = j)%nat ->
               is_lower (JS.get (bmin b) j) (nth k l 0) /\
               is_upper (JS.get (bmax b) j) (nth k l 0)).
Proof.
  intros Hs Hlen Hf. unfold getBounds. rewrite length_map.
  set (array := map JS.Fin l).
  assert (Hfl : forall k, (k < length l)%nat -> isFloat32 (JS.Fin (nth k l 0)) = true).
  { intros k Hk. rewrite Forall_forall in Hf. apply Hf. apply nth_In. exact Hk. }
  destruct (getBounds_init_spec stride) as (Hi1 & Hi2 & Hinit).
  destruct (@for_loop_inv Bounds
              (fun i b =>
                 (i mod stride = 0)%nat /\
                 length (bmin b) = stride /\ length (bmax b) = stride /\
                 forall j, (j < stride)%nat ->
                   (JS.get (bmin b) j = JS.PInf \/
                    exists k q, (k < length l)%nat /\ (k mod stride = j)%nat /\
                                JS.get (bmin b) j = JS.Fin q /\ q == nth k l 0) /\
                   (JS.get (bmax b) j = JS.NInf \/
                    exists k q, (k < length l)%nat /\ (k mod stride = j)%nat /\
                                JS.get (bmax b) j = JS.Fin q /\ q == nth k l 0) /\
                   (forall k, (k < i)%nat -> (k < length l)%nat -> (k mod stride = j)%nat ->
                              is_lower (JS.get (bmin b) j) (nth k l 0) /\
                              is_upper (JS.get (bmax b) j) (nth k l 0)))
              (length l) stride
              (fun i b => JS.for_loop stride 0 stride 1 (getBounds_component array i) b)
              Hs)
    with (fuel := length l) (i := 0%nat) (s := getBounds_init stride)
    as (i' & Hi' & _ & _ & _ & H).
  - intros i b Hi (Hmod & Hl1 & Hl2 & Hb).
    destruct (getBounds_tuple_spec array i b Hl1 Hl2) as (Hl1' & Hl2' & Ht).
    assert (Hnext : (i + stride <= length l)%nat) by (apply multiple_next; assumption).
    split; [|split; [assumption | split; [assumption|]]].
    + rewrite Nat.Div0.add_mod, Hmod, Nat.Div0.mod_same by lia. simpl.
      apply Nat.Div0.mod_0_l.
    + intros j Hj. destruct (Ht j Hj) as [E1 E2]. rewrite E1, E2.
      unfold array. rewrite get_map_Fin by lia.
      destruct (Hb j Hj) as (Hmin & Hmax & Hbnd).
      assert (Hhere : (i + j < length l)%nat /\ ((i + j) mod stride = j)%nat).
      { split; [lia | apply mod_offset; assumption]. }
      destruct Hhere as [Hij Hijm].
      destruct (@min_float32_step (JS.get (bmin b) j) (nth (i + j) l 0) (Hfl _ Hij))
        as (mn & Emn & Hmn1 & Hmn2 & Hmn3).
      { destruct Hmin as [Hmin | (k & q & Hk1 & _ & Hk3 & Hk4)]; [left; exact Hmin|].
        right. exists (nth k l 0), q. split; [apply Hfl; exact Hk1|]. split; assumption. }
      destruct (@max_float32_step (JS.get (bmax b) j) (nth (i + j) l 0) (Hfl _ Hij))
        as (mx & Emx & Hmx1 & Hmx2 & Hmx3).
      { destruct Hmax as [Hmax | (k & q & Hk1 & _ & Hk3 & Hk4)]; [left; exact Hmax|].
        right. exists (nth k l 0), q. split; [apply Hfl; exact Hk1|]. split; assumption. }
      rewrite Emn, Emx. split; [|split].
      * right. destruct Hmn2 as [Hv | (q & Eq & Hq)].
        -- exists (i + j)%nat, mn. repeat split; assumption.
        -- destruct Hmin as [Hmin | (k & q0 & Hk1 & Hk2 & Hk3 & Hk4)]; [congruence|].
           exists k, mn. repeat split; try assumption.
           rewrite Hk3 in Eq. injection Eq as <-. lra.
      * right. destruct Hmx2 as [Hv | (q & Eq & Hq)].
        -- exists (i + j)%nat, mx. repeat split; assumption.
        -- destruct Hmax as [Hmax | (k & q0 & Hk1 & Hk2 & Hk3 & Hk4)]; [congruence|].
           exists k, mx. repeat split; try assumption.
           rewrite Hk3 in Eq. injection Eq as <-. lra.
      * intros k Hk Hkl Hkj.
        destruct (Nat.lt_ge_cases k i) as [Hlt|Hge].
        -- destruct (Hbnd k Hlt Hkl Hkj) as [Hlo Hup].
           split; [exists mn | exists mx]; (split; [reflexivity|]); auto.
        -- assert (Hr : k = (i + j)%nat).
           { assert (Hkm : (k mod stride = k - i)%nat).
             { replace k with (i + (k - i))%nat at 1 by lia.
               apply mod_offset; [assumption | lia]. }
             lia. }
           subst k. split; [exists mn | exists mx]; (split; [reflexivity | assumption]).
  - nia.
  - split; [apply Nat.Div0.mod_0_l | split; [assumption | split; [assumption|]]].
    intros j Hj. destruct (Hinit j Hj) as [-> ->].
    split; [left; reflexivity | split; [left; reflexivity | intros; lia]].
  - cbv zeta. intros j Hj. destruct (H j Hj) as (H1 & H2 & H3).
    split; [exact H1 | split; [exact H2|]].
    intros k Hk Hkj. apply H3; [lia | exact Hk | exact Hkj].
Qed.

(** X1. On an array of float32 values (what a [Float32Array] holds) made of
    whole tuples, the bounds [getBounds] returns for a component are the
    least and the greatest value of that component: no value of the
    component is below the minimum or above the maximum, and each of the
    two is a value of the component. *)
Theorem getBounds_returns_least_and_greatest :
  forall (l : list Q) (stride j : nat),
    (0 < stride)%nat -> (length l mod stride = 0)%nat -> (0 < length l)%nat ->
    (j < stride)%nat ->
    Forall (fun v => isFloat32 (JS.Fin v) = true) l ->
    let b := getBounds (map JS.Fin l) stride in
    exists mn mx kmin kmax,
      JS.get (bmin b) j = JS.Fin mn /\ JS.get (bmax b) j = JS.Fin mx /\
      (kmin < length l)%nat /\ (kmin mod stride = j)%nat /\ nth kmin l 0 == mn /\
      (kmax < length l)%nat /\ (kmax mod stride = j)%nat /\ nth kmax l 0 == mx /\
      forall k, (k < length l)%nat -> (k mod stride = j)%nat ->
                mn <= nth k l 0 /\ nth k l 0 <= mx.
Proof.
  intros l stride j Hs Hlen Hpos Hj Hf b.
  destruct (@getBounds_float32 l stride Hs Hlen Hf j Hj) as (Hmin & Hmax & Hb).
  fold b in Hmin, Hmax, Hb.
  assert (Hjl : (j < length l)%nat).
  { apply Nat.Div0.div_exact in Hlen.
    destruct (length l / stride)%nat as [|d]; [lia | nia]. }
  assert (Hjm : (j mod stride = j)%nat) by (apply Nat.mod_small; exact Hj).
  destruct (Hb j Hjl Hjm) as [(mn & Emn & _) (mx & Emx & _)].
  destruct Hmin as [Hmin | (kmin & q1 & Hk1 & Hk2 & Hk3 & Hq1)]; [congruence|].
  destruct Hmax as [Hmax | (kmax & q2 & Hk4 & Hk5 & Hk6 & Hq2)]; [congruence|].
  exists mn, mx, kmin, kmax.
  rewrite Emn in Hk3. rewrite Emx in Hk6. injection Hk3 as <-. injection Hk6 as <-.
  split; [exact Emn|]. split; [exact Emx|].
  split; [exact Hk1|]. split; [exact Hk2|]. split; [symmetry; exact Hq1|].
  split; [exact Hk4|]. split; [exact Hk5|]. split; [symmetry; exact Hq2|].
  intros k Hk Hkj. destruct (Hb k Hk Hkj) as [(mn' & E1 & Hlo) (mx' & E2 & Hhi)].
  rewrite Emn in E1. rewrite Emx in E2.
  injection E1 as <-. injection E2 as <-. split; assumption.
Qed.

Lemma getBounds_sample_least_and_greatest :
  let b := getBounds (map JS.Fin sample_positions) 3 in
  exists mn mx kmin kmax,
    JS.get (bmin b) 1 = JS.Fin mn /\ JS.get (bmax b) 1 = JS.Fin mx /\
    (kmin < length sample_positions)%nat /\ (kmin mod 3 = 1)%nat /\
    nth kmin sample_positions 0 == mn /\
    (kmax < length sample_positions)%nat /\ (kmax mod 3 = 1)%nat /\
    nth kmax sample_positions 0 == mx /\
    forall k, (k < length sample_positions)%nat -> (k mod 3 = 1)%nat ->
              mn <= nth k sample_positions 0 /\ nth k sample_positions 0 <= mx.
Proof.
  apply (@getBounds_returns_least_and_greatest sample_positions 3 1);
    [lia | reflexivity | cbn; lia | lia |].
  repeat (apply Forall_cons; [vm_compute; reflexivity|]). apply Forall_nil.
Defined.

(** X2. On an empty array [getBounds] folds no tuple in: every minimum is
    left at +Infinity and every maximum at -Infinity, whatever the stride. *)
Theorem getBounds_of_empty_array :
  forall (stride j : nat),
    (j < stride)%nat ->
    let b := getBounds [] stride in
    length (bmin b) = stride /\ length (bmax b) = stride /\
    JS.get (bmin b) j = JS.PInf /\ JS.get (bmax b) j = JS.NInf.
Proof.
  intros stride j Hj b.
  destruct (getBounds_init_spec stride) as (H1 & H2 & H).
  unfold b, getBounds. cbn [length JS.for_loop].
  destruct (H j Hj) as [E1 E2]. repeat split; assumption.
Qed.

Lemma getBounds_of_empty_array_sample :
  let b := getBounds [] 3 in
  length (bmin b) = 3%nat /\ length (bmax b) = 3%nat /\
  JS.get (bmin b) 2 = JS.PInf /\ JS.get (bmax b) 2 = JS.NInf.
Proof.
  apply (@getBounds_of_empty_array 3 2). lia.
Defined.

(** ** More on quantization *)

(** A [Uint16Array] holds numbers from 0 to 65535. *)
Lemma toUint16_range a : (0 <= JS.toUint16 a <= 65535)%Z.
Proof.
  destruct a as [q| | |]; cbn [JS.toUint16]; try lia.
  pose proof (Z.mod_pos_bound (JS.trunc q) 65536 ltac:(lia)). lia.
Qed.

(** A value that equals the minimum of its axis is stored as 0, whatever
    the multiplier is: the product is 0, or NaN when the multiplier is not
    finite. *)
Lemma quantizedAt_minimum array min multiplier stride k v mn :
  JS.get array k = JS.Fin v -> JS.get min (k mod stride) = JS.Fin mn -> v == mn ->
  quantizedAt array min multiplier stride k = 0%Z.
Proof.
  intros E1 E2 E. unfold quantizedAt, scaled. rewrite E1, E2.
  cbn [JS.sub JS.neg JS.add JS.double].
  rewrite (@round_to_zero 53 1024 (v + - mn)) by lra.
  destruct (JS.get multiplier (k mod stride)) as [x| | |]; reflexivity.
Qed.

(** X3. For float32 positions in whole triples, [quantizeVec3], fed the
    bounds of [getBounds], returns an array of the same length whose
    elements lie between 0 and 65535, and on every axis the least value is
    stored as 0. *)
Theorem quantizeVec3_stores_the_least_value_as_zero :
  forall (positions : list Q) (j : nat),
    (length positions mod 3 = 0)%nat -> (0 < length positions)%nat -> (j < 3)%nat ->
    Forall (fun v => isFloat32 (JS.Fin v) = true) positions ->
    let array := map JS.Fin positions in
    let b := getBounds array 3 in
    let r := quantizeVec3 array (bmin b) (bmax b) in
    length (quantized r) = length positions /\
    (forall k z, nth_error (quantized r) k = Some z -> (0 <= z <= 65535)%Z) /\
    exists k mn,
      (k < length positions)%nat /\ (k mod 3 = j)%nat /\
      JS.get (bmin b) j = JS.Fin mn /\
      nth k positions 0 == mn /\
      (forall i, (i < length positions)%nat -> (i mod 3 = j)%nat -> mn <= nth i positions 0) /\
      nth_error (quantized r) k = Some 0%Z.
Proof.
  intros positions j Hlen Hpos Hj Hf array b r.
  destruct (@quantizeVec3_loop_spec array (bmin b)
              [multiplierOf (bmin b) (bmax b) 0; multiplierOf (bmin b) (bmax b) 1;
               multiplierOf (bmin b) (bmax b) 2])
    as [Hql Hq].
  { unfold array. rewrite length_map. exact Hlen. }
  assert (Hal : length array = length positions) by (unfold array; apply length_map).
  split; [unfold r, quantizeVec3, quantized; rewrite Hql; exact Hal|].
  split.
  - intros k z Hk.
    assert (Hkl : (k < length array)%nat).
    { rewrite <- Hql. apply nth_error_Some. unfold r, quantizeVec3, quantized in Hk.
      rewrite Hk. discriminate. }
    unfold r, quantizeVec3, quantized in Hk.
    apply nth_error_nth with (d := 0%Z) in Hk. rewrite (Hq k Hkl) in Hk. subst z.
    apply toUint16_range.
  - destruct (@getBounds_float32 positions 3 ltac:(lia) Hlen Hf j Hj) as (Hmin & _ & Hb).
    fold array in Hmin, Hb. fold b in Hmin, Hb.
    assert (Hjl : (j < length positions)%nat).
    { apply Nat.Div0.div_exact in Hlen.
      destruct (length positions / 3)%nat as [|d]; [lia | lia]. }
    destruct (Hb j Hjl (Nat.mod_small j 3 Hj)) as [(mn & Emn & _) _].
    destruct Hmin as [Hmin | (kmin & q & Hk1 & Hk2 & Hk3' & Hqm)]; [congruence|].
    rewrite Emn in Hk3'. injection Hk3' as <-.
    assert (Hk3 : nth kmin positions 0 == mn) by (symmetry; exact Hqm).
    assert (Hlow : forall i, (i < length positions)%nat -> (i mod 3 = j)%nat ->
                             mn <= nth i positions 0).
    { intros i Hi Hij. destruct (Hb i Hi Hij) as [(mn' & E' & Hle) _].
      rewrite Emn in E'. injection E' as <-. exact Hle. }
    exists kmin, mn. split; [exact Hk1|]. split; [exact Hk2|]. split; [exact Emn|].
    split; [exact Hk3|]. split; [exact Hlow|].
    unfold r, quantizeVec3, quantized.
    rewrite <- (@quantizedAt_minimum array (bmin b)
                  [multiplierOf (bmin b) (bmax b) 0; multiplierOf (bmin b) (bmax b) 1;
                   multiplierOf (bmin b) (bmax b) 2] 3 kmin (nth kmin positions 0) mn).
    + rewrite <- (Hq kmin ltac:(lia)). apply nth_error_nth'. rewrite Hql. lia.
    + unfold array. apply get_map_Fin. exact Hk1.
    + rewrite Hk2. exact Emn.
    + exact Hk3.
Qed.

Lemma quantizeVec3_sample_stores_the_least_value_as_zero :
  let array := map JS.Fin sample_positions in
  let b := getBounds array 3 in
  let r := quantizeVec3 array (bmin b) (bmax b) in
  length (quantized r) = length sample_positions /\
  (forall k z, nth_error (quantized r) k = Some z -> (0 <= z <= 65535)%Z) /\
  exists k mn,
    (k < length sample_positions)%nat /\ (k mod 3 = 2)%nat /\
    JS.get (bmin b) 2 = JS.Fin mn /\
    nth k sample_positions 0 == mn /\
    (forall i, (i < length sample_positions)%nat -> (i mod 3 = 2)%nat ->
               mn <= nth i sample_positions 0) /\
    nth_error (quantized r) k = Some 0%Z.
Proof.
  apply (@quantizeVec3_stores_the_least_value_as_zero sample_positions 2);
    [reflexivity | cbn; lia | lia |].
  repeat (apply Forall_cons; [vm_compute; reflexivity|]). apply Forall_nil.
Defined.

(** ** More on the edge builder *)

Lemma map_pushed (A : Type) (g : JS.num -> A) faces thr off edges :
  map g (flat_map (fun ke : EdgeKey * Edge => pushed faces thr off (snd ke)) edges)
  = flat_map (fun ke : EdgeKey * Edge =>
                [g (JS.add (indexNumber (index1 (snd ke))) off);
                 g (JS.add (indexNumber (index2 (snd ke))) off)])
             (filter (fun ke => negb (skipped faces thr (snd ke))) edges).
Proof.
  induction edges as [|[k e] edges IH]; cbn [flat_map filter map]; [reflexivity|].
  cbn [snd]. unfold pushed at 1. destruct (skipped faces thr e); cbn [negb app map flat_map].
  - exact IH.
  - rewrite IH. reflexivity.
Qed.

Lemma flat_map_ext_in (A B : Type) (f g : A -> list B) l :
  (forall a, In a l -> f a = g a) -> flat_map f l = flat_map g l.
Proof.
  induction l as [|a l IH]; intros H; cbn [flat_map]; [reflexivity|].
  rewrite (H a (or_introl eq_refl)), IH; [reflexivity|].
  intros a' Ha'. apply H. right. exact Ha'.
Qed.

Lemma filter_keys_NoDup (A B : Type) (f : A * B -> bool) (l : list (A * B)) :
  NoDup (map fst l) -> NoDup (map fst (filter f l)).
Proof.
  induction l as [|[a b] l IH]; cbn [map filter fst]; intros H; [constructor|].
  inversion H as [|? ? Hnin Hnd]. subst.
  destruct (f (a, b)); cbn [map fst]; [|exact (IH Hnd)].
  constructor; [|exact (IH Hnd)].
  intros Hin. apply Hnin. apply in_map_iff in Hin. destruct Hin as ([a' b'] & E & Hin).
  cbn [fst] in E. subst a'. apply filter_In in Hin.
  change a with (fst (a, b')). apply in_map. apply Hin.
Qed.

Lemma map_NoDup_in (A B : Type) (h : A -> B) (l : list A) :
  (forall x y, In x l -> In y l -> h x = h y -> x = y) ->
  NoDup l -> NoDup (map h l).
Proof.
  induction l as [|a l IH]; intros Hinj Hnd; cbn [map]; [constructor|].
  inversion Hnd as [|? ? Hnin Hnd']. subst. constructor.
  - intros Hin. apply in_map_iff in Hin. destruct Hin as (y & Ey & Hy).
    assert (y = a) by (apply Hinj; [right; exact Hy | left; reflexivity | exact Ey]).
    subst y. contradiction.
  - apply IH; [|exact Hnd'].
    intros x y Hx Hy. apply Hinj; right; assumption.
Qed.

Lemma sides_ordered indices k f :
  (length indices mod 3 = 0)%nat ->
  In (k, f) (sides indices) ->
  exists x y, k = (Some x, Some y) /\ (x <= y)%Z.
Proof.
  intros Hmod Hin. unfold sides in Hin. apply in_flat_map in Hin.
  destruct Hin as (f0 & Hf0 & Hside). apply in_seq in Hf0.
  assert (Hlen : (f0 * 3 + 2 < length indices)%nat).
  { pose proof (Nat.div_mod_eq (length indices) 3). lia. }
  assert (Hkey : forall j, (j < 3)%nat ->
                           exists x y, sideKey indices f0 j = (Some x, Some y) /\ (x <= y)%Z).
  { intros j Hj. unfold sideKey.
    assert (Hj' : ((j + 1) mod 3 < 3)%nat) by (apply Nat.mod_upper_bound; discriminate).
    destruct (nth_error indices (f0 * 3 + j)) as [x|] eqn:Ex;
      [|apply nth_error_None in Ex; lia].
    destruct (nth_error indices (f0 * 3 + (j + 1) mod 3)) as [y|] eqn:Ey;
      [|apply nth_error_None in Ey; lia].
    cbn [minIndex maxIndex].
    exists (Z.min x y), (Z.max x y). split; [reflexivity | lia]. }
  destruct Hside as [H|[H|[H|[]]]]; injection H as <- _; apply Hkey; lia.
Qed.

Lemma collectEdges_entry_ordered indices key e :
  (length indices mod 3 = 0)%nat ->
  In (key, e) (collectEdges indices) ->
  exists x y, key = (Some x, Some y) /\ (x <= y)%Z.
Proof.
  intros Hmod Hin. apply (collectEdges_spec indices Hmod) in Hin.
  apply edgeRecord_indices in Hin. destruct Hin as (_ & _ & Hne).
  apply facesIn_nonempty in Hne. destruct Hne as (f & Hf).
  exact (@sides_ordered indices key f Hmod Hf).
Qed.

Section EdgeArray.

Variables sqrt cos : JS.num -> JS.num.
Variable DEGTORAD : JS.num.
Variable positions : Renderer.TypedArray.
Variable indices : list Z.
Variable positionsDecodeMatrix : option (list JS.num).
Variable q : Q.
Variable offset : Z.
Variable ghostEdgeThreshold : JS.num.

Hypothesis whole : (length indices mod 3 = 0)%nat.
Hypothesis integral : q == inject_Z offset.
Hypothesis inRange : Forall (fun x => (0 <= x /\ x + offset < 4294967296)%Z) indices.
Hypothesis nonNegative : (0 <= offset)%Z.

Let faces := buildFaces sqrt positions indices positionsDecodeMatrix.
Let thresholdDot := cos (JS.mul DEGTORAD ghostEdgeThreshold).
Let kept :=
  filter (fun ke : EdgeKey * Edge => negb (skipped faces thresholdDot (snd ke)))
         (collectEdges indices).
Let emitted := flat_map (fun ke : EdgeKey * Edge => movedEnds offset (fst ke)) kept.

(** The array [buildEdgesIndices] returns: the ends of the kept records,
    moved by the offset and not wrapped, in a [Uint32Array] when one of them
    is above 65535 and in a [Uint16Array] otherwise. *)
Lemma buildEdgesIndices_array :
  buildEdgesIndices sqrt cos DEGTORAD positions indices positionsDecodeMatrix (JS.Fin q)
                    ghostEdgeThreshold
  = if existsb (fun v => (65535 <? v)%Z) emitted
    then Renderer.Uint32Array emitted
    else Renderer.Uint16Array emitted.
Proof.
  unfold buildEdgesIndices. fold faces thresholdDot.
  rewrite keptEdges_spec.
  set (edges := collectEdges indices).
  set (lg := existsb (fun ke => large faces thresholdDot (JS.Fin q) (snd ke)) edges).
  assert (Hentry : forall k e, In (k, e) kept ->
             exists x y, k = (Some x, Some y) /\ In x indices /\ In y indices /\
                         index1 e = Some x /\ index2 e = Some y /\
                         skipped faces thresholdDot e = false).
  { intros k e Hin. apply filter_In in Hin. destruct Hin as (Hin & Hs).
    cbn [snd] in Hs. apply negb_true_iff in Hs.
    destruct (collectEdges_entry indices k e whole Hin) as (x & y & Hk & Hx & Hy & E1 & E2).
    exists x, y. repeat split; assumption. }
  assert (Hlg : lg = existsb (fun v => (65535 <? v)%Z) emitted).
  { unfold lg, emitted, kept. fold edges.
    clear Hentry.
    assert (Hall : forall k e, In (k, e) edges ->
               exists x y, k = (Some x, Some y) /\ index1 e = Some x /\ index2 e = Some y).
    { intros k e Hin.
      destruct (collectEdges_entry indices k e whole Hin) as (x & y & Hk & _ & _ & E1 & E2).
      exists x, y. repeat split; assumption. }
    induction edges as [|[k e] edges' IH]; [reflexivity|].
    cbn [existsb filter snd flat_map].
    destruct (Hall k e (or_introl eq_refl)) as (x & y & -> & E1 & E2).
    rewrite IH by (intros k' e' Hin; apply Hall; right; exact Hin).
    unfold large at 1. rewrite E1, E2.
    cbn [indexNumber JS.of_Z JS.add]. rewrite !(gt_offset _ integral).
    destruct (skipped faces thresholdDot e); cbn [negb andb orb flat_map]; [reflexivity|].
    unfold movedEnds. cbn [fst snd app existsb]. rewrite orb_assoc. reflexivity. }
  assert (Hout : forall g : JS.num -> Z,
             (forall x, In x indices -> In (x + offset)%Z emitted ->
                        g (JS.Fin (inject_Z x + q)) = (x + offset)%Z) ->
             map g (flat_map (fun ke : EdgeKey * Edge =>
                                pushed faces thresholdDot (JS.Fin q) (snd ke)) edges)
             = emitted).
  { intros g Hg. rewrite map_pushed. fold kept. unfold emitted.
    apply flat_map_ext_in. intros [k e] Hin.
    destruct (Hentry k e Hin) as (x & y & -> & Hx & Hy & E1 & E2 & _).
    cbn [snd fst]. rewrite E1, E2. cbn [indexNumber JS.of_Z JS.add]. unfold movedEnds.
    cbn [fst snd].
    assert (Hem : forall v, In v (movedEnds offset (Some x, Some y)) -> In v emitted).
    { intros v Hv. unfold emitted. apply in_flat_map.
      exists (Some x, Some y, e). split; assumption. }
    rewrite (Hg x Hx), (Hg y Hy); [reflexivity | |];
      apply Hem; unfold movedEnds; cbn; auto. }
  rewrite <- Hlg.
  assert (Hin32 : forall x, In x indices -> ((x + offset) mod 4294967296 = x + offset)%Z).
  { intros x Hx. rewrite Forall_forall in inRange. specialize (inRange x Hx).
    apply Z.mod_small. lia. }
  destruct lg eqn:Elg; f_equal; apply Hout.
  - intros x Hx _. unfold JS.toUint32. rewrite (trunc_offset _ integral). apply Hin32, Hx.
  - intros x Hx Hem. unfold JS.toUint16. rewrite (trunc_offset _ integral).
    symmetry in Hlg.
    assert (Hle : (x + offset <= 65535)%Z).
    { destruct (Z.ltb_spec 65535 (x + offset)) as [Hgt|Hle]; [|exact Hle].
      assert (Hex : existsb (fun v => (65535 <? v)%Z) emitted = true).
      { apply existsb_exists. exists (x + offset)%Z. split; [exact Hem|].
        apply Z.ltb_lt. exact Hgt. }
      congruence. }
    rewrite Forall_forall in inRange. pose proof (inRange x Hx).
    apply Z.mod_small. lia.
Qed.

Lemma emitted_from_indices v :
  In v emitted -> exists x, In x indices /\ v = (x + offset)%Z.
Proof.
  unfold emitted. intros Hin. apply in_flat_map in Hin.
  destruct Hin as ([k e] & Hk & Hv). unfold kept in Hk. apply filter_In in Hk.
  destruct Hk as (Hk & _).
  destruct (collectEdges_entry indices k e whole Hk) as (x & y & -> & Hx & Hy & _).
  unfold movedEnds in Hv. cbn [fst snd In] in Hv.
  destruct Hv as [<-|[<-|[]]]; eauto.
Qed.

Lemma pairs_emitted :
  pairs emitted = map (fun ke : EdgeKey * Edge =>
                         (match fst (fst ke) with Some x => x + offset | None => 0 end,
                          match snd (fst ke) with Some y => y + offset | None => 0 end)%Z)
                      kept.
Proof.
  unfold emitted. induction kept as [|ke l IH]; [reflexivity|].
  cbn [flat_map map]. unfold movedEnds at 1. cbn [app pairs]. rewrite IH. reflexivity.
Qed.

Lemma kept_keys_NoDup : NoDup (map fst kept).
Proof.
  unfold kept. apply filter_keys_NoDup. apply (collectEdges_spec indices whole).
Qed.

Lemma kept_entry k e :
  In (k, e) kept -> exists x y, k = (Some x, Some y) /\ (x <= y)%Z.
Proof.
  unfold kept. intros Hin. apply filter_In in Hin.
  exact (collectEdges_entry_ordered indices k e whole (proj1 Hin)).
Qed.

Lemma pairs_emitted_NoDup : NoDup (pairs emitted).
Proof.
  rewrite pairs_emitted.
  rewrite <- (map_map fst (fun k : EdgeKey =>
                (match fst k with Some x => x + offset | None => 0 end,
                 match snd k with Some y => y + offset | None => 0 end)%Z)).
  apply map_NoDup_in; [|apply kept_keys_NoDup].
  intros k k' Hk Hk' E.
  apply in_map_iff in Hk, Hk'.
  destruct Hk as ([k0 e] & E0 & Hk). destruct Hk' as ([k1 e'] & E1 & Hk').
  cbn [fst] in E0, E1. subst k0 k1.
  destruct (kept_entry k e Hk) as (x & y & -> & _).
  destruct (kept_entry k' e' Hk') as (x' & y' & -> & _).
  cbn [fst snd] in E. injection E as Ex Ey. f_equal; f_equal; lia.
Qed.

Lemma pairs_emitted_ordered a b :
  In (a, b) (pairs emitted) -> (a <= b)%Z.
Proof.
  rewrite pairs_emitted. intros Hin. apply in_map_iff in Hin.
  destruct Hin as ([k e] & E & Hk).
  destruct (kept_entry k e Hk) as (x & y & -> & Hle).
  cbn [fst snd] in E. injection E as <- <-. lia.
Qed.

End EdgeArray.

(** X4. For a mesh of whole triangles whose indices, moved by the integer
    offset, fit 32 bits, [buildEdgesIndices] emits every edge at most once,
    the smaller end first; every number it emits is an index of the mesh
    moved by the offset (none is wrapped by the typed array), and they come
    in pairs. *)
Theorem buildEdgesIndices_emits_each_edge_once :
  forall (sqrt cos : JS.num -> JS.num) (DEGTORAD : JS.num)
         (positions : Renderer.TypedArray) (indices : list Z)
         (positionsDecodeMatrix : option (list JS.num))
         (q : Q) (offset : Z) (ghostEdgeThreshold : JS.num),
    (length indices mod 3 = 0)%nat ->
    q == inject_Z offset ->
    Forall (fun x => (0 <= x /\ x + offset < 4294967296)%Z) indices ->
    (0 <= offset)%Z ->
    let edgesIndices :=
      buildEdgesIndices sqrt cos DEGTORAD positions indices positionsDecodeMatrix
                        (JS.Fin q) ghostEdgeThreshold in
    NoDup (pairs (Renderer.integers edgesIndices)) /\
    (forall a b, In (a, b) (pairs (Renderer.integers edgesIndices)) -> (a <= b)%Z) /\
    (forall v, In v (Renderer.integers edgesIndices) ->
               exists x, In x indices /\ v = (x + offset)%Z) /\
    length (Renderer.integers edgesIndices)
    = (2 * length (pairs (Renderer.integers edgesIndices)))%nat.
Proof.
  intros sqrt cos DEGTORAD positions indices positionsDecodeMatrix q offset
         ghostEdgeThreshold Hwhole Hint Hrange Hoff edgesIndices.
  pose proof (@buildEdgesIndices_array sqrt cos DEGTORAD positions indices
                positionsDecodeMatrix q offset ghostEdgeThreshold Hwhole Hint Hrange Hoff)
    as Harr.
  fold edgesIndices in Harr.
  set (emitted := flat_map _ _) in Harr.
  assert (Hi : Renderer.integers edgesIndices = emitted).
  { rewrite Harr. destruct (existsb _ emitted); reflexivity. }
  rewrite Hi. split; [|split; [|split]].
  - apply (@pairs_emitted_NoDup sqrt cos DEGTORAD positions indices positionsDecodeMatrix
             offset ghostEdgeThreshold Hwhole).
  - apply (@pairs_emitted_ordered sqrt cos DEGTORAD positions indices positionsDecodeMatrix
             offset ghostEdgeThreshold Hwhole).
  - apply (@emitted_from_indices sqrt cos DEGTORAD positions indices positionsDecodeMatrix
             offset ghostEdgeThreshold Hwhole).
  - unfold emitted.
    rewrite (@pairs_emitted sqrt cos DEGTORAD positions indices positionsDecodeMatrix
               offset ghostEdgeThreshold).
    rewrite length_map.
    match goal with |- context [flat_map _ ?l] => generalize l end.
    intros l. induction l as [|ke l IH]; [reflexivity|].
    cbn [flat_map length app movedEnds]. rewrite IH. lia.
Qed.

Lemma square_emits_each_edge_once :
  let edgesIndices :=
    buildEdgesIndices newton_sqrt taylor_cos DEGTORAD_approx
                      (Renderer.Float32Array squarePositions) squareIndices None
                      (JS.Fin 10) (JS.Fin 2) in
  NoDup (pairs (Renderer.integers edgesIndices)) /\
  (forall a b, In (a, b) (pairs (Renderer.integers edgesIndices)) -> (a <= b)%Z) /\
  (forall v, In v (Renderer.integers edgesIndices) ->
             exists x, In x squareIndices /\ v = (x + 10)%Z) /\
  length (Renderer.integers edgesIndices)
  = (2 * length (pairs (Renderer.integers edgesIndices)))%nat.
Proof.
  apply (@buildEdgesIndices_emits_each_edge_once newton_sqrt taylor_cos DEGTORAD_approx
           (Renderer.Float32Array squarePositions) squareIndices None 10 10%Z (JS.Fin 2)).
  - reflexivity.
  - reflexivity.
  - unfold squareIndices. repeat (apply Forall_cons; [lia|]). apply Forall_nil.
  - lia.
Defined.

(** X5. Under the same conditions the array [buildEdgesIndices] returns is
    a [Uint32Array] exactly when one of the emitted indices is above 65535,
    and a [Uint16Array] exactly when none is. *)
Theorem buildEdgesIndices_index_width :
  forall (sqrt cos : JS.num -> JS.num) (DEGTORAD : JS.num)
         (positions : Renderer.TypedArray) (indices : list Z)
         (positionsDecodeMatrix : option (list JS.num))
         (q : Q) (offset : Z) (ghostEdgeThreshold : JS.num),
    (length indices mod 3 = 0)%nat ->
    q == inject_Z offset ->
    Forall (fun x => (0 <= x /\ x + offset < 4294967296)%Z) indices ->
    (0 <= offset)%Z ->
    let edgesIndices :=
      buildEdgesIndices sqrt cos DEGTORAD positions indices positionsDecodeMatrix
                        (JS.Fin q) ghostEdgeThreshold in
    (edgesIndices = Renderer.Uint32Array (Renderer.integers edgesIndices)
     <-> Exists (fun v => (65535 < v)%Z) (Renderer.integers edgesIndices)) /\
    (edgesIndices = Renderer.Uint16Array (Renderer.integers edgesIndices)
     <-> Forall (fun v => (v <= 65535)%Z) (Renderer.integers edgesIndices)).
Proof.
  intros sqrt cos DEGTORAD positions indices positionsDecodeMatrix q offset
         ghostEdgeThreshold Hwhole Hint Hrange Hoff edgesIndices.
  pose proof (@buildEdgesIndices_array sqrt cos DEGTORAD positions indices
                positionsDecodeMatrix q offset ghostEdgeThreshold Hwhole Hint Hrange Hoff)
    as Harr.
  fold edgesIndices in Harr.
  set (emitted := flat_map _ _) in Harr.
  destruct (existsb (fun v => (65535 <? v)%Z) emitted) eqn:Ex; rewrite Harr;
    cbn [Renderer.integers].
  - apply existsb_exists in Ex. destruct Ex as (v & Hv & Hgt). apply Z.ltb_lt in Hgt.
    split; split.
    + intros _. apply Exists_exists. exists v. split; assumption.
    + reflexivity.
    + discriminate.
    + intros Hall. rewrite Forall_forall in Hall. specialize (Hall v Hv). lia.
  - assert (Hall : Forall (fun v => (v <= 65535)%Z) emitted).
    { apply Forall_forall. intros v Hv.
      destruct (Z.ltb_spec 65535 v) as [Hgt|Hle]; [|exact Hle].
      assert (existsb (fun v => (65535 <? v)%Z) emitted = true).
      { apply existsb_exists. exists v. split; [exact Hv | apply Z.ltb_lt; exact Hgt]. }
      congruence. }
    split; split.
    + discriminate.
    + intros Hex. apply Exists_exists in Hex. destruct Hex as (v & Hv & Hgt).
      rewrite Forall_forall in Hall. specialize (Hall v Hv). lia.
    + intros _. exact Hall.
    + reflexivity.
Qed.

Lemma square_index_width_follows_offset :
  let narrow :=
    buildEdgesIndices newton_sqrt taylor_cos DEGTORAD_approx
                      (Renderer.Float32Array squarePositions) squareIndices None
                      (JS.Fin 10) (JS.Fin 2) in
  let wide :=
    buildEdgesIndices newton_sqrt taylor_cos DEGTORAD_approx
                      (Renderer.Float32Array squarePositions) squareIndices None
                      (JS.Fin 65534) (JS.Fin 2) in
  narrow = Renderer.Uint16Array (Renderer.integers narrow) /\
  wide = Renderer.Uint32Array (Renderer.integers wide).
Proof.
  intros narrow wide.
  assert (Hrange : forall o, (0 <= o < 100000)%Z ->
             Forall (fun x => (0 <= x /\ x + o < 4294967296)%Z) squareIndices).
  { intros o Ho. unfold squareIndices.
    repeat (apply Forall_cons; [lia|]). apply Forall_nil. }
  assert (En : Renderer.integers narrow = [10; 11; 10; 12; 11; 13; 12; 13]%Z)
    by (vm_compute; reflexivity).
  assert (Ew : Renderer.integers wide
               = [65534; 65535; 65534; 65536; 65535; 65537; 65536; 65537]%Z)
    by (vm_compute; reflexivity).
  split.
  - apply (proj2 (@buildEdgesIndices_index_width newton_sqrt taylor_cos DEGTORAD_approx
             (Renderer.Float32Array squarePositions) squareIndices None 10 10%Z (JS.Fin 2)
             eq_refl (Qeq_refl 10) (Hrange 10%Z ltac:(lia)) ltac:(lia))).
    fold narrow. rewrite En.
    repeat (apply Forall_cons; [lia|]). apply Forall_nil.
  - apply (proj1 (@buildEdgesIndices_index_width newton_sqrt taylor_cos DEGTORAD_approx
             (Renderer.Float32Array squarePositions) squareIndices None 65534 65534%Z
             (JS.Fin 2) eq_refl (Qeq_refl 65534) (Hrange 65534%Z ltac:(lia)) ltac:(lia))).
    fold wide. rewrite Ew.
    do 3 apply Exists_cons_tl. apply Exists_cons_hd. lia.
Defined.

Lemma movedEnds_shift (l : list (EdgeKey * Edge)) (offset : Z) :
  (forall k e, In (k, e) l -> exists x y, k = (Some x, Some y) /\ (x <= y)%Z) ->
  flat_map (fun ke : EdgeKey * Edge => movedEnds offset (fst ke)) l
  = map (fun v => (v + offset)%Z)
        (flat_map (fun ke : EdgeKey * Edge => movedEnds 0 (fst ke)) l).
Proof.
  induction l as [|[k e] l IH]; intros H; [reflexivity|].
  cbn [flat_map map]. rewrite map_app, <- IH by (intros k' e' Hin; apply (H k' e'); right; exact Hin).
  f_equal. destruct (H k e (or_introl eq_refl)) as (x & y & -> & _).
  unfold movedEnds. cbn [fst snd map]. rewrite !Z.add_0_r. reflexivity.
Qed.

(** X6. Under the same conditions the offset only moves the indices: the
    array built with an offset holds the numbers of the array built with
    offset 0, each moved by the offset, in the same order. *)
Theorem buildEdgesIndices_offset_moves_indices :
  forall (sqrt cos : JS.num -> JS.num) (DEGTORAD : JS.num)
         (positions : Renderer.TypedArray) (indices : list Z)
         (positionsDecodeMatrix : option (list JS.num))
         (q : Q) (offset : Z) (ghostEdgeThreshold : JS.num),
    (length indices mod 3 = 0)%nat ->
    q == inject_Z offset ->
    Forall (fun x => (0 <= x /\ x + offset < 4294967296)%Z) indices ->
    (0 <= offset)%Z ->
    Renderer.integers
      (buildEdgesIndices sqrt cos DEGTORAD positions indices positionsDecodeMatrix
                         (JS.Fin q) ghostEdgeThreshold)
    = map (fun v => (v + offset)%Z)
          (Renderer.integers
             (buildEdgesIndices sqrt cos DEGTORAD positions indices positionsDecodeMatrix
                                (JS.Fin 0) ghostEdgeThreshold)).
Proof.
  intros sqrt cos DEGTORAD positions indices positionsDecodeMatrix q offset
         ghostEdgeThreshold Hwhole Hint Hrange Hoff.
  assert (Hrange0 : Forall (fun x => (0 <= x /\ x + 0 < 4294967296)%Z) indices).
  { rewrite Forall_forall in *. intros x Hx. specialize (Hrange x Hx). lia. }
  rewrite (@buildEdgesIndices_array sqrt cos DEGTORAD positions indices
             positionsDecodeMatrix q offset ghostEdgeThreshold Hwhole Hint Hrange Hoff).
  rewrite (@buildEdgesIndices_array sqrt cos DEGTORAD positions indices
             positionsDecodeMatrix 0 0%Z ghostEdgeThreshold Hwhole (Qeq_refl 0) Hrange0
             (Z.le_refl 0)).
  set (kept := filter _ (collectEdges indices)).
  assert (E : flat_map (fun ke : EdgeKey * Edge => movedEnds offset (fst ke)) kept
              = map (fun v => (v + offset)%Z)
                    (flat_map (fun ke : EdgeKey * Edge => movedEnds 0 (fst ke)) kept)).
  { apply movedEnds_shift. intros k e Hin.
    exact (@kept_entry sqrt cos DEGTORAD positions indices positionsDecodeMatrix
             ghostEdgeThreshold Hwhole k e Hin). }
  rewrite E.
  destruct (existsb _ (map _ _)), (existsb _ (flat_map _ kept)); reflexivity.
Qed.

Lemma square_offset_moves_indices :
  Renderer.integers
    (buildEdgesIndices newton_sqrt taylor_cos DEGTORAD_approx
                       (Renderer.Float32Array squarePositions) squareIndices None
                       (JS.Fin 65534) (JS.Fin 2))
  = map (fun v => (v + 65534)%Z)
        (Renderer.integers
           (buildEdgesIndices newton_sqrt taylor_cos DEGTORAD_approx
                              (Renderer.Float32Array squarePositions) squareIndices None
                              (JS.Fin 0) (JS.Fin 2))).
Proof.
  apply (@buildEdgesIndices_offset_moves_indices newton_sqrt taylor_cos DEGTORAD_approx
           (Renderer.Float32Array squarePositions) squareIndices None 65534 65534%Z
           (JS.Fin 2)).
  - reflexivity.
  - reflexivity.
  - unfold squareIndices. repeat (apply Forall_cons; [lia|]). apply Forall_nil.
  - lia.
Defined.

Lemma nth_error_set_same (A : Type) (l : list A) i x :
  (i < length l)%nat -> nth_error (JS.set l i x) i = Some x.
Proof.
  revert i; induction l as [|h t IH]; intros [|i] H; simpl in *; try lia; auto.
  apply IH; lia.
Qed.

Lemma nth_error_set_other (A : Type) (l : list A) i j x :
  i <> j -> nth_error (JS.set l i x) j = nth_error l j.
Proof.
  revert i j; induction l as [|h t IH]; intros [|i] [|j] H; simpl; auto; try congruence.
Qed.

Lemma window_app_l (A : Type) (l r : list A) start len :
  (start + len <= length l)%nat -> window (l ++ r) start len = window l start len.
Proof.
  intros H. unfold window. rewrite skipn_app, firstn_app, length_skipn.
  replace (len - (length l - start))%nat with 0%nat by lia.
  rewrite firstn_O, app_nil_r. reflexivity.
Qed.

Lemma window_app_r (A : Type) (l r : list A) :
  window (l ++ r) (length l) (length r) = r.
Proof.
  unfold window. rewrite skipn_app, skipn_all, Nat.sub_diag. cbn [skipn app].
  apply firstn_all.
Qed.

Lemma stored_app q a b : stored q (a ++ b) = stored q a ++ stored q b.
Proof. unfold stored. destruct q; [apply map_app | reflexivity]. Qed.

Lemma stored_length q a : length (stored q a) = length a.
Proof. unfold stored. destruct q; [apply length_map | reflexivity]. Qed.

Section PoolLayout.

Import SceneVertexBufs.

Variable big : bool.

(** [createBufs] puts the positions pushed so far in the positions buffer of
    the buffer set it is given, and leaves the other buffer sets alone. *)
Lemma createBufs_chunks e p n :
  hasPositions p = true ->
  (n < length (chunks p))%nat ->
  let '(e', p') := createBufs e p n in
  chunkPositions p' n = Some (stored (quantized p) (positions p)) /\
  (forall m, m <> n -> nth_error (chunks p') m = nth_error (chunks p) m).
Proof.
  intros Hhp Hn. unfold createBufs. rewrite Hhp.
  destruct (hasNormals p) eqn:Fn, (hasColors p) eqn:Fc, (hasUVs p) eqn:Fu;
    cbn; rewrite ?Fn, ?Fc, ?Fu; cbn; rewrite ?Fn, ?Fc, ?Fu; cbn;
    rewrite ?Fn, ?Fc, ?Fu; cbn;
    (split; [unfold chunkPositions; cbn; rewrite nth_error_set_same by assumption; cbn;
             unfold stored; destruct (quantized p); cbn; rewrite ?map_map; reflexivity
            | intros m Hm; apply nth_error_set_other; congruence]).
Qed.

(** The buffer sets after one iteration of the loop of [build]: a new one
    is added when the geometry needs it, after the open one has been given
    its buffers. *)
Lemma build_step_chunks e p off id g gp e' p' off' :
  JS.lookup (geometries p) id = Some g ->
  Renderer.positions g = Some gp ->
  hasPositions p = true ->
  (forall n, vertexBufs p = Some n -> (n < length (chunks p))%nat) ->
  build_step big (e, p, off) id = JS.Normal (e', p', off') ->
  length (chunks p')
  = (if needNew big p gp then S (length (chunks p)) else length (chunks p)) /\
  (forall m, (m < length (chunks p))%nat ->
             chunkPositions p' m
             = if needNew big p gp then view p m else chunkPositions p m).
Proof.
  intros Hg Hp Hhp Hopen H. unfold build_step in H. rewrite Hg, Hp in H.
  set (opened := if needNew big p gp then _ else _) in H.
  assert (Ho : exists e1 p1 o1,
             opened = (e1, p1, o1) /\
             length (chunks p1)
             = (if needNew big p gp then S (length (chunks p)) else length (chunks p)) /\
             (forall m, (m < length (chunks p))%nat ->
                        chunkPositions p1 m
                        = if needNew big p gp then view p m else chunkPositions p m)).
  { unfold opened. destruct (needNew big p gp) eqn:Enew.
    - destruct (vertexBufs p) as [n|] eqn:Evb.
      + specialize (Hopen n eq_refl).
        pose proof (@createBufs_chunks e p n Hhp Hopen) as Hc.
        pose proof (createBufs_spec e p n) as Hs.
        destruct (createBufs e p n) as [e1 p1].
        destruct Hc as (Hn & Hother). destruct Hs as (_ & _ & _ & _ & _ & _ & L & _).
        do 3 eexists. split; [reflexivity|]. cbn. rewrite length_app, L. cbn.
        split; [lia|]. intros m Hm. unfold view. rewrite Evb.
        destruct (Nat.eqb_spec n m) as [<-|Hne].
        * rewrite <- Hn. unfold chunkPositions. cbn.
          rewrite nth_error_app1 by lia. reflexivity.
        * unfold chunkPositions. cbn. rewrite nth_error_app1 by lia.
          rewrite (Hother m) by congruence. reflexivity.
      + do 3 eexists. split; [reflexivity|]. cbn. rewrite length_app. cbn.
        split; [lia|]. intros m Hm. unfold view. rewrite Evb.
        unfold chunkPositions. cbn. rewrite nth_error_app1 by lia. reflexivity.
    - do 3 eexists. split; [reflexivity|]. split; [reflexivity|]. reflexivity. }
  destruct Ho as (e1 & p1 & o1 & -> & L & C). cbn iota beta in H.
  assert (Hchunks : chunks p' = chunks p1).
  { destruct (vertexBufs p1);
      repeat match type of H with
             | JS.bind ?c _ = _ => destruct c; cbn [JS.bind] in H; [|discriminate H]
             | context [let '(_, _) := ?c in _] => destruct c
             end;
      injection H as _ <- _; reflexivity. }
  unfold chunkPositions in *. rewrite Hchunks. split; assumption.
Qed.




End PoolLayout.

(** ** Enumeration of an object *)

Lemma In_insert_index n x l : In x (JS.insert_index n l) <-> x = n \/ In x l.
Proof.
  induction l as [|m l IH]; cbn [JS.insert_index In]; [intuition|].
  destruct (n <=? m)%N; cbn [In]; [intuition|]. rewrite IH. intuition.
Qed.

Lemma NoDup_insert_index n l : ~ In n l -> NoDup l -> NoDup (JS.insert_index n l).
Proof.
  induction l as [|m l IH]; cbn [JS.insert_index]; intros Hn Hnd.
  - repeat constructor. intros [].
  - destruct (n <=? m)%N; [constructor; assumption|].
    inversion Hnd as [|? ? Hm Hl]. subst. constructor.
    + rewrite In_insert_index. intros [->|H]; [apply Hn; left; reflexivity | contradiction].
    + apply IH; [|exact Hl]. intros H. apply Hn. right. exact H.
Qed.

Lemma In_index_keys (V : Type) (o : JS.obj V) n :
  In n (JS.index_keys o) <-> In (JS.Idx n) (map fst o).
Proof.
  unfold JS.index_keys. induction o as [|[k v] o IH]; cbn [fold_right map fst In]; [tauto|].
  destruct k as [m|s]; cbn [fst].
  - rewrite In_insert_index, IH. split.
    + intros [->|H]; [left; reflexivity | right; exact H].
    + intros [H|H]; [left; congruence | right; exact H].
  - rewrite IH. split; [intros H; right; exact H | intros [H|H]; [discriminate H | exact H]].
Qed.

Lemma In_keys (V : Type) (o : JS.obj V) k : In k (JS.keys o) <-> In k (map fst o).
Proof.
  unfold JS.keys, JS.string_keys. rewrite in_app_iff, in_map_iff, filter_In. split.
  - intros [(n & <- & Hn)|[H _]]; [apply In_index_keys; exact Hn | exact H].
  - intros H. destruct k as [n|s].
    + left. exists n. split; [reflexivity | apply In_index_keys; exact H].
    + right. split; [exact H | reflexivity].
Qed.

Lemma NoDup_keys (V : Type) (o : JS.obj V) : NoDup (map fst o) -> NoDup (JS.keys o).
Proof.
  intros Hnd. unfold JS.keys. apply NoDup_app.
  - apply map_NoDup_in; [intros x y _ _ E; congruence|].
    unfold JS.index_keys. induction o as [|[k v] o IH]; cbn [fold_right]; [constructor|].
    cbn [map fst] in Hnd. inversion Hnd as [|? ? Hk Ho]. subst.
    destruct k as [n|s]; cbn [fst]; [|exact (IH Ho)].
    apply NoDup_insert_index; [|exact (IH Ho)].
    intros H. apply Hk. apply In_index_keys. exact H.
  - unfold JS.string_keys. apply NoDup_filter. exact Hnd.
  - intros k Hk Hs. apply in_map_iff in Hk. destruct Hk as (n & <- & _).
    unfold JS.string_keys in Hs. apply filter_In in Hs. destruct Hs as [_ Hs]. discriminate Hs.
Qed.

Lemma lookup_In (V : Type) (o : JS.obj V) k :
  In k (map fst o) <-> exists v, JS.lookup o k = Some v.
Proof.
  induction o as [|[k0 v0] o IH]; cbn [map fst In JS.lookup].
  - split; [intros [] | intros (v & H); discriminate H].
  - destruct (JS.key_eqb k0 k) eqn:E.
    + apply key_eqb_eq in E. subst k0. split; [eauto | intros _; left; reflexivity].
    + rewrite IH. split; [intros [H|H]; [|exact H] | intros H; right; exact H].
      subst k0. rewrite key_eqb_refl in E. discriminate E.
Qed.

Lemma lookup_delete (V : Type) (o : JS.obj V) k k' :
  JS.lookup (JS.delete o k) k' = if JS.key_eqb k k' then None else JS.lookup o k'.
Proof.
  unfold JS.delete. induction o as [|[k0 v0] o IH]; cbn [filter JS.lookup fst].
  - destruct (JS.key_eqb k k'); reflexivity.
  - destruct (JS.key_eqb k0 k) eqn:E0; cbn [negb JS.lookup].
    + apply key_eqb_eq in E0. subst k0. rewrite IH.
      destruct (JS.key_eqb k k'); reflexivity.
    + rewrite IH. destruct (JS.key_eqb k0 k') eqn:E1; [|reflexivity].
      apply key_eqb_eq in E1. subst k0.
      destruct (JS.key_eqb k k') eqn:E2; [|reflexivity].
      apply key_eqb_eq in E2. subst k. rewrite key_eqb_refl in E0. discriminate E0.
Qed.

Lemma delete_keys_NoDup (V : Type) (o : JS.obj V) k :
  NoDup (map fst o) -> NoDup (map fst (JS.delete o k)).
Proof. apply filter_keys_NoDup. Qed.

Lemma assign_keys_NoDup (V : Type) (o : JS.obj V) k v :
  NoDup (map fst o) -> NoDup (map fst (JS.assign o k v)).
Proof.
  intros Hnd. destruct (JS.has o k) eqn:Eh.
  - rewrite assign_fst_has by exact Eh. exact Hnd.
  - rewrite assign_fst_new by exact Eh. apply NoDup_app; [exact Hnd | repeat constructor; intros [] |].
    intros x Hx [<-|[]]. apply lookup_In in Hx. destruct Hx as (w & Hw).
    unfold JS.has in Eh. rewrite Hw in Eh. discriminate Eh.
Qed.

Lemma In_assign_keys (V : Type) (o : JS.obj V) k v k' :
  In k' (map fst (JS.assign o k v)) <-> k' = k \/ In k' (map fst o).
Proof.
  destruct (JS.has o k) eqn:Eh.
  - rewrite assign_fst_has by exact Eh. split; [intros H; right; exact H|].
    intros [->|H]; [|exact H]. apply lookup_In. unfold JS.has in Eh.
    destruct (JS.lookup o k) as [w|]; [eauto | discriminate Eh].
  - rewrite assign_fst_new by exact Eh. rewrite in_app_iff. cbn [In]. intuition.
Qed.

(** ** Consistency of the pool *)

Section PoolConsistency.

Import SceneVertexBufs.

Variable big : bool.

Lemma wellRegistered_other p p1 id g' rest :
  geometries p1 = JS.assign (geometries p) id g' ->
  hasNormals p1 = hasNormals p -> hasColors p1 = hasColors p -> hasUVs p1 = hasUVs p ->
  ~ In id rest ->
  Forall (wellRegistered p) rest -> Forall (wellRegistered p1) rest.
Proof.
  intros G Fn Fc Fu Hnin Hall. rewrite Forall_forall in *. intros id' Hin.
  destruct (Hall id' Hin) as (g0 & gp & gi & Hg & Hp & Hi & Hs).
  exists g0, gp, gi. rewrite G, lookup_assign_other by (intros ->; contradiction).
  unfold matchesSignature in *. rewrite Fn, Fc, Fu. repeat split; try assumption; apply Hs.
Qed.

(** The loop of [build] gives every geometry it visits a chunk. *)
Lemma build_loop_refs :
  forall ids e p off e' p' off',
    NoDup ids ->
    Forall (wellRegistered p) ids ->
    build_loop big ids (e, p, off) = JS.Normal (e', p', off') ->
    (forall id, In id ids ->
                exists n, JS.lookup (geometryVertexBufs p') id = Some (Renderer.Chunk n)) /\
    (forall id, ~ In id ids ->
                JS.lookup (geometryVertexBufs p') id = JS.lookup (geometryVertexBufs p) id).
Proof.
  induction ids as [|id rest IH]; intros e p off e' p' off' Hnd Hall Hloop.
  - cbn in Hloop. injection Hloop as <- <- <-. split; [intros id [] | reflexivity].
  - inversion Hnd as [|? ? Hnotin Hnd']. subst.
    inversion Hall as [|? ? Hid Hrest]. subst.
    destruct Hid as (g & gp & gi & Hg & Hp & Hi & Hsig).
    destruct (@build_step_spec big e p off id g gp gi Hg Hp Hi Hsig)
      as (e1 & p1 & buf & Hstep & _ & V1 & _ & G1 & _ & _ & _ & F1 & _).
    destruct F1 as (_ & Fn1 & Fc1 & Fu1 & _).
    cbn [build_loop] in Hloop. rewrite Hstep in Hloop. cbn [JS.bind] in Hloop.
    destruct (IH _ _ _ _ _ _ Hnd' (@wellRegistered_other p p1 id _ rest G1 Fn1 Fc1 Fu1 Hnotin Hrest) Hloop)
      as (Hin & Hout).
    split.
    + intros id' [<-|Hin']; [|exact (Hin id' Hin')].
      rewrite (Hout id Hnotin), V1, lookup_assign_same. eauto.
    + intros id' Hnin. cbn [In] in Hnin.
      rewrite (Hout id' ltac:(tauto)), V1. apply lookup_assign_other. tauto.
Qed.

Lemma view_in_range p off m l :
  betweenSteps p off -> view p m = Some l -> (m < length (chunks p))%nat.
Proof.
  unfold betweenSteps, view, chunkPositions. intros Hb Hv.
  destruct (vertexBufs p) as [n|].
  - destruct (Nat.eqb_spec n m) as [<-|_]; [apply Hb|].
    apply nth_error_Some. destruct (nth_error (chunks p) m); [discriminate | discriminate Hv].
  - apply nth_error_Some. destruct (nth_error (chunks p) m); [discriminate | discriminate Hv].
Qed.

Lemma elementOffset_counted p id q n :
  JS.lookup (geometryIndicesOffsets p) id = Some (JS.Fin q) ->
  q * 3 == inject_Z (Z.of_nat n) ->
  elementOffset p id 3 = n.
Proof.
  intros Ho Hq. unfold elementOffset. rewrite Ho.
  rewrite (Qfloor_comp _ _ Hq), Qfloor_Z. apply Nat2Z.id.
Qed.

(** One iteration of the loop of [build] lays the geometry out behind the
    positions pushed for the open buffer set, or at the start of a new one,
    and moves none of the geometries laid out before. *)
Lemma build_step_layout e p off id g gp gi e' p' off' :
  JS.lookup (geometries p) id = Some g ->
  Renderer.positions g = Some gp ->
  Renderer.indices g = Some gi ->
  matchesSignature p g ->
  hasPositions p = true ->
  betweenSteps p off ->
  build_step big (e, p, off) id = JS.Normal (e', p', off') ->
  betweenSteps p' off' /\
  laidOutIn p' (view p') id /\
  (forall id', id' <> id -> laidOutIn p (view p) id' -> laidOutIn p' (view p') id').
Proof.
  intros Hg Hp Hi Hsig Hhp Hb H.
  assert (Hopen : forall n, vertexBufs p = Some n -> (n < length (chunks p))%nat).
  { intros n Hn. unfold betweenSteps in Hb. rewrite Hn in Hb. apply Hb. }
  destruct (@build_step_chunks big e p off id g gp e' p' off' Hg Hp Hhp Hopen H) as (L & C).
  destruct (@build_step_spec big e p off id g gp gi Hg Hp Hi Hsig)
    as (e1 & p1 & buf & Hstep & O1 & V1 & B1 & G1 & _ & _ & P1 & F1 & _).
  rewrite H in Hstep. injection Hstep as <- <- Hoff'.
  destruct F1 as (_ & _ & _ & _ & Fq).
  (* the positions pushed before the geometry's in its buffer set *)
  set (base := if needNew big p gp then [] else positions p).
  assert (Hpos : positions p' = base ++ Renderer.numbers gp).
  { rewrite P1. unfold stepPositions, base. rewrite Hhp.
    unfold betweenSteps in Hb. rewrite needNew_spec.
    destruct (vertexBufs p); [reflexivity|]. cbn. rewrite Hb. reflexivity. }
  assert (Hq : exists qb, stepOffset big p off gp = JS.Fin qb /\
                          qb * 3 == inject_Z (Z.of_nat (length base))).
  { unfold stepOffset, base. destruct (needNew big p gp) eqn:En.
    - exists 0. split; [reflexivity|]. cbn. reflexivity.
    - unfold betweenSteps in Hb. rewrite needNew_spec in En.
      destruct (vertexBufs p); [|discriminate En]. apply Hb. }
  destruct Hq as (qb & Hqb & Hq3).
  assert (Hchunk : (stepChunk big p gp < length (chunks p'))%nat /\
                   (needNew big p gp = true -> stepChunk big p gp = length (chunks p)) /\
                   (needNew big p gp = false -> vertexBufs p = Some (stepChunk big p gp))).
  { rewrite L. unfold stepChunk. rewrite needNew_spec.
    destruct (vertexBufs p) as [n|] eqn:Evb; cbn.
    - destruct (JS.gt _ _); [split; [lia|]; split; [reflexivity | discriminate] |].
      split; [exact (Hopen n eq_refl)|]. split; [discriminate | reflexivity].
    - split; [lia|]. split; [reflexivity | discriminate]. }
  destruct Hchunk as (Hlt & Hnew & Hold).
  assert (Hview : view p' (stepChunk big p gp)
                  = Some (stored (quantized p) (base ++ Renderer.numbers gp))).
  { unfold view. rewrite B1, Nat.eqb_refl, Fq, Hpos. reflexivity. }
  split; [|split].
  - unfold betweenSteps. rewrite B1. split; [exact Hlt|].
    exists (qb + inject_Z (Z.of_nat (Renderer.length gp)) / 3).
    split.
    + rewrite Hoff', Hqb. reflexivity.
    + rewrite Hpos, length_app, numbers_length, Nat2Z.inj_add, inject_Z_plus, <- Hq3.
      field.
  - exists (Renderer.set_indicesBufCombined g (Some buf)), gp, (stepChunk big p gp),
      (stored (quantized p) (base ++ Renderer.numbers gp)).
    assert (Hoff : elementOffset p' id 3 = length base).
    { apply elementOffset_counted with (q := qb); [|exact Hq3].
      rewrite O1, lookup_assign_same, Hqb. reflexivity. }
    rewrite G1, V1, !lookup_assign_same, Hoff, Fq.
    split; [reflexivity|]. split; [exact Hp|]. split; [reflexivity|].
    split; [exact Hview|].
    rewrite stored_length, length_app, numbers_length. split; [lia|].
    rewrite stored_app.
    rewrite <- (stored_length (quantized p) base).
    rewrite <- (numbers_length gp), <- (stored_length (quantized p) (Renderer.numbers gp)).
    apply window_app_r.
  - intros id' Hne (g0 & gp0 & n0 & l0 & Hg0 & Hp0 & Hn0 & Hl0 & Hle & Hw).
    assert (Hoff : elementOffset p' id' 3 = elementOffset p id' 3).
    { unfold elementOffset. rewrite O1, lookup_assign_other by congruence. reflexivity. }
    pose proof (@view_in_range p off n0 l0 Hb Hl0) as Hn0lt.
    assert (Hl' : exists l', view p' n0 = Some l' /\
                             (length l0 <= length l')%nat /\
                             forall start len, (start + len <= length l0)%nat ->
                                               window l' start len = window l0 start len).
    { destruct (needNew big p gp) eqn:En.
      - exists l0. split; [|split; [lia | reflexivity]].
        unfold view at 1. rewrite B1.
        destruct (Nat.eqb_spec (stepChunk big p gp) n0) as [E|_].
        + rewrite (Hnew eq_refl) in E. lia.
        + rewrite (C n0 Hn0lt). exact Hl0.
      - specialize (Hold eq_refl).
        destruct (Nat.eq_dec (stepChunk big p gp) n0) as [E|E].
        + exists (l0 ++ stored (quantized p) (Renderer.numbers gp)).
          assert (El0 : l0 = stored (quantized p) (positions p)).
          { unfold view in Hl0. rewrite Hold, E, Nat.eqb_refl in Hl0. congruence. }
          split; [|split].
          * rewrite <- E, Hview. unfold base. rewrite stored_app, El0. reflexivity.
          * rewrite length_app. lia.
          * intros start len Hsl. apply window_app_l. exact Hsl.
        + exists l0. split; [|split; [lia | reflexivity]].
          unfold view at 1. rewrite B1.
          destruct (Nat.eqb_spec (stepChunk big p gp) n0) as [E'|_]; [contradiction|].
          rewrite (C n0 Hn0lt). unfold view in Hl0. rewrite Hold in Hl0.
          destruct (Nat.eqb_spec (stepChunk big p gp) n0) as [E'|_]; [contradiction|].
          exact Hl0. }
    destruct Hl' as (l' & Hv' & Hlen & Hwin).
    exists g0, gp0, n0, l'.
    rewrite G1, V1, !lookup_assign_other, Hoff, Fq by congruence.
    split; [exact Hg0|]. split; [exact Hp0|]. split; [exact Hn0|].
    split; [exact Hv'|]. split; [lia|]. rewrite (Hwin _ _ Hle). exact Hw.
Qed.

Lemma build_loop_layout :
  forall ids e p off e' p' off',
    NoDup ids ->
    hasPositions p = true ->
    Forall (wellRegistered p) ids ->
    betweenSteps p off ->
    build_loop big ids (e, p, off) = JS.Normal (e', p', off') ->
    betweenSteps p' off' /\
    (forall id, In id ids -> laidOutIn p' (view p') id) /\
    (forall id, ~ In id ids -> laidOutIn p (view p) id -> laidOutIn p' (view p') id) /\
    hasPositions p' = true.
Proof.
  induction ids as [|id rest IH]; intros e p off e' p' off' Hnd Hhp Hall Hb Hloop.
  - cbn in Hloop. injection Hloop as <- <- <-.
    split; [exact Hb|]. split; [intros id []|]. split; [auto | exact Hhp].
  - inversion Hnd as [|? ? Hnotin Hnd']. subst.
    inversion Hall as [|? ? Hid Hrest]. subst.
    destruct Hid as (g & gp & gi & Hg & Hp & Hi & Hsig).
    destruct (@build_step_spec big e p off id g gp gi Hg Hp Hi Hsig)
      as (e1 & p1 & buf & Hstep & _ & _ & _ & G1 & _ & _ & _ & F1 & _).
    destruct F1 as (Fp1 & Fn1 & Fc1 & Fu1 & _).
    destruct (@build_step_layout e p off id g gp gi _ _ _ Hg Hp Hi Hsig Hhp Hb Hstep)
      as (Hb1 & Hid1 & Hkeep1).
    cbn [build_loop] in Hloop. rewrite Hstep in Hloop. cbn [JS.bind] in Hloop.
    assert (Hhp1 : hasPositions p1 = true) by (rewrite Fp1; exact Hhp).
    destruct (IH _ _ _ _ _ _ Hnd' Hhp1
                 (@wellRegistered_other p p1 id _ rest G1 Fn1 Fc1 Fu1 Hnotin Hrest) Hb1 Hloop)
      as (Hb' & Hin & Hout & Hhp').
    split; [exact Hb'|]. split; [|split; [|exact Hhp']].
    + intros id' [<-|Hin']; [exact (Hout id Hnotin Hid1) | exact (Hin id' Hin')].
    + intros id' Hnin Hlaid. cbn [In] in Hnin.
      apply Hout; [tauto|]. apply Hkeep1; [intros ->; tauto | exact Hlaid].
Qed.

(** After a rebuild of a pool that has nothing pushed, every registered
    geometry has its positions in the positions buffer of its buffer set,
    from element [3 * offset] on, and nothing is left pushed. *)
Lemma build_layout e p e' p' :
  NoDup (JS.keys (geometries p)) ->
  hasPositions p = true ->
  Forall (wellRegistered p) (JS.keys (geometries p)) ->
  positions p = [] ->
  build big e p = JS.Normal (e', p') ->
  positions p' = [] /\
  (forall id, In id (JS.keys (geometries p)) -> laidOut p' id).
Proof.
  intros Hnd Hhp Hwell Hpos Hb. unfold build in Hb.
  set (p0 := set_vertexBufs (set_geometryVertexBufs p []) None) in Hb.
  destruct (build_loop big (JS.keys (geometries p0)) (e, p0, JS.Fin 0))
    as [[[e1 p1] off1]|] eqn:Hloop; [|discriminate Hb].
  cbn [JS.bind] in Hb.
  assert (Hwell0 : Forall (wellRegistered p0) (JS.keys (geometries p0))).
  { rewrite Forall_forall in *. intros id' Hin'. exact (Hwell id' Hin'). }
  assert (Hb0 : betweenSteps p0 (JS.Fin 0)) by exact Hpos.
  destruct (@build_loop_layout (JS.keys (geometries p0)) e p0 (JS.Fin 0) e1 p1 off1
                                Hnd Hhp Hwell0 Hb0 Hloop)
    as (Hb1 & Hlaid & _ & Hhp1).
  change (geometries p0) with (geometries p) in Hlaid.
  unfold betweenSteps in Hb1.
  destruct (vertexBufs p1) as [n|] eqn:Evb.
  - destruct Hb1 as (Hn & _).
    pose proof (@createBufs_chunks e1 p1 n Hhp1 Hn) as Hc.
    pose proof (createBufs_spec e1 p1 n) as Hs.
    destruct (createBufs e1 p1 n) as [e2 p2].
    destruct Hc as (Hcn & Hother).
    destruct Hs as (_ & P & G & O & V & _ & _ & F & _).
    destruct F as (_ & _ & _ & _ & Fq).
    injection Hb as _ <-. cbn [positions set_needAppend set_needRebuild].
    split; [rewrite P, Hhp1; reflexivity|].
    intros id Hin. destruct (Hlaid id Hin) as (g & gp & m & l & Hg & Hp & Hm & Hl & Hle & Hw).
    exists g, gp, m, l. unfold elementOffset in *. cbn. rewrite G, O, V, Fq.
    split; [exact Hg|]. split; [exact Hp|]. split; [exact Hm|].
    split; [|split; [exact Hle | exact Hw]].
    unfold view in Hl. rewrite Evb in Hl.
    destruct (Nat.eqb_spec n m) as [<-|Hne].
    + change (chunkPositions p2 n = Some l). rewrite Hcn. exact Hl.
    + unfold chunkPositions in *. cbn. rewrite (Hother m) by congruence. exact Hl.
  - injection Hb as _ <-. cbn [positions set_needAppend set_needRebuild].
    split; [exact Hb1|].
    intros id Hin. destruct (Hlaid id Hin) as (g & gp & m & l & Hg & Hp & Hm & Hl & Hle & Hw).
    exists g, gp, m, l. unfold elementOffset in *. cbn.
    split; [exact Hg|]. split; [exact Hp|]. split; [exact Hm|].
    split; [|split; [exact Hle | exact Hw]].
    unfold view in Hl. rewrite Evb in Hl. exact Hl.
Qed.


Lemma chunkOffsets_finite :
  forall lens opened acc r,
    Forall (fun o => exists q, o = JS.Fin q) (chunkOffsets big opened acc (JS.Fin r) lens).
Proof.
  induction lens as [|n rest IH]; intros opened acc r; cbn [chunkOffsets]; constructor.
  - destruct (negb opened || _); eauto.
  - destruct (negb opened || _); apply IH.
Qed.

Lemma map_lookup_In (A B : Type) (f : A -> option B) (P : B -> Prop) ids l :
  map f ids = map Some l -> Forall P l ->
  forall id, In id ids -> exists o, f id = Some o /\ P o.
Proof.
  revert l. induction ids as [|i ids IH]; intros [|o l] E Hall id Hin;
    cbn [map] in E; try discriminate E; [destruct Hin|].
  injection E as E1 E2. inversion Hall as [|? ? Ho Hl]. subst.
  destruct Hin as [<-|Hin]; [eauto | exact (IH l E2 Hl id Hin)].
Qed.

Lemma consistent_registered p :
  consistent p ->
  NoDup (JS.keys (geometries p)) /\ Forall (wellRegistered p) (JS.keys (geometries p)).
Proof.
  intros (Hhp & Hnd & Hreg & _). split; [apply NoDup_keys; exact Hnd|].
  apply Forall_forall. intros id Hin. apply In_keys, lookup_In in Hin.
  destruct Hin as (g & Hg). destruct (Hreg id g Hg) as (Hp & Hi & Hs).
  destruct (Renderer.positions g) as [gp|] eqn:Ep; [|contradiction].
  destruct (Renderer.indices g) as [gi|] eqn:Ei; [|contradiction].
  exists g, gp, gi. repeat split; try assumption; apply Hs.
Qed.


(** A rebuild of a consistent pool returns, leaves it consistent with
    nothing pending, and keeps the registry's ids and their order. *)
Lemma build_consistent e p :
  consistent p ->
  exists e' p',
    build big e p = JS.Normal (e', p') /\
    consistent p' /\
    needRebuild p' = false /\ needAppend p' = false /\
    map fst (geometries p') = map fst (geometries p).
Proof.
  intros Hc. destruct (consistent_registered Hc) as (Hnd & Hwell).
  pose proof Hc as (Hhp & Hndk & Hreg & Hpos & _).
  destruct (@build_spec big e p Hnd Hhp Hwell)
    as (e' & p' & Hb & Hoff & _ & Hkeys & Hbufs & F & Hr & Ha & _).
  destruct (@build_layout e p e' p' Hnd Hhp Hwell Hpos Hb) as (Hpos' & Hlaid).
  exists e', p'. split; [exact Hb|]. split; [|repeat split; assumption].
  destruct F as (Fp & Fn & Fc & Fu & Fq).
  split; [rewrite Fp; exact Hhp|]. split; [rewrite Hkeys; exact Hndk|]. split; [|split].
  - intros id g' Hg'.
    assert (Hin : In id (JS.keys (geometries p))).
    { apply In_keys. rewrite <- Hkeys. apply lookup_In. eauto. }
    destruct (Hbufs id Hin) as (g & gi & buf & o & Hg & Hi & _ & Hg2 & _).
    rewrite Hg' in Hg2. injection Hg2 as ->.
    destruct (Hreg id g Hg) as (Hp & _ & Hs).
    unfold matchesSignature in *. rewrite Fn, Fc, Fu. cbn.
    repeat split; try assumption; try apply Hs. rewrite Hi. discriminate.
  - exact Hpos'.
  - intros _ id Hin. rewrite Hkeys in Hin. apply In_keys in Hin.
    split; [|split; [|exact (Hlaid id Hin)]].
    + (* the chunk *)
      unfold build in Hb.
      set (p0 := set_vertexBufs (set_geometryVertexBufs p []) None) in Hb.
      destruct (build_loop big (JS.keys (geometries p0)) (e, p0, JS.Fin 0))
        as [[[e1 p1] off1]|] eqn:Hloop; [|discriminate Hb].
      cbn [JS.bind] in Hb.
      assert (Hwell0 : Forall (wellRegistered p0) (JS.keys (geometries p0))).
      { rewrite Forall_forall in *. intros id' Hin'. exact (Hwell id' Hin'). }
      destruct (@build_loop_refs _ _ _ _ _ _ _ Hnd Hwell0 Hloop) as (Hrefs & _).
      destruct (Hrefs id Hin) as (n & Hn). exists n.
      destruct (vertexBufs p1) as [m|].
      * pose proof (createBufs_spec e1 p1 m) as Hcb.
        destruct (createBufs e1 p1 m) as [e2 p2].
        destruct Hcb as (_ & _ & _ & _ & V & _).
        injection Hb as _ <-. cbn. rewrite V. exact Hn.
      * injection Hb as _ <-. cbn. exact Hn.
    + destruct (map_lookup_In _ _ Hoff (chunkOffsets_finite _ _ _ _) id Hin)
        as (o & Ho & (qo & ->)).
      eauto.
Qed.

Lemma addGeometry_consistent e p g :
  consistent p ->
  matchesSignature p g ->
  consistent (snd (addGeometry e p g)).
Proof.
  intros Hc Hs. unfold addGeometry.
  destruct (Renderer.positions g) as [gp|] eqn:Ep; [|exact Hc].
  destruct (Renderer.indices g) as [gi|] eqn:Ei; [|exact Hc].
  destruct Hc as (Hhp & Hnd & Hreg & Hpos & _). unfold consistent. cbn.
  split; [exact Hhp|]. split; [apply assign_keys_NoDup; exact Hnd|]. split; [|split].
  - intros id g' Hg'. destruct (JS.key_eqb (Renderer.id g) id) eqn:E.
    + apply key_eqb_eq in E. subst id. rewrite lookup_assign_same in Hg'.
      injection Hg' as <-. rewrite Ep, Ei. repeat split; try discriminate; apply Hs.
    + rewrite lookup_assign_other in Hg'
        by (intros Heq; rewrite Heq, key_eqb_refl in E; discriminate E).
      exact (Hreg id g' Hg').
  - exact Hpos.
  - rewrite orb_true_r. discriminate.
Qed.

Lemma removeGeometry_consistent p g :
  consistent p -> consistent (removeGeometry p g).
Proof.
  intros Hc. unfold removeGeometry.
  destruct (JS.has (geometries p) (Renderer.id g)); [|exact Hc].
  destruct Hc as (Hhp & Hnd & Hreg & Hpos & _). unfold consistent. cbn.
  split; [exact Hhp|]. split; [apply delete_keys_NoDup; exact Hnd|]. split; [|split].
  - intros id g' Hg'. rewrite lookup_delete in Hg'.
    destruct (JS.key_eqb (Renderer.id g) id); [discriminate Hg'|].
    exact (Hreg id g' Hg').
  - exact Hpos.
  - discriminate.
Qed.

Lemma create_consistent hn hc hu q : consistent (create true hn hc hu q).
Proof.
  split; [reflexivity|]. split; [constructor|]. split; [|split].
  - intros id g H. discriminate H.
  - reflexivity.
  - intros _ id [].
Qed.

Lemma matchesSignature_flags p p' g :
  hasNormals p' = hasNormals p -> hasColors p' = hasColors p -> hasUVs p' = hasUVs p ->
  matchesSignature p g -> matchesSignature p' g.
Proof.
  intros Fn Fc Fu Hs. unfold matchesSignature in *. rewrite Fn, Fc, Fu. exact Hs.
Qed.

Lemma addGeometry_flags e p g :
  hasNormals (snd (addGeometry e p g)) = hasNormals p /\
  hasColors (snd (addGeometry e p g)) = hasColors p /\
  hasUVs (snd (addGeometry e p g)) = hasUVs p /\
  quantized (snd (addGeometry e p g)) = quantized p.
Proof.
  unfold addGeometry. destruct (Renderer.positions g), (Renderer.indices g);
    repeat split; reflexivity.
Qed.

Lemma removeGeometry_flags p g :
  hasNormals (removeGeometry p g) = hasNormals p /\
  hasColors (removeGeometry p g) = hasColors p /\
  hasUVs (removeGeometry p g) = hasUVs p /\
  quantized (removeGeometry p g) = quantized p.
Proof.
  unfold removeGeometry. destruct (JS.has _ _); repeat split; reflexivity.
Qed.

(** A query on a consistent pool: the pending rebuild, if any, returns;
    afterwards nothing is pending and every registered geometry has a chunk
    and a numeric offset. *)
Lemma rebuildIfNeeded_consistent e p :
  consistent p ->
  exists e1 p1,
    rebuildIfNeeded big e p = JS.Normal (e1, p1) /\
    consistent p1 /\
    needRebuild p1 || needAppend p1 = false /\
    map fst (geometries p1) = map fst (geometries p) /\
    (hasNormals p1 = hasNormals p /\ hasColors p1 = hasColors p /\ hasUVs p1 = hasUVs p /\
     quantized p1 = quantized p).
Proof.
  intros Hc. unfold rebuildIfNeeded.
  destruct (needRebuild p || needAppend p) eqn:Ep.
  - destruct (build_consistent e Hc) as (e1 & p1 & Hb & Hc1 & Hr & Ha & Hk).
    exists e1, p1. split; [exact Hb|]. split; [exact Hc1|].
    split; [rewrite Hr, Ha; reflexivity|]. split; [exact Hk|].
    destruct (consistent_registered Hc) as (Hnd & Hwell).
    destruct Hc as (Hhp & _).
    destruct (@build_spec big e p Hnd Hhp Hwell) as (e' & p' & Hb' & _ & _ & _ & _ & F & _).
    assert (Hp : p' = p1) by congruence. subst p'.
    destruct F as (_ & Fn & Fc & Fu & Fq).
    split; [exact Fn|]. split; [exact Fc|]. split; [exact Fu | exact Fq].
  - exists e, p. split; [reflexivity|]. split; [exact Hc|]. split; [exact Ep|].
    split; [reflexivity|]. split; [reflexivity|]. split; [reflexivity|]. split; reflexivity.
Qed.

Lemma call_consistent e p c :
  consistent p -> fitsSignature p c ->
  exists e' p',
    call big (e, p) c = JS.Normal (e', p') /\ consistent p' /\
    (hasNormals p' = hasNormals p /\ hasColors p' = hasColors p /\ hasUVs p' = hasUVs p /\
     quantized p' = quantized p).
Proof.
  intros Hc Hfit. destruct c as [g|g|g|g]; cbn [call fitsSignature] in *.
  - exists (fst (addGeometry e p g)), (snd (addGeometry e p g)).
    split; [destruct (addGeometry e p g); reflexivity|].
    split; [apply addGeometry_consistent; assumption | apply addGeometry_flags].
  - exists e, (removeGeometry p g). split; [reflexivity|].
    split; [apply removeGeometry_consistent; assumption | apply removeGeometry_flags].
  - unfold getVertexBufs. destruct (negb (JS.has (geometries p) (Renderer.id g))).
    + exists e, p. cbn. split; [reflexivity|]. split; [exact Hc|].
      split; [reflexivity|]. split; [reflexivity|]. split; reflexivity.
    + destruct (rebuildIfNeeded_consistent e Hc) as (e1 & p1 & -> & Hc1 & _ & _ & F).
      exists e1, p1. cbn. split; [reflexivity|]. split; [exact Hc1 | exact F].
  - unfold getIndicesOffset.
    destruct (rebuildIfNeeded_consistent e Hc) as (e1 & p1 & -> & Hc1 & _ & _ & F).
    exists e1, p1. cbn. split; [reflexivity|]. split; [exact Hc1 | exact F].
Qed.

Lemma calls_consistent :
  forall history e p,
    consistent p -> Forall (fitsSignature p) history ->
    exists e' p', calls big history (e, p) = JS.Normal (e', p') /\ consistent p' /\
                  quantized p' = quantized p.
Proof.
  induction history as [|c rest IH]; intros e p Hc Hfit.
  - exists e, p. split; [reflexivity|]. split; [exact Hc | reflexivity].
  - inversion Hfit as [|? ? Hc0 Hrest]. subst.
    destruct (call_consistent e c Hc Hc0) as (e1 & p1 & Hcall & Hc1 & Fn & Fc & Fu & Fq).
    destruct (IH e1 p1 Hc1) as (e' & p' & Hrun & Hc' & Fq').
    { rewrite Forall_forall in *. intros c' Hin. specialize (Hrest c' Hin).
      destruct c'; cbn [fitsSignature] in *; [|exact I..].
      exact (@matchesSignature_flags p p1 _ Fn Fc Fu Hrest). }
    exists e', p'. cbn [calls]. rewrite Hcall. cbn [JS.bind].
    split; [exact Hrun|]. split; [exact Hc' | congruence].
Qed.

Lemma query_consistent e p g :
  consistent p ->
  JS.has (geometries p) (Renderer.id g) = true ->
  exists e1 p1 n o,
    rebuildIfNeeded big e p = JS.Normal (e1, p1) /\
    needRebuild p1 || needAppend p1 = false /\
    JS.has (geometries p1) (Renderer.id g) = true /\
    JS.lookup (geometryVertexBufs p1) (Renderer.id g) = Some (Renderer.Chunk n) /\
    JS.lookup (geometryIndicesOffsets p1) (Renderer.id g) = Some (JS.Fin o) /\
    laidOut p1 (Renderer.id g) /\
    quantized p1 = quantized p.
Proof.
  intros Hc Hhas.
  destruct (rebuildIfNeeded_consistent e Hc) as (e1 & p1 & Hr & Hc1 & Hp & Hk & F).
  assert (Hin : In (Renderer.id g) (map fst (geometries p1))).
  { rewrite Hk. apply lookup_In. unfold JS.has in Hhas.
    destruct (JS.lookup (geometries p) (Renderer.id g)); [eauto | discriminate Hhas]. }
  destruct Hc1 as (_ & _ & _ & _ & Hset).
  destruct (Hset Hp _ Hin) as ((n & Hn) & (o & Ho) & Hlaid).
  exists e1, p1, n, o. split; [exact Hr|]. split; [exact Hp|].
  split; [|split; [exact Hn|]; split; [exact Ho|]; split; [exact Hlaid | apply F]].
  apply lookup_In in Hin. destruct Hin as (w & Hw). unfold JS.has. rewrite Hw. reflexivity.
Qed.


End PoolConsistency.

(** X7. A pool whose signature has positions runs every history of
    [addGeometry], [removeGeometry], [getVertexBufs] and [getIndicesOffset]
    calls to the end, as long as the geometries it is given have the
    attributes of its signature: no rebuild throws. The pool it ends with
    holds no id twice, and each of its geometries has positions, indices and
    the attributes of the signature. *)
Theorem pool_history_never_throws :
  forall (big hasNormals hasColors hasUVs quantized : bool) (history : list PoolCall)
         (e : Renderer.Env),
    let pool := SceneVertexBufs.create true hasNormals hasColors hasUVs quantized in
    Forall (fitsSignature pool) history ->
    exists e' p',
      calls big history (e, pool) = JS.Normal (e', p') /\
      NoDup (JS.keys (SceneVertexBufs.geometries p')) /\
      Forall (wellRegistered p') (JS.keys (SceneVertexBufs.geometries p')).
Proof.
  intros big hn hc hu q history e pool Hfit.
  destruct (@calls_consistent big history e pool (create_consistent hn hc hu q) Hfit)
    as (e' & p' & Hrun & Hc & _).
  exists e', p'. split; [exact Hrun | exact (consistent_registered Hc)].
Qed.

Lemma sampleHistory_fits : Forall (fitsSignature positionsPool) sampleHistory.
Proof.
  unfold sampleHistory.
  repeat (apply Forall_cons;
          [cbn; first [exact I | (split; [|split]); discriminate]|]).
  apply Forall_nil.
Qed.

Lemma sample_history_never_throws :
  exists e' p',
    calls false sampleHistory (noMessages, positionsPool) = JS.Normal (e', p') /\
    NoDup (JS.keys (SceneVertexBufs.geometries p')) /\
    Forall (wellRegistered p') (JS.keys (SceneVertexBufs.geometries p')).
Proof.
  apply (@pool_history_never_throws false false false false false sampleHistory noMessages).
  exact sampleHistory_fits.
Defined.

(** X8. In a pool that a history of calls has led to, [getVertexBufs] of a
    registered geometry returns one of the pool's buffer sets, never
    [nullVertexBufs] or [undefined], and [getIndicesOffset] returns a finite
    number; the two leave the pool in the same state. *)
Theorem registered_geometry_is_given_chunk_and_offset :
  forall (big hasNormals hasColors hasUVs quantized : bool) (history : list PoolCall)
         (e e' : Renderer.Env) (p' : SceneVertexBufs.Pool) (g : Renderer.Geometry),
    let pool := SceneVertexBufs.create true hasNormals hasColors hasUVs quantized in
    Forall (fitsSignature pool) history ->
    calls big history (e, pool) = JS.Normal (e', p') ->
    JS.has (SceneVertexBufs.geometries p') (Renderer.id g) = true ->
    exists e1 p1 n o,
      SceneVertexBufs.getVertexBufs big e' p' g
      = JS.Normal (e1, p1, Some (Renderer.Chunk n)) /\
      SceneVertexBufs.getIndicesOffset big e' p' g
      = JS.Normal (e1, p1, Some (JS.Fin o)).
Proof.
  intros big hn hc hu q history e e' p' g pool Hfit Hrun Hhas.
  destruct (@calls_consistent big history e pool (create_consistent hn hc hu q) Hfit)
    as (e2 & p2 & Hrun2 & Hc & Fq).
  rewrite Hrun in Hrun2. injection Hrun2 as <- <-.
  destruct (@query_consistent big e' p' g Hc Hhas)
    as (e1 & p1 & n & o & Hr & _ & _ & Hn & Ho & _).
  exists e1, p1, n, o.
  unfold SceneVertexBufs.getVertexBufs, SceneVertexBufs.getIndicesOffset.
  rewrite Hhas, Hr. cbn. rewrite Hn, Ho. split; reflexivity.
Qed.

Lemma sample_square_is_given_chunk_and_offset :
  exists e1 p1 n o,
    SceneVertexBufs.getVertexBufs false (fst afterSampleHistory) (snd afterSampleHistory)
                                  (plainGeometry "B" squarePositions squareIndices)
    = JS.Normal (e1, p1, Some (Renderer.Chunk n)) /\
    SceneVertexBufs.getIndicesOffset false (fst afterSampleHistory) (snd afterSampleHistory)
                                     (plainGeometry "B" squarePositions squareIndices)
    = JS.Normal (e1, p1, Some (JS.Fin o)).
Proof.
  apply (@registered_geometry_is_given_chunk_and_offset
           false false false false false sampleHistory noMessages
           (fst afterSampleHistory) (snd afterSampleHistory)
           (plainGeometry "B" squarePositions squareIndices)).
  - exact sampleHistory_fits.
  - vm_compute. reflexivity.
  - vm_compute. reflexivity.
Defined.

(** X9. Once a query has brought the pool up to date, asking again does not
    rebuild: a second [getIndicesOffset] returns the same offset, and it and
    every [getVertexBufs] leave the pool and the memory statistics as they
    are. *)
Theorem second_query_does_not_rebuild :
  forall (big hasNormals hasColors hasUVs quantized : bool) (history : list PoolCall)
         (e e' : Renderer.Env) (p' : SceneVertexBufs.Pool) (g : Renderer.Geometry),
    let pool := SceneVertexBufs.create true hasNormals hasColors hasUVs quantized in
    Forall (fitsSignature pool) history ->
    calls big history (e, pool) = JS.Normal (e', p') ->
    exists e1 p1 o,
      SceneVertexBufs.getIndicesOffset big e' p' g = JS.Normal (e1, p1, o) /\
      SceneVertexBufs.getIndicesOffset big e1 p1 g = JS.Normal (e1, p1, o) /\
      forall g', exists r,
        SceneVertexBufs.getVertexBufs big e1 p1 g' = JS.Normal (e1, p1, r).
Proof.
  intros big hn hc hu q history e e' p' g pool Hfit Hrun.
  destruct (@calls_consistent big history e pool (create_consistent hn hc hu q) Hfit)
    as (e2 & p2 & Hrun2 & Hc & Fq).
  rewrite Hrun in Hrun2. injection Hrun2 as <- <-.
  destruct (@rebuildIfNeeded_consistent big e' p' Hc) as (e1 & p1 & Hr & _ & Hp & _).
  assert (Hagain : SceneVertexBufs.rebuildIfNeeded big e1 p1 = JS.Normal (e1, p1)).
  { unfold SceneVertexBufs.rebuildIfNeeded. rewrite Hp. reflexivity. }
  exists e1, p1, (JS.lookup (SceneVertexBufs.geometryIndicesOffsets p1) (Renderer.id g)).
  unfold SceneVertexBufs.getIndicesOffset, SceneVertexBufs.getVertexBufs.
  rewrite Hr, Hagain. cbn. split; [reflexivity|]. split; [reflexivity|].
  intros g'. destruct (negb _); eauto.
Qed.

Lemma sample_second_query_does_not_rebuild :
  exists e1 p1 o,
    SceneVertexBufs.getIndicesOffset false noMessages
      (snd (SceneVertexBufs.addGeometry noMessages positionsPool
              (plainGeometry "A" trianglePositions [0; 1; 2]%Z)))
      (plainGeometry "A" trianglePositions [0; 1; 2]%Z)
    = JS.Normal (e1, p1, o) /\
    SceneVertexBufs.getIndicesOffset false e1 p1
      (plainGeometry "A" trianglePositions [0; 1; 2]%Z) = JS.Normal (e1, p1, o) /\
    forall g', exists r,
      SceneVertexBufs.getVertexBufs false e1 p1 g' = JS.Normal (e1, p1, r).
Proof.
  apply (@second_query_does_not_rebuild
           false false false false false
           [AddGeometry (plainGeometry "A" trianglePositions [0; 1; 2]%Z)] noMessages).
  - apply Forall_cons; [|apply Forall_nil]. cbn. (split; [|split]); discriminate.
  - reflexivity.
Defined.

Lemma delete_assign_new (V : Type) (o : JS.obj V) k v :
  JS.lookup o k = None -> JS.delete (JS.assign o k v) k = o.
Proof.
  unfold JS.delete. induction o as [|[k0 v0] o IH]; cbn [JS.lookup JS.assign filter fst].
  - intros _. rewrite key_eqb_refl. reflexivity.
  - destruct (JS.key_eqb k0 k) eqn:E; [discriminate|].
    intros H. cbn [filter fst]. rewrite E. cbn [negb]. rewrite (IH H). reflexivity.
Qed.

(** X10. Registering a geometry whose id the pool does not hold and removing
    it again leaves the registry of geometries and the offsets of the others
    as they were; the pool then answers [getVertexBufs] for it with
    [nullVertexBufs], without rebuilding. *)
Theorem add_then_remove_restores_registry :
  forall (big : bool) (e : Renderer.Env) (p : SceneVertexBufs.Pool) (g : Renderer.Geometry),
    JS.has (SceneVertexBufs.geometries p) (Renderer.id g) = false ->
    let '(e1, p1) := SceneVertexBufs.addGeometry e p g in
    let p2 := SceneVertexBufs.removeGeometry p1 g in
    SceneVertexBufs.geometries p2 = SceneVertexBufs.geometries p /\
    (forall id, id <> Renderer.id g ->
                JS.lookup (SceneVertexBufs.geometryIndicesOffsets p2) id
                = JS.lookup (SceneVertexBufs.geometryIndicesOffsets p) id) /\
    SceneVertexBufs.getVertexBufs big e1 p2 g
    = JS.Normal (e1, p2, Some Renderer.nullVertexBufs).
Proof.
  intros big e p g Hhas.
  assert (Hnone : JS.lookup (SceneVertexBufs.geometries p) (Renderer.id g) = None).
  { unfold JS.has in Hhas. destruct (JS.lookup _ _); [discriminate Hhas | reflexivity]. }
  assert (Hadd : JS.has (JS.assign (SceneVertexBufs.geometries p) (Renderer.id g) g)
                        (Renderer.id g) = true).
  { unfold JS.has. rewrite lookup_assign_same. reflexivity. }
  unfold SceneVertexBufs.addGeometry.
  destruct (Renderer.positions g), (Renderer.indices g);
    unfold SceneVertexBufs.removeGeometry, SceneVertexBufs.getVertexBufs;
    cbn -[JS.delete JS.assign JS.has JS.lookup];
    try (rewrite Hhas; cbn -[JS.delete JS.assign JS.has JS.lookup]; rewrite Hhas;
         split; [reflexivity|]; split; [reflexivity|]; reflexivity).
  rewrite Hadd. cbn -[JS.delete JS.assign JS.has JS.lookup].
  rewrite (@delete_assign_new _ _ _ _ Hnone). rewrite Hhas.
  split; [reflexivity|]. split; [|reflexivity].
  intros id Hne. rewrite lookup_delete, key_eqb_neq by congruence.
  apply lookup_assign_other. congruence.
Qed.

Lemma triangle_added_then_removed_restores_registry :
  let g := plainGeometry "A" trianglePositions [0; 1; 2]%Z in
  let p2 := SceneVertexBufs.removeGeometry
              (snd (SceneVertexBufs.addGeometry noMessages positionsPool g)) g in
  SceneVertexBufs.geometries p2 = SceneVertexBufs.geometries positionsPool /\
  SceneVertexBufs.getVertexBufs false noMessages p2 g
  = JS.Normal (noMessages, p2, Some Renderer.nullVertexBufs).
Proof.
  pose proof (@add_then_remove_restores_registry false noMessages positionsPool
                (plainGeometry "A" trianglePositions [0; 1; 2]%Z) eq_refl) as H.
  cbv zeta. destruct H as (H1 & _ & H3). split; [exact H1 | exact H3].
Defined.

Section PoolWhole.

Import SceneVertexBufs.

Variable big : bool.

Lemma wholeNumber_next off len :
  wholeNumber off -> (len mod 3 = 0)%nat ->
  wholeNumber (JS.add off (JS.div (JS.of_nat len) (JS.Fin 3))).
Proof.
  intros (q & v & -> & Hq) Hlen. apply Nat.Div0.div_exact in Hlen.
  exists (q + inject_Z (Z.of_nat len) / 3), (v + len / 3)%nat.
  split; [reflexivity|].
  rewrite Hq, Hlen at 1. rewrite !Nat2Z.inj_add, !Nat2Z.inj_mul, inject_Z_plus, inject_Z_mult.
  replace (3 * (len / 3))%nat with len by exact Hlen.
  cbn [Z.of_nat Pos.of_succ_nat Pos.succ]. field.
Qed.

(** During a rebuild of geometries in whole triples the running offset and
    the offsets given so far are whole numbers. *)
Lemma build_loop_whole :
  forall ids e p off e' p' off',
    NoDup ids ->
    Forall (wellRegistered p) ids ->
    wholeRegistry p ->
    wholeNumber off ->
    wholeOffsets p ->
    build_loop big ids (e, p, off) = JS.Normal (e', p', off') ->
    wholeOffsets p'.
Proof.
  induction ids as [|id rest IH]; intros e p off e' p' off' Hnd Hall Hreg Hoff Hw Hloop.
  - cbn in Hloop. injection Hloop as <- <- <-. exact Hw.
  - inversion Hnd as [|? ? Hnotin Hnd']. subst.
    inversion Hall as [|? ? Hid Hrest]. subst.
    destruct Hid as (g & gp & gi & Hg & Hp & Hi & Hsig).
    destruct (@build_step_spec big e p off id g gp gi Hg Hp Hi Hsig)
      as (e1 & p1 & buf & Hstep & O1 & _ & _ & G1 & _ & _ & _ & F1 & _).
    destruct F1 as (_ & Fn1 & Fc1 & Fu1 & _).
    cbn [build_loop] in Hloop. rewrite Hstep in Hloop. cbn [JS.bind] in Hloop.
    assert (Hoff1 : wholeNumber (stepOffset big p off gp)).
    { unfold stepOffset. destruct (needNew big p gp); [|exact Hoff].
      exists 0, 0%nat. split; reflexivity. }
    assert (Hreg1 : wholeRegistry p1).
    { intros id' g' gp' Hg' Hp'. rewrite G1 in Hg'.
      destruct (JS.key_eqb id id') eqn:E.
      - apply key_eqb_eq in E. subst id'. rewrite lookup_assign_same in Hg'.
        injection Hg' as <-. cbn in Hp'. exact (Hreg id g gp' Hg Hp').
      - rewrite lookup_assign_other in Hg'
          by (intros Heq; rewrite Heq, key_eqb_refl in E; discriminate E).
        exact (Hreg id' g' gp' Hg' Hp'). }
    assert (Hw1 : wholeOffsets p1).
    { intros id' q' Hq'. rewrite O1 in Hq'.
      destruct (JS.key_eqb id id') eqn:E.
      - apply key_eqb_eq in E. subst id'. rewrite lookup_assign_same in Hq'.
        destruct Hoff1 as (q1 & v1 & E1 & Hv1). rewrite E1 in Hq'.
        injection Hq' as <-. exists v1. exact Hv1.
      - rewrite lookup_assign_other in Hq'
          by (intros Heq; rewrite Heq, key_eqb_refl in E; discriminate E).
        exact (Hw id' q' Hq'). }
    exact (IH _ _ _ _ _ _ Hnd'
              (@wellRegistered_other p p1 id _ rest G1 Fn1 Fc1 Fu1 Hnotin Hrest)
              Hreg1 (@wholeNumber_next _ _ Hoff1 (Hreg id g gp Hg Hp)) Hw1 Hloop).
Qed.

Lemma build_whole e p e' p' :
  consistent p ->
  wholeRegistry p ->
  wholeOffsets p ->
  build big e p = JS.Normal (e', p') ->
  wholeRegistry p' /\ wholeOffsets p'.
Proof.
  intros Hc Hreg Hw Hb. destruct (consistent_registered Hc) as (Hnd & Hwell).
  pose proof Hc as (Hhp & _).
  split.
  - destruct (@build_spec big e p Hnd Hhp Hwell)
      as (e2 & p2 & Hb2 & _ & _ & _ & Hbufs & _).
    rewrite Hb in Hb2. injection Hb2 as <- <-.
    intros id g' gp' Hg' Hp'.
    assert (Hin : In id (JS.keys (geometries p))).
    { destruct (@build_consistent big e p Hc) as (e3 & p3 & Hb3 & _ & _ & _ & Hk).
      rewrite Hb in Hb3. injection Hb3 as <- <-.
      apply In_keys. rewrite <- Hk. apply lookup_In. eauto. }
    destruct (Hbufs id Hin) as (g & gi & buf & o & Hg & _ & _ & Hg2 & _).
    rewrite Hg' in Hg2. injection Hg2 as ->. cbn in Hp'. exact (Hreg id g gp' Hg Hp').
  - unfold build in Hb.
    set (p0 := set_vertexBufs (set_geometryVertexBufs p []) None) in Hb.
    destruct (build_loop big (JS.keys (geometries p0)) (e, p0, JS.Fin 0))
      as [[[e1 p1] off1]|] eqn:Hloop; [|discriminate Hb].
    cbn [JS.bind] in Hb.
    assert (Hwell0 : Forall (wellRegistered p0) (JS.keys (geometries p0))).
    { rewrite Forall_forall in *. intros id' Hin'. exact (Hwell id' Hin'). }
    assert (Hzero : wholeNumber (JS.Fin 0)) by (exists 0, 0%nat; split; reflexivity).
    pose proof (@build_loop_whole (JS.keys (geometries p0)) e p0 (JS.Fin 0) e1 p1 off1
                                  Hnd Hwell0 Hreg Hzero Hw Hloop) as Hw1.
    destruct (vertexBufs p1) as [n|].
    + pose proof (createBufs_spec e1 p1 n) as Hs.
      destruct (createBufs e1 p1 n) as [e2 p2].
      destruct Hs as (_ & _ & _ & O2 & _).
      injection Hb as _ <-. intros id q Hq. cbn in Hq. rewrite O2 in Hq.
      exact (Hw1 id q Hq).
    + injection Hb as _ <-. exact Hw1.
Qed.

Lemma call_whole e p c e' p' :
  consistent p ->
  wholeTriples c ->
  wholeRegistry p ->
  wholeOffsets p ->
  call big (e, p) c = JS.Normal (e', p') ->
  wholeRegistry p' /\ wholeOffsets p'.
Proof.
  intros Hc Hwt Hreg Hw H. destruct c as [g|g|g|g]; cbn [call wholeTriples] in *.
  - injection H as H. unfold addGeometry in H.
    destruct (Renderer.positions g) as [gp|] eqn:Ep;
      [|injection H as _ <-; split; assumption].
    destruct (Renderer.indices g); injection H as _ <-; [|split; assumption].
    split.
    + intros id g' gp' Hg' Hp'. cbn in Hg'.
      destruct (JS.key_eqb (Renderer.id g) id) eqn:E.
      * apply key_eqb_eq in E. subst id. rewrite lookup_assign_same in Hg'.
        injection Hg' as <-. exact (Hwt gp' (eq_trans (eq_sym Ep) Hp')).
      * rewrite lookup_assign_other in Hg'
          by (intros Heq; rewrite Heq, key_eqb_refl in E; discriminate E).
        exact (Hreg id g' gp' Hg' Hp').
    + intros id q Hq. cbn in Hq.
      destruct (JS.key_eqb (Renderer.id g) id) eqn:E.
      * apply key_eqb_eq in E. subst id. rewrite lookup_assign_same in Hq.
        injection Hq as <-. exists 0%nat. reflexivity.
      * rewrite lookup_assign_other in Hq
          by (intros Heq; rewrite Heq, key_eqb_refl in E; discriminate E).
        exact (Hw id q Hq).
  - injection H as _ <-. unfold removeGeometry.
    destruct (JS.has _ _); [|split; assumption].
    split.
    + intros id g' gp' Hg' Hp'. cbn in Hg'. rewrite lookup_delete in Hg'.
      destruct (JS.key_eqb (Renderer.id g) id); [discriminate Hg'|].
      exact (Hreg id g' gp' Hg' Hp').
    + intros id q Hq. cbn -[JS.delete JS.lookup] in Hq. rewrite lookup_delete in Hq.
      destruct (JS.key_eqb (Renderer.id g) id); [discriminate Hq|].
      exact (Hw id q Hq).
  - unfold getVertexBufs, rebuildIfNeeded in H.
    destruct (negb _); [injection H as _ <-; split; assumption|].
    destruct (needRebuild p || needAppend p).
    + destruct (build big e p) as [[e1 p1]|] eqn:Hb; [|discriminate H].
      cbn in H. injection H as _ <-. exact (@build_whole e p e1 p1 Hc Hreg Hw Hb).
    + cbn in H. injection H as _ <-. split; assumption.
  - unfold getIndicesOffset, rebuildIfNeeded in H.
    destruct (needRebuild p || needAppend p).
    + destruct (build big e p) as [[e1 p1]|] eqn:Hb; [|discriminate H].
      cbn in H. injection H as _ <-. exact (@build_whole e p e1 p1 Hc Hreg Hw Hb).
    + cbn in H. injection H as _ <-. split; assumption.
Qed.

Lemma calls_whole :
  forall history e p e' p',
    consistent p ->
    Forall (fitsSignature p) history ->
    Forall wholeTriples history ->
    wholeRegistry p ->
    wholeOffsets p ->
    calls big history (e, p) = JS.Normal (e', p') ->
    wholeRegistry p' /\ wholeOffsets p'.
Proof.
  induction history as [|c rest IH]; intros e p e' p' Hc Hfit Hwt Hreg Hw H.
  - cbn in H. injection H as <- <-. split; assumption.
  - inversion Hfit as [|? ? Hc0 Hrest]. subst.
    inversion Hwt as [|? ? Hs0 Hsrest]. subst.
    destruct (@call_consistent big e p c Hc Hc0) as (e1 & p1 & Hcall & Hc1 & Fn & Fc & Fu & _).
    destruct (@call_whole e p c e1 p1 Hc Hs0 Hreg Hw Hcall) as (Hreg1 & Hw1).
    cbn [calls] in H. rewrite Hcall in H. cbn [JS.bind] in H.
    apply (IH e1 p1 e' p' Hc1); try assumption.
    rewrite Forall_forall in *. intros c' Hin. specialize (Hrest c' Hin).
    destruct c'; cbn [fitsSignature] in *; [|exact I..].
    exact (@matchesSignature_flags p p1 _ Fn Fc Fu Hrest).
Qed.

(** What a query finds in a pool that a history of registrations in whole
    triples has led to: the geometry's buffer set and whole offset, and its
    positions at three times the offset. *)
Lemma query_whole history e e' p' g hn hc hu q :
  let pool := create true hn hc hu q in
  Forall (fitsSignature pool) history ->
  Forall wholeTriples history ->
  calls big history (e, pool) = JS.Normal (e', p') ->
  JS.has (geometries p') (Renderer.id g) = true ->
  exists e1 p1 n o (v : nat) registered gp l,
    rebuildIfNeeded big e' p' = JS.Normal (e1, p1) /\
    JS.lookup (geometryVertexBufs p1) (Renderer.id g) = Some (Renderer.Chunk n) /\
    JS.lookup (geometryIndicesOffsets p1) (Renderer.id g) = Some (JS.Fin o) /\
    o == inject_Z (Z.of_nat v) /\
    elementOffset p1 (Renderer.id g) 3 = (3 * v)%nat /\
    JS.lookup (geometries p1) (Renderer.id g) = Some registered /\
    Renderer.positions registered = Some gp /\
    chunkPositions p1 n = Some l /\
    (3 * v + Renderer.length gp <= length l)%nat /\
    window l (3 * v) (Renderer.length gp) = stored q (Renderer.numbers gp) /\
    quantized p1 = q.
Proof.
  intros pool Hfit Hwt Hrun Hhas.
  destruct (@calls_consistent big history e pool (create_consistent hn hc hu q) Hfit)
    as (e2 & p2 & Hrun2 & Hc & Fq).
  rewrite Hrun in Hrun2. injection Hrun2 as <- <-.
  destruct (@calls_whole history e pool e' p' (create_consistent hn hc hu q) Hfit Hwt)
    as (Hreg & Hw); [| |exact Hrun|].
  { intros id g0 gp0 H. discriminate H. }
  { intros id q0 H. discriminate H. }
  destruct (@query_consistent big e' p' g Hc Hhas)
    as (e1 & p1 & n & o & Hr & _ & _ & Hn & Ho & Hlaid & Fq1).
  assert (Hw1 : wholeOffsets p1).
  { unfold rebuildIfNeeded in Hr. destruct (needRebuild p' || needAppend p').
    - exact (proj2 (@build_whole e' p' e1 p1 Hc Hreg Hw Hr)).
    - injection Hr as _ <-. exact Hw. }
  destruct (Hw1 _ _ Ho) as (v & Hv).
  assert (Hel : elementOffset p1 (Renderer.id g) 3 = (3 * v)%nat).
  { apply (@elementOffset_counted p1 (Renderer.id g) o (3 * v) Ho).
    rewrite Hv, Nat2Z.inj_mul, inject_Z_mult. cbn [Z.of_nat Pos.of_succ_nat Pos.succ]. ring. }
  destruct Hlaid as (registered & gp & m & l & Hg & Hp & Hm & Hl & Hbound & Hwin).
  rewrite Hn in Hm. injection Hm as <-. rewrite Hel in Hbound, Hwin.
  exists e1, p1, n, o, v, registered, gp, l.
  split; [exact Hr|]. split; [exact Hn|]. split; [exact Ho|]. split; [exact Hv|].
  split; [exact Hel|]. split; [exact Hg|]. split; [exact Hp|]. split; [exact Hl|].
  split; [exact Hbound|]. split; [|rewrite Fq1, Fq; reflexivity].
  rewrite Hwin, Fq1, Fq. reflexivity.
Qed.

End PoolWhole.

(** X11. In a pool that a history of calls has led to, every geometry
    registered with positions in whole triples, the geometry's indices
    offset is a whole number, the buffer set that [getVertexBufs] returns
    for a registered geometry has a positions buffer, and the geometry's
    positions are in it from element [3 * offset] on: as they are in a pool
    that is not quantized, as [Uint16Array] elements in one that is. *)
Theorem combined_positions_lie_at_the_offset :
  forall (big hasNormals hasColors hasUVs quantized : bool) (history : list PoolCall)
         (e e' : Renderer.Env) (p' : SceneVertexBufs.Pool) (g : Renderer.Geometry),
    let pool := SceneVertexBufs.create true hasNormals hasColors hasUVs quantized in
    Forall (fitsSignature pool) history ->
    Forall wholeTriples history ->
    calls big history (e, pool) = JS.Normal (e', p') ->
    JS.has (SceneVertexBufs.geometries p') (Renderer.id g) = true ->
    exists e1 p1 n vb buf registered gpositions offset (v : nat),
      SceneVertexBufs.getVertexBufs big e' p' g
      = JS.Normal (e1, p1, Some (Renderer.Chunk n)) /\
      SceneVertexBufs.getIndicesOffset big e' p' g
      = JS.Normal (e1, p1, Some (JS.Fin offset)) /\
      offset == inject_Z (Z.of_nat v) /\
      nth_error (SceneVertexBufs.chunks p1) n = Some vb /\
      Renderer.vb_positionsBuf vb = Some buf /\
      JS.lookup (SceneVertexBufs.geometries p1) (Renderer.id g) = Some registered /\
      Renderer.positions registered = Some gpositions /\
      window (Renderer.numbers (Renderer.data buf)) (3 * v) (Renderer.length gpositions)
      = stored quantized (Renderer.numbers gpositions).
Proof.
  intros big hn hc hu q history e e' p' g pool Hfit Hwt Hrun Hhas.
  destruct (@query_whole big history e e' p' g hn hc hu q Hfit Hwt Hrun Hhas)
    as (e1 & p1 & n & o & v & registered & gp & l & Hr & Hn & Ho & Hv & _ & Hg & Hp & Hl & _
        & Hw & _).
  unfold chunkPositions in Hl.
  destruct (nth_error (SceneVertexBufs.chunks p1) n) as [vb|] eqn:Evb; [|discriminate Hl].
  destruct (Renderer.vb_positionsBuf vb) as [buf|] eqn:Ebuf; [|discriminate Hl].
  injection Hl as <-.
  exists e1, p1, n, vb, buf, registered, gp, o, v.
  unfold SceneVertexBufs.getVertexBufs, SceneVertexBufs.getIndicesOffset.
  rewrite Hhas, Hr. cbn [negb JS.bind]. rewrite Hn, Ho.
  split; [reflexivity|]. split; [reflexivity|]. split; [exact Hv|].
  split; [exact Evb|]. split; [exact Ebuf|].
  split; [exact Hg|]. split; [exact Hp | exact Hw].
Qed.

Lemma twoRegistrations_fit : Forall (fitsSignature positionsPool) twoRegistrations.
Proof.
  unfold twoRegistrations.
  repeat (apply Forall_cons; [cbn; (split; [|split]); discriminate|]).
  apply Forall_nil.
Qed.

Lemma twoRegistrations_whole : Forall wholeTriples twoRegistrations.
Proof.
  unfold twoRegistrations.
  repeat (apply Forall_cons; [cbn; intros gp H; injection H as <-; reflexivity|]).
  apply Forall_nil.
Qed.

Lemma sample_square_positions_lie_at_the_offset :
  exists e1 p1 n vb buf registered gpositions offset (v : nat),
    SceneVertexBufs.getVertexBufs false (fst afterTwoRegistrations)
                                  (snd afterTwoRegistrations)
                                  (plainGeometry "B" squarePositions squareIndices)
    = JS.Normal (e1, p1, Some (Renderer.Chunk n)) /\
    SceneVertexBufs.getIndicesOffset false (fst afterTwoRegistrations)
                                     (snd afterTwoRegistrations)
                                     (plainGeometry "B" squarePositions squareIndices)
    = JS.Normal (e1, p1, Some (JS.Fin offset)) /\
    offset == inject_Z (Z.of_nat v) /\
    nth_error (SceneVertexBufs.chunks p1) n = Some vb /\
    Renderer.vb_positionsBuf vb = Some buf /\
    JS.lookup (SceneVertexBufs.geometries p1) (JS.Str "B") = Some registered /\
    Renderer.positions registered = Some gpositions /\
    window (Renderer.numbers (Renderer.data buf)) (3 * v) (Renderer.length gpositions)
    = stored false (Renderer.numbers gpositions).
Proof.
  apply (@combined_positions_lie_at_the_offset
           false false false false false twoRegistrations noMessages
           (fst afterTwoRegistrations) (snd afterTwoRegistrations)
           (plainGeometry "B" squarePositions squareIndices)).
  - exact twoRegistrations_fit.
  - exact twoRegistrations_whole.
  - vm_compute. reflexivity.
  - vm_compute. reflexivity.
Defined.



Section GeometryUpdates.

Variable big : bool.
Variable sqrt : JS.num -> JS.num.

Lemma initBuffers_flags s c st :
  let c' := snd (Geometry.initBuffers s c st) in
  Geometry.boundaryDirty c' = Geometry.boundaryDirty c /\
  Geometry.aabbDirty c' = Geometry.aabbDirty c /\
  Geometry.obbDirty c' = Geometry.obbDirty c /\
  Geometry.boundaryEvents c' = Geometry.boundaryEvents c.
Proof.
  unfold Geometry.initBuffers.
  repeat match goal with
         | |- context [let '(_, _) := ?x in _] => destruct x
         end.
  cbn. repeat split; reflexivity.
Qed.

(** [_init] leaves the three dirty flags set, whatever the configuration,
    and fires no [boundary] event. *)
Lemma init_flags s id cfg :
  let c := snd (Geometry._init big sqrt s id cfg) in
  Geometry.boundaryDirty c = true /\ Geometry.aabbDirty c = true /\
  Geometry.obbDirty c = true /\ Geometry.boundaryEvents c = 0%nat.
Proof.
  unfold Geometry._init.
  destruct (Geometry.initAttributes sqrt _ _ cfg) as [s1 st1].
  destruct (Geometry.cfg_indices cfg) as [a|].
  - destruct (negb big && Geometry.isUint32Array a).
    + cbn. repeat split; reflexivity.
    + apply initBuffers_flags.
  - apply initBuffers_flags.
Qed.

(** While [_boundaryDirty] is set, the setter of [positions] changes none
    of the dirty flags and fires no event. *)
Lemma set_positions_flags s c newPositions s2 c2 :
  Geometry.boundaryDirty c = true ->
  Geometry.set_positions s c newPositions = JS.Normal (s2, c2) ->
  Geometry.boundaryDirty c2 = true /\
  Geometry.aabbDirty c2 = Geometry.aabbDirty c /\
  Geometry.obbDirty c2 = Geometry.obbDirty c /\
  Geometry.boundaryEvents c2 = Geometry.boundaryEvents c.
Proof.
  intros Hb H. unfold Geometry.set_positions in H.
  destruct (Renderer.quantized (Geometry.state c));
    [injection H as _ <-; repeat split; [exact Hb | reflexivity..]|].
  destruct (Renderer.positions (Geometry.state c)) as [positions|];
    [|injection H as _ <-; repeat split; [exact Hb | reflexivity..]].
  destruct (negb _);
    [injection H as _ <-; repeat split; [exact Hb | reflexivity..]|].
  cbv zeta in H.
  match type of H with
  | JS.bind ?x _ = _ => destruct x as [pools|]; cbn [JS.bind] in H; [|discriminate H]
  end.
  injection H as _ <-. unfold Geometry._setBoundaryDirty.
  cbn [Geometry.boundaryDirty Geometry.set_state]. rewrite Hb.
  cbn. repeat split; [exact Hb | reflexivity..].
Qed.

Lemma addGeometry_stats e p g :
  Renderer.memoryStats (fst (SceneVertexBufs.addGeometry e p g)) = Renderer.memoryStats e.
Proof.
  unfold SceneVertexBufs.addGeometry.
  destruct (Renderer.positions g), (Renderer.indices g); reflexivity.
Qed.

Lemma getSceneVertexBufs_env s st :
  Geometry.env (fst (fst (Geometry.getSceneVertexBufs s st))) = Geometry.env s.
Proof.
  unfold Geometry.getSceneVertexBufs. destruct (Geometry.findPool _ _); reflexivity.
Qed.

Lemma buildVBOs_stats e st :
  let r := Geometry._buildVBOs e st in
  Renderer.ms_indices (Renderer.memoryStats (fst r))
  = (Renderer.ms_indices (Renderer.memoryStats e)
     + match Renderer.indices st with Some ix => Renderer.length ix | None => 0 end)%nat /\
  Renderer.meshes (Renderer.memoryStats (fst r)) = Renderer.meshes (Renderer.memoryStats e) /\
  Renderer.combined (snd r) = Renderer.combined st.
Proof.
  unfold Geometry._buildVBOs.
  destruct (Renderer.indices st) eqn:Ei; destruct (Renderer.combined st) eqn:Ec;
    destruct (Renderer.positions st) eqn:Ep, (Renderer.normals st) eqn:En,
      (Renderer.colors st) eqn:Ecol, (Renderer.uv st) eqn:Eu;
    cbn -[Nat.add]; rewrite ?Ec, ?Ep; cbn -[Nat.add]; rewrite ?En; cbn -[Nat.add];
    rewrite ?Ecol; cbn -[Nat.add]; rewrite ?Eu; cbn -[Nat.add]; rewrite ?Ec;
    (split; [lia | split; reflexivity]).
Qed.

(** [_init] counts the indices it accepts twice in [memoryStats.indices],
    for the index buffer it makes and for the one [_buildVBOs] makes in its
    place, and the geometry once in [memoryStats.meshes]. *)
Lemma initBuffers_stats s c st :
  let r := Geometry.initBuffers s c st in
  Renderer.ms_indices (Renderer.memoryStats (Geometry.env (fst r)))
  = (Renderer.ms_indices (Renderer.memoryStats (Geometry.env s))
     + 2 * match Renderer.indices st with Some ix => Renderer.length ix | None => 0 end)%nat /\
  Renderer.meshes (Renderer.memoryStats (Geometry.env (fst r)))
  = (Renderer.meshes (Renderer.memoryStats (Geometry.env s)) + 1)%Z.
Proof.
  unfold Geometry.initBuffers.
  set (first := match Renderer.indices st with Some ix => _ | None => _ end).
  assert (H0 : Renderer.ms_indices (Renderer.memoryStats (fst first))
               = (Renderer.ms_indices (Renderer.memoryStats (Geometry.env s))
                  + match Renderer.indices st with
                    | Some ix => Renderer.length ix | None => 0 end)%nat /\
               Renderer.meshes (Renderer.memoryStats (fst first))
               = Renderer.meshes (Renderer.memoryStats (Geometry.env s)) /\
               Renderer.indices (snd first) = Renderer.indices st).
  { unfold first. destruct (Renderer.indices st) eqn:Ei; cbn -[Nat.add]; rewrite ?Ei;
      repeat split; first [reflexivity | lia]. }
  destruct first as [e0 st0]. cbn [fst snd] in H0. destruct H0 as (I0 & M0 & X0).
  pose proof (buildVBOs_stats e0 st0) as H1.
  destruct (Geometry._buildVBOs e0 st0) as [e1 st1]. cbn [fst snd] in H1.
  destruct H1 as (I1 & M1 & C1). rewrite X0 in I1.
  change (Renderer.combined (Geometry._buildHash st1)) with (Renderer.combined st1).
  destruct (Renderer.combined st1).
  - match goal with
    | |- context [Geometry.getSceneVertexBufs ?a ?b] =>
        pose proof (getSceneVertexBufs_env a b) as He;
        destruct (Geometry.getSceneVertexBufs a b) as [[s2 hash] p]
    end.
    cbn [fst] in He.
    match goal with
    | |- context [SceneVertexBufs.addGeometry ?a ?b ?c] =>
        pose proof (addGeometry_stats a b c) as Ha;
        destruct (SceneVertexBufs.addGeometry a b c) as [e3 p3]
    end.
    cbn [fst] in Ha. cbn [fst Geometry.env]. rewrite Ha, He. cbn -[Nat.add Nat.mul].
    split; [lia | rewrite M1, M0; reflexivity].
  - cbn -[Nat.add Nat.mul]. split; [lia | rewrite M1, M0; reflexivity].
Qed.

Lemma initAttributes_stats s st cfg :
  Renderer.memoryStats (Geometry.env (fst (Geometry.initAttributes sqrt s st cfg)))
  = Renderer.memoryStats (Geometry.env s).
Proof.
  unfold Geometry.initAttributes.
  destruct (Geometry.primitiveOf _);
    destruct (Geometry.cfg_positions cfg), (Geometry.cfg_colors cfg), (Geometry.cfg_uv cfg),
      (Geometry.cfg_normals cfg); reflexivity.
Qed.

Lemma asIndexArray_length a :
  Renderer.length (Geometry.asIndexArray big a) = length (Geometry.items a).
Proof.
  unfold Geometry.asIndexArray, SceneVertexBufs.IndexArray.
  destruct a as [l|[l|l|l|l]]; destruct big; cbn; rewrite ?length_map; reflexivity.
Qed.

Lemma buildVBOs_primitive e st :
  let r := Geometry._buildVBOs e st in
  Renderer.primitive (snd r) = Renderer.primitive st /\
  Renderer.primitiveName (snd r) = Renderer.primitiveName st.
Proof.
  unfold Geometry._buildVBOs.
  destruct (Renderer.indices st) eqn:Ei; destruct (Renderer.combined st) eqn:Ec;
    destruct (Renderer.positions st) eqn:Ep, (Renderer.normals st) eqn:En,
      (Renderer.colors st) eqn:Ecol, (Renderer.uv st) eqn:Eu;
    cbn; rewrite ?Ec, ?Ep; cbn; rewrite ?En; cbn;
    rewrite ?Ecol; cbn; rewrite ?Eu; cbn; split; reflexivity.
Qed.

(** [initBuffers] keeps the primitive and its name, and only adds to the
    diagnostics. *)
Lemma initBuffers_primitive s c st :
  let r := Geometry.initBuffers s c st in
  Renderer.primitive (Geometry.state (snd r)) = Renderer.primitive st /\
  Renderer.primitiveName (Geometry.state (snd r)) = Renderer.primitiveName st /\
  exists rest,
    Renderer.messages (Geometry.env (fst r)) = Renderer.messages (Geometry.env s) ++ rest.
Proof.
  unfold Geometry.initBuffers.
  set (first := match Renderer.indices st with Some ix => _ | None => _ end).
  assert (H0 : Renderer.primitive (snd first) = Renderer.primitive st /\
               Renderer.primitiveName (snd first) = Renderer.primitiveName st /\
               Renderer.messages (fst first) = Renderer.messages (Geometry.env s)).
  { unfold first. destruct (Renderer.indices st); repeat split; reflexivity. }
  destruct first as [e0 st0]. cbn [fst snd] in H0. destruct H0 as (P0 & N0 & M0).
  pose proof (buildVBOs_primitive e0 st0) as H1.
  pose proof (buildVBOs_frame e0 st0) as H2.
  destruct (Geometry._buildVBOs e0 st0) as [e1 st1]. cbn [fst snd] in H1, H2.
  destruct H1 as (P1 & N1). destruct H2 as (M1 & _).
  change (Renderer.combined (Geometry._buildHash st1)) with (Renderer.combined st1).
  destruct (Renderer.combined st1).
  - match goal with
    | |- context [Geometry.getSceneVertexBufs ?a ?b] =>
        pose proof (getSceneVertexBufs_env a b) as He;
        destruct (Geometry.getSceneVertexBufs a b) as [[s2 hash] p]
    end.
    cbn [fst] in He.
    assert (Ha : exists rest,
               Renderer.messages
                 (fst (SceneVertexBufs.addGeometry (Geometry.env s2) p
                                                   (Geometry._buildHash st1)))
               = Renderer.messages (Geometry.env s2) ++ rest).
    { unfold SceneVertexBufs.addGeometry.
      destruct (Renderer.positions (Geometry._buildHash st1)),
        (Renderer.indices (Geometry._buildHash st1)); cbn;
        first [exists []; rewrite app_nil_r; reflexivity | eexists; reflexivity]. }
    destruct (SceneVertexBufs.addGeometry _ _ _) as [e3 p3].
    cbn [fst] in Ha. destruct Ha as (rest & Ha).
    cbn. split; [congruence|]. split; [congruence|].
    exists rest. rewrite Ha, He. cbn. rewrite M1, M0. reflexivity.
  - cbn. split; [congruence|]. split; [congruence|].
    exists []. rewrite app_nil_r, M1, M0. reflexivity.
Qed.

Lemma initAttributes_unsupported s st cfg name :
  Geometry.cfg_primitive cfg = Some name ->
  name <> ""%string ->
  Geometry.primitiveOf name = None ->
  let r := Geometry.initAttributes sqrt s st cfg in
  Renderer.primitive (snd r) = Some Renderer.TRIANGLES /\
  Renderer.primitiveName (snd r) = Some name /\
  primitiveDiagnostics cfg = [Renderer.Error_unsupported_primitive name].
Proof.
  intros Hname Hne Hnone.
  assert (E : String.eqb name "" = false) by (apply String.eqb_neq; exact Hne).
  unfold Geometry.initAttributes, primitiveDiagnostics. rewrite Hname, E, Hnone.
  destruct (Geometry.cfg_positions cfg), (Geometry.cfg_colors cfg), (Geometry.cfg_uv cfg),
    (Geometry.cfg_normals cfg), (Renderer.quantized st) eqn:Eq;
    repeat (cbn [fst snd Renderer.quantized Renderer.primitive Renderer.primitiveName
                 Renderer.set_primitive Renderer.set_primitiveName Renderer.set_positions
                 Renderer.set_positionsDecodeMatrix Renderer.set_colors Renderer.set_uv
                 Renderer.set_uvDecodeMatrix Renderer.set_normals];
            rewrite ?Eq);
    repeat split; reflexivity.
Qed.

Lemma typedSet_length a source :
  Renderer.length a = length source -> Renderer.length (Renderer.typedSet a source) = length source.
Proof. destruct a; cbn; rewrite ?length_map; reflexivity. Qed.

Lemma sameShape_refl a : sameShape a a.
Proof. repeat split; reflexivity. Qed.

Lemma sameShape_trans a b c : sameShape a b -> sameShape b c -> sameShape a c.
Proof.
  unfold sameShape. intros (A1 & A2 & A3 & A4 & A5 & A6 & A7 & A8)
                           (B1 & B2 & B3 & B4 & B5 & B6 & B7 & B8).
  repeat split; congruence.
Qed.

(** The pool update of a setter returns for an attached component, and
    leaves it attached. *)
Lemma updatePool_attached s c st setX :
  attached s c ->
  Renderer.combined st = Renderer.combined (Geometry.state c) ->
  exists pools,
    Geometry.updatePool s c st setX = JS.Normal pools /\
    attached (Geometry.mkScene (Geometry.env s) pools true) (Geometry.set_state c st).
Proof.
  intros Ha Hc. unfold Geometry.updatePool. rewrite Hc.
  destruct (Renderer.combined (Geometry.state c)) eqn:Ec.
  - destruct (Ha Ec) as (hash & p & Hh & Hp).
    unfold Geometry.poolOf. rewrite Hh, Hp. cbn [JS.bind].
    eexists. split; [reflexivity|]. intros _. exists hash. eexists.
    cbn. split; [exact Hh | apply findPool_storePool].
  - eexists. split; [reflexivity|]. intros H. cbn in H. congruence.
Qed.

Lemma set_positions_updatePool s c newPositions :
  Geometry.set_positions s c newPositions
  = if Renderer.quantized (Geometry.state c)
    then JS.Normal (Geometry.report s (Renderer.Error_quantized_immutable "positions"), c)
    else
      match Renderer.positions (Geometry.state c) with
      | None => JS.Normal (Geometry.report s (Renderer.Error_no_attribute "positions"), c)
      | Some positions =>
          if negb (Renderer.length positions =? length (Geometry.items newPositions))%nat
          then JS.Normal (Geometry.report s (Renderer.Error_wrong_length "positions"), c)
          else
            let positions := Renderer.typedSet positions (Geometry.items newPositions) in
            let st := Renderer.set_positions (Geometry.state c) (Some positions) in
            let st := match Renderer.positionsBuf st with
                      | Some buf =>
                          Renderer.set_positionsBuf st (Some (Renderer.setData buf positions))
                      | None => st
                      end in
            JS.bind (Geometry.updatePool s c st SceneVertexBufs.setPositions)
              (fun pools =>
                 JS.Normal (Geometry.mkScene (Geometry.env s) pools true,
                            Geometry._setBoundaryDirty (Geometry.set_state c st)))
      end.
Proof. reflexivity. Qed.

Lemma attached_report s c m : attached s c -> attached (Geometry.report s m) c.
Proof. intros H. exact H. Qed.

Lemma attached_setBoundaryDirty s c :
  attached s c -> attached s (Geometry._setBoundaryDirty c).
Proof.
  intros H. unfold Geometry._setBoundaryDirty. destruct (Geometry.boundaryDirty c); exact H.
Qed.

Lemma state_setBoundaryDirty c :
  Geometry.state (Geometry._setBoundaryDirty c) = Geometry.state c.
Proof. unfold Geometry._setBoundaryDirty. destruct (Geometry.boundaryDirty c); reflexivity. Qed.

(** Every setter returns on an attached component, leaves it attached and
    keeps the shape of its state; it leaves the state of a quantized
    geometry as it is. *)
Lemma update_shape s c u :
  attached s c ->
  exists s' c',
    update s c u = JS.Normal (s', c') /\
    attached s' c' /\
    sameShape (Geometry.state c') (Geometry.state c) /\
    (Renderer.quantized (Geometry.state c) = true -> Geometry.state c' = Geometry.state c).
Proof.
  intros Ha. destruct u as [a|a|a|a]; cbn [update];
    [rewrite set_positions_updatePool | unfold Geometry.set_normals
     | unfold Geometry.set_uv | unfold Geometry.set_colors];
    (destruct (Renderer.quantized (Geometry.state c)) eqn:Eq;
     [do 2 eexists; split; [reflexivity|]; split; [exact Ha|];
      split; [apply sameShape_refl | reflexivity]|]).
  - destruct (Renderer.positions (Geometry.state c)) as [x|] eqn:Ex;
      [|do 2 eexists; split; [reflexivity|]; split; [exact Ha|];
        split; [apply sameShape_refl | discriminate]].
    destruct (Nat.eqb_spec (Renderer.length x) (length (Geometry.items a))) as [El|_];
      cbn [negb];
      [|do 2 eexists; split; [reflexivity|]; split; [exact Ha|];
        split; [apply sameShape_refl | discriminate]].
    cbv zeta.
    match goal with |- context [Geometry.updatePool s c ?st ?f] =>
      destruct (@updatePool_attached s c st f Ha) as (pools & -> & Ha');
        [destruct (Renderer.positionsBuf _); reflexivity|];
        set (st' := st) in *
    end.
    cbn [JS.bind]. do 2 eexists. split; [reflexivity|].
    split; [apply attached_setBoundaryDirty; exact Ha'|].
    rewrite state_setBoundaryDirty. cbn [Geometry.state Geometry.set_state].
    split; [|discriminate].
    unfold st', sameShape, elements. destruct (Renderer.positionsBuf _); cbn;
      rewrite Ex; cbn; rewrite (typedSet_length _ _ El), El; repeat split; reflexivity.
  - destruct (Renderer.normals (Geometry.state c)) as [x|] eqn:Ex;
      [|do 2 eexists; split; [reflexivity|]; split; [exact Ha|];
        split; [apply sameShape_refl | discriminate]].
    destruct (Nat.eqb_spec (Renderer.length x) (length (Geometry.items a))) as [El|_];
      cbn [negb];
      [|do 2 eexists; split; [reflexivity|]; split; [exact Ha|];
        split; [apply sameShape_refl | discriminate]].
    cbv zeta.
    match goal with |- context [Geometry.updatePool s c ?st ?f] =>
      destruct (@updatePool_attached s c st f Ha) as (pools & -> & Ha');
        [destruct (Renderer.normalsBuf _); reflexivity|];
        set (st' := st) in *
    end.
    cbn [JS.bind]. do 2 eexists. split; [reflexivity|]. split; [exact Ha'|].
    cbn [Geometry.state Geometry.set_state]. split; [|discriminate].
    unfold st', sameShape, elements. destruct (Renderer.normalsBuf _); cbn;
      rewrite Ex; cbn; rewrite (typedSet_length _ _ El), El; repeat split; reflexivity.
  - destruct (Renderer.uv (Geometry.state c)) as [x|] eqn:Ex;
      [|do 2 eexists; split; [reflexivity|]; split; [exact Ha|];
        split; [apply sameShape_refl | discriminate]].
    destruct (Nat.eqb_spec (Renderer.length x) (length (Geometry.items a))) as [El|_];
      cbn [negb];
      [|do 2 eexists; split; [reflexivity|]; split; [exact Ha|];
        split; [apply sameShape_refl | discriminate]].
    cbv zeta.
    match goal with |- context [Geometry.updatePool s c ?st ?f] =>
      destruct (@updatePool_attached s c st f Ha) as (pools & -> & Ha');
        [destruct (Renderer.uvBuf _); reflexivity|];
        set (st' := st) in *
    end.
    cbn [JS.bind]. do 2 eexists. split; [reflexivity|]. split; [exact Ha'|].
    cbn [Geometry.state Geometry.set_state]. split; [|discriminate].
    unfold st', sameShape, elements. destruct (Renderer.uvBuf _); cbn;
      rewrite Ex; cbn; rewrite (typedSet_length _ _ El), El; repeat split; reflexivity.
  - destruct (Renderer.colors (Geometry.state c)) as [x|] eqn:Ex;
      [|do 2 eexists; split; [reflexivity|]; split; [exact Ha|];
        split; [apply sameShape_refl | discriminate]].
    destruct (Nat.eqb_spec (Renderer.length x) (length (Geometry.items a))) as [El|_];
      cbn [negb];
      [|do 2 eexists; split; [reflexivity|]; split; [exact Ha|];
        split; [apply sameShape_refl | discriminate]].
    cbv zeta.
    match goal with |- context [Geometry.updatePool s c ?st ?f] =>
      destruct (@updatePool_attached s c st f Ha) as (pools & -> & Ha');
        [destruct (Renderer.colorsBuf _); reflexivity|];
        set (st' := st) in *
    end.
    cbn [JS.bind]. do 2 eexists. split; [reflexivity|]. split; [exact Ha'|].
    cbn [Geometry.state Geometry.set_state]. split; [|discriminate].
    unfold st', sameShape, elements. destruct (Renderer.colorsBuf _); cbn;
      rewrite Ex; cbn; rewrite (typedSet_length _ _ El), El; repeat split; reflexivity.
Qed.

Lemma updates_shape :
  forall us s c,
    attached s c ->
    exists s' c',
      updates s c us = JS.Normal (s', c') /\
      attached s' c' /\
      sameShape (Geometry.state c') (Geometry.state c) /\
      (Renderer.quantized (Geometry.state c) = true -> Geometry.state c' = Geometry.state c).
Proof.
  induction us as [|u rest IH]; intros s c Ha.
  - exists s, c. split; [reflexivity|]. split; [exact Ha|].
    split; [apply sameShape_refl | reflexivity].
  - destruct (@update_shape s c u Ha) as (s1 & c1 & Hu & Ha1 & Hs1 & Hq1).
    destruct (IH s1 c1 Ha1) as (s2 & c2 & Hr & Ha2 & Hs2 & Hq2).
    exists s2, c2. cbn [updates]. rewrite Hu. cbn [JS.bind fst snd].
    split; [exact Hr|]. split; [exact Ha2|].
    split; [exact (sameShape_trans Hs2 Hs1)|].
    intros Hq. assert (Hq' : Renderer.quantized (Geometry.state c1) = true).
    { destruct Hs1 as (_ & _ & _ & _ & _ & _ & E & _). congruence. }
    rewrite (Hq2 Hq'). exact (Hq1 Hq).
Qed.

Lemma initBuffers_attached s c st :
  attached (fst (Geometry.initBuffers s c st)) (snd (Geometry.initBuffers s c st)).
Proof.
  unfold Geometry.initBuffers.
  destruct (match Renderer.indices st with Some ix => _ | None => _ end) as [e0 st0].
  destruct (Geometry._buildVBOs e0 st0) as [e1 st1].
  set (st2 := Geometry._buildHash st1).
  destruct (Renderer.combined st2) eqn:Ec.
  - destruct (Geometry.getSceneVertexBufs _ st2) as [[s2 hash] p].
    destruct (SceneVertexBufs.addGeometry (Geometry.env s2) p st2) as [e3 p3].
    intros _. exists hash, p3. cbn. split; [reflexivity | apply findPool_storePool].
  - intros H. cbn in H. unfold st2 in Ec. cbn in Ec. congruence.
Qed.

Lemma init_attached s id cfg :
  indicesRefused big cfg = false ->
  attached (fst (Geometry._init big sqrt s id cfg)) (snd (Geometry._init big sqrt s id cfg)).
Proof.
  intros Href. unfold Geometry._init, indicesRefused in *.
  destruct (Geometry.initAttributes sqrt _ _ cfg) as [s1 st1].
  destruct (Geometry.cfg_indices cfg) as [a|].
  - rewrite Href. apply initBuffers_attached.
  - apply initBuffers_attached.
Qed.

Lemma findPool_storePool_other pools hash h p :
  h <> hash -> Geometry.findPool (Geometry.storePool pools hash p) h = Geometry.findPool pools h.
Proof.
  intros Hne. induction pools as [|[h0 q] pools IH]; cbn.
  - destruct (String.eqb_spec hash h) as [E|_]; [congruence | reflexivity].
  - destruct (String.eqb_spec h0 hash) as [E|E]; cbn.
    + subst h0. destruct (String.eqb_spec hash h) as [E'|_]; [congruence | reflexivity].
    + rewrite IH. reflexivity.
Qed.

End GeometryUpdates.

(** X13. On a component that [_init] has made, an update of the positions
    does not invalidate the bounding box: [aabb], read before the update,
    is computed from the positions the component then had, and a read after
    the update returns that same box without computing it again. No
    [boundary] event is fired. *)
Theorem positions_update_keeps_the_cached_aabb :
  forall (big : bool) (sqrt : JS.num -> JS.num) (AABB3 : list JS.num)
         (positions3ToAABB3 : option Renderer.TypedArray -> list JS.num ->
                              option (list JS.num) -> list JS.num)
         (s : Geometry.Scene) (id : JS.key) (cfg : Geometry.Config)
         (newPositions : Geometry.ArrayLike) (s2 : Geometry.Scene) (c2 : Geometry.Component),
    let s1 := fst (Geometry._init big sqrt s id cfg) in
    let c1 := snd (Geometry._init big sqrt s id cfg) in
    let read1 := Geometry.get_aabb AABB3 positions3ToAABB3 (Geometry.mkBoxed c1 None) in
    Geometry.set_positions s1 (Geometry.component (fst read1)) newPositions
    = JS.Normal (s2, c2) ->
    snd read1
    = Some (positions3ToAABB3 (Renderer.positions (Geometry.state c1)) AABB3
                              (Renderer.positionsDecodeMatrix (Geometry.state c1))) /\
    Geometry.get_aabb AABB3 positions3ToAABB3
                      (Geometry.mkBoxed c2 (Geometry._aabb (fst read1)))
    = (Geometry.mkBoxed c2 (Geometry._aabb (fst read1)), snd read1) /\
    Geometry.boundaryEvents c2 = 0%nat.
Proof.
  intros big sqrt AABB3 toAABB s id cfg np s2 c2 s1 c1 read1 H.
  destruct (init_flags big sqrt s id cfg) as (Hb & Ha & _ & He).
  fold c1 in Hb, Ha, He.
  assert (Hread : read1
                  = (Geometry.mkBoxed
                       (Geometry.mkComponent
                          (Geometry.state c1) (Geometry.ghostEdgeThreshold c1)
                          (Geometry.edgesIndicesBuf c1) (Geometry.pickTrianglePositionsBuf c1)
                          (Geometry.pickTriangleColorsBuf c1) (Geometry.boundaryDirty c1) false
                          (Geometry.obbDirty c1) (Geometry.sceneVertexBufsOf c1)
                          (Geometry.boundaryEvents c1) (Geometry.created c1))
                       (Some (toAABB (Renderer.positions (Geometry.state c1)) AABB3
                                     (Renderer.positionsDecodeMatrix (Geometry.state c1)))),
                     Some (toAABB (Renderer.positions (Geometry.state c1)) AABB3
                                  (Renderer.positionsDecodeMatrix (Geometry.state c1))))).
  { unfold read1, Geometry.get_aabb. cbn [Geometry.component Geometry._aabb].
    rewrite Ha. reflexivity. }
  rewrite Hread in *. cbn [fst snd Geometry.component Geometry._aabb] in *.
  apply set_positions_flags in H; [|exact Hb].
  destruct H as (_ & Ha2 & _ & He2).
  cbn in Ha2, He2.
  split; [reflexivity|]. split; [|congruence].
  unfold Geometry.get_aabb. cbn [Geometry.component Geometry._aabb]. rewrite Ha2.
  reflexivity.
Qed.

Lemma triangle_update_keeps_the_cached_aabb :
  let s1 := fst (Geometry._init false newton_sqrt emptyScene (JS.Str "g")
                                (triangleConfig false false JS.VUndefined)) in
  let c1 := snd (Geometry._init false newton_sqrt emptyScene (JS.Str "g")
                                (triangleConfig false false JS.VUndefined)) in
  let read1 := Geometry.get_aabb (repeat (JS.Fin 0) 6) boundsBox (Geometry.mkBoxed c1 None) in
  Geometry.set_positions s1 (Geometry.component (fst read1)) largerTriangle
  = JS.Normal (fst triangleUpdated, snd triangleUpdated) /\
  Renderer.positions (Geometry.state (snd triangleUpdated))
  = Some (Renderer.Float32Array (Geometry.items largerTriangle)) /\
  Geometry.get_aabb (repeat (JS.Fin 0) 6) boundsBox
                    (Geometry.mkBoxed (snd triangleUpdated) (Geometry._aabb (fst read1)))
  = (Geometry.mkBoxed (snd triangleUpdated) (Geometry._aabb (fst read1)), snd read1).
Proof.
  pose proof (@positions_update_keeps_the_cached_aabb
                false newton_sqrt (repeat (JS.Fin 0) 6) boundsBox emptyScene (JS.Str "g")
                (triangleConfig false false JS.VUndefined) largerTriangle
                (fst triangleUpdated) (snd triangleUpdated)) as T.
  cbv zeta in *.
  assert (H : Geometry.set_positions
                (fst (Geometry._init false newton_sqrt emptyScene (JS.Str "g")
                                     (triangleConfig false false JS.VUndefined)))
                (Geometry.component
                   (fst (Geometry.get_aabb (repeat (JS.Fin 0) 6) boundsBox
                           (Geometry.mkBoxed
                              (snd (Geometry._init false newton_sqrt emptyScene (JS.Str "g")
                                      (triangleConfig false false JS.VUndefined))) None))))
                largerTriangle
              = JS.Normal (fst triangleUpdated, snd triangleUpdated))
    by (vm_compute; reflexivity).
  split; [exact H|]. split; [vm_compute; reflexivity|].
  exact (proj1 (proj2 (T H))).
Defined.

(** X14. [_init] counts the indices it accepts twice in
    [memoryStats.indices], once for the index buffer it makes itself and
    once for the one [_buildVBOs] makes in its place, and the geometry once
    in [memoryStats.meshes]; when it refuses the indices it counts
    nothing. *)
Theorem init_counts_the_indices_twice :
  forall (big : bool) (sqrt : JS.num -> JS.num) (s : Geometry.Scene) (id : JS.key)
         (cfg : Geometry.Config),
    let s' := fst (Geometry._init big sqrt s id cfg) in
    let n := match Geometry.cfg_indices cfg with
             | Some a => length (Geometry.items a)
             | None => 0%nat
             end in
    Renderer.ms_indices (Renderer.memoryStats (Geometry.env s'))
    = (Renderer.ms_indices (Renderer.memoryStats (Geometry.env s))
       + (if indicesRefused big cfg then 0 else 2 * n))%nat /\
    Renderer.meshes (Renderer.memoryStats (Geometry.env s'))
    = (Renderer.meshes (Renderer.memoryStats (Geometry.env s))
       + (if indicesRefused big cfg then 0 else 1))%Z.
Proof.
  intros big sqrt s id cfg. unfold Geometry._init, indicesRefused.
  match goal with |- context [Geometry.initAttributes sqrt ?a ?b ?c] =>
    pose proof (initAttributes_stats sqrt a b c) as Hs;
    pose proof (initAttributes_frame sqrt a b c) as Hf;
    destruct (Geometry.initAttributes sqrt a b c) as [s1 st1]
  end.
  cbn [fst snd] in Hs, Hf. destruct Hf as (_ & _ & Hi & _). cbn in Hi.
  destruct (Geometry.cfg_indices cfg) as [a|].
  - destruct (negb big && Geometry.isUint32Array a).
    + cbn -[Nat.add Nat.mul]. rewrite Hs. split; [lia | ring].
    + match goal with |- context [Geometry.initBuffers ?a ?b ?c] =>
        destruct (initBuffers_stats a b c) as (I & M)
      end.
      cbv zeta. rewrite I, M, Hs. cbn [Renderer.indices Renderer.set_indices].
      rewrite asIndexArray_length. split; reflexivity.
  - match goal with |- context [Geometry.initBuffers ?a ?b ?c] =>
      destruct (initBuffers_stats a b c) as (I & M)
    end.
    cbv zeta. rewrite I, M, Hs, Hi. split; reflexivity.
Qed.

(** X15. [_init] given a [Uint32Array] of indices on a platform without
    32-bit indices reports the error and returns at once: the component is
    not marked created, has no indices and belongs to no pool, and the pools
    of the scene are as they were. If it is combined, asking it for its
    vertex buffers throws. *)
Theorem init_refused_indices_leaves_component_unregistered :
  forall (big : bool) (sqrt : JS.num -> JS.num) (s : Geometry.Scene) (id : JS.key)
         (cfg : Geometry.Config),
    indicesRefused big cfg = true ->
    let s' := fst (Geometry._init big sqrt s id cfg) in
    let c := snd (Geometry._init big sqrt s id cfg) in
    Geometry.created c = false /\
    Renderer.messages (Geometry.env s')
    = Renderer.messages (Geometry.env s) ++ primitiveDiagnostics cfg
      ++ [Renderer.Error_no_Uint32Array] /\
    Renderer.indices (Geometry.state c) = None /\
    Geometry.sceneVertexBufsOf c = None /\
    Geometry.sceneVertexBufs s' = Geometry.sceneVertexBufs s /\
    (JS.truthy_value (Geometry.cfg_combined cfg) = true ->
     Geometry._getVertexBufs big s' c = JS.Throw "TypeError").
Proof.
  intros big sqrt s id cfg Href. unfold Geometry._init, indicesRefused in *.
  match goal with |- context [Geometry.initAttributes sqrt ?a ?b ?c] =>
    pose proof (initAttributes_state sqrt a b c) as Hs;
    pose proof (initAttributes_frame sqrt a b c) as Hf;
    destruct (Geometry.initAttributes sqrt a b c) as [s1 st1]
  end.
  cbn [fst snd] in Hs, Hf. destruct Hf as (Hm & Hp & Hi & _). cbn in Hi.
  destruct Hs as (_ & _ & Hc). cbn in Hc.
  destruct (Geometry.cfg_indices cfg) as [a|]; [|discriminate Href].
  rewrite Href. cbn [fst snd Geometry.created Geometry.set_state Geometry.state
                     Geometry.sceneVertexBufsOf Geometry.report Geometry.env
                     Geometry.sceneVertexBufs Renderer.report Renderer.messages].
  split; [reflexivity|]. split; [rewrite Hm, app_assoc; reflexivity|].
  split; [exact Hi|]. split; [reflexivity|]. split; [exact Hp|].
  intros Hcomb. unfold Geometry._getVertexBufs, Geometry.poolOf.
  cbn [Geometry.state Geometry.set_state Geometry.sceneVertexBufsOf].
  rewrite Hc, Hcomb. reflexivity.
Qed.

Lemma refused_triangle_is_left_unregistered :
  indicesRefused false refusedConfig = true /\
  Geometry.created
    (snd (Geometry._init false newton_sqrt emptyScene (JS.Str "g") refusedConfig)) = false /\
  Geometry._getVertexBufs
    false (fst (Geometry._init false newton_sqrt emptyScene (JS.Str "g") refusedConfig))
    (snd (Geometry._init false newton_sqrt emptyScene (JS.Str "g") refusedConfig))
  = JS.Throw "TypeError".
Proof.
  pose proof (@init_refused_indices_leaves_component_unregistered
                false newton_sqrt emptyScene (JS.Str "g") refusedConfig eq_refl) as T.
  cbv zeta in T. split; [reflexivity|].
  split; [exact (proj1 T) | exact (proj2 (proj2 (proj2 (proj2 (proj2 T)))) eq_refl)].
Defined.

(** X16. A primitive name that [_init] does not know is reported and the
    geometry is drawn as triangles, but the name is kept: the [primitive]
    getter returns the unsupported name, not ["triangles"]. *)
Theorem unsupported_primitive_keeps_its_name :
  forall (big : bool) (sqrt : JS.num -> JS.num) (s : Geometry.Scene) (id : JS.key)
         (cfg : Geometry.Config) (name : string),
    Geometry.cfg_primitive cfg = Some name ->
    name <> ""%string ->
    Geometry.primitiveOf name = None ->
    let s' := fst (Geometry._init big sqrt s id cfg) in
    let c := snd (Geometry._init big sqrt s id cfg) in
    Renderer.primitive (Geometry.state c) = Some Renderer.TRIANGLES /\
    Geometry.get_primitive c = Some name /\
    exists rest,
      Renderer.messages (Geometry.env s')
      = Renderer.messages (Geometry.env s)
        ++ Renderer.Error_unsupported_primitive name :: rest.
Proof.
  intros big sqrt s id cfg name Hname Hne Hnone. unfold Geometry._init, Geometry.get_primitive.
  match goal with |- context [Geometry.initAttributes sqrt ?a ?b ?c] =>
    pose proof (@initAttributes_unsupported sqrt a b c name Hname Hne Hnone) as Hu;
    pose proof (initAttributes_frame sqrt a b c) as Hf;
    destruct (Geometry.initAttributes sqrt a b c) as [s1 st1]
  end.
  cbn [fst snd] in Hu, Hf. destruct Hu as (Hp & Hn & Hd). destruct Hf as (Hm & _).
  rewrite Hd in Hm.
  destruct (Geometry.cfg_indices cfg) as [a|].
  - destruct (negb big && Geometry.isUint32Array a).
    + cbn. split; [exact Hp|]. split; [exact Hn|].
      exists [Renderer.Error_no_Uint32Array]. rewrite Hm, <- app_assoc. reflexivity.
    + match goal with |- context [Geometry.initBuffers ?a ?b ?c] =>
        destruct (initBuffers_primitive a b c) as (P & N & rest & M)
      end.
      cbv zeta. rewrite P, N, M, Hm. cbn.
      split; [exact Hp|]. split; [exact Hn|]. exists rest. rewrite <- app_assoc. reflexivity.
  - match goal with |- context [Geometry.initBuffers ?a ?b ?c] =>
      destruct (initBuffers_primitive a b c) as (P & N & rest & M)
    end.
    cbv zeta. rewrite P, N, M, Hm.
    split; [exact Hp|]. split; [exact Hn|]. exists rest. rewrite <- app_assoc. reflexivity.
Qed.

Lemma quads_are_drawn_as_triangles_under_their_name :
  Renderer.primitive
    (Geometry.state (snd (Geometry._init false newton_sqrt emptyScene (JS.Str "g")
                                         quadsConfig)))
  = Some Renderer.TRIANGLES /\
  Geometry.get_primitive
    (snd (Geometry._init false newton_sqrt emptyScene (JS.Str "g") quadsConfig))
  = Some "quads"%string.
Proof.
  pose proof (@unsupported_primitive_keeps_its_name
                false newton_sqrt emptyScene (JS.Str "g") quadsConfig "quads"%string
                eq_refl ltac:(discriminate) eq_refl) as T.
  cbv zeta in T. split; [exact (proj1 T) | exact (proj1 (proj2 T))].
Defined.

(** X17. On a geometry that [_init] has made, every sequence of updates
    through the setters of positions, normals, UVs and colors returns, and
    none of them changes which attributes the geometry has or how many
    elements they have, nor its indices: the shape fixed at construction
    stays. A quantized geometry keeps its whole state. *)
Theorem updates_keep_the_shape_of_a_geometry :
  forall (big : bool) (sqrt : JS.num -> JS.num) (s : Geometry.Scene) (id : JS.key)
         (cfg : Geometry.Config) (us : list AttributeUpdate),
    indicesRefused big cfg = false ->
    let s1 := fst (Geometry._init big sqrt s id cfg) in
    let c1 := snd (Geometry._init big sqrt s id cfg) in
    exists s2 c2,
      updates s1 c1 us = JS.Normal (s2, c2) /\
      sameShape (Geometry.state c2) (Geometry.state c1) /\
      (Renderer.quantized (Geometry.state c1) = true ->
       Geometry.state c2 = Geometry.state c1).
Proof.
  intros big sqrt s id cfg us Href s1 c1.
  destruct (@updates_shape us s1 c1 (@init_attached big sqrt s id cfg Href))
    as (s2 & c2 & Hr & _ & Hs & Hq).
  exists s2, c2. split; [exact Hr|]. split; [exact Hs | exact Hq].
Qed.

Lemma triangle_updates_keep_its_shape :
  indicesRefused false (triangleConfig false true JS.VUndefined) = false /\
  exists s2 c2,
    updates (fst (Geometry._init false newton_sqrt emptyScene (JS.Str "g")
                                 (triangleConfig false true JS.VUndefined)))
            (snd (Geometry._init false newton_sqrt emptyScene (JS.Str "g")
                                 (triangleConfig false true JS.VUndefined)))
            [SetPositions largerTriangle; SetNormals largerTriangle;
             SetPositions (Geometry.Plain [])]
    = JS.Normal (s2, c2) /\
    sameShape (Geometry.state c2)
              (Geometry.state
                 (snd (Geometry._init false newton_sqrt emptyScene (JS.Str "g")
                                      (triangleConfig false true JS.VUndefined)))).
Proof.
  split; [reflexivity|].
  destruct (@updates_keep_the_shape_of_a_geometry
              false newton_sqrt emptyScene (JS.Str "g")
              (triangleConfig false true JS.VUndefined)
              [SetPositions largerTriangle; SetNormals largerTriangle;
               SetPositions (Geometry.Plain [])] eq_refl) as (s2 & c2 & Hr & Hs & _).
  exists s2, c2. split; [exact Hr | exact Hs].
Defined.

(** X18. An update of the colors of a combined geometry is written to the
    geometry's own array only: the pool's [setColors] returns before it
    touches a buffer, so the buffer sets of every pool of the scene are
    what they were before the update (as [setNormals] and [setUVs] would
    not leave them). *)
Theorem colors_update_never_reaches_the_pool :
  forall (s s' : Geometry.Scene) (c c' : Geometry.Component)
         (newColors : Geometry.ArrayLike) (colors : Renderer.TypedArray),
    Renderer.quantized (Geometry.state c) = false ->
    Renderer.colors (Geometry.state c) = Some colors ->
    Renderer.length colors = length (Geometry.items newColors) ->
    Geometry.set_colors s c newColors = JS.Normal (s', c') ->
    Renderer.colors (Geometry.state c')
    = Some (Renderer.typedSet colors (Geometry.items newColors)) /\
    Geometry.imageDirty s' = true /\
    forall hash p',
      Geometry.findPool (Geometry.sceneVertexBufs s') hash = Some p' ->
      exists p,
        Geometry.findPool (Geometry.sceneVertexBufs s) hash = Some p /\
        SceneVertexBufs.chunks p' = SceneVertexBufs.chunks p.
Proof.
  intros s s' c c' newColors colors Hq Hc Hl H.
  unfold Geometry.set_colors in H. rewrite Hq, Hc, Hl, Nat.eqb_refl in H.
  cbn [negb] in H. cbv zeta in H.
  set (st := match Renderer.colorsBuf _ with Some buf => _ | None => _ end) in H.
  assert (Hst : Renderer.colors st
                = Some (Renderer.typedSet colors (Geometry.items newColors))).
  { unfold st. destruct (Renderer.colorsBuf _); reflexivity. }
  unfold Geometry.updatePool, Geometry.poolOf in H.
  destruct (Renderer.combined st).
  - destruct (Geometry.sceneVertexBufsOf c) as [hash0|]; [|discriminate H].
    destruct (Geometry.findPool (Geometry.sceneVertexBufs s) hash0) as [p0|] eqn:Ep0;
      [|discriminate H].
    cbn [JS.bind] in H. injection H as <- <-. cbn [Geometry.state Geometry.set_state].
    split; [exact Hst|]. split; [reflexivity|].
    intros hash p' Hp'. cbn [Geometry.sceneVertexBufs] in Hp'.
    destruct (String.eqb_spec hash hash0) as [->|Hne].
    + rewrite findPool_storePool in Hp'. injection Hp' as <-.
      exists p0. split; [exact Ep0|].
      unfold SceneVertexBufs.setColors, SceneVertexBufs.aliased.
      destruct (JS.has _ _); reflexivity.
    + rewrite findPool_storePool_other in Hp' by exact Hne. exists p'. split; [exact Hp' | reflexivity].
  - cbn [JS.bind] in H. injection H as <- <-. cbn [Geometry.state Geometry.set_state].
    split; [exact Hst|]. split; [reflexivity|].
    intros hash p' Hp'. exists p'. split; [exact Hp' | reflexivity].
Qed.

Lemma colored_triangle_update_never_reaches_the_pool :
  Renderer.combined (Geometry.state (snd coloredCreated)) = true /\
  Geometry.set_colors (fst coloredCreated) (snd coloredCreated) otherColors
  = JS.Normal (fst coloredUpdated, snd coloredUpdated) /\
  Renderer.colors (Geometry.state (snd coloredUpdated))
  = Some (Renderer.Float32Array (Geometry.items otherColors)) /\
  forall hash p',
    Geometry.findPool (Geometry.sceneVertexBufs (fst coloredUpdated)) hash = Some p' ->
    exists p,
      Geometry.findPool (Geometry.sceneVertexBufs (fst coloredCreated)) hash = Some p /\
      SceneVertexBufs.chunks p' = SceneVertexBufs.chunks p.
Proof.
  assert (H : Geometry.set_colors (fst coloredCreated) (snd coloredCreated) otherColors
              = JS.Normal (fst coloredUpdated, snd coloredUpdated))
    by (vm_compute; reflexivity).
  assert (Hc : Renderer.colors (Geometry.state (snd coloredCreated))
               = Some (Renderer.Float32Array
                         (map JS.Fin [1; 0; 0; 1; 0; 1; 0; 1; 0; 0; 1; 1])))
    by (vm_compute; reflexivity).
  assert (Hq : Renderer.quantized (Geometry.state (snd coloredCreated)) = false)
    by (vm_compute; reflexivity).
  pose proof (@colors_update_never_reaches_the_pool
                (fst coloredCreated) (fst coloredUpdated)
                (snd coloredCreated) (snd coloredUpdated) otherColors _
                Hq Hc eq_refl H) as T.
  split; [vm_compute; reflexivity|]. split; [exact H|].
  split; [exact (proj1 T) | exact (proj2 (proj2 T))].
Defined.

Lemma signature_flags g p :
  Geometry.signature g = poolSignature p ->
  SceneVertexBufs.hasPositions p = JS.is_some (Renderer.positions g) /\
  SceneVertexBufs.quantized p = Renderer.quantized g /\
  SceneVertexBufs.hasNormals p = JS.is_some (Renderer.normals g) /\
  SceneVertexBufs.hasColors p = JS.is_some (Renderer.colors g) /\
  SceneVertexBufs.hasUVs p = JS.is_some (Renderer.uv g).
Proof.
  unfold Geometry.signature, poolSignature.
  generalize (JS.is_some (Renderer.positions g)) (Renderer.quantized g)
             (JS.is_some (Renderer.normals g)) (JS.is_some (Renderer.colors g))
             (JS.is_some (Renderer.uv g))
             (SceneVertexBufs.hasPositions p) (SceneVertexBufs.quantized p)
             (SceneVertexBufs.hasNormals p) (SceneVertexBufs.hasColors p)
             (SceneVertexBufs.hasUVs p).
  intros [] [] [] [] [] [] [] [] [] []; cbn; intros H;
    first [discriminate H | repeat split; reflexivity].
Qed.

Lemma signature_sameAttributes a b :
  sameAttributes a b -> Geometry.signature a = Geometry.signature b.
Proof.
  intros (_ & _ & Q & P & N & C & U & _). unfold Geometry.signature.
  rewrite Q, P, N, C, U. reflexivity.
Qed.

(** The pools after [initBuffers]: those of the scene for a geometry that
    is not combined; for a combined one, the pool of its signature (made
    when the scene has none) after [addGeometry], filed under the
    signature, and the other pools as they were. *)
Lemma initBuffers_pools s c st :
  let r := Geometry.initBuffers s c st in
  sameAttributes (Geometry.state (snd r)) st /\
  (Renderer.combined st = false ->
   Geometry.sceneVertexBufs (fst r) = Geometry.sceneVertexBufs s) /\
  (Renderer.combined st = true ->
   let hash := Geometry.signature st in
   let p0 := match Geometry.findPool (Geometry.sceneVertexBufs s) hash with
             | Some p => p
             | None =>
                 SceneVertexBufs.create (JS.is_some (Renderer.positions st))
                                        (JS.is_some (Renderer.normals st))
                                        (JS.is_some (Renderer.colors st))
                                        (JS.is_some (Renderer.uv st))
                                        (Renderer.quantized st)
             end in
   Geometry.sceneVertexBufsOf (snd r) = Some hash /\
   (exists e, Geometry.findPool (Geometry.sceneVertexBufs (fst r)) hash
              = Some (snd (SceneVertexBufs.addGeometry e p0 (Geometry.state (snd r))))) /\
   forall h, h <> hash ->
             Geometry.findPool (Geometry.sceneVertexBufs (fst r)) h
             = Geometry.findPool (Geometry.sceneVertexBufs s) h).
Proof.
  unfold Geometry.initBuffers.
  set (e0st0 := match Renderer.indices st with Some ix => _ | None => _ end).
  assert (S0 : sameAttributes (snd e0st0) st).
  { unfold e0st0, sameAttributes. destruct (Renderer.indices st) eqn:Ei; cbn;
      rewrite ?Ei; repeat split; reflexivity. }
  destruct e0st0 as [e0 st0]. cbn [fst snd] in S0.
  pose proof (buildVBOs_frame e0 st0) as H1.
  destruct (Geometry._buildVBOs e0 st0) as [e1 st1]. cbn [fst snd] in H1.
  destruct H1 as (_ & S1).
  assert (S : sameAttributes (Geometry._buildHash st1) st).
  { unfold sameAttributes in *. cbn.
    destruct S0 as (A0 & B0 & C0 & D0 & E0 & F0 & G0 & I0).
    destruct S1 as (A1 & B1 & C1 & D1 & E1 & F1 & G1 & I1).
    repeat split; congruence. }
  set (st2 := Geometry._buildHash st1) in *.
  assert (Hc : Renderer.combined st2 = Renderer.combined st) by apply S.
  pose proof (signature_sameAttributes S) as Hsig.
  rewrite Hc.
  destruct (Renderer.combined st) eqn:Ec.
  - pose proof S as (_ & _ & Sq & Sp & Sn & Sc & Su & _).
    unfold Geometry.getSceneVertexBufs. cbn [Geometry.sceneVertexBufs Geometry.env].
    rewrite Hsig, Sq, Sp, Sn, Sc, Su.
    destruct (Geometry.findPool (Geometry.sceneVertexBufs s) (Geometry.signature st))
      as [p0|] eqn:Ef; cbn [Geometry.sceneVertexBufs Geometry.env Geometry.imageDirty];
      match goal with |- context [SceneVertexBufs.addGeometry ?e ?p st2] =>
        destruct (SceneVertexBufs.addGeometry e p st2) as [e3 p3] eqn:Ea
      end;
      cbn -[Geometry.signature];
      (split; [exact S|]); (split; [discriminate|]); intros _;
      (split; [reflexivity|]); split.
    + eexists. rewrite findPool_storePool, Ea. reflexivity.
    + intros h Hne. apply findPool_storePool_other. exact Hne.
    + eexists. rewrite findPool_storePool, Ea. reflexivity.
    + intros h Hne. rewrite !findPool_storePool_other by exact Hne. reflexivity.
  - cbn. split; [exact S|]. split; [reflexivity | discriminate].
Qed.

Lemma addGeometry_signature e p g :
  poolSignature (snd (SceneVertexBufs.addGeometry e p g)) = poolSignature p.
Proof.
  unfold SceneVertexBufs.addGeometry.
  destruct (Renderer.positions g), (Renderer.indices g); reflexivity.
Qed.

Lemma addGeometry_has e p g k :
  JS.has (SceneVertexBufs.geometries p) k = true ->
  JS.has (SceneVertexBufs.geometries (snd (SceneVertexBufs.addGeometry e p g))) k = true.
Proof.
  intros H. unfold SceneVertexBufs.addGeometry.
  destruct (Renderer.positions g), (Renderer.indices g); try exact H.
  cbn. unfold JS.has in *. destruct (JS.key_eqb (Renderer.id g) k) eqn:E.
  - apply key_eqb_eq in E. subst k. rewrite lookup_assign_same. reflexivity.
  - rewrite lookup_assign_other; [exact H|].
    intros Heq. rewrite Heq, key_eqb_refl in E. discriminate E.
Qed.

Lemma addGeometry_registers e p g :
  Renderer.positions g <> None -> Renderer.indices g <> None ->
  JS.has (SceneVertexBufs.geometries (snd (SceneVertexBufs.addGeometry e p g)))
         (Renderer.id g) = true.
Proof.
  intros Hp Hi. unfold SceneVertexBufs.addGeometry.
  destruct (Renderer.positions g); [|contradiction].
  destruct (Renderer.indices g); [|contradiction].
  cbn. unfold JS.has. rewrite lookup_assign_same. reflexivity.
Qed.

Lemma is_some_true (A : Type) (o : option A) : JS.is_some o = true -> o <> None.
Proof. destruct o; [discriminate | discriminate]. Qed.

(** A pool filed under the signature of a geometry stays as [_init] wants
    it when the geometry is added. *)
Lemma addGeometry_pool e p g :
  poolSignature p = Geometry.signature g ->
  consistent p \/ (SceneVertexBufs.hasPositions p = false /\ SceneVertexBufs.geometries p = []) ->
  consistent (snd (SceneVertexBufs.addGeometry e p g)) \/
  (SceneVertexBufs.hasPositions (snd (SceneVertexBufs.addGeometry e p g)) = false /\
   SceneVertexBufs.geometries (snd (SceneVertexBufs.addGeometry e p g)) = []).
Proof.
  intros Hsig H. destruct (signature_flags g p (eq_sym Hsig)) as (Fp & _ & Fn & Fc & Fu).
  destruct H as [Hc|(Hhp & Hg)].
  - left. apply addGeometry_consistent; [exact Hc|].
    unfold matchesSignature. rewrite Fn, Fc, Fu.
    repeat split; apply is_some_true.
  - right. unfold SceneVertexBufs.addGeometry.
    rewrite Hhp in Fp. destruct (Renderer.positions g); [discriminate Fp|].
    split; assumption.
Qed.

Lemma create_pool hp hn hc hu q :
  consistent (SceneVertexBufs.create hp hn hc hu q) \/
  (SceneVertexBufs.hasPositions (SceneVertexBufs.create hp hn hc hu q) = false /\
   SceneVertexBufs.geometries (SceneVertexBufs.create hp hn hc hu q) = []).
Proof.
  destruct hp; [left; apply create_consistent | right; split; reflexivity].
Qed.

(** [initBuffers] keeps the pools of the scene consistent, registers a
    combined geometry that has positions and indices, and leaves the
    geometries registered before registered. *)
Lemma initBuffers_step s c st :
  poolsConsistent s ->
  let r := Geometry.initBuffers s c st in
  poolsConsistent (fst r) /\
  registered (fst r) (snd r) /\
  (forall c0, registered s c0 -> registered (fst r) c0).
Proof.
  intros Hs r. destruct (initBuffers_pools s c st) as (S & Hunc & Hcomb). fold r in S, Hunc, Hcomb.
  destruct (Renderer.combined st) eqn:Ec.
  - specialize (Hcomb eq_refl). cbv zeta in Hcomb.
    set (hash := Geometry.signature st) in *.
    set (p0 := match Geometry.findPool (Geometry.sceneVertexBufs s) hash with
               | Some p => p | None => _ end) in *.
    destruct Hcomb as (Hof & (e & Hfind) & Hother).
    assert (Hsig2 : Geometry.signature (Geometry.state (snd r)) = hash)
      by exact (signature_sameAttributes S).
    assert (Hp0 : poolSignature p0 = hash /\
                  (consistent p0 \/
                   (SceneVertexBufs.hasPositions p0 = false /\
                    SceneVertexBufs.geometries p0 = []))).
    { unfold p0. destruct (Geometry.findPool (Geometry.sceneVertexBufs s) hash) as [p|] eqn:Ef.
      - exact (Hs hash p Ef).
      - split; [reflexivity | apply create_pool]. }
    destruct Hp0 as (Hp0s & Hp0c).
    split; [|split].
    + intros h p Hp. destruct (String.eqb_spec h hash) as [->|Hne].
      * rewrite Hfind in Hp. injection Hp as <-.
        split; [rewrite addGeometry_signature; exact Hp0s|].
        apply addGeometry_pool; [congruence | exact Hp0c].
      * rewrite (Hother h Hne) in Hp. exact (Hs h p Hp).
    + intros _ Hpos Hidx. exists hash. eexists. split; [exact Hof|]. split; [exact Hfind|].
      apply addGeometry_registers; assumption.
    + intros c0 Hc0 Hcomb0 Hpos0 Hidx0.
      destruct (Hc0 Hcomb0 Hpos0 Hidx0) as (hash0 & p1 & Hof0 & Hfind0 & Hhas0).
      exists hash0. destruct (String.eqb_spec hash0 hash) as [->|Hne].
      * eexists. split; [exact Hof0|]. split; [exact Hfind|].
        apply addGeometry_has. unfold p0. rewrite Hfind0. exact Hhas0.
      * exists p1. split; [exact Hof0|]. split; [|exact Hhas0].
        rewrite (Hother hash0 Hne). exact Hfind0.
  - specialize (Hunc eq_refl).
    split; [|split].
    + intros h p Hp. rewrite Hunc in Hp. exact (Hs h p Hp).
    + intros Hc. destruct S as (_ & Sc & _). congruence.
    + intros c0 Hc0 Hcomb0 Hpos0 Hidx0.
      destruct (Hc0 Hcomb0 Hpos0 Hidx0) as (hash0 & p1 & Hof0 & Hfind0 & Hhas0).
      exists hash0, p1. rewrite Hunc. repeat split; assumption.
Qed.

Lemma init_step big sqrt s id cfg :
  poolsConsistent s ->
  let r := Geometry._init big sqrt s id cfg in
  poolsConsistent (fst r) /\
  registered (fst r) (snd r) /\
  (forall c0, registered s c0 -> registered (fst r) c0).
Proof.
  intros Hs. unfold Geometry._init.
  match goal with |- context [Geometry.initAttributes sqrt ?a ?b ?c] =>
    pose proof (initAttributes_frame sqrt a b c) as Hf;
    destruct (Geometry.initAttributes sqrt a b c) as [s1 st1]
  end.
  cbn [fst snd] in Hf. destruct Hf as (_ & Hp & Hi & _). cbn in Hi.
  assert (Hs1 : poolsConsistent s1).
  { intros h p H. rewrite Hp in H. exact (Hs h p H). }
  assert (Hold : forall c0, registered s c0 -> registered s1 c0).
  { intros c0 Hc0 A B C. destruct (Hc0 A B C) as (h & p & X & Y & Z).
    exists h, p. rewrite Hp. repeat split; assumption. }
  destruct (Geometry.cfg_indices cfg) as [a|].
  - destruct (negb big && Geometry.isUint32Array a).
    + cbn [fst snd]. split; [exact Hs1|]. split; [|exact Hold].
      intros _ _ Hidx. cbn in Hidx. rewrite Hi in Hidx. contradiction.
    + match goal with |- context [Geometry.initBuffers ?a ?b ?c] =>
        destruct (@initBuffers_step a b c Hs1) as (A & B & C)
      end.
      cbv zeta. split; [exact A|]. split; [exact B|].
      intros c0 Hc0. apply C, Hold, Hc0.
  - match goal with |- context [Geometry.initBuffers ?a ?b ?c] =>
      destruct (@initBuffers_step a b c Hs1) as (A & B & C)
    end.
    cbv zeta. split; [exact A|]. split; [exact B|].
    intros c0 Hc0. apply C, Hold, Hc0.
Qed.

Lemma inits_step :
  forall big sqrt cfgs s,
    poolsConsistent s ->
    poolsConsistent (fst (inits big sqrt s cfgs)) /\
    (forall c, In c (snd (inits big sqrt s cfgs)) -> registered (fst (inits big sqrt s cfgs)) c) /\
    (forall c0, registered s c0 -> registered (fst (inits big sqrt s cfgs)) c0).
Proof.
  intros big sqrt. induction cfgs as [|[id cfg] rest IH]; intros s Hs.
  - cbn. split; [exact Hs|]. split; [intros c []|auto].
  - cbn [inits].
    destruct (@init_step big sqrt s id cfg Hs) as (A & B & C).
    destruct (Geometry._init big sqrt s id cfg) as [s1 c1]. cbn [fst snd] in A, B, C.
    destruct (IH s1 A) as (A' & B' & C').
    destruct (inits big sqrt s1 rest) as [s2 cs]. cbn [fst snd] in *.
    split; [exact A'|]. split.
    + intros c [<-|Hin]; [apply C', B | apply B', Hin].
    + intros c0 Hc0. apply C', C, Hc0.
Qed.

(** X19. Whatever geometries [_init] has made in a scene that had no pools,
    each combined one that has positions and indices is given a buffer set
    by [_getVertexBufs], never [nullVertexBufs] or [undefined], and the
    rebuild this takes does not throw: the pool a geometry is filed in by
    its signature only ever holds geometries with the attributes it copies. *)
Theorem combined_geometries_get_their_buffer_sets :
  forall (big : bool) (sqrt : JS.num -> JS.num) (s0 : Geometry.Scene)
         (cfgs : list (JS.key * Geometry.Config)) (c : Geometry.Component),
    Geometry.sceneVertexBufs s0 = [] ->
    let s := fst (inits big sqrt s0 cfgs) in
    In c (snd (inits big sqrt s0 cfgs)) ->
    Renderer.combined (Geometry.state c) = true ->
    Renderer.positions (Geometry.state c) <> None ->
    Renderer.indices (Geometry.state c) <> None ->
    exists s' n, Geometry._getVertexBufs big s c = JS.Normal (s', Some (Renderer.Chunk n)).
Proof.
  intros big sqrt s0 cfgs c Hempty s Hin Hcomb Hpos Hidx.
  assert (Hs0 : poolsConsistent s0).
  { intros h p H. rewrite Hempty in H. discriminate H. }
  destruct (@inits_step big sqrt cfgs s0 Hs0) as (Hs & Hreg & _). fold s in Hs, Hreg.
  destruct (Hreg c Hin Hcomb Hpos Hidx) as (hash & p & Hof & Hfind & Hhas).
  destruct (Hs hash p Hfind) as (_ & [Hc|(_ & Hg)]).
  - destruct (@query_consistent big (Geometry.env s) p (Geometry.state c) Hc Hhas)
      as (e1 & p1 & n & o & Hr & _ & _ & Hn & _).
    unfold Geometry._getVertexBufs, Geometry.poolOf. rewrite Hcomb, Hof, Hfind.
    cbn [JS.bind]. unfold SceneVertexBufs.getVertexBufs. rewrite Hhas, Hr.
    cbn [negb JS.bind]. rewrite Hn. eauto.
  - rewrite Hg in Hhas. discriminate Hhas.
Qed.

Lemma the_square_among_three_gets_its_buffer_set :
  let r := inits false newton_sqrt emptyScene threeCombined in
  let c := nth 1 (snd r) (snd triangleCreated) in
  exists s' n,
    Geometry._getVertexBufs false (fst r) c = JS.Normal (s', Some (Renderer.Chunk n)).
Proof.
  intros r c.
  apply (@combined_geometries_get_their_buffer_sets
           false newton_sqrt emptyScene threeCombined c eq_refl).
  - apply nth_In. vm_compute. lia.
  - vm_compute. reflexivity.
  - vm_compute. discriminate.
  - vm_compute. discriminate.
Defined.

Lemma Qle_bool_comp a b c d : a == c -> b == d -> Qle_bool a b = Qle_bool c d.
Proof.
  intros E1 E2. apply eq_true_iff_eq. rewrite !Qle_bool_iff, E1, E2. reflexivity.
Qed.

Section Same.

Lemma same_refl a : same a a.
Proof. destruct a; cbn; [reflexivity | exact I..]. Qed.

Lemma same_lt a b c d : same a b -> same c d -> JS.lt a c = JS.lt b d.
Proof.
  destruct a, b; cbn; try tauto; destruct c, d; cbn; try tauto.
  intros E1 E2. unfold JS.Qltb. rewrite (Qle_bool_comp E2 E1). reflexivity.
Qed.

End Same.

(** X22. A normal of length zero is encoded in the bytes 0 and 0: the
    division by the sum of its components gives NaN, which every candidate
    stores as 0. *)
Theorem octEncode_of_a_zero_normal :
  forall (sqrt : JS.num -> JS.num) (array : list JS.num) (n : nat),
    (length array mod 3 = 0)%nat ->
    (3 * n < length array)%nat ->
    JS.get array (3 * n) = JS.Fin 0 ->
    JS.get array (3 * n + 1) = JS.Fin 0 ->
    JS.get array (3 * n + 2) = JS.Fin 0 ->
    nth (2 * n) (octEncode sqrt array) 0%Z = 0%Z /\
    nth (2 * n + 1) (octEncode sqrt array) 0%Z = 0%Z.
Proof.
  intros sqrt array n Hlen Hn H0 H1 H2.
  destruct (@octEncode_spec sqrt array Hlen n Hn) as [E0 E1].
  destruct (octEncodeBest_selected sqrt array (3 * n)) as (_ & (f0 & _ & Hf0) & _).
  assert (Hzero : forall xfunc yfunc, octEncodeVec3 array (3 * n) xfunc yfunc = [0; 0]%Z).
  { intros xfunc yfunc. unfold octEncodeVec3. rewrite H0, H1, H2.
    destruct xfunc, yfunc; reflexivity. }
  rewrite E0, E1, Hf0, Hzero. split; reflexivity.
Qed.

Lemma octEncode_of_a_zero_normal_sample :
  nth 2 (octEncode newton_sqrt (map JS.Fin [0; 0; 1; 0; 0; 0])) 0%Z = 0%Z /\
  nth 3 (octEncode newton_sqrt (map JS.Fin [0; 0; 1; 0; 0; 0])) 0%Z = 0%Z.
Proof.
  apply (@octEncode_of_a_zero_normal newton_sqrt (map JS.Fin [0; 0; 1; 0; 0; 0]) 1%nat);
    [reflexivity | cbn; lia | reflexivity..].
Defined.

(** X20. The edge indices [_buildGhostEdgesIndices] builds for a geometry
    that [_init] has made with positions and indices are those of
    [buildEdgesIndices] at a finite offset, never [undefined]: 0 for a
    geometry that is not combined and, for a combined one, the offset that
    [getIndicesOffset] of its pool returns for it. *)
Theorem ghost_edges_are_built_at_a_finite_offset :
  forall (big : bool) (sqrt cos : JS.num -> JS.num) (DEGTORAD : JS.num)
         (s0 : Geometry.Scene) (cfgs : list (JS.key * Geometry.Config))
         (c : Geometry.Component) (positions indices : Renderer.TypedArray),
    Geometry.sceneVertexBufs s0 = [] ->
    let s := fst (inits big sqrt s0 cfgs) in
    In c (snd (inits big sqrt s0 cfgs)) ->
    Renderer.positions (Geometry.state c) = Some positions ->
    Renderer.indices (Geometry.state c) = Some indices ->
    exists s' c' buf o,
      Geometry._buildGhostEdgesIndices big sqrt cos DEGTORAD s c = JS.Normal (s', c') /\
      Geometry.edgesIndicesBuf c' = Some buf /\
      Renderer.data buf
      = buildEdgesIndices sqrt cos DEGTORAD positions (Renderer.integers indices)
                          (Renderer.positionsDecodeMatrix (Geometry.state c)) (JS.Fin o)
                          (JS.toNumber (Geometry.ghostEdgeThreshold c)) /\
      (Renderer.combined (Geometry.state c) = false -> o = 0) /\
      (Renderer.combined (Geometry.state c) = true ->
       exists hash p e1 p1,
         Geometry.sceneVertexBufsOf c = Some hash /\
         Geometry.findPool (Geometry.sceneVertexBufs s) hash = Some p /\
         SceneVertexBufs.getIndicesOffset big (Geometry.env s) p (Geometry.state c)
         = JS.Normal (e1, p1, Some (JS.Fin o))).
Proof.
  intros big sqrt cos DEGTORAD s0 cfgs c positions indices Hempty s Hin Hpos Hidx.
  unfold Geometry._buildGhostEdgesIndices. rewrite Hpos, Hidx.
  destruct (Renderer.combined (Geometry.state c)) eqn:Hcomb.
  - assert (Hs0 : poolsConsistent s0).
    { intros h p H. rewrite Hempty in H. discriminate H. }
    destruct (@inits_step big sqrt cfgs s0 Hs0) as (Hs & Hreg & _). fold s in Hs, Hreg.
    destruct (Hreg c Hin Hcomb ltac:(rewrite Hpos; discriminate)
                   ltac:(rewrite Hidx; discriminate))
      as (hash & p & Hof & Hfind & Hhas).
    destruct (Hs hash p Hfind) as (_ & [Hc|(_ & Hg)]);
      [|rewrite Hg in Hhas; discriminate Hhas].
    destruct (@query_consistent big (Geometry.env s) p (Geometry.state c) Hc Hhas)
      as (e1 & p1 & n & o & Hr & _ & _ & _ & Ho & _).
    assert (Hget : SceneVertexBufs.getIndicesOffset big (Geometry.env s) p (Geometry.state c)
                   = JS.Normal (e1, p1, Some (JS.Fin o))).
    { unfold SceneVertexBufs.getIndicesOffset. rewrite Hr. cbn [JS.bind]. rewrite Ho.
      reflexivity. }
    unfold Geometry.poolOf. rewrite Hof, Hfind. cbn [JS.bind]. rewrite Hget.
    cbn [JS.bind]. eexists. eexists. eexists. exists o. split; [reflexivity|]. cbn.
    split; [reflexivity|]. split; [reflexivity|]. split; [discriminate|].
    intros _. exists hash, p, e1, p1.
    split; [first [exact Hof | reflexivity]|].
    split; first [exact Hfind | exact Hget | reflexivity].
  - cbn [JS.bind]. eexists. eexists. eexists. exists 0. split; [reflexivity|]. cbn.
    split; [reflexivity|]. split; [reflexivity|]. split; [reflexivity | discriminate].
Qed.

Lemma ghost_edges_of_the_square_among_three :
  let r := inits false newton_sqrt emptyScene threeCombined in
  let c := nth 1 (snd r) (snd triangleCreated) in
  exists s' c' buf o,
    Geometry._buildGhostEdgesIndices false newton_sqrt taylor_cos DEGTORAD_approx (fst r) c
    = JS.Normal (s', c') /\
    Geometry.edgesIndicesBuf c' = Some buf /\
    Renderer.data buf
    = buildEdgesIndices newton_sqrt taylor_cos DEGTORAD_approx
                        (Renderer.Float32Array squarePositions) squareIndices
                        (Renderer.positionsDecodeMatrix (Geometry.state c)) (JS.Fin o)
                        (JS.toNumber (Geometry.ghostEdgeThreshold c)) /\
    o == 3.
Proof.
  intros r c.
  destruct (@ghost_edges_are_built_at_a_finite_offset
              false newton_sqrt taylor_cos DEGTORAD_approx emptyScene threeCombined c
              (Renderer.Float32Array squarePositions)
              (Renderer.Uint16Array squareIndices) eq_refl)
    as (s' & c' & buf & o & H1 & H2 & H3 & _ & H5).
  - apply nth_In. vm_compute. lia.
  - vm_compute. reflexivity.
  - vm_compute. reflexivity.
  - exists s', c', buf, o. split; [exact H1|]. split; [exact H2|]. split; [exact H3|].
    destruct (H5 eq_refl) as (hash & p & e1 & p1 & Hof & Hfind & Hget).
    vm_compute in Hof. injection Hof as <-.
    vm_compute in Hfind. injection Hfind as <-.
    vm_compute in Hget. injection Hget as _ _ Ho. rewrite <- Ho. reflexivity.
Defined.

Lemma nth_error_set (A : Type) (l : list A) i j x :
  nth_error (JS.set l i x) j
  = if ((i =? j) && (i <? length l))%nat then Some x else nth_error l j.
Proof.
  destruct (Nat.eqb_spec i j) as [->|Hne]; cbn [andb].
  - destruct (Nat.ltb_spec j (length l)) as [Hlt|Hge].
    + apply nth_error_set_same. exact Hlt.
    + rewrite (proj2 (nth_error_None l j) Hge). apply nth_error_None.
      rewrite set_length. exact Hge.
  - apply nth_error_set_other. exact Hne.
Qed.

Section PoolFloat.

Import SceneVertexBufs.

Variable big : bool.

Lemma createBufs_float e p n :
  quantized p = false ->
  floatBuffers p ->
  floatBuffers (snd (createBufs e p n)).
Proof.
  intros Hq Hf. unfold createBufs. rewrite Hq.
  assert (Hnth : forall m vb, nth_error (chunks p) m = Some vb ->
                              forall buf, Renderer.vb_positionsBuf vb = Some buf ->
                                          exists l, Renderer.data buf = Renderer.Float32Array l).
  { intros m vb H buf Hb. exact (Hf m vb buf H Hb). }
  assert (Hdef : forall buf, Renderer.vb_positionsBuf (nth n (chunks p) emptyVertexBufs) = Some buf ->
                              exists l, Renderer.data buf = Renderer.Float32Array l).
  { intros buf Hb. destruct (nth_error (chunks p) n) as [vb|] eqn:E.
    - rewrite (nth_error_nth _ _ _ E) in Hb. exact (Hf n vb buf E Hb).
    - rewrite (nth_overflow _ _ (proj1 (nth_error_None _ _) E)) in Hb. discriminate Hb. }
  destruct (hasPositions p) eqn:Fp, (hasNormals p) eqn:Fn, (hasColors p) eqn:Fc,
    (hasUVs p) eqn:Fu;
    cbn; rewrite ?Fp, ?Fn, ?Fc, ?Fu; cbn; rewrite ?Fp, ?Fn, ?Fc, ?Fu; cbn;
    rewrite ?Fp, ?Fn, ?Fc, ?Fu; cbn;
    intros m vb buf H Hb; cbn in H; rewrite nth_error_set in H;
    (destruct ((n =? m) && (n <? length (chunks p)))%nat;
     [injection H as <-; cbn in Hb;
      first [injection Hb as <-; eexists; reflexivity | exact (Hdef buf Hb)]
     | exact (Hnth m vb H buf Hb)]).
Qed.

Lemma build_step_float e p off id e' p' off' :
  quantized p = false ->
  floatBuffers p ->
  build_step big (e, p, off) id = JS.Normal (e', p', off') ->
  quantized p' = false /\ floatBuffers p'.
Proof.
  intros Hq Hf H. unfold build_step in H.
  destruct (JS.lookup (geometries p) id) as [g|]; [|discriminate H].
  destruct (Renderer.positions g) as [gp|]; [|discriminate H].
  set (opened := if needNew big p gp then _ else _) in H.
  assert (Ho : exists e1 p1 o1,
             opened = (e1, p1, o1) /\ quantized p1 = false /\ floatBuffers p1).
  { unfold opened. destruct (needNew big p gp).
    - assert (Happ : forall (e0 : Renderer.Env) (p0 : Pool),
                 quantized p0 = false -> floatBuffers p0 ->
                 exists (e1 : Renderer.Env) (p1 : Pool) (o1 : JS.num),
                   (e0, set_vertexBufs
                          (set_chunks p0 (chunks p0 ++ [Renderer.mkVertexBufs None None None None
                                                          (Some (quantized p0))]))
                          (Some (length (chunks p0))), JS.Fin 0) = (e1, p1, o1) /\
                   quantized p1 = false /\ floatBuffers p1).
      { intros e0 p0 Hq0 Hf0. do 3 eexists. split; [reflexivity|]. split; [exact Hq0|].
        intros m vb buf Hm Hb. cbn in Hm.
        destruct (Nat.lt_ge_cases m (length (chunks p0))) as [Hlt|Hge].
        - rewrite nth_error_app1 in Hm by exact Hlt. exact (Hf0 m vb buf Hm Hb).
        - rewrite nth_error_app2 in Hm by exact Hge.
          destruct (m - length (chunks p0))%nat as [|d]; cbn in Hm.
          + injection Hm as <-. discriminate Hb.
          + destruct d; discriminate Hm. }
      destruct (vertexBufs p) as [n|].
      + pose proof (@createBufs_float e p n Hq Hf) as Hc.
        pose proof (createBufs_spec e p n) as Hs.
        destruct (createBufs e p n) as [e1 p1]. cbn [snd] in Hc.
        destruct Hs as (_ & _ & _ & _ & _ & _ & _ & (_ & _ & _ & _ & Fq) & _).
        apply Happ; [congruence | exact Hc].
      + apply Happ; assumption.
    - do 3 eexists. split; [reflexivity|]. split; assumption. }
  destruct Ho as (e1 & p1 & o1 & -> & Hq1 & Hf1). cbn iota beta in H.
  assert (Hsame : chunks p' = chunks p1 /\ quantized p' = quantized p1).
  { destruct (vertexBufs p1);
      repeat match type of H with
             | JS.bind ?c _ = _ => destruct c; cbn [JS.bind] in H; [|discriminate H]
             | context [let '(_, _) := ?c in _] => destruct c
             end;
      injection H as _ <- _; split; reflexivity. }
  destruct Hsame as (Hc & Hq'). split; [congruence|].
  unfold floatBuffers. rewrite Hc. exact Hf1.
Qed.

Lemma build_loop_float :
  forall ids e p off e' p' off',
    quantized p = false ->
    floatBuffers p ->
    build_loop big ids (e, p, off) = JS.Normal (e', p', off') ->
    quantized p' = false /\ floatBuffers p'.
Proof.
  induction ids as [|id rest IH]; intros e p off e' p' off' Hq Hf H.
  - cbn in H. injection H as <- <- <-. split; assumption.
  - cbn [build_loop] in H.
    destruct (build_step big (e, p, off) id) as [[[e1 p1] off1]|] eqn:Hstep;
      [|discriminate H].
    cbn [JS.bind] in H.
    destruct (@build_step_float e p off id e1 p1 off1 Hq Hf Hstep) as (Hq1 & Hf1).
    exact (IH _ _ _ _ _ _ Hq1 Hf1 H).
Qed.

Lemma build_float e p e' p' :
  quantized p = false ->
  floatBuffers p ->
  build big e p = JS.Normal (e', p') ->
  quantized p' = false /\ floatBuffers p'.
Proof.
  intros Hq Hf H. unfold build in H.
  set (p0 := set_vertexBufs (set_geometryVertexBufs p []) None) in H.
  destruct (build_loop big (JS.keys (geometries p0)) (e, p0, JS.Fin 0))
    as [[[e1 p1] off1]|] eqn:Hloop; [|discriminate H].
  cbn [JS.bind] in H.
  destruct (@build_loop_float (JS.keys (geometries p0)) e p0 (JS.Fin 0) e1 p1 off1
                               Hq Hf Hloop) as (Hq1 & Hf1).
  destruct (vertexBufs p1) as [n|].
  - pose proof (@createBufs_float e1 p1 n Hq1 Hf1) as Hc.
    pose proof (createBufs_spec e1 p1 n) as Hs.
    destruct (createBufs e1 p1 n) as [e2 p2]. cbn [snd] in Hc.
    destruct Hs as (_ & _ & _ & _ & _ & _ & _ & (_ & _ & _ & _ & Fq) & _).
    injection H as _ <-. split; [cbn; congruence | exact Hc].
  - injection H as _ <-. split; [exact Hq1 | exact Hf1].
Qed.

Lemma call_float e p c e' p' :
  quantized p = false ->
  floatBuffers p ->
  call big (e, p) c = JS.Normal (e', p') ->
  quantized p' = false /\ floatBuffers p'.
Proof.
  intros Hq Hf H. destruct c as [g|g|g|g]; cbn [call] in H.
  - injection H as H. unfold addGeometry in H.
    destruct (Renderer.positions g), (Renderer.indices g); injection H as _ <-;
      split; assumption.
  - injection H as _ <-. unfold removeGeometry.
    destruct (JS.has _ _); split; assumption.
  - unfold getVertexBufs, rebuildIfNeeded in H.
    destruct (negb _); [injection H as _ <-; split; assumption|].
    destruct (needRebuild p || needAppend p).
    + destruct (build big e p) as [[e1 p1]|] eqn:Hb; [|discriminate H].
      cbn in H. injection H as _ <-. exact (@build_float e p e1 p1 Hq Hf Hb).
    + cbn in H. injection H as _ <-. split; assumption.
  - unfold getIndicesOffset, rebuildIfNeeded in H.
    destruct (needRebuild p || needAppend p).
    + destruct (build big e p) as [[e1 p1]|] eqn:Hb; [|discriminate H].
      cbn in H. injection H as _ <-. exact (@build_float e p e1 p1 Hq Hf Hb).
    + cbn in H. injection H as _ <-. split; assumption.
Qed.

Lemma calls_float :
  forall history e p e' p',
    quantized p = false ->
    floatBuffers p ->
    calls big history (e, p) = JS.Normal (e', p') ->
    quantized p' = false /\ floatBuffers p'.
Proof.
  induction history as [|c rest IH]; intros e p e' p' Hq Hf H.
  - cbn in H. injection H as <- <-. split; assumption.
  - cbn [calls] in H.
    destruct (call big (e, p) c) as [[e1 p1]|] eqn:Hc; [|discriminate H].
    cbn [JS.bind] in H.
    destruct (@call_float e p c e1 p1 Hq Hf Hc) as (Hq1 & Hf1).
    exact (IH _ _ _ _ Hq1 Hf1 H).
Qed.

Lemma rebuildIfNeeded_float e p e' p' :
  quantized p = false ->
  floatBuffers p ->
  rebuildIfNeeded big e p = JS.Normal (e', p') ->
  quantized p' = false /\ floatBuffers p'.
Proof.
  intros Hq Hf H. unfold rebuildIfNeeded in H.
  destruct (needRebuild p || needAppend p).
  - exact (@build_float e p e' p' Hq Hf H).
  - injection H as _ <-. split; assumption.
Qed.

End PoolFloat.

Section Overwrite.

Variable A : Type.
Variables l d : list A.
Variable offset : nat.
Hypothesis fits : (offset + length d <= length l)%nat.

Lemma overwrite_before : firstn offset (Renderer.overwrite l d offset) = firstn offset l.
Proof.
  unfold Renderer.overwrite. rewrite firstn_app, length_firstn.
  replace (offset - Nat.min offset (length l))%nat with 0%nat by lia.
  rewrite firstn_O, app_nil_r, firstn_firstn. f_equal. lia.
Qed.

Lemma overwrite_window : window (Renderer.overwrite l d offset) offset (length d) = d.
Proof.
  unfold window, Renderer.overwrite. rewrite skipn_app, length_firstn.
  replace (offset - Nat.min offset (length l))%nat with 0%nat by lia.
  rewrite (skipn_all2 (firstn offset l)) by (rewrite length_firstn; lia).
  cbn [skipn app]. rewrite (firstn_all2 d) by lia.
  rewrite firstn_app, Nat.sub_diag, firstn_O, app_nil_r. apply firstn_all.
Qed.

Lemma overwrite_after :
  skipn (offset + length d) (Renderer.overwrite l d offset) = skipn (offset + length d) l.
Proof.
  unfold Renderer.overwrite. rewrite (firstn_all2 d) by lia.
  rewrite skipn_app, length_firstn.
  rewrite (skipn_all2 (firstn offset l)) by (rewrite length_firstn; lia).
  cbn [app]. rewrite skipn_app.
  replace (offset + length d - Nat.min offset (length l))%nat with (length d) by lia.
  rewrite skipn_all, Nat.sub_diag. cbn [skipn app]. reflexivity.
Qed.

End Overwrite.

(** X23. In a pool that is not quantized, every geometry registered with
    positions in whole triples, [setPositions] overwrites, in the positions
    buffer of the geometry's buffer set, exactly the elements that hold the
    geometry's positions, those from three times its (whole) indices offset
    on: they become the new positions, and the elements before and after
    them, and the other buffer sets, stay as they are. *)
Theorem setPositions_rewrites_the_window_of_the_geometry :
  forall (big hasNormals hasColors hasUVs : bool) (history : list PoolCall)
         (e e' : Renderer.Env) (p' : SceneVertexBufs.Pool) (g : Renderer.Geometry)
         (newPositions : Renderer.TypedArray),
    let pool := SceneVertexBufs.create true hasNormals hasColors hasUVs false in
    Forall (fitsSignature pool) history ->
    Forall wholeTriples history ->
    calls big history (e, pool) = JS.Normal (e', p') ->
    JS.has (SceneVertexBufs.geometries p') (Renderer.id g) = true ->
    Renderer.positions g = Some newPositions ->
    exists e1 p1 n vb buf registered old offset (v : nat) vb' buf',
      SceneVertexBufs.getVertexBufs big e' p' g
      = JS.Normal (e1, p1, Some (Renderer.Chunk n)) /\
      SceneVertexBufs.getIndicesOffset big e' p' g
      = JS.Normal (e1, p1, Some (JS.Fin offset)) /\
      offset == inject_Z (Z.of_nat v) /\
      nth_error (SceneVertexBufs.chunks p1) n = Some vb /\
      Renderer.vb_positionsBuf vb = Some buf /\
      JS.lookup (SceneVertexBufs.geometries p1) (Renderer.id g) = Some registered /\
      Renderer.positions registered = Some old /\
      (Renderer.length newPositions = Renderer.length old ->
       let p2 := SceneVertexBufs.setPositions p1 g in
       let start := (3 * v)%nat in
       let len := Renderer.length old in
       let before := Renderer.numbers (Renderer.data buf) in
       let after := Renderer.numbers (Renderer.data buf') in
       nth_error (SceneVertexBufs.chunks p2) n = Some vb' /\
       Renderer.vb_positionsBuf vb' = Some buf' /\
       window before start len = Renderer.numbers old /\
       window after start len = Renderer.numbers newPositions /\
       firstn start after = firstn start before /\
       skipn (start + len) after = skipn (start + len) before /\
       forall m, m <> n ->
                 nth_error (SceneVertexBufs.chunks p2) m
                 = nth_error (SceneVertexBufs.chunks p1) m).
Proof.
  intros big hn hc hu history e e' p' g np pool Hfit Hwt Hrun Hhas Hnp.
  assert (Hpool : floatBuffers pool).
  { intros n vb buf H. destruct n; discriminate H. }
  destruct (@calls_float big history e pool e' p' eq_refl Hpool Hrun) as (Hq' & Hf').
  destruct (@query_whole big history e e' p' g hn hc hu false Hfit Hwt Hrun Hhas)
    as (e1 & p1 & n & o & v & registered & old & l & Hr & Hn & Ho & Hv & Hel & Hg & Hp & Hl
        & Hbound & Hw & Hq1).
  destruct (@rebuildIfNeeded_float big e' p' e1 p1 Hq' Hf' Hr) as (_ & Hf1).
  unfold chunkPositions in Hl.
  destruct (nth_error (SceneVertexBufs.chunks p1) n) as [vb|] eqn:Evb; [|discriminate Hl].
  destruct (Renderer.vb_positionsBuf vb) as [buf|] eqn:Ebuf; [|discriminate Hl].
  injection Hl as <-.
  destruct (Hf1 n vb buf Evb Ebuf) as (l0 & Hdata).
  cbn [stored] in Hw.
  set (start := (3 * v)%nat) in *.
  exists e1, p1, n, vb, buf, registered, old, o, v.
  exists (Renderer.mkVertexBufs (Some (Renderer.setDataAt buf np start))
                                (Renderer.vb_normalsBuf vb) (Renderer.vb_uvBuf vb)
                                (Renderer.vb_colorsBuf vb) (Renderer.vb_quantized vb)).
  exists (Renderer.setDataAt buf np start).
  unfold SceneVertexBufs.getVertexBufs, SceneVertexBufs.getIndicesOffset.
  rewrite Hhas, Hr. cbn [negb JS.bind]. rewrite Hn, Ho.
  split; [reflexivity|]. split; [reflexivity|]. split; [exact Hv|].
  split; [exact Evb|]. split; [exact Ebuf|].
  split; [exact Hg|]. split; [exact Hp|].
  intros Hlen. cbv zeta.
  assert (Hset : SceneVertexBufs.chunks (SceneVertexBufs.setPositions p1 g)
                 = JS.set (SceneVertexBufs.chunks p1) n
                          (Renderer.mkVertexBufs (Some (Renderer.setDataAt buf np start))
                             (Renderer.vb_normalsBuf vb) (Renderer.vb_uvBuf vb)
                             (Renderer.vb_colorsBuf vb) (Renderer.vb_quantized vb))).
  { unfold SceneVertexBufs.setPositions, SceneVertexBufs.chunkOf.
    rewrite Hn, Evb, Hnp, Ebuf, Hel. reflexivity. }
  rewrite Hset.
  assert (Hnlt : (n < length (SceneVertexBufs.chunks p1))%nat).
  { apply nth_error_Some. rewrite Evb. discriminate. }
  assert (Hafter : Renderer.numbers (Renderer.data (Renderer.setDataAt buf np start))
                   = Renderer.overwrite l0 (Renderer.numbers np) start).
  { unfold Renderer.setDataAt. rewrite Hdata. reflexivity. }
  rewrite Hafter, Hdata in *. cbn [Renderer.numbers] in *.
  assert (Hfits : (start + length (Renderer.numbers np) <= length l0)%nat).
  { rewrite numbers_length, Hlen. exact Hbound. }
  split; [apply nth_error_set_same; exact Hnlt|]. split; [reflexivity|].
  split; [exact Hw|].
  split; [rewrite <- Hlen, <- (numbers_length np); apply overwrite_window; exact Hfits|].
  split; [apply overwrite_before; exact Hfits|].
  split; [rewrite <- Hlen, <- (numbers_length np); apply overwrite_after; exact Hfits|].
  intros m0 Hne. apply nth_error_set_other. congruence.
Qed.

Lemma setPositions_rewrites_the_window_of_the_square :
  exists e1 p1 n vb buf offset (v : nat) vb' buf',
    SceneVertexBufs.getVertexBufs false (fst afterTwoRegistrations)
                                  (snd afterTwoRegistrations) raisedSquare
    = JS.Normal (e1, p1, Some (Renderer.Chunk n)) /\
    SceneVertexBufs.getIndicesOffset false (fst afterTwoRegistrations)
                                     (snd afterTwoRegistrations) raisedSquare
    = JS.Normal (e1, p1, Some (JS.Fin offset)) /\
    offset == inject_Z (Z.of_nat v) /\
    nth_error (SceneVertexBufs.chunks p1) n = Some vb /\
    Renderer.vb_positionsBuf vb = Some buf /\
    nth_error (SceneVertexBufs.chunks (SceneVertexBufs.setPositions p1 raisedSquare)) n
    = Some vb' /\
    Renderer.vb_positionsBuf vb' = Some buf' /\
    firstn (3 * v) (Renderer.numbers (Renderer.data buf'))
    = firstn (3 * v) (Renderer.numbers (Renderer.data buf)).
Proof.
  destruct (@setPositions_rewrites_the_window_of_the_geometry
              false false false false twoRegistrations noMessages
              (fst afterTwoRegistrations) (snd afterTwoRegistrations) raisedSquare
              (Renderer.Float32Array (map JS.Fin [0; 0; 1; 1; 0; 1; 0; 1; 1; 1; 1; 1])))
    as (e1 & p1 & n & vb & buf & registered & old & o & v & vb' & buf'
        & H1 & H2 & H3 & H4 & H5 & H6 & H7 & H8).
  - exact twoRegistrations_fit.
  - exact twoRegistrations_whole.
  - vm_compute. reflexivity.
  - vm_compute. reflexivity.
  - reflexivity.
  - exists e1, p1, n, vb, buf, o, v, vb', buf'.
    assert (Hold : old = Renderer.Float32Array squarePositions).
    { assert (Hreg : JS.lookup (SceneVertexBufs.geometries p1) (JS.Str "B") = Some registered)
        by exact H6.
      unfold SceneVertexBufs.getVertexBufs, SceneVertexBufs.rebuildIfNeeded in H1.
      vm_compute in H1. injection H1 as _ Hp1 _. subst p1.
      vm_compute in Hreg. injection Hreg as <-. cbn in H7. injection H7 as <-. reflexivity. }
    subst old. specialize (H8 eq_refl). cbv zeta in H8.
    destruct H8 as (A & B & _ & _ & C & _).
    repeat (split; [assumption|]). exact C.
Defined.

(** X24. [getSceneVertexBufs] files two geometries in the same pool exactly
    when they agree on having positions, normals, colors and UVs and on
    being quantized: the signature tells the five flags apart, although it
    writes ["c"] for two of them. *)
Theorem geometries_share_a_pool_exactly_when_their_attributes_agree :
  forall (s : Geometry.Scene) (g1 g2 : Renderer.Geometry),
    let '(s1, hash1, _) := Geometry.getSceneVertexBufs s g1 in
    let '(_, hash2, _) := Geometry.getSceneVertexBufs s1 g2 in
    hash1 = hash2 <->
    (JS.is_some (Renderer.positions g1) = JS.is_some (Renderer.positions g2) /\
     Renderer.quantized g1 = Renderer.quantized g2 /\
     JS.is_some (Renderer.normals g1) = JS.is_some (Renderer.normals g2) /\
     JS.is_some (Renderer.colors g1) = JS.is_some (Renderer.colors g2) /\
     JS.is_some (Renderer.uv g1) = JS.is_some (Renderer.uv g2)).
Proof.
  intros s g1 g2.
  assert (H1 : forall s0 g, snd (fst (Geometry.getSceneVertexBufs s0 g)) = Geometry.signature g).
  { intros s0 g. unfold Geometry.getSceneVertexBufs. destruct (Geometry.findPool _ _); reflexivity. }
  pose proof (H1 s g1) as E1.
  destruct (Geometry.getSceneVertexBufs s g1) as [[s1 hash1] p1]. cbn [fst snd] in E1.
  pose proof (H1 s1 g2) as E2.
  destruct (Geometry.getSceneVertexBufs s1 g2) as [[s2 hash2] p2]. cbn [fst snd] in E2.
  subst hash1 hash2. unfold Geometry.signature.
  generalize (JS.is_some (Renderer.positions g1)) (Renderer.quantized g1)
             (JS.is_some (Renderer.normals g1)) (JS.is_some (Renderer.colors g1))
             (JS.is_some (Renderer.uv g1))
             (JS.is_some (Renderer.positions g2)) (Renderer.quantized g2)
             (JS.is_some (Renderer.normals g2)) (JS.is_some (Renderer.colors g2))
             (JS.is_some (Renderer.uv g2)).
  intros [] [] [] [] [] [] [] [] [] []; cbn; split;
    first [ intros H; discriminate H
          | intros (A & B & C & D & E); discriminate
          | intros _; repeat split; reflexivity ].
Qed.

Section PoolCapacity.

Import SceneVertexBufs.

Variable big : bool.

Lemma gt_add_of_nat a b c :
  JS.gt (JS.add (JS.of_nat a) (JS.of_nat b)) c = JS.gt (JS.of_nat (a + b)) c.
Proof.
  unfold JS.gt. apply same_lt; [apply same_refl|].
  cbn. rewrite Nat2Z.inj_add, inject_Z_plus. reflexivity.
Qed.

(** The lists of positions after one iteration of the loop of [build]: the
    geometry's positions are pushed behind those of the open buffer set, or
    start a new one, and the other lists are those of before. *)
Lemma build_step_views e p off id g gp gi e' p' off' :
  JS.lookup (geometries p) id = Some g ->
  Renderer.positions g = Some gp ->
  Renderer.indices g = Some gi ->
  matchesSignature p g ->
  hasPositions p = true ->
  betweenSteps p off ->
  build_step big (e, p, off) id = JS.Normal (e', p', off') ->
  view p' (stepChunk big p gp)
  = Some (stored (quantized p)
                 ((if needNew big p gp then [] else positions p) ++ Renderer.numbers gp)) /\
  (forall m l, view p' m = Some l -> m <> stepChunk big p gp -> view p m = Some l).
Proof.
  intros Hg Hp Hi Hsig Hhp Hb H.
  assert (Hopen : forall n, vertexBufs p = Some n -> (n < length (chunks p))%nat).
  { intros n Hn. unfold betweenSteps in Hb. rewrite Hn in Hb. apply Hb. }
  destruct (@build_step_chunks big e p off id g gp e' p' off' Hg Hp Hhp Hopen H) as (L & C).
  destruct (@build_step_spec big e p off id g gp gi Hg Hp Hi Hsig)
    as (e1 & p1 & buf & Hstep & _ & _ & B1 & _ & _ & _ & P1 & F1 & _).
  rewrite H in Hstep. injection Hstep as <- <- _.
  destruct F1 as (_ & _ & _ & _ & Fq).
  set (base := if needNew big p gp then [] else positions p).
  assert (Hpos : positions p' = base ++ Renderer.numbers gp).
  { rewrite P1. unfold stepPositions, base. rewrite Hhp.
    unfold betweenSteps in Hb. rewrite needNew_spec.
    destruct (vertexBufs p); [reflexivity|]. cbn. rewrite Hb. reflexivity. }
  assert (Hchunk : (needNew big p gp = true -> stepChunk big p gp = length (chunks p)) /\
                   (needNew big p gp = false -> vertexBufs p = Some (stepChunk big p gp))).
  { unfold stepChunk. rewrite needNew_spec.
    destruct (vertexBufs p) as [n|] eqn:Evb; cbn.
    - destruct (JS.gt _ _); [split; [reflexivity | discriminate] |].
      split; [discriminate | reflexivity].
    - split; [reflexivity | discriminate]. }
  destruct Hchunk as (Hnew & Hold).
  split.
  - unfold view. rewrite B1, Nat.eqb_refl, Fq, Hpos. reflexivity.
  - intros m l Hv Hne. unfold view in Hv. rewrite B1 in Hv.
    destruct (Nat.eqb_spec (stepChunk big p gp) m) as [E|_]; [congruence|].
    assert (Hm : (m < length (chunks p'))%nat).
    { apply nth_error_Some. unfold chunkPositions in Hv.
      destruct (nth_error (chunks p') m); [discriminate | discriminate Hv]. }
    destruct (needNew big p gp) eqn:En.
    + rewrite (Hnew eq_refl) in Hne.
      rewrite C in Hv by lia. exact Hv.
    + rewrite C in Hv by lia. unfold view. rewrite (Hold eq_refl).
      destruct (Nat.eqb_spec (stepChunk big p gp) m) as [E|_]; [congruence | exact Hv].
Qed.

Lemma build_loop_within :
  forall ids e p off e' p' off',
    NoDup ids ->
    hasPositions p = true ->
    Forall (wellRegistered p) ids ->
    smallRegistry big p ->
    betweenSteps p off ->
    viewsWithin big p ->
    build_loop big ids (e, p, off) = JS.Normal (e', p', off') ->
    betweenSteps p' off' /\ viewsWithin big p' /\ hasPositions p' = true.
Proof.
  induction ids as [|id rest IH]; intros e p off e' p' off' Hnd Hhp Hall Hsmall Hb Hw Hloop.
  - cbn in Hloop. injection Hloop as <- <- <-. repeat split; assumption.
  - inversion Hnd as [|? ? Hnotin Hnd']. subst.
    inversion Hall as [|? ? Hid Hrest]. subst.
    destruct Hid as (g & gp & gi & Hg & Hp & Hi & Hsig).
    destruct (@build_step_spec big e p off id g gp gi Hg Hp Hi Hsig)
      as (e1 & p1 & buf & Hstep & _ & _ & _ & G1 & _ & _ & _ & F1 & _).
    destruct F1 as (Fp1 & Fn1 & Fc1 & Fu1 & _).
    destruct (@build_step_layout big e p off id g gp gi _ _ _ Hg Hp Hi Hsig Hhp Hb Hstep)
      as (Hb1 & _ & _).
    destruct (@build_step_views e p off id g gp gi _ _ _ Hg Hp Hi Hsig Hhp Hb Hstep)
      as (Hv1 & Hother).
    cbn [build_loop] in Hloop. rewrite Hstep in Hloop. cbn [JS.bind] in Hloop.
    assert (Hhp1 : hasPositions p1 = true) by (rewrite Fp1; exact Hhp).
    assert (Hsmall1 : smallRegistry big p1).
    { intros id' g' gp' Hg' Hp'. rewrite G1 in Hg'.
      destruct (JS.key_eqb id id') eqn:E.
      - apply key_eqb_eq in E. subst id'. rewrite lookup_assign_same in Hg'.
        injection Hg' as <-. cbn in Hp'. exact (Hsmall id g gp' Hg Hp').
      - rewrite lookup_assign_other in Hg'
          by (intros Heq; rewrite Heq, key_eqb_refl in E; discriminate E).
        exact (Hsmall id' g' gp' Hg' Hp'). }
    assert (Hw1 : viewsWithin big p1).
    { intros m l Hm. destruct (Nat.eq_dec m (stepChunk big p gp)) as [->|Hne].
      - rewrite Hv1 in Hm. injection Hm as <-.
        unfold fitsChunk. rewrite stored_length, length_app, numbers_length.
        destruct (needNew big p gp) eqn:En; cbn [length Nat.add].
        + exact (Hsmall id g gp Hg Hp).
        + rewrite needNew_spec in En. apply orb_false_elim in En. destruct En as (_ & En).
          rewrite gt_add_of_nat in En. exact En.
      - exact (Hw m l (Hother m l Hm Hne)). }
    exact (IH _ _ _ _ _ _ Hnd' Hhp1
              (@wellRegistered_other p p1 id _ rest G1 Fn1 Fc1 Fu1 Hnotin Hrest)
              Hsmall1 Hb1 Hw1 Hloop).
Qed.

(** A rebuild of a consistent pool whose geometries are small enough leaves
    no positions buffer longer than [CHUNK_LEN]. *)
Lemma build_within e p e' p' :
  consistent p ->
  smallRegistry big p ->
  chunksWithin big p ->
  build big e p = JS.Normal (e', p') ->
  smallRegistry big p' /\ chunksWithin big p'.
Proof.
  intros Hc Hsmall Hw Hb. destruct (consistent_registered Hc) as (Hnd & Hwell).
  pose proof Hc as (Hhp & _ & _ & Hpos & _).
  destruct (@build_spec big e p Hnd Hhp Hwell)
    as (e2 & p2 & Hb2 & _ & _ & _ & Hbufs & _).
  rewrite Hb in Hb2. injection Hb2 as <- <-.
  split.
  - intros id g' gp' Hg' Hp'.
    assert (Hin : In id (JS.keys (geometries p))).
    { destruct (@build_consistent big e p Hc) as (e3 & p3 & Hb3 & _ & _ & _ & Hk).
      rewrite Hb in Hb3. injection Hb3 as <- <-.
      apply In_keys. rewrite <- Hk. apply lookup_In. eauto. }
    destruct (Hbufs id Hin) as (g & gi & buf & o & Hg & _ & _ & Hg2 & _).
    rewrite Hg' in Hg2. injection Hg2 as ->. cbn in Hp'. exact (Hsmall id g gp' Hg Hp').
  - unfold build in Hb.
    set (p0 := set_vertexBufs (set_geometryVertexBufs p []) None) in Hb.
    destruct (build_loop big (JS.keys (geometries p0)) (e, p0, JS.Fin 0))
      as [[[e1 p1] off1]|] eqn:Hloop; [|discriminate Hb].
    cbn [JS.bind] in Hb.
    assert (Hwell0 : Forall (wellRegistered p0) (JS.keys (geometries p0))).
    { rewrite Forall_forall in *. intros id' Hin'. exact (Hwell id' Hin'). }
    assert (Hb0 : betweenSteps p0 (JS.Fin 0)) by exact Hpos.
    assert (Hw0 : viewsWithin big p0) by exact Hw.
    destruct (@build_loop_within (JS.keys (geometries p0)) e p0 (JS.Fin 0) e1 p1 off1
                                 Hnd Hhp Hwell0 Hsmall Hb0 Hw0 Hloop)
      as (Hb1 & Hw1 & Hhp1).
    unfold betweenSteps in Hb1.
    destruct (vertexBufs p1) as [n|] eqn:Evb.
    + destruct Hb1 as (Hn & _).
      pose proof (@createBufs_chunks e1 p1 n Hhp1 Hn) as Hcc.
      pose proof (createBufs_spec e1 p1 n) as Hs.
      destruct (createBufs e1 p1 n) as [e2 p2].
      destruct Hcc as (Hcn & Hother).
      injection Hb as _ <-.
      intros m l Hm. apply (Hw1 m). unfold view. rewrite Evb.
      destruct (Nat.eqb_spec n m) as [<-|Hne].
      * change (chunkPositions p2 n = Some l) in Hm. rewrite Hcn in Hm. exact Hm.
      * unfold chunkPositions in *. cbn in Hm. rewrite (Hother m) in Hm by congruence.
        exact Hm.
    + injection Hb as _ <-. intros m l Hm. apply (Hw1 m). unfold view. rewrite Evb. exact Hm.
Qed.

Lemma call_within e p c e' p' :
  consistent p ->
  smallEnough big c ->
  smallRegistry big p ->
  chunksWithin big p ->
  call big (e, p) c = JS.Normal (e', p') ->
  smallRegistry big p' /\ chunksWithin big p'.
Proof.
  intros Hc Hsm Hsmall Hw H. destruct c as [g|g|g|g]; cbn [call smallEnough] in *.
  - injection H as H. unfold addGeometry in H.
    destruct (Renderer.positions g) as [gp|] eqn:Ep;
      [|injection H as _ <-; split; assumption].
    destruct (Renderer.indices g); injection H as _ <-; [|split; assumption].
    split; [|exact Hw].
    intros id g' gp' Hg' Hp'. cbn in Hg'.
    destruct (JS.key_eqb (Renderer.id g) id) eqn:E.
    + apply key_eqb_eq in E. subst id. rewrite lookup_assign_same in Hg'.
      injection Hg' as <-. exact (Hsm gp' (eq_trans (eq_sym Ep) Hp')).
    + rewrite lookup_assign_other in Hg'
        by (intros Heq; rewrite Heq, key_eqb_refl in E; discriminate E).
      exact (Hsmall id g' gp' Hg' Hp').
  - injection H as _ <-. unfold removeGeometry.
    destruct (JS.has _ _); [|split; assumption].
    split; [|exact Hw].
    intros id g' gp' Hg' Hp'. cbn in Hg'. rewrite lookup_delete in Hg'.
    destruct (JS.key_eqb (Renderer.id g) id); [discriminate Hg'|].
    exact (Hsmall id g' gp' Hg' Hp').
  - unfold getVertexBufs, rebuildIfNeeded in H.
    destruct (negb _); [injection H as _ <-; split; assumption|].
    destruct (needRebuild p || needAppend p).
    + destruct (build big e p) as [[e1 p1]|] eqn:Hb; [|discriminate H].
      cbn in H. injection H as _ <-. exact (@build_within e p e1 p1 Hc Hsmall Hw Hb).
    + cbn in H. injection H as _ <-. split; assumption.
  - unfold getIndicesOffset, rebuildIfNeeded in H.
    destruct (needRebuild p || needAppend p).
    + destruct (build big e p) as [[e1 p1]|] eqn:Hb; [|discriminate H].
      cbn in H. injection H as _ <-. exact (@build_within e p e1 p1 Hc Hsmall Hw Hb).
    + cbn in H. injection H as _ <-. split; assumption.
Qed.

Lemma calls_within :
  forall history e p e' p',
    consistent p ->
    Forall (fitsSignature p) history ->
    Forall (smallEnough big) history ->
    smallRegistry big p ->
    chunksWithin big p ->
    calls big history (e, p) = JS.Normal (e', p') ->
    chunksWithin big p'.
Proof.
  induction history as [|c rest IH]; intros e p e' p' Hc Hfit Hsm Hsmall Hw H.
  - cbn in H. injection H as <- <-. exact Hw.
  - inversion Hfit as [|? ? Hc0 Hrest]. subst.
    inversion Hsm as [|? ? Hs0 Hsrest]. subst.
    destruct (@call_consistent big e p c Hc Hc0) as (e1 & p1 & Hcall & Hc1 & Fn & Fc & Fu & _).
    destruct (@call_within e p c e1 p1 Hc Hs0 Hsmall Hw Hcall) as (Hsmall1 & Hw1).
    cbn [calls] in H. rewrite Hcall in H. cbn [JS.bind] in H.
    apply (IH e1 p1 e' p' Hc1); try assumption.
    rewrite Forall_forall in *. intros c' Hin. specialize (Hrest c' Hin).
    destruct c'; cbn [fitsSignature] in *; [|exact I..].
    exact (@matchesSignature_flags p p1 _ Fn Fc Fu Hrest).
Qed.

End PoolCapacity.

(** X25. As long as no geometry registered has more position elements than
    [CHUNK_LEN], no positions buffer the pool makes has: a rebuild closes
    the open buffer set before the positions pushed for it would exceed
    [CHUNK_LEN]. *)
Theorem buffer_sets_hold_at_most_CHUNK_LEN_positions :
  forall (big hasNormals hasColors hasUVs quantized : bool) (history : list PoolCall)
         (e e' : Renderer.Env) (p' : SceneVertexBufs.Pool)
         (n : nat) (vb : Renderer.VertexBufs) (buf : Renderer.ArrayBuffer),
    let pool := SceneVertexBufs.create true hasNormals hasColors hasUVs quantized in
    Forall (fitsSignature pool) history ->
    Forall (smallEnough big) history ->
    calls big history (e, pool) = JS.Normal (e', p') ->
    nth_error (SceneVertexBufs.chunks p') n = Some vb ->
    Renderer.vb_positionsBuf vb = Some buf ->
    JS.gt (JS.of_nat (Renderer.length (Renderer.data buf))) (SceneVertexBufs.CHUNK_LEN big)
    = false.
Proof.
  intros big hn hc hu q history e e' p' n vb buf pool Hfit Hsm Hrun Hvb Hbuf.
  assert (Hw : chunksWithin big p').
  { apply (@calls_within big history e pool e' p' (create_consistent hn hc hu q) Hfit Hsm);
      [| |exact Hrun].
    - intros id g gp H. discriminate H.
    - intros m l H. unfold chunkPositions in H. destruct m; discriminate H. }
  rewrite <- numbers_length. apply (Hw n). unfold chunkPositions. rewrite Hvb, Hbuf.
  reflexivity.
Qed.

Lemma sample_buffer_set_holds_at_most_CHUNK_LEN_positions :
  exists vb buf,
    nth_error (SceneVertexBufs.chunks (snd afterSampleHistory)) 0 = Some vb /\
    Renderer.vb_positionsBuf vb = Some buf /\
    JS.gt (JS.of_nat (Renderer.length (Renderer.data buf))) (SceneVertexBufs.CHUNK_LEN false)
    = false.
Proof.
  destruct (nth_error (SceneVertexBufs.chunks (snd afterSampleHistory)) 0) as [vb|] eqn:Evb;
    [|vm_compute in Evb; discriminate Evb].
  destruct (Renderer.vb_positionsBuf vb) as [buf|] eqn:Ebuf;
    [|vm_compute in Evb; injection Evb as <-; discriminate Ebuf].
  exists vb, buf. split; [reflexivity|]. split; [exact Ebuf|].
  apply (@buffer_sets_hold_at_most_CHUNK_LEN_positions
           false false false false false sampleHistory noMessages
           (fst afterSampleHistory) (snd afterSampleHistory) 0 vb buf).
  - exact sampleHistory_fits.
  - unfold sampleHistory.
    repeat (apply Forall_cons;
            [cbn; try exact I; intros gp H; injection H as <-; vm_compute; reflexivity|]).
    apply Forall_nil.
  - vm_compute. reflexivity.
  - exact Evb.
  - exact Ebuf.
Defined.
